(* ===== verification/_CoqProject ===== *)
-Q . S2P
Prelude.v
Arc.v
Crypto.v
WireFormat.v
ConfidentialCtx.v
ConfidentialStore.v
Ethcore.v
Api.v
OasisCore.v
Methods.v
Dispatcher.v
Prefetch.v
Runtime.v
Informant.v
JsonRpc.v
Middleware.v
Metrics.v
Servers.v
GatewayLib.v
Translator.v
PubSub.v
EthFilter.v
EthRpc.v
LogLimits.v
Chain.v
Lookups.v
Submission.v
Subscriptions.v
Heads.v
Polls.v
RpcApis.v
Genesis.v
Playback.v
Gateway.v
Ownership.v
Cli.v
Storage.v
RuntimeStart.v
TestClient.v
