(* ===== verification/Prelude.v ===== *)
(** * Oasis Eth/WASI runtime: a verification library

    ** The program

    The repository holds a runtime that executes Ethereum transactions in
    batches for the Oasis Core platform, and a web3 gateway that offers the
    Ethereum JSON-RPC API on top of it.  A transaction travels through it as
    follows; paths are relative to the root of the repository.

    - A client sends a request to the gateway.  The middleware
      (gateway/src/middleware.rs, with the statistics of
      gateway/src/informant.rs) refuses batches and sessions over their
      limits; an RPC method (gateway/src/impls/) then uses the translator
      (gateway/src/translator.rs), which submits raw transactions to a node
      and reads blocks, transactions, receipts and logs back from it.
    - The node hands a batch of calls to the runtime's dispatcher
      (src/dispatcher.rs).  It opens the batch, decodes and checks every
      call, and executes the calls one at a time (src/methods.rs) on the
      Ethereum state the batch handler (src/block.rs) keeps in the context.
    - A confidential contract reads and writes storage, and receives and
      sends messages, through the confidential context
      (common/src/confidential/).
    - The results and the tags they emit come back to the gateway: the
      broker (gateway/src/pubsub.rs) announces new blocks to the
      subscriptions (impls/eth_pubsub.rs), and the polling filters
      (impls/eth_filter.rs) report them on demand.
    - The gateway's binary (gateway/bin/main.rs) parses its command line and
      starts the servers (gateway/src/run.rs, rpc.rs, servers.rs).
    - The genesis tools (genesis/bin/) make the state of a new chain, from a
      genesis file or from the export of another chain.

    ** The files

    Shared by all components:
    - [Prelude]: outcomes of fallible code with panics told apart from
      errors ([outcome], [stateful] for a method that also changes its
      receiver), machine-width arithmetic with both build profiles, bytes,
      fixed-width values and little-endian integers, and the lemmas,
      hints and tactics on lists and folds the components share;
    - [Arc]: strong and weak references with their counts, the invariant
      [held] and the rules ([ledger]) for programs that create, share and
      drop them.

    Interfaces to code that is not part of the repository.  Each is a class
    of operations, a class of the laws the code relies on, and a concrete
    model which shows that the laws can hold and on which the theorems are
    evaluated:
    - [Crypto]: [Mrae] and [MraeLaws] (authenticated encryption, nonces,
      keys, hashing), [Model];
    - [Ethcore]: [Ethcore] and [EthcoreLaws] (transactions, the Ethereum
      state, bloom filters), [EthModel];
    - [OasisCore]: [OasisCore] and [OasisCoreLaws] (the transaction context
      and CBOR values), [OasisModel];
    - [JsonRpc]: [ParityRpc] and [ParityRpcLaws] (errors and responses of
      the JSON-RPC libraries), [RpcModel]; with the conversions of
      gateway/src/util.rs;
    - [GatewayLib]: [Node] (the client of an Oasis Core node), [EthQueries]
      and [EthQueriesLaws], [QueryModel];
    - and, beside the component that uses them, [EthFilter.PollManagerOps]
      with its laws, [Playback.StateStore] with its laws, [EthRpc.RpcHelpers],
      [Storage.Mkvs], [RuntimeStart.KmClients] and [Metrics.MetricsLib] with
      their laws, and [TestClient.TestLib].

    Interfaces between the components:
    - [Runtime]: [BatchRuntime], what a runtime promises the node about the
      results and tags of a batch; the dispatcher is its instance
      [dispatcher_runtime].
    - [Chain]: a chain of blocks executed by any [BatchRuntime], and a node
      that serves it to the translator: the theorems from the runtime to the
      RPC are proved there against the interface, and in [Lookups] (by hash
      and by place), [Submission] (from a submission to its receipt),
      [Subscriptions] and [Heads] (logs and newHeads subscriptions over a
      run of the broker) and [Polls] (log filters over a sequence of polls).

    The runtime:
    - [WireFormat]: common/src/confidential/crypto.rs, the encrypted payload
      and its parser, [encode_encryption], [split_encrypted_payload];
    - [ConfidentialCtx]: common/src/confidential/confidential_ctx.rs, one
      [stateful] definition per method on the record [ConfidentialCtx], and
      the relation [step] of all its methods with its reachable states;
    - [ConfidentialStore]: the use of the context as storage ([Store],
      [run_ops]) and the plain map it promises ([Plain], [plain_run]);
    - [Api]: api/src/api.rs, common/src/lib.rs and common/src/genesis.rs,
      data, constants and the choice of the genesis specification;
    - [Methods]: src/methods.rs and src/block.rs, [check_tx], [execute_tx],
      [start_batch] and [end_batch] on the record [TxnContext];
    - [Dispatcher]: src/dispatcher.rs, [check_batch] and [execute_batch];
      the abort flag, which another thread sets, is the sequence of the
      values its loads return;
    - [Prefetch]: the [prefetch] feature of src/dispatcher.rs, which is off by
      default;
    - [Storage]: common/src/storage.rs, common/src/parity.rs and the policy
      of keymanager-runtime/src/api.rs;
    - [RuntimeStart]: the initializers of bin/main.rs and of
      keymanager-runtime/src/main.rs;
    - [TestClient]: src/test/client.rs, the test client: one definition per
      method on the record [Client], every batch through [start_batch],
      [end_batch] and the transaction methods over the tree the last one
      left ([on_tree]), and the relation [runs] of any sequence of batches.

    The gateway and the tool:
    - [Informant] and [Middleware]: request statistics and limits.  Every
      read of the clock is an argument;
    - [Metrics]: the metrics of the middleware and of the RPC methods, what a
      call records and the registration of a metric at its first use;
    - [Translator]: gateway/src/translator.rs, over a [Node];
    - [PubSub]: the broker as a fold over the answers of the node at its
      intervals, the notification handler, the tasks it spawns and the
      subscriptions; [World] is the broker with the tasks that have not run
      yet, an [Event] an interval of the broker or the run of any of them;
    - [EthFilter]: the methods of impls/eth_filter.rs, each with the node at
      the moments it is asked;
    - [EthRpc]: the methods of impls/eth.rs, eth_signing.rs, net.rs,
      oasis.rs and web3.rs;
    - [LogLimits]: log queries with a limit, over a node that answers with
      part of what a query selects;
    - [RpcApis]: gateway/src/rpc_apis.rs;
    - [Servers]: gateway/src/servers.rs, and the handler new_ws puts together
      from the two middlewares;
    - [Gateway]: gateway/src/rpc.rs and run.rs;
    - [Ownership]: the same start and shutdown with the objects they share:
      [execute_shared] makes the references [execute] and its callees make,
      [event] is a request or notification that takes or gives back some,
      [shutdown_shared] drops what shutdown drops;
    - [Genesis]: the parser and the schedule of injections and commits of the
      import tool;
    - [Playback]: its main loop on the state tree and the storage node, and
      genesis_init.rs;
    - [Cli]: the declared arguments and the main functions of the gateway and
      of the genesis tools, the metrics thread of gateway/bin/metrics.rs and
      [start] of gateway/src/lib.rs.

    A definition has the name of the function it models where that is free;
    methods of two types with one name are told apart by a prefix or by
    their Module.

    ** What the theorems show

    The runtime. [Dispatcher.execute_batch_in_order] is the refinement of
    the batch execution: without an abort it is the sequence of single
    executions [run_in_order], one result per call, each with the tags of
    its own transaction and none for an error; [abort_cuts_batch] gives the
    result when the flag is raised at any point; [check_batch_reports]
    describes the check-only entry point, [Prefetch.prefetch_transparent]
    the feature of that name. In [Methods], [check_tx_accepts_iff]
    characterises the accepted transactions, [batch_gas_accounting] and
    [batch_executes_once] are the invariants of a whole batch (gas limits,
    running totals, no double execution, no panic), [execute_tx_error_frame]
    says that a failing transaction leaves no trace.

    [Api.production_genesis_is_shadowed] says which genesis a build uses.

    Confidentiality.  [WireFormat.split_iff_encode] is the round trip of the
    wire format in both directions, [split_panics_iff] the exact payloads on
    which the parser fails by a panic.  In [ConfidentialCtx],
    [reachable_invariant] holds of every sequence of method calls from
    [new]; [storage_roundtrip], [storage_integrity],
    [storage_keys_stable], [storage_nonces_distinct] and [session_roundtrip]
    are the promises of the two channels; [activation_restarts_storage_nonce] is where
    the promise on nonces ends; [storage_methods_do_not_panic] is totality.
    [ConfidentialStore.store_refines_map] is the refinement they amount to:
    storage through the context is a map, over any run of any blocks.
    [TestClient.confidential_call_transparent] composes the two ends of a
    session over a whole call: request and answer arrive unchanged.

    The test client.  [TestClient.send_outcome] is what one send does, refused
    or not, [runs_chain] that the batches of a test form one chain of headers,
    and [reads_make_blocks] and [confidential_call_makes_block] that reads and
    calls are such batches too.

    The gateway.  [Translator.logs_complete] shows that a log query loses and
    invents nothing, from the tags the runtime emits (through [Methods]) to
    the sorted answer; [send_raw_transaction_spec] is the submission loop
    with its termination; [receipt_reports_execution],
    [rich_block_positions] and [simulation_runs_in_batch_env] relate what
    the gateway reports to what the runtime did.
    [LogLimits.limited_logs] is what remains of it under a limit.
    [PubSub.broker_announces_once] is the guarantee of the broker,
    [heads_all_or_none] what a missing block does to the headers of a range,
    [tasks_drain] that the spawned tasks come to an end,
    [unsubscribe_subscribe] the lifetime of a subscription;
    [EthFilter.log_polls_complete] is the guarantee of a log filter over any
    sequence of polls, [block_filter_repeats_last] gives what any sequence of
    polls of a block filter reports, and [log_filter_idle_poll_fails] says
    when a poll fails. [Metrics.calls_are_counted] and [ws_metrics] say that
    the metrics count what they are named for. [Middleware.rate_limit_holds] and [batch_limit]
    are what the limits promise, over any interleaving of sessions;
    [Servers.calls_per_second] what the two together promise of a session.
    [no_limit_above_ceiling] and the theorems of [Informant] are their
    bounds, [Informant.stats_keep_types] that no counter leaves its type.
    [EthRpc] relates the block methods to each other and the call
    methods to the simulation; [RpcApis.api_set_last_mention] specifies the
    option syntax, [Gateway.wait_for_drop_terminates] the wait of the
    shutdown. [Ownership.shutdown_waits_for_tasks] says for what it waits:
    for the tasks that keep the translator alive and nothing else, after any
    run of the gateway; [execute_leaves_no_reference] that a failed start
    leaves nothing behind.

    From the runtime to the RPC.  [Chain.logs_end_to_end] and
    [receipt_end_to_end] compose the dispatcher, a node and the translator:
    what a client reads are the logs and results of the executions of the
    runtime.  [Lookups.lookups_agree] says that the lookups of a transaction
    agree with each other and with the block that lists it,
    [Submission.submitted_is_reported] that the hash a submission returns is
    that of an execution the receipt then reports, and
    [Subscriptions.logs_follow_chain] that a logs subscription delivers the
    logs of the executions, none twice and all of them once no task is
    pending, over any run and in whatever order the executor runs the tasks,
    and [Heads.heads_follow_executions] that a newHeads subscription delivers
    the headers of the executed blocks in the same sense;
    [Polls.polls_follow_chain] says the same of the polls of a log filter.

    The command line.  [Cli.parse_uint_iff] are the integers it takes,
    [bad_value_stops_gateway] what a malformed one does,
    [accepted_panics_iff] that an accepted command line makes [main] panic
    only by an interval of the broker its timer refuses, as
    [zero_interval_panics] shows of the interval 0, and [default_gateway] what
    the gateway does by default.

    The tools.  [Genesis.parse_export_roundtrip] is the round trip of the
    streaming parser, [import_commits_in_batches] the order of injections
    and commits; [Playback.storage_follows_import] is the invariant of the
    storage node during an import, and [playback_implements_import] what a
    successful import leaves, on the schedule of [Genesis].

    Some theorems record a behaviour that departs from what a comment says
    or from what the code means to do: [split_panics_iff],
    [activation_restarts_storage_nonce], [block_filter_repeats_last],
    [log_filter_idle_poll_fails], [rich_block_positions] and [lookups_agree],
    [limited_logs] with its example [limit_is_on_transactions],
    [production_genesis_is_shadowed], [confidential_call_makes_block],
    [transaction_index_wraps], [stale_slot_is_counted], [zero_interval_panics].

    ** Integers, bounds and fuel

    Machine integers are [Z] with their width written out ([u64_add],
    [u16_saturating_add], [as_u32] and the like); [profile] selects between
    the checked arithmetic of a debug build and the wrap-around of a release
    build where a sum can overflow.  An arithmetic or slicing panic is the
    outcome [Panic], different from an error [Err].

    Loops without a structural argument have fuel.  The submission loop runs
    over its retry counter: MAX_RETRIES is 5, so six submissions.  The
    parser of the genesis tool recurses on fuel one above the length of the
    input, and every account it yields consumes input
    ([Genesis.collect_fuel], [Playback.inject_stream_fuel]).  The shutdown wait
    reads the clock once per turn of at least a second; 301 turns reach its
    300 seconds, which [wait_for_drop_terminates] proves.  Dropping references
    has as fuel the number of references there are, each of which is dropped
    at most once ([Arc.release_counted]).  Theorems about
    such loops state that the result is produced.

    ** What is not modelled

    - Logging, and the durations the timers observe.
    - Threads and locks: an operation that holds a lock is one step, and a
      future is evaluated in the order the code chains it.  What may change
      between two steps (the clock, the abort flag, the node's answers) is an
      argument at each of its reads.
    - The scheduling of the executor: the tasks of the notification handler
      run in any order, and whether a task ever runs is the executor's.  A
      task is one step that asks its own node for every block it reads.
    - The process after a panic, which aborts it in a release build
      ([panic = "abort"]): a run ends in [Panic], and what the memory then
      holds is not described.
    - The command line parser, file and network I/O, and the tests under
      tests/, which run fixed contract bytecode in the EVM.
    - The references a request's future shares beside those it takes when it
      starts; a task of the executor ends as a whole.
    - Everything behind the interfaces above: the EVM, cryptography, CBOR,
      consensus and storage.

    ** This file

    The rest of this file is the prelude itself. *)

From Stdlib Require Import ZArith Lia Strings.Byte.
From Stdlib Require String.
From stdpp Require Import base list gmap strings option pretty sorting.

#[global] Set Default Goal Selector "!".

(** ** Results, errors and panics *)

(** The result of a Rust call: [Ok] and [Err] are the two variants of
    [Result], [Panic] is an unwinding or aborting panic (the release profile
    of the workspace sets [panic = "abort"]). *)
Inductive outcome (E A : Type) : Type :=
| Ok (a : A)
| Err (e : E)
| Panic.
Arguments Ok {E A} a.
Arguments Err {E A} e.
Arguments Panic {E A}.

#[global] Instance outcome_eq_decision {E A} `{EqDecision E, EqDecision A} :
  EqDecision (outcome E A).
Proof. solve_decision. Defined.

Definition obind {E A B} (m : outcome E A) (f : A -> outcome E B) : outcome E B :=
  match m with
  | Ok a => f a
  | Err e => Err e
  | Panic => Panic
  end.

(** [Result::map_err]. *)
Definition map_err {E F A} (f : E -> F) (m : outcome E A) : outcome F A :=
  match m with
  | Ok a => Ok a
  | Err e => Err (f e)
  | Panic => Panic
  end.

(** [Result::map]. *)
Definition omap_ok {E A B} (f : A -> B) (m : outcome E A) : outcome E B :=
  match m with
  | Ok a => Ok (f a)
  | Err e => Err e
  | Panic => Panic
  end.

(** [Option::expect] and [Option::unwrap]. *)
Definition expect {E A} (o : option A) : outcome E A :=
  match o with
  | Some a => Ok a
  | None => Panic
  end.

(** [Result::expect] and [Result::unwrap]. *)
Definition unwrap_ok {E F A} (m : outcome F A) : outcome E A :=
  match m with
  | Ok a => Ok a
  | Err _ => Panic
  | Panic => Panic
  end.

(** [Option::ok_or]. *)
Definition ok_or {E A} (o : option A) (e : E) : outcome E A :=
  match o with
  | Some a => Ok a
  | None => Err e
  end.

(** A closure run on the value of an option, when there is one. *)
Definition option_traverse {E A B} (f : A -> outcome E B) (o : option A)
  : outcome E (option B) :=
  match o with
  | Some a => match f a with Ok b => Ok (Some b) | Err e => Err e | Panic => Panic end
  | None => Ok None
  end.

Definition is_ok {E A} (m : outcome E A) : bool :=
  match m with
  | Ok _ => true
  | _ => false
  end.

Definition panics {E A} (m : outcome E A) : bool :=
  match m with
  | Panic => true
  | _ => false
  end.

(** The [Result] a closure returned, as a value to keep: only a panic still
    propagates. *)
Definition as_result {F E A} (m : outcome E A) : outcome F (E + A) :=
  match m with
  | Ok a => Ok (inr a)
  | Err e => Ok (inl e)
  | Panic => Panic
  end.

(** A fallible function on every element, up to the first failure. *)
Fixpoint omapM {E A B} (f : A -> outcome E B) (l : list A) : outcome E (list B) :=
  match l with
  | [] => Ok []
  | a :: l' => obind (f a) (fun b => obind (omapM f l') (fun bs => Ok (b :: bs)))
  end.

(** [Vec::sort_by] on an integer key, which is stable. *)
Fixpoint insert_by {A} (key : A -> Z) (a : A) (l : list A) : list A :=
  match l with
  | [] => [a]
  | b :: l' => if (key a <=? key b)%Z then a :: l else b :: insert_by key a l'
  end.

Fixpoint sort_by {A} (key : A -> Z) (l : list A) : list A :=
  match l with
  | [] => []
  | a :: l' => insert_by key a (sort_by key l')
  end.

(** [Result::unwrap_or]. *)
Definition from_ok {E A} (d : A) (m : outcome E A) : A :=
  match m with
  | Ok a => a
  | _ => d
  end.

Declare Scope outcome_scope.
Delimit Scope outcome_scope with outcome.

Notation "'let?' x ':=' m 'in' k" := (obind m (fun x => k))
  (at level 10, x pattern, m at level 100, k at level 200,
   format "'[v' 'let?'  x  ':='  m  'in' '/' k ']'") : outcome_scope.

#[global] Open Scope outcome_scope.

(** ** Calls that mutate a state *)

(** A method with a [&mut self] receiver: the new state is returned on every
    path, since an [Err] leaves behind whatever was already assigned. *)
Definition stateful (S E A : Type) : Type := S -> outcome E A * S.

Definition sret {S E A} (a : A) : stateful S E A := fun s => (Ok a, s).

Definition sbind {S E A B} (m : stateful S E A) (f : A -> stateful S E B) : stateful S E B :=
  fun s =>
    match m s with
    | (Ok a, s') => f a s'
    | (Err e, s') => (Err e, s')
    | (Panic, s') => (Panic, s')
    end.

(** A computation that does not touch the state. *)
Definition slift {S E A} (m : outcome E A) : stateful S E A := fun s => (m, s).

Definition sget {S E} : stateful S E S := fun s => (Ok s, s).

Definition smodify {S E} (f : S -> S) : stateful S E unit := fun s => (Ok tt, f s).

(** The value of a call whose receiver is dropped afterwards. *)
Definition run {S E A} (m : stateful S E A) (s : S) : outcome E A := (m s).1.

Notation "'let!' x ':=' m 'in' k" := (sbind m (fun x => k))
  (at level 10, x pattern, m at level 100, k at level 200,
   format "'[v' 'let!'  x  ':='  m  'in' '/' k ']'") : outcome_scope.

(** ** Bytes *)

Abbreviation bytes := (list byte).

#[global] Instance byte_eq_decision : EqDecision byte := Byte.byte_eq_dec.

#[global] Instance byte_countable : Countable byte :=
  inj_countable Byte.to_N Byte.of_N Byte.of_to_N.

Definition str (s : string) : bytes := String.list_byte_of_string s.

Definition byte_of_Z (z : Z) : byte :=
  match Byte.of_N (Z.to_N (z mod 256)) with
  | Some b => b
  | None => x00
  end.

Definition Z_of_byte (b : byte) : Z := Z.of_N (Byte.to_N b).

(** [u64::to_le_bytes] and [u64::from_le_bytes], for any width of [n] bytes. *)
Fixpoint to_le_bytes (n : nat) (z : Z) : bytes :=
  match n with
  | O => []
  | S n' => byte_of_Z z :: to_le_bytes n' (z / 256)
  end.

Fixpoint from_le_bytes (l : bytes) : Z :=
  match l with
  | [] => 0
  | b :: l' => Z_of_byte b + 256 * from_le_bytes l'
  end.

(** [ethereum_types]: an [Address] is 20 bytes and an [H256] 32 bytes, both
    compared as byte strings; a [U256] is a [Z] in [0, 2^256). *)
Abbreviation Address := bytes (only parsing).
Abbreviation H256 := bytes (only parsing).
Abbreviation U256 := Z (only parsing).

(** ** Machine integers *)

Definition u64_modulus : Z := 2 ^ 64.
Definition u256_modulus : Z := 2 ^ 256.
Definition u256_max : Z := u256_modulus - 1.

(** The two build profiles differ on [+] of machine integers: an overflow
    panics in a debug build and wraps around in a release build. *)
Inductive profile : Set := Debug | Release.

#[global] Instance profile_eq_decision : EqDecision profile.
Proof. solve_decision. Defined.

Definition u64_add {E} (p : profile) (a b : Z) : outcome E Z :=
  if (a + b <? u64_modulus)%Z then Ok (a + b)%Z
  else match p with
       | Debug => Panic
       | Release => Ok ((a + b) mod u64_modulus)%Z
       end.

(** [usize] is 64 bits wide on the targets of the runtime and the gateway. *)
Definition usize_add {E} : profile -> Z -> Z -> outcome E Z := u64_add.

(** [len] of a vector, as the [usize] the code computes with. *)
Definition len {A} (l : list A) : Z := Z.of_nat (length l).

(** [&data[a..b]]: panics when [a > b] or [b > data.len()]. *)
Definition slice {E A} (data : list A) (a b : Z) : outcome E (list A) :=
  if (0 <=? a)%Z && (a <=? b)%Z && (b <=? len data)%Z
  then Ok (take (Z.to_nat (b - a)) (drop (Z.to_nat a) data))
  else Panic.

(** ** Lemmas shared by the components *)

Create HintDb rt.

(** [simplify_outcome] decomposes a hypothesis that says a chain of fallible
    calls succeeded into the successes of its calls. *)
Lemma obind_Ok {E A B} (m : outcome E A) (f : A -> outcome E B) b :
  obind m f = Ok b <-> exists a, m = Ok a /\ f a = Ok b.
Proof.
  destruct m; simpl; (split; [intros H|intros (x & H & Hf)]); try done.
  - by exists a.
  - by simplify_eq.
Qed.

Lemma sbind_Ok {S E A B} (m : stateful S E A) (f : A -> stateful S E B) s b s' :
  sbind m f s = (Ok b, s') <-> exists a s1, m s = (Ok a, s1) /\ f a s1 = (Ok b, s').
Proof.
  unfold sbind. destruct (m s) as [[a|e|] s1];
    (split; [intros H|intros (x & s2 & H & Hf)]); try done.
  - by exists a, s1.
  - by simplify_eq.
Qed.

Lemma run_sbind {S E A B} (m : stateful S E A) (f : A -> stateful S E B) s :
  run (sbind m f) s =
  match m s with
  | (Ok a, s') => run (f a) s'
  | (Err e, _) => Err e
  | (Panic, _) => Panic
  end.
Proof. unfold run, sbind. by destruct (m s) as [[]]. Qed.

Lemma map_err_Ok {E F A} (f : E -> F) (m : outcome E A) a :
  map_err f m = Ok a <-> m = Ok a.
Proof. destruct m; simpl; split; intros H; by simplify_eq. Qed.

Lemma map_err_panics {E F A} (f : E -> F) (m : outcome E A) :
  panics (map_err f m) = panics m.
Proof. by destruct m. Qed.

Lemma obind_panics {E A B} (m : outcome E A) (f : A -> outcome E B) :
  panics (obind m f) =
  panics m || match m with Ok a => panics (f a) | _ => false end.
Proof. by destruct m. Qed.

Lemma stateful_is_ok {S E A} (m : stateful S E A) s d :
  is_ok (m s).1 = true -> m s = (Ok (from_ok d (m s).1), (m s).2).
Proof. by destruct (m s) as [[] ?]. Qed.

Ltac simplify_outcome :=
  repeat match goal with
  | H : obind _ _ = Ok _ |- _ => apply obind_Ok in H as (? & ? & ?)
  | H : map_err _ _ = Ok _ |- _ => apply map_err_Ok in H
  | H : sbind _ _ _ = (Ok _, _) |- _ => apply sbind_Ok in H as (? & ? & ? & ?)
  | _ => progress simplify_eq/=
  end.

(** Case analysis on the condition of an [if] or the scrutinee of a [match]
    in the goal or in a hypothesis, closing the branches that contradict the
    hypotheses. *)
Ltac split_cases :=
  repeat (case_match; simplify_eq/=; try done).

(** Calls that panic are those without a value. *)
Lemma omapM_expect {E A B} (f : A -> option B) l :
  omapM (fun a => @expect E B (f a)) l =
  match mapM f l with Some bs => Ok bs | None => Panic end.
Proof.
  induction l as [|a l IH]; [done|]. cbn [omapM mapM]. rewrite IH.
  destruct (f a); cbn; [|done]. by destruct (mapM f l).
Qed.

Lemma omapM_fmap {E A B} (f : A -> outcome E B) (g : A -> B) l :
  (forall a, a ∈ l -> f a = Ok (g a)) -> omapM f l = Ok (g <$> l).
Proof.
  intros Hf. induction l as [|a l IH]; simpl; [done|].
  rewrite Hf by left. rewrite IH; [done|]. intros b Hb. apply Hf. by right.
Qed.

Lemma filter_none {A} (P : A -> Prop) `{forall x, Decision (P x)} (l : list A) :
  (forall x, x ∈ l -> ~ P x) -> filter P l = [].
Proof.
  intros Hn. induction l as [|a l IH]; [done|]. rewrite filter_cons, decide_False.
  - apply IH. intros x Hx. apply Hn. by right.
  - apply Hn. by left.
Qed.

(** [omap] (the code's [filter_map]): the [j]-th element lands at the number
    of elements kept before it. *)
Lemma filter_all {A} (P : A -> Prop) `{forall x, Decision (P x)} (l : list A) :
  (forall x, x ∈ l -> P x) -> filter P l = l.
Proof.
  intros Hall. induction l as [|a l IH]; [done|]. rewrite filter_cons, decide_True.
  - f_equal. apply IH. intros x Hx. apply Hall. by right.
  - apply Hall. by left.
Qed.

Lemma omap_id_fmap {A B} (f : A -> option B) (l : list A) : omap id (f <$> l) = omap f l.
Proof.
  induction l as [|a l IH]; [done|]. cbn [fmap list_fmap omap list_omap id].
  destruct (f a); [f_equal|]; apply IH.
Qed.

Lemma omap_app {A B} (f : A -> option B) (l k : list A) : omap f (l ++ k) = omap f l ++ omap f k.
Proof.
  induction l as [|a l IH]; [done|]. cbn [app omap list_omap].
  destruct (f a); [cbn [app]; f_equal|]; apply IH.
Qed.

Lemma omap_lookup_kept {A B} (f : A -> option B) (l : list A) j a b :
  l !! j = Some a -> f a = Some b -> omap f l !! length (omap f (take j l)) = Some b.
Proof.
  intros Hj Hf.
  assert (omap f l = omap f (take j l) ++ b :: omap f (drop (S j) l)) as ->.
  { transitivity (omap f (take j l ++ a :: drop (S j) l)).
    - by rewrite take_drop_middle.
    - rewrite omap_app. cbn [omap list_omap]. by rewrite Hf. }
  by rewrite lookup_app_r, Nat.sub_diag by done.
Qed.

Lemma length_omap_le {A B} (f : A -> option B) (l : list A) : length (omap f l) <= length l.
Proof.
  induction l as [|a l IH]; [done|]. cbn [omap list_omap]. destruct (f a); simpl in *; lia.
Qed.

Lemma length_omap_all {A B} (f : A -> option B) (l : list A) :
  length (omap f l) = length l <-> Forall (fun a => is_Some (f a)) l.
Proof.
  induction l as [|a l IH]; [done|]. rewrite Forall_cons. cbn [omap list_omap].
  destruct (f a) as [b|] eqn:Hf; cbn [length].
  - rewrite <- IH. split; [intros; split; [by eexists|lia]|intros []; lia].
  - pose proof (length_omap_le f l) as Hle. simpl in Hle.
    split; [intros; lia|intros [[? ?] _]; done].
Qed.

(** The sort permutes, sorts, and keeps elements of the same key in order. *)
Lemma insert_by_Permutation {A} (key : A -> Z) a l : insert_by key a l ≡ₚ a :: l.
Proof.
  induction l as [|b l IH]; simpl; [done|]. case_match; [done|].
  rewrite IH. apply Permutation_swap.
Qed.

Lemma sort_by_Permutation {A} (key : A -> Z) l : sort_by key l ≡ₚ l.
Proof. induction l as [|a l IH]; simpl; [done|]. by rewrite insert_by_Permutation, IH. Qed.

Lemma insert_by_sorted {A} (key : A -> Z) a l :
  Sorted (fun x y => key x <= key y)%Z l ->
  Sorted (fun x y => key x <= key y)%Z (insert_by key a l).
Proof.
  induction 1 as [|b l Hs IH Hd]; simpl; [by repeat constructor|].
  case_match eqn:Hc.
  - apply Z.leb_le in Hc. by repeat constructor.
  - apply Z.leb_gt in Hc. constructor; [done|].
    destruct l as [|c l]; simpl; [constructor; lia|].
    case_match; constructor; [lia|by inversion Hd].
Qed.

Lemma sort_by_sorted {A} (key : A -> Z) l : Sorted (fun x y => key x <= key y)%Z (sort_by key l).
Proof. induction l; simpl; [constructor|by apply insert_by_sorted]. Qed.

Lemma sort_by_stable {A} (key : A -> Z) k l :
  filter (fun x => key x = k) (sort_by key l) = filter (fun x => key x = k) l.
Proof.
  assert (forall a l, filter (fun x => key x = k) (insert_by key a l) =
                      filter (fun x => key x = k) (a :: l)) as Hins.
  { intros a m. induction m as [|b m IH]; simpl; [done|]. case_match eqn:Hc; [done|].
    apply Z.leb_gt in Hc. rewrite filter_cons, IH, !filter_cons.
    destruct (decide (key b = k)), (decide (key a = k)); try done; lia. }
  induction l as [|a l IH]; simpl; [done|]. rewrite Hins, !filter_cons. by rewrite IH.
Qed.

Lemma Z_of_byte_bound b : (0 <= Z_of_byte b < 256)%Z.
Proof.
  unfold Z_of_byte. split; [lia|]. pose proof (Byte.to_N_bounded b). lia.
Qed.

Lemma Z_of_byte_of_Z z : Z_of_byte (byte_of_Z z) = (z mod 256)%Z.
Proof.
  unfold Z_of_byte, byte_of_Z.
  pose proof (Z.mod_pos_bound z 256 ltac:(lia)) as Hz.
  destruct (Byte.of_N (Z.to_N (z mod 256))) as [b|] eqn:Hb.
  - apply Byte.to_of_N in Hb. rewrite Hb. lia.
  - apply Byte.of_N_None_iff in Hb. lia.
Qed.

Lemma byte_of_Z_of_byte b : byte_of_Z (Z_of_byte b) = b.
Proof.
  unfold byte_of_Z. rewrite Z.mod_small by apply Z_of_byte_bound.
  unfold Z_of_byte. by rewrite N2Z.id, Byte.of_to_N.
Qed.

Lemma length_to_le_bytes n z : length (to_le_bytes n z) = n.
Proof. revert z. induction n; intros z; simpl; [done|]. by rewrite IHn. Qed.

Lemma from_le_bytes_bound l : (0 <= from_le_bytes l < 256 ^ len l)%Z.
Proof.
  unfold len. induction l as [|b l IH]; simpl from_le_bytes; simpl length.
  - simpl. lia.
  - rewrite Nat2Z.inj_succ, Z.pow_succ_r by lia.
    pose proof (Z_of_byte_bound b). nia.
Qed.

Lemma from_to_le_bytes n z :
  (0 <= z < 256 ^ Z.of_nat n)%Z -> from_le_bytes (to_le_bytes n z) = z.
Proof.
  revert z. induction n as [|n IH]; intros z Hz; simpl.
  - change (256 ^ Z.of_nat 0)%Z with 1%Z in Hz. lia.
  - rewrite Nat2Z.inj_succ, Z.pow_succ_r in Hz by lia.
    rewrite Z_of_byte_of_Z, IH.
    + pose proof (Z.div_mod z 256). lia.
    + split; [apply Z.div_pos; lia|]. apply Z.div_lt_upper_bound; lia.
Qed.

Lemma to_from_le_bytes l : to_le_bytes (length l) (from_le_bytes l) = l.
Proof.
  induction l as [|b l IH]; simpl; [done|].
  pose proof (Z_of_byte_bound b).
  f_equal.
  - rewrite <- (byte_of_Z_of_byte b) at 2. unfold byte_of_Z.
    by rewrite (Z.mul_comm 256), Z_mod_plus_full.
  - by rewrite (Z.mul_comm 256), Z.div_add, Z.div_small, Z.add_0_l by lia.
Qed.

Lemma len_nonneg {A} (l : list A) : (0 <= len l)%Z.
Proof. unfold len. lia. Qed.

Lemma len_app {A} (l k : list A) : len (l ++ k) = (len l + len k)%Z.
Proof. unfold len. rewrite length_app. lia. Qed.

(** The middle part of a concatenation is the slice between its bounds. *)
Lemma slice_app {E A} (l m r : list A) (a b : Z) :
  a = len l -> b = (len l + len m)%Z ->
  slice (l ++ m ++ r) a b = @Ok E (list A) m.
Proof.
  intros -> ->. unfold slice. rewrite !len_app.
  pose proof (len_nonneg l). pose proof (len_nonneg m). pose proof (len_nonneg r).
  rewrite (proj2 (Z.leb_le 0 (len l))), (proj2 (Z.leb_le (len l) (len l + len m))),
    (proj2 (Z.leb_le (len l + len m) _)) by lia.
  simpl. f_equal. unfold len.
  rewrite Nat2Z.id, drop_app_length.
  replace (Z.to_nat _) with (length m) by lia.
  apply take_app_length.
Qed.

Lemma slice_Ok {E A} (l : list A) a b x :
  slice l a b = @Ok E (list A) x ->
  (0 <= a <= b)%Z /\ (b <= len l)%Z /\ len x = (b - a)%Z /\
  x = take (Z.to_nat (b - a)) (drop (Z.to_nat a) l).
Proof.
  unfold slice. intros Hs. case_match eqn:Hc; [|done]. simplify_eq.
  apply andb_prop in Hc as [[H1 H2]%andb_prop H3].
  apply Z.leb_le in H1, H2, H3. split_and!; [lia|lia|lia| |done].
  unfold len in *. rewrite length_take, length_drop. lia.
Qed.

Lemma slice_in_bounds {E A} (l : list A) a b :
  (0 <= a <= b)%Z -> (b <= len l)%Z ->
  slice l a b = @Ok E (list A) (take (Z.to_nat (b - a)) (drop (Z.to_nat a) l)).
Proof.
  intros Ha Hb. unfold slice.
  rewrite (proj2 (Z.leb_le 0 a)), (proj2 (Z.leb_le a b)), (proj2 (Z.leb_le b _)) by lia.
  done.
Qed.

#[export] Hint Resolve len_nonneg Z_of_byte_bound from_le_bytes_bound : rt.
#[export] Hint Rewrite @len_app length_to_le_bytes : rt.

(** Concatenated lists have no duplicates when a key of the elements tells
    the lists apart. *)
Lemma NoDup_concat_keyed {A B K} (f : A -> list B) (ka : A -> K) (kb : B -> K) (l : list A) :
  NoDup (ka <$> l) -> (forall a, a ∈ l -> NoDup (f a)) ->
  (forall a b, a ∈ l -> b ∈ f a -> kb b = ka a) ->
  NoDup (concat (f <$> l)).
Proof.
  intros Hk Hf Hb. induction l as [|a l IH]; cbn [fmap list_fmap concat] in *; [constructor|].
  apply NoDup_cons in Hk as [Ha Hk]. apply NoDup_app. split_and!.
  - apply Hf. by left.
  - intros b Hba Hbl. apply Ha. rewrite list_elem_of_In, in_concat in Hbl.
    destruct Hbl as (bs & Hbs & Hbin). apply list_elem_of_In, list_elem_of_fmap in Hbs as (a' & -> & Ha').
    apply list_elem_of_In in Hbin. apply list_elem_of_fmap. exists a'. split; [|done].
    rewrite <- (Hb a b), <- (Hb a' b); [done|by right|done|by left|done].
  - apply IH; [done| |].
    + intros a' Ha'. apply Hf. by right.
    + intros a' b Ha'. apply Hb. by right.
Qed.

Lemma fmap_concat {A B C} (f : A -> list B) (g : B -> C) (l : list A) :
  g <$> concat (f <$> l) = concat ((fun a => g <$> f a) <$> l).
Proof.
  induction l as [|a l IH]; cbn [fmap list_fmap concat]; [done|]. by rewrite fmap_app, <- IH.
Qed.

(** The elements kept by [omap] under their positions. *)
Lemma elem_of_omap_imap {A B} (g : nat -> A -> option B) (l : list A) b :
  b ∈ omap id (imap g l) <-> exists i a, l !! i = Some a /\ g i a = Some b.
Proof.
  rewrite list_elem_of_omap. split.
  - intros (o & Ho & Hb). apply list_elem_of_lookup in Ho as (i & Hi).
    rewrite list_lookup_imap in Hi. destruct (l !! i) as [a|] eqn:Ha; [|done].
    injection Hi as <-. by exists i, a.
  - intros (i & a & Hi & Hb). exists (Some b). split; [|done].
    apply list_elem_of_lookup. exists i. by rewrite list_lookup_imap, Hi, <- Hb.
Qed.

Lemma NoDup_omap_imap {A B} (g : nat -> A -> option B) (pos : B -> nat) (l : list A) :
  (forall i a b, g i a = Some b -> pos b = i) ->
  NoDup (pos <$> omap id (imap g l)).
Proof.
  revert g pos. induction l as [|a l IH]; intros g pos Hg; [constructor|].
  cbn [imap omap list_omap id]. specialize (IH (g ∘ S) (pred ∘ pos)).
  assert (NoDup (pos <$> omap id (imap (g ∘ S) l))) as Htail.
  { apply (NoDup_fmap_1 pred). rewrite <- list_fmap_compose. apply IH.
    intros i x b Hb. unfold compose. by rewrite (Hg (S i) x b Hb). }
  destruct (g 0 a) as [b|] eqn:Hb; [|done]. cbn [fmap list_fmap]. constructor; [|done].
  rewrite (Hg 0 a b Hb). intros Hin. apply list_elem_of_fmap in Hin as (b' & H0 & Hb').
  apply elem_of_omap_imap in Hb' as (i & x & _ & Hx). apply Hg in Hx. lia.
Qed.

Lemma NoDup_imap {A B} (f : nat -> A -> B) (pos : B -> nat) (l : list A) :
  (forall i a, pos (f i a) = i) -> NoDup (imap f l).
Proof.
  intros Hf. apply NoDup_alt. intros i j b Hi Hj. rewrite list_lookup_imap in Hi, Hj.
  destruct (l !! i) as [a|]; [|done]. destruct (l !! j) as [a'|]; [|done].
  cbn in Hi, Hj. injection Hi as <-. injection Hj as Hj. by rewrite <- (Hf i a), <- (Hf j a'), Hj.
Qed.

Lemma NoDup_fmap_filter {A B} (f : A -> B) (P : A -> Prop) `{forall x, Decision (P x)} (l : list A) :
  NoDup (f <$> l) -> NoDup (f <$> filter P l).
Proof.
  intros Hn. induction l as [|a l IH]; [done|]. rewrite filter_cons.
  apply NoDup_cons in Hn as [Ha Hn]. case_decide; [|by apply IH].
  cbn [fmap list_fmap]. constructor; [|by apply IH]. intros Hin. apply Ha.
  apply list_elem_of_fmap in Hin as (b & -> & Hb). apply list_elem_of_filter in Hb as [_ Hb].
  by apply list_elem_of_fmap_2.
Qed.
