(* ===== verification/Arc.v ===== *)
(** * Strong and weak references ([std::sync::Arc], [std::sync::Weak])

    The reference counts behind the objects the gateway's threads share.  An
    object keeps its number of strong references and the strong references it
    holds itself; dropping the last reference of an object drops those, and
    so on.  [held] is the invariant that the counts are right for a list of
    handles held outside; [drop_all_frees] that dropping handles frees exactly
    the objects the remaining ones do not reach.  What an object is, is a
    parameter. *)

From Stdlib Require Import Lia.
From stdpp Require Import base numbers relations gmap option list.
From S2P Require Import Prelude.

Section arc.
Context {Kind : Type}.

Record Object := { kind : Kind; strong : nat; owned : list nat }.

(** Addresses are not used again. *)
Record Memory := { objects : gmap nat Object; next : nat }.

Definition memory_new : Memory := {| objects := ∅; next := 0 |}.

Definition set_strong (n : nat) (o : Object) : Object :=
  {| kind := kind o; strong := n; owned := owned o |}.

(** ** Operations *)

(** [Arc::new] of a value that holds the references [owned]. *)
Definition arc_new {Er} (kind : Kind) (owned : list nat) : stateful Memory Er nat := fun mem =>
  (Ok (next mem),
   {| objects := <[next mem := {| kind := kind; strong := 1; owned := owned |}]> (objects mem);
      next := S (next mem) |}).

(** [Arc::clone], through a reference; there is no object behind a dangling
    one. *)
Definition arc_clone {Er} (l : nat) : stateful Memory Er nat := fun mem =>
  match objects mem !! l with
  | Some o =>
      (Ok l, {| objects := <[l := set_strong (S (strong o)) o]> (objects mem); next := next mem |})
  | None => (Panic, mem)
  end.

Fixpoint clone_all {Er} (ls : list nat) : stateful Memory Er (list nat) :=
  match ls with
  | [] => sret []
  | l :: ls' =>
      let! l := arc_clone l in
      let! ls' := clone_all ls' in
      sret (l :: ls')
  end.

(** [Weak::upgrade] succeeds. *)
Definition upgrades (l : nat) (mem : Memory) : bool := bool_decide (is_Some (objects mem !! l)).

(** The drops of the references [work], in order: the last reference of an
    object drops the references the object holds. *)
Fixpoint release (fuel : nat) (work : list nat) (h : gmap nat Object) : option (gmap nat Object) :=
  match work with
  | [] => Some h
  | l :: work' =>
      match fuel with
      | O => None
      | S fuel =>
          match h !! l with
          | None => None
          | Some o =>
              match strong o with
              | S (S n) => release fuel work' (<[l := set_strong (S n) o]> h)
              | _ => release fuel (owned o ++ work') (delete l h)
              end
          end
      end
  end.

(** The references objects hold. *)
Definition refs (h : gmap nat Object) : list nat := map_to_list h ≫= (owned ∘ snd).

(** Each reference is dropped at most once. *)
Definition drop_all {Er} (work : list nat) : stateful Memory Er unit := fun mem =>
  match release (length work + length (refs (objects mem))) work (objects mem) with
  | Some h => (Ok tt, {| objects := h; next := next mem |})
  | None => (Panic, mem)
  end.

(** ** Specification *)

(** How often [l] is among the references [ls]. *)
Definition occurrences (l : nat) (ls : list nat) : nat := length (filter (l =.) ls).

Definition count (h : gmap nat Object) (l : nat) : nat := from_option strong 0 (h !! l).

(** The counts are those of the references held by the objects and by the
    handles [roots], and an object only holds references to older ones. *)
Record counted (roots : list nat) (h : gmap nat Object) : Prop := {
  counted_strong l : count h l = occurrences l (roots ++ refs h);
  counted_alive l o : h !! l = Some o -> strong o <> 0;
  counted_older l o k : h !! l = Some o -> k ∈ owned o -> k < l
}.

Record held (roots : list nat) (mem : Memory) : Prop := {
  held_counted : counted roots (objects mem);
  held_fresh l : is_Some (objects mem !! l) -> l < next mem
}.

Definition owns (h : gmap nat Object) (l k : nat) : Prop := exists o, h !! l = Some o /\ k ∈ owned o.

(** A handle to [l] keeps [k] alive. *)
Definition reaches (h : gmap nat Object) : nat -> nat -> Prop := rtc (owns h).

(** The objects of [h'] are objects of [h], up to their counts. *)
Definition shrinks (h h' : gmap nat Object) : Prop :=
  forall l o', h' !! l = Some o' ->
    exists o, h !! l = Some o /\ kind o' = kind o /\ owned o' = owned o.

(** ** Lemmas *)

#[export] Instance occurrences_perm l : Proper ((≡ₚ) ==> (=)) (occurrences l).
Proof. intros ls ls' H. unfold occurrences. by rewrite H. Qed.

Lemma occurrences_app l ls ls' : occurrences l (ls ++ ls') = occurrences l ls + occurrences l ls'.
Proof. unfold occurrences. by rewrite filter_app, length_app. Qed.

Lemma occurrences_cons l k ls :
  occurrences l (k :: ls) = (if decide (l = k) then 1 else 0) + occurrences l ls.
Proof. unfold occurrences. rewrite filter_cons. by destruct (decide (l = k)). Qed.

Lemma occurrences_elem l ls : 0 < occurrences l ls <-> l ∈ ls.
Proof.
  induction ls as [|k ls IH]; [split; [cbn; lia|intros H; by apply elem_of_nil in H]|].
  rewrite occurrences_cons, elem_of_cons, <- IH. destruct (decide (l = k)).
  - split; [by left|lia].
  - split; [right; lia|]. intros [?|?]; [done|lia].
Qed.

Lemma refs_insert h l o : h !! l = None -> refs (<[l := o]> h) ≡ₚ owned o ++ refs h.
Proof. intros Hl. unfold refs. by rewrite map_to_list_insert. Qed.

Lemma refs_delete h l o : h !! l = Some o -> refs h ≡ₚ owned o ++ refs (delete l h).
Proof. intros Hl. unfold refs. by rewrite <- (map_to_list_delete h l o). Qed.

Lemma refs_recount h l o n : h !! l = Some o -> refs (<[l := set_strong n o]> h) ≡ₚ refs h.
Proof.
  intros Hl. rewrite <- insert_delete_eq, refs_insert by apply lookup_delete_eq.
  by rewrite (refs_delete h l o Hl).
Qed.

Lemma count_insert h l o k : count (<[l := o]> h) k = if decide (k = l) then strong o else count h k.
Proof.
  unfold count. destruct (decide (k = l)) as [->|]; [by rewrite lookup_insert_eq|].
  by rewrite lookup_insert_ne.
Qed.

Lemma count_delete h l k : count (delete l h) k = if decide (k = l) then 0 else count h k.
Proof.
  unfold count. destruct (decide (k = l)) as [->|]; [by rewrite lookup_delete_eq|].
  by rewrite lookup_delete_ne.
Qed.

Lemma count_lookup h l o : h !! l = Some o -> count h l = strong o.
Proof. unfold count. by intros ->. Qed.

Lemma counted_perm roots roots' h : roots ≡ₚ roots' -> counted roots h -> counted roots' h.
Proof. intros Hp [Hc ? ?]. constructor; [|done..]. intros l. by rewrite Hc, Hp. Qed.

Lemma held_perm roots roots' mem : roots ≡ₚ roots' -> held roots mem -> held roots' mem.
Proof. intros Hp [Hc ?]. constructor; [by eapply counted_perm|done]. Qed.

(** No reference dangles. *)
Lemma counted_lookup roots h l : counted roots h -> l ∈ roots ++ refs h -> is_Some (h !! l).
Proof.
  intros Hc Hl. apply occurrences_elem in Hl. rewrite <- (counted_strong _ _ Hc) in Hl.
  unfold count in Hl. destruct (h !! l); [done|]. cbn in Hl. lia.
Qed.

Lemma counted_root roots h l : counted roots h -> l ∈ roots -> is_Some (h !! l).
Proof. intros Hc Hl. eapply counted_lookup; [done|]. apply elem_of_app. by left. Qed.

Lemma elem_of_refs h k : k ∈ refs h <-> exists l, owns h l k.
Proof.
  unfold refs, owns. rewrite list_elem_of_bind. split.
  - intros ([l o] & Hk & Hl). apply elem_of_map_to_list in Hl. by exists l, o.
  - intros (l & o & Hl & Hk). exists (l, o). split; [done|]. by apply elem_of_map_to_list.
Qed.

(** *** Each operation keeps the counts *)

Lemma counted_recount roots h l o n :
  h !! l = Some o -> counted roots h -> n <> 0 ->
  forall roots', (forall k, occurrences k roots' + (if decide (k = l) then strong o else 0) =
                            occurrences k roots + (if decide (k = l) then n else 0)) ->
  counted roots' (<[l := set_strong n o]> h).
Proof.
  intros Hl [Hc Ha Ho] Hn roots' Hr. constructor.
  - intros k. rewrite count_insert, occurrences_app, (refs_recount _ _ _ _ Hl).
    specialize (Hc k). rewrite occurrences_app in Hc. specialize (Hr k).
    destruct (decide (k = l)) as [->|]; [|lia]. rewrite (count_lookup _ _ _ Hl) in Hc. cbn. lia.
  - intros k o' Hk. apply lookup_insert_Some in Hk as [[<- <-]|[_ Hk]]; [done|]. by apply (Ha k).
  - intros k o' j Hk. apply lookup_insert_Some in Hk as [[<- <-]|[_ Hk]]; [by apply (Ho _ _ _ Hl)|by apply (Ho _ _ _ Hk)].
Qed.

Lemma counted_new roots h l kd own :
  h !! l = None -> counted (own ++ roots) h -> (forall k, is_Some (h !! k) -> k < l) ->
  counted (l :: roots) (<[l := {| kind := kd; strong := 1; owned := own |}]> h).
Proof.
  intros Hl Hc Hf. pose proof Hc as [Hs Ha Ho]. constructor.
  - intros k. rewrite count_insert, (occurrences_app _ (l :: roots)), occurrences_cons.
    rewrite refs_insert by done. cbn [strong owned]. rewrite occurrences_app.
    specialize (Hs k). rewrite !occurrences_app in Hs. destruct (decide (k = l)) as [->|]; [|lia].
    unfold count in Hs. rewrite Hl in Hs. cbn in Hs. lia.
  - intros k o Hk. apply lookup_insert_Some in Hk as [[<- <-]|[_ Hk]]; [done|]. by apply (Ha k).
  - intros k o j Hk Hj. apply lookup_insert_Some in Hk as [[<- <-]|[_ Hk]]; [|by eapply Ho].
    apply Hf. eapply counted_root; [done|]. apply elem_of_app. by left.
Qed.

Lemma counted_freed roots h l o :
  h !! l = Some o -> strong o = 1 -> counted (l :: roots) h ->
  counted (owned o ++ roots) (delete l h).
Proof.
  intros Hl H1 [Hs Ha Ho]. constructor.
  - intros k. rewrite count_delete. specialize (Hs k).
    rewrite (refs_delete _ _ _ Hl), occurrences_app, occurrences_cons, occurrences_app in Hs.
    rewrite !occurrences_app. destruct (decide (k = l)) as [->|]; [|lia].
    rewrite (count_lookup _ _ _ Hl) in Hs. lia.
  - intros k o' Hk. apply lookup_delete_Some in Hk as [_ Hk]. by apply (Ha k).
  - intros k o' j Hk. apply lookup_delete_Some in Hk as [_ Hk]. by apply Ho.
Qed.

Lemma shrinks_refl h : shrinks h h.
Proof. intros l o Hl. by exists o. Qed.

Lemma shrinks_trans h h' h'' : shrinks h h' -> shrinks h' h'' -> shrinks h h''.
Proof.
  intros H1 H2 l o Hl. destruct (H2 _ _ Hl) as (o' & Hl' & ? & ?).
  destruct (H1 _ _ Hl') as (o'' & ? & ? & ?). exists o''. split; [done|]. split; congruence.
Qed.

Lemma shrinks_recount h l o n : h !! l = Some o -> shrinks h (<[l := set_strong n o]> h).
Proof.
  intros Hl k o' Hk. apply lookup_insert_Some in Hk as [[<- <-]|[_ Hk]]; [by exists o|by exists o'].
Qed.

Lemma shrinks_delete h l : shrinks h (delete l h).
Proof. intros k o Hk. apply lookup_delete_Some in Hk as [_ Hk]. by exists o. Qed.

Lemma shrinks_owns h h' l k : shrinks h h' -> owns h' l k -> owns h l k.
Proof. intros Hs (o & Hl & Hk). destruct (Hs _ _ Hl) as (o' & ? & _ & Hw). exists o'. by rewrite <- Hw. Qed.

(** Drops end, within the references there are, and keep the counts. *)
Lemma release_counted fuel work roots h :
  counted (work ++ roots) h -> length work + length (refs h) <= fuel ->
  exists h', release fuel work h = Some h' /\ counted roots h' /\ shrinks h h'.
Proof.
  revert work h. induction fuel as [|fuel IH]; intros work h Hc Hf;
    (destruct work as [|l work]; cbn [release app] in *; [exists h; split_and!; [done|done|apply shrinks_refl]|]).
  { cbn in Hf. lia. }
  destruct (counted_root _ _ l Hc (list_elem_of_here _ _)) as [o Hl]. rewrite Hl.
  pose proof (counted_alive _ _ Hc _ _ Hl) as Hn0. cbn [length] in Hf.
  destruct (strong o) as [|[|n]] eqn:Hn; [done| |].
  - destruct (IH (owned o ++ work) (delete l h)) as (h' & Hr & Hc' & Hs).
    + rewrite <- app_assoc. by apply counted_freed.
    + rewrite (refs_delete _ _ _ Hl) in Hf. rewrite !length_app in *. lia.
    + exists h'. split_and!; [done|done|]. eapply shrinks_trans; [apply shrinks_delete|done].
  - destruct (IH work (<[l := set_strong (S n) o]> h)) as (h' & Hr & Hc' & Hs).
    + eapply counted_recount; [done|done|done|]. intros k. rewrite occurrences_cons, Hn.
      destruct (decide (k = l)); lia.
    + rewrite (refs_recount _ _ _ _ Hl). lia.
    + exists h'. split_and!; [done|done|]. eapply shrinks_trans; [by apply shrinks_recount|done].
Qed.

(** What is alive is what the handles reach. *)
Lemma alive_iff_reached roots h l :
  counted roots h -> is_Some (h !! l) <-> exists r, r ∈ roots /\ reaches h r l.
Proof.
  intros Hc. split.
  - assert (exists bound, forall k, is_Some (h !! k) -> k < bound) as [bound Hb].
    { exists (S (max_list (elements (dom h)))). intros k Hk.
      apply Nat.lt_succ_r, max_list_elem_of_le, elem_of_elements, elem_of_dom, Hk. }
    intros Hl. remember (bound - l) as m eqn:Hm. revert l Hm Hl.
    induction (lt_wf m) as [m _ IH]. intros l -> Hl. pose proof Hl as [o Ho].
    assert (l ∈ roots ++ refs h) as Hin.
    { apply occurrences_elem. rewrite <- (counted_strong _ _ Hc), (count_lookup _ _ _ Ho).
      pose proof (counted_alive _ _ Hc _ _ Ho). lia. }
    apply elem_of_app in Hin as [Hin|Hin]; [exists l; by split; [|apply rtc_refl]|].
    apply elem_of_refs in Hin as (k & Hk). pose proof Hk as (ok & Hok & Hlk).
    pose proof (counted_older _ _ Hc _ _ _ Hok Hlk). pose proof (Hb k (mk_is_Some _ _ Hok)).
    destruct (IH (bound - k)) with (l := k) as (r & Hr & Hrk); [lia|done|by eexists|].
    exists r. split; [done|]. by eapply rtc_r.
  - intros (r & Hr & Hrl). pose proof (counted_root _ _ _ Hc Hr) as Halive. clear Hr.
    induction Hrl as [l|l k j Hlk _ IH]; [done|]. apply IH.
    eapply counted_lookup; [done|]. apply elem_of_app. right. apply elem_of_refs. by exists l.
Qed.

(** A handle that is kept reaches what it reached. *)
Lemma reaches_kept roots h h' r l :
  counted roots h' -> (forall k o o', h !! k = Some o -> h' !! k = Some o' -> owned o' = owned o) ->
  r ∈ roots -> reaches h r l -> reaches h' r l.
Proof.
  intros Hc Hs Hr Hrl. pose proof (counted_root _ _ _ Hc Hr) as Halive. clear Hr.
  induction Hrl as [l|l k j (o & Ho & Hk) _ IH]; [apply rtc_refl|].
  assert (owns h' l k) as Hlk'.
  { destruct Halive as [o' Ho']. exists o'. by rewrite (Hs _ _ _ Ho Ho'). }
  eapply rtc_l; [done|]. apply IH. eapply counted_lookup; [done|]. apply elem_of_app. right.
  apply elem_of_refs. by exists l.
Qed.

Lemma shrinks_reaches roots h h' r l :
  counted roots h' -> shrinks h h' -> r ∈ roots -> reaches h r l <-> reaches h' r l.
Proof.
  intros Hc Hs Hr. split.
  - apply (reaches_kept roots); [done| |done]. intros k o o' Ho Ho'.
    destruct (Hs _ _ Ho') as (o1 & Ho1 & _ & Hw). congruence.
  - apply rtc_subrel. intros a b. by apply shrinks_owns.
Qed.

(** Dropping handles frees exactly what the remaining ones do not reach. *)
Lemma drop_all_frees {Er} work roots mem :
  held (work ++ roots) mem -> exists mem', drop_all (Er:=Er) work mem = (Ok tt, mem') /\
    held roots mem' /\ shrinks (objects mem) (objects mem') /\
    forall l, upgrades l mem' = true <-> exists r, r ∈ roots /\ reaches (objects mem) r l.
Proof.
  intros [Hc Hf]. unfold drop_all.
  destruct (release_counted _ work roots _ Hc (le_n _)) as (h' & Hr & Hc' & Hs). rewrite Hr.
  eexists. split_and!; [reflexivity| |done|].
  - split; [done|]. intros l [o Hl]. apply Hf. destruct (Hs _ _ Hl) as (o' & ? & _). by exists o'.
  - intros l. unfold upgrades. rewrite bool_decide_eq_true. cbn [objects].
    rewrite (alive_iff_reached _ _ _ Hc'). split; intros (r & Hr' & Hrl); exists r;
      (split; [done|]); by eapply (shrinks_reaches _ _ _ _ _ Hc' Hs Hr').
Qed.

(** With no handle left, nothing is. *)
Lemma held_nil mem : held [] mem -> objects mem = ∅.
Proof.
  intros [Hc _]. apply map_empty. intros l. destruct (objects mem !! l) as [o|] eqn:Hl; [|done].
  destruct (proj1 (alive_iff_reached _ _ _ Hc) (mk_is_Some _ _ Hl)) as (r & Hr & _).
  by apply elem_of_nil in Hr.
Qed.

(** *** Programs *)

(** An address keeps standing for one object. *)
Definition evolves (mem mem' : Memory) : Prop :=
  next mem <= next mem' /\
  forall l o', l < next mem -> objects mem' !! l = Some o' ->
    exists o, objects mem !! l = Some o /\ kind o' = kind o /\ owned o' = owned o.

#[export] Instance evolves_preorder : PreOrder evolves.
Proof.
  split.
  - intros mem. split; [done|]. intros l o _ Hl. by exists o.
  - intros m1 m2 m3 [Hn1 H1] [Hn2 H2]. split; [lia|]. intros l o3 Hl Ho3.
    destruct (H2 l o3) as (o2 & Ho2 & ? & ?); [lia|done|].
    destruct (H1 l o2) as (o1 & Ho1 & ? & ?); [done|done|].
    exists o1. split; [done|]. split; congruence.
Qed.

Lemma shrinks_evolves mem mem' :
  next mem' = next mem -> shrinks (objects mem) (objects mem') -> evolves mem mem'.
Proof. intros Hn Hs. split; [by rewrite Hn|]. intros l o' _ Hl. by apply Hs. Qed.

Lemma evolves_reaches roots roots' mem mem' r l :
  held roots mem -> held roots' mem' -> evolves mem mem' -> r ∈ roots' ->
  reaches (objects mem) r l -> reaches (objects mem') r l.
Proof.
  intros [_ Hf] [Hc _] [_ He] Hr. apply (reaches_kept roots'); [done| |done]. intros k o o' Ho Ho'.
  destruct (He k o') as (o1 & Ho1 & _ & Hw); [apply Hf; by eexists|done|]. congruence.
Qed.

Definition evolving {Er A} (m : stateful Memory Er A) : Prop := forall mem, evolves mem (m mem).2.

Lemma evolving_ret {Er A} (a : A) : evolving (Er:=Er) (sret a).
Proof. intros mem. reflexivity. Qed.

Lemma evolving_slift {Er A} (m : outcome Er A) : evolving (slift m).
Proof. intros mem. reflexivity. Qed.

Lemma evolving_bind {Er A B} (m : stateful Memory Er A) (f : A -> stateful Memory Er B) :
  evolving m -> (forall a, evolving (f a)) -> evolving (sbind m f).
Proof.
  intros Hm Hf mem. specialize (Hm mem). unfold sbind.
  destruct (m mem) as [[a| |] mem1]; [|done|done]. etransitivity; [done|apply Hf].
Qed.

Lemma evolving_new {Er} kd own : evolving (arc_new (Er:=Er) kd own).
Proof.
  intros mem. split; cbn; [lia|]. intros l o' Hlt Hl. rewrite lookup_insert_ne in Hl by lia.
  by exists o'.
Qed.

Lemma evolving_clone {Er} l : evolving (arc_clone (Er:=Er) l).
Proof.
  intros mem. unfold arc_clone. destruct (objects mem !! l) as [o|] eqn:Hl; [|done].
  apply shrinks_evolves; [done|]. by apply shrinks_recount.
Qed.

Lemma release_shrinks fuel work h h' : release fuel work h = Some h' -> shrinks h h'.
Proof.
  revert work h. induction fuel as [|fuel IH]; intros [|l work] h Hr; cbn [release] in Hr;
    try (injection Hr as <-; apply shrinks_refl); [done|].
  destruct (h !! l) as [o|] eqn:Hl; [|done]. destruct (strong o) as [|[|n]].
  1,2: eapply shrinks_trans; [apply shrinks_delete|by eapply IH].
  eapply shrinks_trans; [by apply shrinks_recount|by eapply IH].
Qed.

Lemma evolving_drop {Er} work : evolving (drop_all (Er:=Er) work).
Proof.
  intros mem. unfold drop_all. destruct (release _ _ _) as [h|] eqn:Hr; [|done].
  apply shrinks_evolves; [done|]. by eapply release_shrinks.
Qed.

Lemma evolving_clone_all {Er} ls : evolving (clone_all (Er:=Er) ls).
Proof.
  induction ls as [|l ls IH]; cbn [clone_all]; [apply evolving_ret|].
  apply evolving_bind; [apply evolving_clone|]. intros l'.
  apply evolving_bind; [done|]. intros ls'. apply evolving_ret.
Qed.

(** From the handles [give] the program leaves those of its result. *)
Definition ledger {Er A} (give : list nat) (m : stateful Memory Er A) (take : A -> list nat) : Prop :=
  forall roots mem, held (give ++ roots) mem ->
    exists a mem', m mem = (Ok a, mem') /\ held (take a ++ roots) mem'.

Lemma ledger_new {Er} kd own rest give :
  give ≡ₚ own ++ rest -> ledger give (arc_new (Er:=Er) kd own) (fun l => l :: rest).
Proof.
  intros Hp roots mem [Hc Hf]%(held_perm _ (own ++ rest ++ roots)); [|by rewrite Hp, app_assoc].
  assert (objects mem !! next mem = None) as Hnone.
  { apply eq_None_not_Some. intros Hs%Hf. lia. }
  eexists _, _. split; [reflexivity|]. split; cbn [objects next].
  - by apply counted_new.
  - intros l [o Hl]. apply lookup_insert_Some in Hl as [[<- _]|[_ Hl]]; [lia|].
    assert (l < next mem); [|lia]. apply Hf. by eexists.
Qed.

(** Any living object can be shared further. *)
Lemma held_clone {Er} roots mem l :
  held roots mem -> upgrades l mem = true -> exists mem', arc_clone (Er:=Er) l mem = (Ok l, mem') /\
    held (l :: roots) mem' /\
    forall k, upgrades k mem = true -> upgrades k mem' = true.
Proof.
  intros [Hc Hf] Hl. apply bool_decide_eq_true in Hl as [o Hl]. unfold arc_clone. rewrite Hl.
  eexists. split; [reflexivity|]. split_and!; [split|]; cbn [objects next].
  - eapply counted_recount; [done|done|done|]. intros k. rewrite occurrences_cons.
    destruct (decide (k = l)); lia.
  - intros k [o' Hk]. apply lookup_insert_Some in Hk as [[<- _]|[_ Hk]]; apply Hf; by eexists.
  - intros k. unfold upgrades. rewrite !bool_decide_eq_true. cbn [objects].
    rewrite lookup_insert_is_Some. destruct (decide (l = k)); tauto.
Qed.

Lemma arc_clone_Ok {Er} l mem k mem' : arc_clone (Er:=Er) l mem = (Ok k, mem') -> k = l.
Proof. unfold arc_clone. destruct (objects mem !! l); congruence. Qed.

Lemma held_clone_all {Er} roots mem ls :
  held roots mem -> forallb (fun l => upgrades l mem) ls = true ->
  exists mem', clone_all (Er:=Er) ls mem = (Ok ls, mem') /\ held (ls ++ roots) mem'.
Proof.
  revert roots mem. induction ls as [|l ls IH]; intros roots mem Hh Hl.
  { exists mem. by split_and!. }
  cbn [forallb] in Hl. apply andb_prop in Hl as [Hl Hls]. cbn [clone_all].
  destruct (held_clone (Er:=Er) _ _ _ Hh Hl) as (mem1 & H1 & Hh1 & Hu).
  destruct (IH _ _ Hh1) as (mem2 & H2 & Hh2).
  { apply forallb_forall. intros k Hk. apply Hu. by apply (proj1 (forallb_forall _ _) Hls). }
  exists mem2. unfold sbind, sret. rewrite H1, H2. split; [done|].
  eapply held_perm; [|done]. by rewrite <- Permutation_middle.
Qed.

Lemma ledger_drop {Er} work rest give :
  give ≡ₚ work ++ rest -> ledger give (drop_all (Er:=Er) work) (fun _ => rest).
Proof.
  intros Hp roots mem Hh%(held_perm _ (work ++ rest ++ roots)); [|by rewrite Hp, app_assoc].
  destruct (drop_all_frees (Er:=Er) _ _ _ Hh) as (mem' & Hd & Hh' & _). by exists tt, mem'.
Qed.

Lemma ledger_ret {Er A} (a : A) give take : give ≡ₚ take a -> ledger (Er:=Er) give (sret a) take.
Proof.
  intros Hp roots mem Hh. exists a, mem. split; [done|].
  eapply held_perm; [|done]. by rewrite Hp.
Qed.

(** Handles a program does not take stay. *)
Lemma ledger_frame {Er A} (m : stateful Memory Er A) give own keep mid take :
  give ≡ₚ own ++ keep -> (forall a, mid a ++ keep ≡ₚ take a) ->
  ledger own m mid -> ledger give m take.
Proof.
  intros Hp Ht Hm roots mem Hh%(held_perm _ (own ++ keep ++ roots)); [|by rewrite Hp, app_assoc].
  destruct (Hm _ _ Hh) as (a & mem1 & H1 & Hh1). exists a, mem1. split; [done|].
  eapply held_perm; [|done]. by rewrite <- Ht, app_assoc.
Qed.

(** A call within a program, beside handles it does not take. *)
Lemma ledger_bind {Er A B} (m : stateful Memory Er A) (f : A -> stateful Memory Er B)
    give own keep mid take :
  give ≡ₚ own ++ keep -> ledger own m mid ->
  (forall a, ledger (mid a ++ keep) (f a) take) -> ledger give (sbind m f) take.
Proof.
  intros Hp Hm Hf roots mem Hh.
  destruct (ledger_frame m give own keep mid (fun a => mid a ++ keep) Hp (fun _ => reflexivity _) Hm _ _ Hh)
    as (a & mem1 & H1 & Hh1).
  destruct (Hf a roots mem1 Hh1) as (b & mem2 & H2 & Hh2).
  exists b, mem2. unfold sbind. by rewrite H1.
Qed.

Lemma ledger_bind_all {Er A B} (m : stateful Memory Er A) (f : A -> stateful Memory Er B)
    give mid take :
  ledger give m mid -> (forall a, ledger (mid a) (f a) take) -> ledger give (sbind m f) take.
Proof.
  intros Hm Hf. apply (ledger_bind m f give give [] mid take).
  - by rewrite app_nil_r.
  - done.
  - intros a. rewrite app_nil_r. apply Hf.
Qed.

Lemma ledger_clone_bind {Er B} l give (f : nat -> stateful Memory Er B) take :
  l ∈ give -> ledger (l :: give) (f l) take -> ledger give (sbind (arc_clone l) f) take.
Proof.
  intros Hl Hf roots mem Hh. destruct (held_clone (Er:=Er) _ mem l Hh) as (mem1 & H1 & Hh1 & _).
  { apply bool_decide_eq_true. eapply counted_root; [apply Hh|]. apply elem_of_app. by left. }
  destruct (Hf roots mem1 Hh1) as (b & mem2 & H2 & Hh2).
  exists b, mem2. unfold sbind. by rewrite H1.
Qed.

(** Sharing a reference a new object has just taken over. *)
Lemma ledger_new_clone_bind {Er B} kd own k keep give
    (f : nat -> nat -> stateful Memory Er B) take :
  give ≡ₚ own ++ keep -> k ∈ own -> (forall l, ledger (k :: l :: keep) (f l k) take) ->
  ledger give (let! l := arc_new kd own in let! k := arc_clone k in f l k) take.
Proof.
  intros Hp Hk Hf roots mem Hh.
  destruct (ledger_new (Er:=Er) kd own keep give Hp roots mem Hh) as (l & mem1 & H1 & Hh1).
  pose proof H1 as [= <- <-].
  destruct (held_clone (Er:=Er) _ _ k Hh1) as (mem2 & H2 & Hh2 & _).
  { apply bool_decide_eq_true. eapply counted_lookup; [apply Hh1|]. apply elem_of_app. right.
    apply elem_of_refs. exists (next mem). eexists. split; [apply lookup_insert_eq|done]. }
  destruct (Hf (next mem) roots mem2 Hh2) as (b & mem3 & H3 & Hh3).
  exists b, mem3. unfold sbind. by rewrite H1, H2.
Qed.

End arc.
Arguments Object : clear implicits.
Arguments Memory : clear implicits.

Create HintDb arc.
#[export] Hint Resolve evolving_ret evolving_slift evolving_bind evolving_new evolving_clone evolving_drop : arc.
