(* ===== verification/Crypto.v ===== *)
(** * The cryptographic library the runtime calls

    [common/src/confidential/] is written against the [mrae] module of
    [oasis_core_runtime], the key types of [oasis_core_keymanager_client] and
    [keccak_hash], none of which is part of this repository.  The class
    [Mrae] holds the operations the code calls, [MraeLaws] the documented
    behaviour it relies on.  [Model] is one concrete implementation of both:
    it has no cryptographic strength and is there to show that the laws can
    be met and to evaluate the theorems on concrete inputs. *)

From Stdlib Require Import ZArith Lia Strings.Byte.
From stdpp Require Import base list strings option.
From S2P Require Import Prelude.

(** ** Operations *)

Class Mrae := {
  PublicKey : Type;
  PrivateKey : Type;
  Nonce : Type;
  DeoxysII : Type;
  (** [PublicKey::len()], [NONCE_SIZE], the nonce's [TAG_SIZE], [KEY_SIZE]
      and Deoxys-II's [TAG_SIZE]. *)
  pk_len : nat;
  nonce_size : nat;
  nonce_tag_size : nat;
  key_size : nat;
  tag_size : nat;
  (** [PublicKey::from(&[u8])], [PublicKey::as_ref] and [Default::default]. *)
  pk_from : bytes -> PublicKey;
  pk_as_ref : PublicKey -> bytes;
  pk_default : PublicKey;
  (** [Nonce::new], the [Deref] to the current value and [Nonce::increment]. *)
  nonce_new : bytes -> Nonce;
  nonce_value : Nonce -> bytes;
  nonce_increment : Nonce -> outcome string unit * Nonce;
  (** [deoxysii::box_seal] and [deoxysii::box_open]: nonce, text, additional
      data, the peer's public key, the own private key. *)
  box_seal : bytes -> bytes -> bytes -> PublicKey -> PrivateKey -> outcome string bytes;
  box_open : bytes -> bytes -> bytes -> PublicKey -> PrivateKey -> outcome string bytes;
  (** [DeoxysII::new], [seal] and [open]: nonce, text, additional data. *)
  d2_new : bytes -> DeoxysII;
  d2_seal : DeoxysII -> bytes -> bytes -> bytes -> bytes;
  d2_open : DeoxysII -> bytes -> bytes -> bytes -> outcome string bytes;
  (** [Hash::digest_bytes] and [keccak]. *)
  digest_bytes : bytes -> bytes;
  keccak : bytes -> bytes
}.

(** ** What the code relies on *)

Class MraeLaws (M : Mrae) := {
  (** Keys and nonces are fixed-size byte arrays. *)
  pk_as_ref_length p : length (pk_as_ref p) = pk_len;
  pk_from_as_ref p : pk_from (pk_as_ref p) = p;
  pk_as_ref_from b : length b = pk_len -> pk_as_ref (pk_from b) = b;
  nonce_value_length n : length (nonce_value n) = nonce_size;
  nonce_value_new b : length b = nonce_size -> nonce_value (nonce_new b) = b;
  nonce_tag_size_le : nonce_tag_size <= nonce_size;
  key_material_small : pk_len + nonce_size <= 1024;
  digest_bytes_length b : nonce_tag_size <= length (digest_bytes b);
  (** A nonce is a start value and the number of increments since; it refuses
      to be incremented before its value would repeat. *)
  nonce_start : Nonce -> bytes;
  nonce_count : Nonce -> Z;
  nonce_ok : Nonce -> Prop;
  nonce_new_ok b : length b = nonce_size ->
    nonce_ok (nonce_new b) /\ nonce_start (nonce_new b) = b /\ nonce_count (nonce_new b) = 0%Z;
  nonce_increment_ok n n' : nonce_ok n -> nonce_increment n = (Ok tt, n') ->
    nonce_ok n' /\ nonce_start n' = nonce_start n /\ nonce_count n' = (nonce_count n + 1)%Z;
  nonce_increment_panics n : panics (nonce_increment n).1 = false;
  nonce_value_inj n m : nonce_ok n -> nonce_ok m -> nonce_start n = nonce_start m ->
    nonce_value n = nonce_value m -> nonce_count n = nonce_count m;
  (** The authenticated box opens under the mirrored pair of keys. *)
  public_of : PrivateKey -> PublicKey;
  box_seal_panics n p a pk sk : panics (box_seal n p a pk sk) = false;
  box_open_panics n c a pk sk : panics (box_open n c a pk sk) = false;
  box_open_seal n p a c sk1 sk2 :
    box_seal n p a (public_of sk2) sk1 = Ok c ->
    box_open n c a (public_of sk1) sk2 = Ok p;
  (** Deoxys-II is deterministic and authenticated: [open] inverts [seal],
      accepts nothing else, and a sealed text is longer by the tag. *)
  d2_open_seal k n p a : d2_open k n (d2_seal k n p a) a = Ok p;
  d2_open_sound k n c a p : d2_open k n c a = Ok p -> c = d2_seal k n p a;
  d2_open_panics k n c a : panics (d2_open k n c a) = false;
  d2_seal_length k n p a : length (d2_seal k n p a) = length p + tag_size
}.

#[export] Hint Resolve pk_as_ref_length nonce_value_length nonce_tag_size_le
  digest_bytes_length : rt.

(** ** A concrete implementation *)

Module Model.

(** A weighted checksum stands for the hash and the authentication tag. *)
Fixpoint checksum (i : Z) (b : bytes) : Z :=
  match b with
  | [] => i
  | x :: b' => (i + 1) * (Z_of_byte x + 1) + checksum (i + 1) b'
  end.

Definition hash (n : nat) (b : bytes) : bytes := to_le_bytes n (checksum 0 b).

Definition fixed (n : nat) : Type := dsig (fun b : bytes => length b = n).

Definition raw {n} (f : fixed n) : bytes := proj1_sig f.

Program Definition fixed_zero (n : nat) : fixed n := dexist (replicate n x00) _.
Next Obligation. intros n. apply length_replicate. Qed.

Definition fixed_from (n : nat) (b : bytes) : fixed n :=
  match decide (length b = n) with
  | left H => dexist b H
  | right _ => fixed_zero n
  end.

Record nonce := { start : fixed 15; count : Z }.

Definition nonce_bytes (n : nonce) : bytes :=
  let s := raw (start n) in
  take 11 s ++ to_le_bytes 4 ((from_le_bytes (drop 11 s) + count n) mod 2 ^ 32).

Definition increment (n : nonce) : outcome string unit * nonce :=
  if (count n + 1 <? 2 ^ 32)%Z
  then (Ok tt, {| start := start n; count := count n + 1 |})
  else (Err "nonce exhausted"%string, n).

Definition shared (pk sk : fixed 32) : bytes :=
  to_le_bytes 33 (from_le_bytes (raw pk) + from_le_bytes (raw sk)).

Definition seal (k n p a : bytes) : bytes := p ++ hash 16 (k ++ n ++ p ++ a).

Definition open (k n c a : bytes) : outcome string bytes :=
  let p := take (length c - 16) c in
  if decide (c = seal k n p a) then Ok p else Err "tag mismatch"%string.

#[local] Instance ops : Mrae := {|
  PublicKey := fixed 32;
  PrivateKey := fixed 32;
  Nonce := nonce;
  DeoxysII := bytes;
  pk_len := 32;
  nonce_size := 15;
  nonce_tag_size := 11;
  key_size := 32;
  tag_size := 16;
  pk_from := fixed_from 32;
  pk_as_ref := fun p => raw p;
  pk_default := fixed_zero 32;
  nonce_new := fun b => {| start := fixed_from 15 b; count := 0 |};
  nonce_value := nonce_bytes;
  nonce_increment := increment;
  box_seal := fun n p a pk sk => Ok (seal (shared pk sk) n p a);
  box_open := fun n c a pk sk => open (shared pk sk) n c a;
  d2_new := fun k => k;
  d2_seal := seal;
  d2_open := open;
  digest_bytes := hash 32;
  keccak := hash 32
|}.

Lemma fixed_length n (f : fixed n) : length (raw f) = n.
Proof. apply (proj2_dsig f). Qed.

Lemma fixed_from_proj n (b : bytes) : length b = n -> raw (fixed_from n b) = b.
Proof. intros Hb. unfold fixed_from. by case_match. Qed.

Lemma fixed_from_of n (f : fixed n) : fixed_from n (raw f) = f.
Proof. apply dsig_eq. apply fixed_from_proj, fixed_length. Qed.

Lemma length_hash n b : length (hash n b) = n.
Proof. apply length_to_le_bytes. Qed.

Lemma open_seal k n p a : open k n (seal k n p a) a = Ok p.
Proof.
  unfold open, seal. rewrite length_app, length_hash.
  replace (length p + 16 - 16) with (length p) by lia.
  rewrite take_app_length. by rewrite decide_True.
Qed.

Lemma open_sound k n c a p : open k n c a = Ok p -> c = seal k n p a.
Proof. unfold open. case_decide; naive_solver. Qed.

Lemma shared_comm (pk sk : fixed 32) : shared pk sk = shared sk pk.
Proof. unfold shared. by rewrite Z.add_comm. Qed.

Lemma nonce_bytes_length n : length (nonce_bytes n) = 15.
Proof.
  unfold nonce_bytes. rewrite length_app, length_take, length_to_le_bytes, fixed_length.
  done.
Qed.

Lemma counter_bound (s : fixed 15) : (0 <= from_le_bytes (drop 11 (raw s)) < 2 ^ 32)%Z.
Proof.
  pose proof (from_le_bytes_bound (drop 11 (raw s))) as H.
  unfold len in H. rewrite length_drop, fixed_length in H. exact H.
Qed.

Lemma nonce_bytes_inj n m :
  (0 <= count n < 2 ^ 32)%Z -> (0 <= count m < 2 ^ 32)%Z -> start n = start m ->
  nonce_bytes n = nonce_bytes m -> count n = count m.
Proof.
  destruct n as [s i], m as [s' j]. simpl. intros Hi Hj -> H.
  apply app_inv_head in H. apply (f_equal from_le_bytes) in H.
  pose proof (counter_bound s') as Hs. revert Hs H. cbn [start count].
  generalize (from_le_bytes (drop 11 (raw s'))). intros c Hc H.
  change (256 ^ Z.of_nat 4)%Z with (2 ^ 32)%Z in *.
  rewrite !from_to_le_bytes in H by (apply Z.mod_pos_bound; lia).
  pose proof (Z.div_mod (c + i) (2 ^ 32) ltac:(lia)).
  pose proof (Z.div_mod (c + j) (2 ^ 32) ltac:(lia)).
  assert (0 <= (c + i) / 2 ^ 32 < 2)%Z by
    (split; [apply Z.div_pos|apply Z.div_lt_upper_bound]; lia).
  assert (0 <= (c + j) / 2 ^ 32 < 2)%Z by
    (split; [apply Z.div_pos|apply Z.div_lt_upper_bound]; lia).
  lia.
Qed.

#[local] Program Instance laws : MraeLaws ops := {|
  nonce_start := fun n => raw (start n);
  nonce_count := count;
  nonce_ok := fun n => (0 <= count n < 2 ^ 32)%Z;
  public_of := fun sk => sk
|}.
Next Obligation. apply fixed_length. Qed.
Next Obligation. apply fixed_from_of. Qed.
Next Obligation. intros b Hb. by apply fixed_from_proj. Qed.
Next Obligation. apply nonce_bytes_length. Qed.
Next Obligation.
  intros b Hb. cbn [nonce_new nonce_value ops]. unfold nonce_bytes.
  cbn [start count]. rewrite fixed_from_proj by done.
  rewrite Z.add_0_r, Z.mod_small.
  - rewrite <- (take_drop 11 b) at 3. f_equal.
    etransitivity; [|apply to_from_le_bytes]. f_equal. by rewrite length_drop, Hb.
  - rewrite <- (fixed_from_proj 15 b) by done. apply counter_bound.
Qed.
Next Obligation. simpl. lia. Qed.
Next Obligation. simpl. lia. Qed.
Next Obligation. intros b. change (11 <= length (hash 32 b)). rewrite length_hash. lia. Qed.
Next Obligation.
  intros b Hb. simpl. split; [lia|]. split; [by apply fixed_from_proj|done].
Qed.
Next Obligation.
  intros n n' Hn. simpl. unfold increment. case_match eqn:Hc; [|done].
  intros. simplify_eq/=. apply Z.ltb_lt in Hc. split_and!; [lia|lia|done|done].
Qed.
Next Obligation. intros n. simpl. unfold increment. by case_match. Qed.
Next Obligation.
  intros n m Hn Hm Hs Hv. apply nonce_bytes_inj; [done|done| |done].
  by apply dsig_eq.
Qed.
Next Obligation. done. Qed.
Next Obligation. intros. simpl. unfold open. by case_decide. Qed.
Next Obligation.
  intros n p a c sk1 sk2. simpl. intros. simplify_eq. rewrite shared_comm. apply open_seal.
Qed.
Next Obligation. intros. apply open_seal. Qed.
Next Obligation. intros k n c a p. apply open_sound. Qed.
Next Obligation. intros. simpl. unfold open. by case_decide. Qed.
Next Obligation.
  intros k n p a. change (length (seal k n p a) = length p + 16).
  unfold seal. by rewrite length_app, length_hash.
Qed.

End Model.
