(* ===== verification/WireFormat.v ===== *)
(** * The confidential wire format ([common/src/confidential/crypto.rs])

    A confidential message travels as

      PUBLIC_KEY || CIPHER_LEN || AAD_LEN || CIPHER || AAD || NONCE

    with the two lengths as little-endian 64-bit integers.  The operations of
    the file are the definitions of the section, with the same names; the
    build profile is an argument of the parser, because it adds the two
    declared lengths with [usize] arithmetic. *)

From Stdlib Require Import ZArith Lia Strings.Byte.
From stdpp Require Import base list strings option.
From S2P Require Import Prelude Crypto.

Section wire_format.
Context {M : Mrae}.

Definition CIPHER_LEN_SIZE : Z := 8.
Definition AAD_LEN_SIZE : Z := 8.

Record Decryption := {
  plaintext : bytes;
  nonce : Nonce;
  peer_public_key : PublicKey;
  aad : bytes
}.

(** Packs the given parameters into the encoded ciphertext layout. *)
Definition encode_encryption (ciphertext : bytes) (nonce : Nonce) (public_key : PublicKey)
    (aad : bytes) : bytes :=
  pk_as_ref public_key
  ++ to_le_bytes 8 (len ciphertext)
  ++ to_le_bytes 8 (len aad)
  ++ ciphertext
  ++ aad
  ++ nonce_value nonce.

(** [CIPHER_LEN] is read at [PublicKey::len()] and [AAD_LEN] after it; the
    conversions to [usize] cannot fail on the 64-bit targets of the runtime. *)
Definition split_encrypted_payload (p : profile) (data : bytes)
  : outcome string (PublicKey * Z * Z * bytes * bytes * Nonce) :=
  if (len data <? Z.of_nat pk_len + Z.of_nat nonce_size + CIPHER_LEN_SIZE + AAD_LEN_SIZE)%Z
  then Err "invalid nonce or public key"%string
  else
    let? pk_raw := slice data 0 (Z.of_nat pk_len) in
    let peer_public_key := pk_from pk_raw in
    let cipher_len_start := Z.of_nat pk_len in
    let cipher_len_end := (cipher_len_start + CIPHER_LEN_SIZE)%Z in
    let? cipher_array := slice data cipher_len_start cipher_len_end in
    let cipher_len := from_le_bytes cipher_array in
    let aad_len_start := cipher_len_end in
    let aad_len_end := (aad_len_start + AAD_LEN_SIZE)%Z in
    let? aad_array := slice data aad_len_start aad_len_end in
    let aad_len := from_le_bytes aad_array in
    let? with_cipher :=
      usize_add p (Z.of_nat pk_len + CIPHER_LEN_SIZE + AAD_LEN_SIZE)%Z cipher_len in
    let? with_aad := usize_add p with_cipher aad_len in
    let? expected_data_length := usize_add p with_aad (Z.of_nat nonce_size) in
    if negb (len data =? expected_data_length)%Z
    then Err "invalid size for ciphertext"%string
    else
      let cipher_start := aad_len_end in
      let? cipher_end := usize_add p cipher_start cipher_len in
      let? cipher := slice data cipher_start cipher_end in
      let aad_start := cipher_end in
      let? aad_end := usize_add p aad_start aad_len in
      let? aad := slice data aad_start aad_end in
      let nonce_start := aad_end in
      let? nonce_end := usize_add p nonce_start (Z.of_nat nonce_size) in
      let? nonce_inner := slice data nonce_start nonce_end in
      Ok (peer_public_key, cipher_len, aad_len, cipher, aad, nonce_new nonce_inner).

(** Encrypts the plaintext for the peer and packs it with the own public key. *)
Definition encrypt (plaintext : bytes) (nonce : Nonce) (peer_public_key public_key : PublicKey)
    (secret_key : PrivateKey) (aad : bytes) : outcome string bytes :=
  let? ciphertext := box_seal (nonce_value nonce) plaintext aad peer_public_key secret_key in
  Ok (encode_encryption ciphertext nonce public_key aad).

(** Decrypts a payload made by [encrypt]; no payload decrypts to the default. *)
Definition decrypt (p : profile) (data : option bytes) (secret_key : PrivateKey)
  : outcome string Decryption :=
  match data with
  | None =>
      Ok {| plaintext := []; peer_public_key := pk_default;
            nonce := nonce_new (replicate nonce_size x00); aad := [] |}
  | Some data =>
      let? (peer_public_key, _, _, cipher, aad, nonce) := split_encrypted_payload p data in
      let? plaintext :=
        map_err (fun _ => "payload open failed"%string)
          (box_open (nonce_value nonce) cipher aad peer_public_key secret_key) in
      Ok {| plaintext := plaintext; peer_public_key := peer_public_key;
            nonce := nonce; aad := aad |}
  end.

(** ** Specification: the two declared lengths and the length they call for *)

Definition declared_cipher_len (data : bytes) : Z :=
  from_le_bytes (take 8 (drop pk_len data)).

Definition declared_aad_len (data : bytes) : Z :=
  from_le_bytes (take 8 (drop (pk_len + 8) data)).

Definition overhead : Z := Z.of_nat pk_len + Z.of_nat nonce_size + 16.

Definition declared_len (data : bytes) : Z :=
  overhead + declared_cipher_len data + declared_aad_len data.

(** The fields of a payload at the positions the declared lengths give. *)
Definition fields (data : bytes) : PublicKey * Z * Z * bytes * bytes * Nonce :=
  let c := declared_cipher_len data in
  let a := declared_aad_len data in
  (pk_from (take pk_len data), c, a,
   take (Z.to_nat c) (drop (pk_len + 16) data),
   take (Z.to_nat a) (drop (pk_len + 16 + Z.to_nat c) data),
   nonce_new (take nonce_size (drop (pk_len + 16 + Z.to_nat c + Z.to_nat a) data))).

(** ** Lemmas *)

Section lemmas.
Context {L : MraeLaws M}.

Lemma length_field_bound (data : bytes) n :
  (0 <= from_le_bytes (take 8 (drop n data)) < u64_modulus)%Z.
Proof.
  pose proof (from_le_bytes_bound (take 8 (drop n data))) as Hb.
  assert (len (take 8 (drop n data)) <= 8)%Z as Hl
    by (unfold len; rewrite length_take; lia).
  pose proof (Z.pow_le_mono_r 256 _ 8 ltac:(lia) Hl) as Hp.
  change (256 ^ 8)%Z with u64_modulus in Hp. lia.
Qed.

Lemma usize_add_small {E} p a b :
  (a + b < u64_modulus)%Z -> usize_add p a b = @Ok E Z (a + b)%Z.
Proof. intros H. unfold usize_add, u64_add. by rewrite (proj2 (Z.ltb_lt _ _)). Qed.

Lemma usize_add_overflow {E} p a b :
  (u64_modulus <= a + b)%Z ->
  usize_add p a b = match p with
                    | Debug => Panic
                    | Release => @Ok E Z ((a + b) mod u64_modulus)%Z
                    end.
Proof. intros H. unfold usize_add, u64_add. by rewrite (proj2 (Z.ltb_ge _ _)). Qed.

Lemma overhead_bound : (16 <= overhead <= 1040)%Z.
Proof. unfold overhead. pose proof key_material_small. lia. Qed.

(** The parser after its length check, with the header slices resolved. *)
Lemma split_header p data :
  (overhead <= len data)%Z ->
  split_encrypted_payload p data =
    (let c := declared_cipher_len data in
     let a := declared_aad_len data in
     let start := (Z.of_nat pk_len + 16)%Z in
     let? t1 := usize_add p start c in
     let? t2 := usize_add p t1 a in
     let? total := usize_add p t2 (Z.of_nat nonce_size) in
     if negb (len data =? total)%Z then Err "invalid size for ciphertext"%string
     else
       let? ce := usize_add p start c in
       let? cipher := slice data start ce in
       let? ae := usize_add p ce a in
       let? aad := slice data ce ae in
       let? ne := usize_add p ae (Z.of_nat nonce_size) in
       let? nonce_inner := slice data ae ne in
       Ok (pk_from (take pk_len data), c, a, cipher, aad, nonce_new nonce_inner)).
Proof.
  intros Hlen. pose proof overhead_bound. unfold overhead in *.
  unfold split_encrypted_payload, CIPHER_LEN_SIZE, AAD_LEN_SIZE.
  rewrite (proj2 (Z.ltb_ge _ _)) by lia.
  rewrite !slice_in_bounds by lia. cbn [obind].
  rewrite Z.sub_0_r, !Nat2Z.id. change (Z.to_nat 0) with 0. rewrite drop_0.
  replace (Z.of_nat pk_len + 8 + 8)%Z with (Z.of_nat pk_len + 16)%Z by lia.
  replace (Z.to_nat (Z.of_nat pk_len + 8 - Z.of_nat pk_len)) with 8 by lia.
  replace (Z.to_nat (Z.of_nat pk_len + 16 - (Z.of_nat pk_len + 8))) with 8 by lia.
  replace (Z.to_nat (Z.of_nat pk_len + 8)) with (pk_len + 8) by lia.
  done.
Qed.

(** No declared length overflows: the parser accepts exactly the payloads of
    the declared length. *)
Lemma split_small p data :
  (overhead <= len data)%Z -> (declared_len data < u64_modulus)%Z ->
  split_encrypted_payload p data =
    if (len data =? declared_len data)%Z then Ok (fields data)
    else Err "invalid size for ciphertext"%string.
Proof.
  intros Hlen Hsmall. rewrite split_header by done. cbv zeta.
  pose proof (length_field_bound data pk_len) as Hc.
  pose proof (length_field_bound data (pk_len + 8)) as Ha.
  unfold declared_len, overhead, fields in *. cbv zeta.
  fold (declared_cipher_len data) in Hc. fold (declared_aad_len data) in Ha.
  set (c := declared_cipher_len data) in *. set (a := declared_aad_len data) in *.
  repeat (rewrite usize_add_small by lia; cbn [obind]).
  replace (Z.of_nat pk_len + 16 + c + a + Z.of_nat nonce_size)%Z
    with (Z.of_nat pk_len + Z.of_nat nonce_size + 16 + c + a)%Z by lia.
  destruct (Z.eqb_spec (len data) (Z.of_nat pk_len + Z.of_nat nonce_size + 16 + c + a))
    as [Heq|]; cbn [negb]; [|done].
  repeat (first [rewrite slice_in_bounds by lia|rewrite usize_add_small by lia];
          cbn [obind]).
  repeat f_equal; lia.
Qed.

Lemma slice_reversed {E A} (l : list A) a b :
  (b < a)%Z -> slice l a b = @Panic E (list A).
Proof.
  intros H. unfold slice. rewrite (proj2 (Z.leb_gt a b)) by lia.
  by rewrite andb_false_r.
Qed.

Lemma slice_past_end {E A} (l : list A) a b :
  (len l < b)%Z -> slice l a b = @Panic E (list A).
Proof.
  intros H. unfold slice. rewrite (proj2 (Z.leb_gt b _)) by lia.
  by rewrite andb_false_r.
Qed.

Lemma mod_u64_once z :
  (u64_modulus <= z < 2 * u64_modulus)%Z -> (z mod u64_modulus = z - u64_modulus)%Z.
Proof.
  intros H. replace z with (z - u64_modulus + 1 * u64_modulus)%Z at 1 by lia.
  rewrite Z_mod_plus_full. apply Z.mod_small. lia.
Qed.

Lemma usize_add_release {E} a b :
  (0 <= a)%Z -> (0 <= b)%Z -> usize_add Release a b = @Ok E Z ((a + b) mod u64_modulus)%Z.
Proof.
  intros. unfold usize_add, u64_add. case_match eqn:Hlt; [|done].
  apply Z.ltb_lt in Hlt. rewrite Z.mod_small; [done|lia].
Qed.

(** In a release build the declared total is computed modulo [2^64]. *)
Lemma release_total {B} (start c a n : Z) (k : Z -> outcome string B) :
  (0 <= start)%Z -> (0 <= c)%Z -> (0 <= a)%Z -> (0 <= n)%Z ->
  (let? t1 := usize_add Release start c in
   let? t2 := usize_add Release t1 a in
   let? total := usize_add Release t2 n in k total)
  = k ((start + c + a + n) mod u64_modulus)%Z.
Proof.
  intros. pose proof (Z.mod_pos_bound (start + c) u64_modulus ltac:(done)).
  rewrite usize_add_release by lia. cbn [obind].
  rewrite usize_add_release by lia. cbn [obind].
  rewrite Z.add_mod_idemp_l by done.
  pose proof (Z.mod_pos_bound (start + c + a) u64_modulus ltac:(done)).
  rewrite usize_add_release by lia. cbn [obind].
  by rewrite Z.add_mod_idemp_l by done.
Qed.

(** When that total wraps to the length of the data, one of the two fields it
    delimits is out of range. *)
Lemma release_fields_panic {B} (data : bytes) (start c a n : Z)
    (k : bytes -> bytes -> Z -> outcome string B) :
  (0 <= start < u64_modulus)%Z -> (0 <= c < u64_modulus)%Z -> (0 <= a < u64_modulus)%Z ->
  (0 <= n <= len data)%Z -> (start + c + a + n = len data + u64_modulus)%Z ->
  (let? ce := usize_add Release start c in
   let? cipher := slice data start ce in
   let? ae := usize_add Release ce a in
   let? aad := slice data ce ae in k cipher aad ae) = Panic.
Proof.
  intros Hs Hc Ha Hn Ht.
  destruct (Z.lt_ge_cases (start + c) u64_modulus).
  - rewrite usize_add_small by lia. cbn [obind].
    destruct (Z.le_gt_cases (start + c) (len data)); [|by rewrite slice_past_end by lia].
    rewrite slice_in_bounds by lia. cbn [obind].
    rewrite usize_add_overflow by lia. cbn [obind].
    rewrite mod_u64_once by lia. by rewrite slice_reversed by lia.
  - rewrite usize_add_overflow by lia. cbn [obind].
    rewrite mod_u64_once by lia. by rewrite slice_reversed by lia.
Qed.

(** A declared length that overflows [usize] is never accepted. *)
Lemma split_overflow p data :
  (overhead <= len data < u64_modulus)%Z -> (u64_modulus <= declared_len data)%Z ->
  split_encrypted_payload p data =
    match p with
    | Debug => Panic
    | Release =>
        if (len data =? declared_len data mod u64_modulus)%Z then Panic
        else Err "invalid size for ciphertext"%string
    end.
Proof.
  intros Hlen Hbig. rewrite split_header by lia. cbv zeta.
  pose proof (length_field_bound data pk_len) as Hc.
  pose proof (length_field_bound data (pk_len + 8)) as Ha.
  pose proof overhead_bound as Ho.
  assert (u64_modulus = 18446744073709551616)%Z as Hm by done.
  unfold declared_len, overhead in *.
  fold (declared_cipher_len data) in Hc. fold (declared_aad_len data) in Ha.
  set (c := declared_cipher_len data) in *. set (a := declared_aad_len data) in *.
  destruct p.
  - destruct (Z.lt_ge_cases (Z.of_nat pk_len + 16 + c) u64_modulus);
      [rewrite usize_add_small by lia|by rewrite usize_add_overflow by lia].
    cbn [obind].
    destruct (Z.lt_ge_cases (Z.of_nat pk_len + 16 + c + a) u64_modulus);
      [rewrite usize_add_small by lia|by rewrite usize_add_overflow by lia].
    cbn [obind]. by rewrite usize_add_overflow by lia.
  - rewrite release_total by lia.
    replace (Z.of_nat pk_len + 16 + c + a + Z.of_nat nonce_size)%Z
      with (Z.of_nat pk_len + Z.of_nat nonce_size + 16 + c + a)%Z by lia.
    set (total := (Z.of_nat pk_len + Z.of_nat nonce_size + 16 + c + a)%Z) in *.
    destruct (Z.eqb_spec (len data) (total mod u64_modulus)) as [Heq|];
      cbn [negb]; [|done].
    assert (total mod u64_modulus = total - u64_modulus)%Z as Htotal.
    { destruct (Z.lt_ge_cases total (2 * u64_modulus)); [apply mod_u64_once; lia|].
      exfalso. replace total with (total - 2 * u64_modulus + 2 * u64_modulus)%Z in Heq by lia.
      rewrite Z_mod_plus_full, Z.mod_small in Heq by lia. lia. }
    apply (release_fields_panic _ _ _ _ (Z.of_nat nonce_size)); lia.
Qed.

(** Reading the fields back out of an encoded payload. *)
Lemma declared_encode c n pk a :
  (len c < u64_modulus)%Z -> (len a < u64_modulus)%Z ->
  declared_cipher_len (encode_encryption c n pk a) = len c /\
  declared_aad_len (encode_encryption c n pk a) = len a.
Proof.
  intros Hc Ha. unfold declared_cipher_len, declared_aad_len, encode_encryption.
  pose proof (len_nonneg c). pose proof (len_nonneg a).
  split.
  - rewrite drop_app_length' by by rewrite pk_as_ref_length.
    rewrite take_app_length' by by rewrite length_to_le_bytes.
    by apply from_to_le_bytes.
  - rewrite app_assoc, drop_app_length'
      by by rewrite length_app, pk_as_ref_length, length_to_le_bytes.
    rewrite take_app_length' by by rewrite length_to_le_bytes.
    by apply from_to_le_bytes.
Qed.

Lemma encode_len c n pk a :
  len (encode_encryption c n pk a) = (overhead + len c + len a)%Z.
Proof.
  unfold encode_encryption, overhead. rewrite !len_app. unfold len.
  rewrite !length_to_le_bytes, pk_as_ref_length, nonce_value_length. lia.
Qed.

Lemma fields_encode c n pk a :
  (len c < u64_modulus)%Z -> (len a < u64_modulus)%Z ->
  fields (encode_encryption c n pk a) =
  (pk, len c, len a, c, a, nonce_new (nonce_value n)).
Proof.
  intros Hc Ha. destruct (declared_encode c n pk a Hc Ha) as [Ec Ea].
  unfold fields. cbv zeta. rewrite Ec, Ea. unfold encode_encryption, len.
  rewrite !Nat2Z.id.
  pose proof (pk_as_ref_length pk) as Hpk.
  rewrite (take_app_length' (pk_as_ref pk)) by done. rewrite pk_from_as_ref.
  assert (pk_as_ref pk ++ to_le_bytes 8 (Z.of_nat (length c)) ++
          to_le_bytes 8 (Z.of_nat (length a)) ++ c ++ a ++ nonce_value n
          = (pk_as_ref pk ++ to_le_bytes 8 (Z.of_nat (length c)) ++
             to_le_bytes 8 (Z.of_nat (length a))) ++ c ++ a ++ nonce_value n) as ->
    by by rewrite <- !app_assoc.
  set (header := pk_as_ref pk ++ _ ++ _).
  assert (length header = pk_len + 16) as Hh
    by (subst header; rewrite !length_app, !length_to_le_bytes; lia).
  rewrite drop_app_length', take_app_length by done.
  rewrite (app_assoc header c), (drop_app_length' (header ++ c))
    by by rewrite length_app, Hh.
  rewrite take_app_length.
  rewrite (app_assoc (header ++ c) a), (drop_app_length' ((header ++ c) ++ a))
    by by rewrite !length_app, Hh.
  rewrite take_ge by by rewrite nonce_value_length. done.
Qed.

(** Conversely, a payload of the declared length is the encoding of its
    fields. *)
Lemma encode_fields data pk cl al c a n :
  (overhead <= len data)%Z -> len data = declared_len data ->
  fields data = (pk, cl, al, c, a, n) ->
  data = encode_encryption c n pk a /\ cl = len c /\ al = len a.
Proof.
  intros Hmin Hlen Hf. unfold fields in Hf. cbv zeta in Hf.
  pose proof (length_field_bound data pk_len) as Hc.
  pose proof (length_field_bound data (pk_len + 8)) as Ha.
  unfold declared_len, overhead in *.
  fold (declared_cipher_len data) in Hc. fold (declared_aad_len data) in Ha.
  injection Hf as <- <- <- <- <- <-.
  unfold len in *.
  rewrite !length_take, !length_drop. split; [|lia].
  unfold encode_encryption, len.
  rewrite pk_as_ref_from, nonce_value_new by (rewrite length_take, ?length_drop; lia).
  rewrite !length_take, !length_drop, !Nat.min_l by lia. rewrite !Z2Nat.id by lia.
  assert (forall k, length (take 8 (drop k data)) = 8 ->
    to_le_bytes 8 (from_le_bytes (take 8 (drop k data))) = take 8 (drop k data)) as Hle.
  { intros k Hk. etransitivity; [|apply to_from_le_bytes]. by rewrite Hk. }
  unfold declared_cipher_len at 1, declared_aad_len at 1.
  rewrite !Hle by (rewrite length_take, length_drop; lia).
  rewrite (take_ge (drop (_ + Z.to_nat (declared_aad_len data)) data))
    by (rewrite length_drop; lia).
  rewrite <- (drop_drop data (Z.to_nat (declared_aad_len data))), take_drop.
  rewrite <- (drop_drop data (Z.to_nat (declared_cipher_len data))), take_drop.
  replace (pk_len + 16) with (pk_len + 8 + 8) by lia.
  rewrite <- (drop_drop data 8 (pk_len + 8)), take_drop.
  rewrite <- (drop_drop data 8 pk_len), take_drop. by rewrite take_drop.
Qed.

Lemma split_Ok_len p data r :
  (len data < u64_modulus)%Z -> split_encrypted_payload p data = Ok r ->
  (overhead <= len data)%Z /\ len data = declared_len data /\ fields data = r.
Proof.
  intros Hmax Hs.
  destruct (Z.lt_ge_cases (len data) overhead) as [Hlt|Hge].
  { unfold split_encrypted_payload, CIPHER_LEN_SIZE, AAD_LEN_SIZE in Hs.
    unfold overhead in Hlt. rewrite (proj2 (Z.ltb_lt _ _)) in Hs by lia. done. }
  destruct (Z.lt_ge_cases (declared_len data) u64_modulus).
  - rewrite split_small in Hs by done. case_match eqn:Heq; [|done].
    apply Z.eqb_eq in Heq. by simplify_eq.
  - rewrite split_overflow in Hs by done. by repeat case_match.
Qed.

Lemma split_encoded p c n pk a :
  (overhead + len c + len a < u64_modulus)%Z ->
  split_encrypted_payload p (encode_encryption c n pk a) =
  Ok (pk, len c, len a, c, a, nonce_new (nonce_value n)).
Proof.
  intros Hlen. pose proof overhead_bound.
  pose proof (len_nonneg c). pose proof (len_nonneg a).
  destruct (declared_encode c n pk a) as [Ec Ea]; [lia|lia|].
  assert (declared_len (encode_encryption c n pk a) = overhead + len c + len a)%Z as Hd
    by (unfold declared_len; rewrite Ec, Ea; done).
  rewrite split_small by (rewrite ?Hd, ?encode_len; lia).
  by rewrite encode_len, Hd, Z.eqb_refl, fields_encode by lia.
Qed.

Lemma decrypt_encrypted p pt n a sk_from sk_to payload :
  (len payload < u64_modulus)%Z ->
  encrypt pt n (public_of sk_to) (public_of sk_from) sk_from a = Ok payload ->
  decrypt p (Some payload) sk_to =
  Ok {| plaintext := pt; nonce := nonce_new (nonce_value n);
        peer_public_key := public_of sk_from; aad := a |}.
Proof.
  intros Hmax He. unfold encrypt in He. simplify_outcome. rename x into c.
  rewrite encode_len in Hmax. pose proof (nonce_value_length n).
  unfold decrypt. rewrite split_encoded by lia. cbn [obind].
  rewrite nonce_value_new by done.
  by erewrite box_open_seal by done.
Qed.

(** ** Properties *)

(** C18. The wire format is a bijection between payloads and their fields:
    whatever the build profile, the parser returns given fields on a payload
    if and only if the payload is the encoding of these fields, with the
    declared lengths equal to the real ones and the nonce fresh.  So packing
    and splitting round-trip, and no byte of an accepted payload is ignored
    or read twice. *)
Theorem split_iff_encode p data pk cl al c a n :
  (len data < u64_modulus)%Z ->
  split_encrypted_payload p data = Ok (pk, cl, al, c, a, n) <->
  data = encode_encryption c n pk a /\ cl = len c /\ al = len a /\
  n = nonce_new (nonce_value n).
Proof.
  intros Hmax. split.
  - intros Hs. apply split_Ok_len in Hs as (Hmin & Hlen & Hf); [|done].
    destruct (encode_fields data pk cl al c a n Hmin Hlen Hf) as (Hd & -> & ->).
    split_and!; [done|done|done|].
    rewrite Hd, fields_encode in Hf; [by injection Hf| |];
      rewrite Hd, encode_len in Hmax; pose proof overhead_bound;
      pose proof (len_nonneg c); pose proof (len_nonneg a); lia.
  - intros (-> & -> & -> & Hn). rewrite Hn at 2. rewrite encode_len in Hmax.
    by apply split_encoded.
Qed.

(** C19. The parser is not total: it panics, instead of returning the error
    "invalid size for ciphertext", exactly on the payloads that are long
    enough for a header whose declared lengths overflow a 64-bit [usize]
    where, in a release build, the wrapped total happens to be the length of
    the payload. *)
Theorem split_panics_iff p data :
  (len data < u64_modulus)%Z ->
  panics (split_encrypted_payload p data) = true <->
  (overhead <= len data)%Z /\ (u64_modulus <= declared_len data)%Z /\
  (p = Debug \/ len data = declared_len data mod u64_modulus)%Z.
Proof.
  intros Hmax. destruct (Z.lt_ge_cases (len data) overhead) as [Hlt|Hge].
  { unfold split_encrypted_payload, CIPHER_LEN_SIZE, AAD_LEN_SIZE.
    unfold overhead in *. rewrite (proj2 (Z.ltb_lt _ _)) by lia.
    split; [done|lia]. }
  destruct (Z.lt_ge_cases (declared_len data) u64_modulus).
  - rewrite split_small by done. case_match; (split; [done|lia]).
  - rewrite split_overflow by done. destruct p.
    + split; [intros _|done]. split_and!; [done|done|by left].
    + destruct (Z.eqb_spec (len data) (declared_len data mod u64_modulus)).
      * split; [intros _|done]. split_and!; [done|done|by right].
      * split; [done|]. by intros (_ & _ & [?|?]).
Qed.

End lemmas.
End wire_format.

#[global] Arguments encode_encryption : simpl never.
#[global] Arguments split_encrypted_payload : simpl never.
#[global] Arguments encrypt : simpl never.
#[global] Arguments decrypt : simpl never.

(** ** Witnesses *)

Definition model_pk : @PublicKey Model.ops := Model.fixed_from 32 (replicate 32 x41).
Definition model_sk : @PrivateKey Model.ops := Model.fixed_from 32 (replicate 32 x42).
Definition model_nonce : @Nonce Model.ops := @nonce_new Model.ops (replicate 15 x00).

(** A payload of the minimal length that declares two fields of [2^63] bytes. *)
Definition overflowing_payload : bytes :=
  replicate 32 x41 ++ to_le_bytes 8 (2 ^ 63) ++ to_le_bytes 8 (2 ^ 63) ++ replicate 15 x00.

Lemma split_iff_encode_witness :
  @split_encrypted_payload Model.ops Release
    (@encode_encryption Model.ops (str "cipher") model_nonce model_pk (str "aad")) =
  Ok (model_pk, 6%Z, 3%Z, str "cipher", str "aad", model_nonce).
Proof.
  apply (@split_iff_encode Model.ops Model.laws).
  - vm_compute. reflexivity.
  - split_and!; vm_compute; reflexivity.
Defined.

Lemma split_panics_iff_witness :
  panics (@split_encrypted_payload Model.ops Release overflowing_payload) = true.
Proof.
  apply (@split_panics_iff Model.ops Model.laws).
  - vm_compute. reflexivity.
  - split_and!; [vm_compute; discriminate|vm_compute; discriminate|].
    right. vm_compute. reflexivity.
Defined.
