(* ===== verification/ConfidentialCtx.v ===== *)
(** * The confidential context ([common/src/confidential/confidential_ctx.rs])

    [ConfidentialCtx] is the facade through which the EVM encrypts: it holds
    the contract whose keys are in use, the peer of the encrypted session and
    the nonces of the two channels.  Every method of the impl blocks is a
    definition with its name; a method with a [&mut self] receiver is a
    [stateful] computation on the record.  The two service handles of the
    struct ([key_manager], [io_ctx]) are not part of the record: the key
    manager's reply is an argument of [activate]. *)

From Stdlib Require Import ZArith Lia Strings.Byte.
From stdpp Require Import base list strings option pretty relations.
From S2P Require Import Prelude Crypto.
From S2P Require WireFormat.

Section confidential_ctx.
Context {M : Mrae}.

(** The key pair of a contract, as the key manager hands it out. *)
Record KeyPair := {
  input_pk : PublicKey;
  input_sk : PrivateKey;
  state_key : bytes
}.

(** The only variant of [vm::Error] these methods raise. *)
Inductive VmError := Confidential (msg : string).

Record AuthenticatedPayload := {
  decrypted_data : bytes;
  additional_data : bytes
}.

Record ConfidentialCtx := {
  peer_public_key : option PublicKey;
  contract : option (Address * KeyPair);
  next_nonce : option Nonce;
  is_activated : bool;
  prev_block_hash : H256;
  d2 : option DeoxysII;
  next_storage_nonce : option Nonce
}.

Definition new (prev_block_hash : H256) : ConfidentialCtx := {|
  peer_public_key := None;
  contract := None;
  next_nonce := None;
  is_activated := false;
  prev_block_hash := prev_block_hash;
  d2 := None;
  next_storage_nonce := None
|}.

(** A context with every field given, for tests. *)
Definition new_test (peer_public_key : option PublicKey) (contract : option (Address * KeyPair))
    (next_nonce : option Nonce) (activated : bool) (prev_block_hash : H256)
    (d2 : option DeoxysII) (next_storage_nonce : option Nonce) : ConfidentialCtx := {|
  peer_public_key := peer_public_key;
  contract := contract;
  next_nonce := next_nonce;
  is_activated := activated;
  prev_block_hash := prev_block_hash;
  d2 := d2;
  next_storage_nonce := next_storage_nonce
|}.

(** *** Field assignments *)

Definition set_peer_public_key x (c : ConfidentialCtx) : ConfidentialCtx :=
  Build_ConfidentialCtx x (contract c) (next_nonce c) (is_activated c)
    (prev_block_hash c) (d2 c) (next_storage_nonce c).
Definition set_contract x (c : ConfidentialCtx) : ConfidentialCtx :=
  Build_ConfidentialCtx (peer_public_key c) x (next_nonce c) (is_activated c)
    (prev_block_hash c) (d2 c) (next_storage_nonce c).
Definition set_next_nonce x (c : ConfidentialCtx) : ConfidentialCtx :=
  Build_ConfidentialCtx (peer_public_key c) (contract c) x (is_activated c)
    (prev_block_hash c) (d2 c) (next_storage_nonce c).
Definition set_activated x (c : ConfidentialCtx) : ConfidentialCtx :=
  Build_ConfidentialCtx (peer_public_key c) (contract c) (next_nonce c) x
    (prev_block_hash c) (d2 c) (next_storage_nonce c).
Definition set_d2 x (c : ConfidentialCtx) : ConfidentialCtx :=
  Build_ConfidentialCtx (peer_public_key c) (contract c) (next_nonce c) (is_activated c)
    (prev_block_hash c) x (next_storage_nonce c).
Definition set_next_storage_nonce x (c : ConfidentialCtx) : ConfidentialCtx :=
  Build_ConfidentialCtx (peer_public_key c) (contract c) (next_nonce c) (is_activated c)
    (prev_block_hash c) (d2 c) x.

(** *** Inherent methods *)

Definition no_contract_key_message : string :=
  "The confidential context must have a contract key when opening encrypted transaction data".

Definition decrypt (p : profile) (self : ConfidentialCtx) (encrypted_tx_data : bytes)
  : outcome VmError bytes :=
  match contract self with
  | None => Err (Confidential no_contract_key_message)
  | Some (_, keys) =>
      let? decryption :=
        map_err Confidential (WireFormat.decrypt p (Some encrypted_tx_data) (input_sk keys)) in
      Ok (WireFormat.plaintext decryption)
  end.

(** The Deoxys-II instance of a contract, from the head of its state key. *)
Definition d2_of_contract {E} (c : Address * KeyPair) : outcome E DeoxysII :=
  let? key := slice (state_key c.2) 0 (Z.of_nat key_size) in
  Ok (d2_new key).

(** Storage encryption nonce <- H(prev_block_hash || address)[:11] || 0x00000000 *)
Definition storage_nonce_of_contract {E} (prev_block_hash : H256) (c : Address * KeyPair)
  : outcome E Nonce :=
  let buffer := prev_block_hash ++ c.1 in
  let hash := digest_bytes buffer in
  let? tag := slice hash 0 (Z.of_nat nonce_tag_size) in
  Ok (nonce_new (tag ++ replicate (nonce_size - nonce_tag_size) x00)).

Definition swap_contract (new_contract : option (Address * KeyPair))
  : stateful ConfidentialCtx VmError (option Address) :=
  let! self := sget in
  let old_contract_address := fst <$> contract self in
  let! _ := smodify (set_contract new_contract) in
  let! d2 := slift (option_traverse d2_of_contract new_contract) in
  let! _ := smodify (set_d2 d2) in
  let! nonce :=
    slift (option_traverse (storage_nonce_of_contract (prev_block_hash self)) new_contract) in
  let! _ := smodify (set_next_storage_nonce nonce) in
  sret old_contract_address.

(** *** The [EthConfidentialCtx] trait *)

Definition activated (self : ConfidentialCtx) : bool := is_activated self.

Definition is_encrypting (self : ConfidentialCtx) : bool :=
  activated self && bool_decide (is_Some (contract self)).

(** [get_or_create_keys] is the key manager, asked under the hash of the
    contract's address. *)
Definition activate (get_or_create_keys : bytes -> outcome string KeyPair)
    (contract : option Address) : stateful ConfidentialCtx VmError (option Address) :=
  let! _ := smodify (set_activated true) in
  match contract with
  | None => swap_contract None
  | Some contract =>
      let contract_id := keccak contract in
      let! key_pair :=
        slift (map_err (fun _ => Confidential "failed to get or create keys")
                       (get_or_create_keys contract_id)) in
      swap_contract (Some (contract, key_pair))
  end.

Definition deactivate (self : ConfidentialCtx) : ConfidentialCtx := {|
  peer_public_key := None;
  contract := None;
  next_nonce := None;
  is_activated := false;
  prev_block_hash := prev_block_hash self;
  d2 := None;
  next_storage_nonce := None
|}.

(** [nonce.increment()] on a nonce held by the context: the field is mutated
    through the reference whether or not the call succeeds. *)
Definition increment_with (assign : Nonce -> ConfidentialCtx -> ConfidentialCtx) (n : Nonce)
  : stateful ConfidentialCtx VmError unit :=
  let '(r, n') := nonce_increment n in
  let! _ := smodify (assign n') in
  slift (map_err Confidential r).

Definition encrypt_session_missing (self : ConfidentialCtx) : string :=
  (match peer_public_key self with
   | None => "; no peer public key specified" | Some _ => "" end
   +:+ match contract self with
       | None => "; no contract specified from which to extract contract public key"
       | Some _ => "" end
   +:+ match next_nonce self with
       | None => "; no next nonce specified" | Some _ => "" end)%string.

Definition encrypt_session (data : bytes) : stateful ConfidentialCtx VmError bytes :=
  let! self := sget in
  let err_msg := encrypt_session_missing self in
  if negb (bool_decide (err_msg = ""%string))
  then slift (Err (Confidential ("Cannot encrypt session" +:+ err_msg +:+ ".")%string))
  else
    let! contract_key := slift (expect (snd <$> contract self)) in
    let! nonce := slift (expect (next_nonce self)) in
    let! peer := slift (expect (peer_public_key self)) in
    let! encrypted_payload :=
      slift (map_err Confidential
        (WireFormat.encrypt data nonce peer (input_pk contract_key) (input_sk contract_key) [])) in
    let! _ := increment_with (fun n => set_next_nonce (Some n)) nonce in
    sret encrypted_payload.

Definition decrypt_session (p : profile) (encrypted_payload : bytes)
  : stateful ConfidentialCtx VmError AuthenticatedPayload :=
  let! self := sget in
  let! contract_key := slift (expect (snd <$> contract self)) in
  let payload_len := length encrypted_payload in
  let! decryption :=
    slift (map_err
      (fun err => Confidential ("Failed to decrypt session payload ("
         +:+ pretty payload_len +:+ " bytes): " +:+ err)%string)
      (WireFormat.decrypt p (Some encrypted_payload) (input_sk contract_key))) in
  let! _ := smodify (set_peer_public_key (Some (WireFormat.peer_public_key decryption))) in
  let '(r, nonce) := nonce_increment (WireFormat.nonce decryption) in
  let! _ := slift (map_err Confidential r) in
  let! _ := smodify (set_next_nonce (Some nonce)) in
  sret {| decrypted_data := WireFormat.plaintext decryption;
          additional_data := WireFormat.aad decryption |}.

(** The storage key is not secret, so it is sealed under the zero nonce. *)
Definition encrypt_storage_key (self : ConfidentialCtx) (data : bytes)
  : outcome VmError bytes :=
  let nonce := replicate nonce_size x00 in
  let? d2 := expect (d2 self) in
  Ok (d2_seal d2 nonce data []).

(** The result is ciphertext || tag || nonce, with the (encrypted) storage key
    as the additional data. *)
Definition encrypt_storage_value (storage_key data : bytes)
  : stateful ConfidentialCtx VmError bytes :=
  let! self := sget in
  let! next := slift (expect (next_storage_nonce self)) in
  let! nonce := slift (slice (nonce_value next) 0 (Z.of_nat nonce_size)) in
  let! d2 := slift (expect (d2 self)) in
  let ciphertext := d2_seal d2 nonce data storage_key ++ nonce in
  let! _ := increment_with (fun n => set_next_storage_nonce (Some n)) next in
  sret ciphertext.

Definition decrypt_storage_value (self : ConfidentialCtx) (storage_key data : bytes)
  : outcome VmError bytes :=
  if (len data <? Z.of_nat tag_size + Z.of_nat nonce_size)%Z
  then Err (Confidential "truncated ciphertext")
  else
    let nonce_offset := (len data - Z.of_nat nonce_size)%Z in
    let? nonce := slice data nonce_offset (len data) in
    let? ciphertext := slice data 0 nonce_offset in
    let? d2 := expect (d2 self) in
    map_err (fun _ => Confidential "invalid storage (decryption) key")
      (d2_open d2 nonce ciphertext storage_key).

Definition peer (self : ConfidentialCtx) : option bytes :=
  pk_as_ref <$> peer_public_key self.

(** *** Runs of the context

    The EVM drives one context through any sequence of calls; a call that
    panics ends the process, any other call leaves the state it returns. *)
Inductive step (p : profile) : ConfidentialCtx -> ConfidentialCtx -> Prop :=
| step_activate keys c self r self' :
    (forall id k, keys id = Ok k -> length (state_key k) = key_size) ->
    activate keys c self = (r, self') -> panics r = false -> step p self self'
| step_deactivate self : step p self (deactivate self)
| step_encrypt_session data self r self' :
    encrypt_session data self = (r, self') -> panics r = false -> step p self self'
| step_decrypt_session payload self r self' :
    decrypt_session p payload self = (r, self') -> panics r = false -> step p self self'
| step_encrypt_storage_value k v self r self' :
    encrypt_storage_value k v self = (r, self') -> panics r = false -> step p self self'.

Definition reachable (p : profile) (prev_block_hash : H256) (self : ConfidentialCtx) : Prop :=
  rtc (step p) (new prev_block_hash) self.

(** A contract in use comes with its storage cipher and a storage nonce, and
    only an activated context has one; a session nonce comes with a peer. *)
Definition ctx_wf (self : ConfidentialCtx) : Prop :=
  match contract self with
  | None => d2 self = None /\ next_storage_nonce self = None
  | Some c =>
      is_activated self = true /\ d2 self = Some (d2_new (state_key c.2)) /\
      is_Some (next_storage_nonce self)
  end /\ (is_Some (next_nonce self) -> is_Some (peer_public_key self)).

(** Several storage writes in a row, with the values sealed. *)
Fixpoint encrypt_storage_values (kvs : list (bytes * bytes))
  : stateful ConfidentialCtx VmError (list bytes) :=
  match kvs with
  | [] => sret []
  | (k, v) :: kvs' =>
      let! c := encrypt_storage_value k v in
      let! cs := encrypt_storage_values kvs' in
      sret (c :: cs)
  end.

(** The trailer of a sealed storage value is the nonce it was sealed under. *)
Definition storage_nonce_of_value (ciphertext : bytes) : bytes :=
  drop (length ciphertext - nonce_size) ciphertext.

(** The storage nonce a contract starts from in a block. *)
Definition storage_nonce_start (prev_block_hash : H256) (address : Address) : bytes :=
  take nonce_tag_size (digest_bytes (prev_block_hash ++ address))
  ++ replicate (nonce_size - nonce_tag_size) x00.

(** ** Lemmas *)

Section lemmas.
Context {L : MraeLaws M}.

Lemma storage_nonce_start_length prev a :
  length (storage_nonce_start prev a) = nonce_size.
Proof.
  unfold storage_nonce_start. rewrite length_app, length_take, length_replicate.
  pose proof (digest_bytes_length (prev ++ a)). pose proof nonce_tag_size_le. lia.
Qed.

Lemma storage_nonce_of_contract_eq {E} prev (c : Address * KeyPair) :
  storage_nonce_of_contract prev c
  = @Ok E Nonce (nonce_new (storage_nonce_start prev c.1)).
Proof.
  unfold storage_nonce_of_contract. cbv zeta.
  rewrite slice_in_bounds; cbn [obind].
  - unfold storage_nonce_start. rewrite Z.sub_0_r, Nat2Z.id, drop_0. done.
  - lia.
  - unfold len. pose proof (digest_bytes_length (prev ++ c.1)). lia.
Qed.

Lemma d2_of_contract_eq {E} (c : Address * KeyPair) :
  length (state_key c.2) = key_size ->
  d2_of_contract c = @Ok E DeoxysII (d2_new (state_key c.2)).
Proof.
  intros Hk. unfold d2_of_contract.
  rewrite slice_in_bounds by (unfold len; lia). cbn [obind].
  by rewrite Z.sub_0_r, Nat2Z.id, drop_0, take_ge by lia.
Qed.

(** The context a successful [swap_contract] leaves behind. *)
Definition swapped (nc : option (Address * KeyPair)) (self : ConfidentialCtx)
  : ConfidentialCtx := {|
  peer_public_key := peer_public_key self;
  contract := nc;
  next_nonce := next_nonce self;
  is_activated := is_activated self;
  prev_block_hash := prev_block_hash self;
  d2 := (fun c => d2_new (state_key c.2)) <$> nc;
  next_storage_nonce :=
    (fun c => nonce_new (storage_nonce_start (prev_block_hash self) c.1)) <$> nc
|}.

Lemma swap_contract_eq nc self :
  (forall c, nc = Some c -> length (state_key c.2) = key_size) ->
  swap_contract nc self = (Ok (fst <$> contract self), swapped nc self).
Proof.
  intros Hk. unfold swap_contract, sbind, sget, smodify, slift, sret.
  destruct nc as [c|]; [|done]. cbn [option_traverse].
  rewrite d2_of_contract_eq by auto. rewrite storage_nonce_of_contract_eq. done.
Qed.

Lemma activate_eq keys c self :
  (forall id k, keys id = Ok k -> length (state_key k) = key_size) ->
  activate keys c self =
  match c with
  | None => (Ok (fst <$> contract self), swapped None (set_activated true self))
  | Some a =>
      match keys (keccak a) with
      | Ok k => (Ok (fst <$> contract self), swapped (Some (a, k)) (set_activated true self))
      | Err _ => (Err (Confidential "failed to get or create keys"), set_activated true self)
      | Panic => (Panic, set_activated true self)
      end
  end.
Proof.
  intros Hk. unfold activate, smodify, slift. unfold sbind at 1.
  destruct c as [a|]; [|by rewrite swap_contract_eq].
  unfold sbind. destruct (keys (keccak a)) as [k|e|] eqn:Ek; [|done|done].
  cbn [map_err]. rewrite swap_contract_eq; [done|]. intros c Hc. simplify_eq/=. eauto.
Qed.

(** The methods that seal or open a message touch only the nonces and the
    peer; on success the storage write leaves the incremented nonce. *)
Lemma encrypt_storage_value_run k v self :
  encrypt_storage_value k v self =
  match next_storage_nonce self, d2 self with
  | Some n, Some c =>
      (match (nonce_increment n).1 with
       | Ok _ => Ok (d2_seal c (nonce_value n) v k ++ nonce_value n)
       | Err e => Err (Confidential e)
       | Panic => Panic
       end,
       set_next_storage_nonce (Some (nonce_increment n).2) self)
  | _, _ => (Panic, self)
  end.
Proof.
  unfold encrypt_storage_value, sbind, sget, slift, sret, increment_with, smodify, expect.
  destruct (next_storage_nonce self) as [n|]; [|done].
  rewrite slice_in_bounds by (unfold len; rewrite ?nonce_value_length; lia).
  rewrite Z.sub_0_r, Nat2Z.id, drop_0, take_ge by (rewrite nonce_value_length; lia).
  destruct (d2 self) as [c|]; [|done].
  destruct (nonce_increment n) as [[] n'] eqn:Hn; done.
Qed.

Lemma encrypt_session_run data self :
  encrypt_session data self =
  match peer_public_key self, contract self, next_nonce self with
  | Some pk, Some (_, keys), Some n =>
      match WireFormat.encrypt data n pk (input_pk keys) (input_sk keys) [] with
      | Ok payload =>
          (match (nonce_increment n).1 with
           | Ok _ => Ok payload
           | Err e => Err (Confidential e)
           | Panic => Panic
           end,
           set_next_nonce (Some (nonce_increment n).2) self)
      | Err e => (Err (Confidential e), self)
      | Panic => (Panic, self)
      end
  | _, _, _ =>
      (Err (Confidential ("Cannot encrypt session" +:+ encrypt_session_missing self +:+ ".")%string),
       self)
  end.
Proof.
  unfold encrypt_session, sbind, sget, slift, sret, increment_with, smodify, expect.
  unfold encrypt_session_missing.
  destruct (peer_public_key self) as [pk|], (contract self) as [[a keys]|],
    (next_nonce self) as [n|]; try done.
  simpl. destruct (WireFormat.encrypt _ _ _ _ _ _) as [payload|e|]; try done. simpl.
  destruct (nonce_increment n) as [[] n'] eqn:Hn; done.
Qed.

Lemma decrypt_session_run p payload self :
  decrypt_session p payload self =
  match contract self with
  | None => (Panic, self)
  | Some (_, keys) =>
      match WireFormat.decrypt p (Some payload) (input_sk keys) with
      | Ok d =>
          let self' := set_peer_public_key (Some (WireFormat.peer_public_key d)) self in
          match nonce_increment (WireFormat.nonce d) with
          | (Ok _, n) =>
              (Ok {| decrypted_data := WireFormat.plaintext d;
                     additional_data := WireFormat.aad d |},
               set_next_nonce (Some n) self')
          | (Err e, _) => (Err (Confidential e), self')
          | (Panic, _) => (Panic, self')
          end
      | Err e =>
          (Err (Confidential ("Failed to decrypt session payload ("
             +:+ pretty (length payload) +:+ " bytes): " +:+ e)%string), self)
      | Panic => (Panic, self)
      end
  end.
Proof.
  unfold decrypt_session, sbind, sget, slift, sret, smodify, expect.
  destruct (contract self) as [[a keys]|]; [|done]. simpl.
  destruct (WireFormat.decrypt p (Some payload) _) as [d|e|]; try done. simpl.
  destruct (nonce_increment (WireFormat.nonce d)) as [[] n']; done.
Qed.

Lemma wf_set_next_nonce n self :
  ctx_wf self -> is_Some (peer_public_key self) -> ctx_wf (set_next_nonce (Some n) self).
Proof. intros [Hc Hn] Hp. by split. Qed.

Lemma wf_set_peer pk self : ctx_wf self -> ctx_wf (set_peer_public_key (Some pk) self).
Proof. intros [Hc Hn]. split; [done|]. intros _. by eexists. Qed.

Lemma wf_set_activated self : ctx_wf self -> ctx_wf (set_activated true self).
Proof.
  intros [Hc Hn]. split; [|done]. simpl in *. destruct (contract self); [|done].
  by destruct Hc as (_ & ? & ?).
Qed.

Lemma wf_set_storage_nonce n m self :
  ctx_wf self -> next_storage_nonce self = Some m ->
  ctx_wf (set_next_storage_nonce (Some n) self).
Proof.
  intros [Hc Hn] Hm. split; [|done]. simpl in *. destruct (contract self).
  - destruct Hc as (? & ? & _). split_and!; [done|done|by eexists].
  - destruct Hc as [_ Hc]. congruence.
Qed.

Lemma wf_swapped nc self : ctx_wf self -> is_activated self = true -> ctx_wf (swapped nc self).
Proof.
  intros [Hc Hn] Ha. split; [|done]. simpl. destruct nc; simpl; [|done].
  split_and!; [done|done|by eexists].
Qed.

Lemma step_wf p self self' : ctx_wf self -> step p self self' -> ctx_wf self'.
Proof.
  intros Hwf Hstep. destruct Hstep as [keys c self r self' Hk Hrun Hp
    |self|data self r self' Hrun Hp|payload self r self' Hrun Hp|k v self r self' Hrun Hp].
  - rewrite activate_eq in Hrun by done.
    destruct c as [a|]; [destruct (keys (keccak a))|]; simplify_eq;
      auto using wf_set_activated, wf_swapped.
  - by split; [|intros [? ?]].
  - rewrite encrypt_session_run in Hrun.
    destruct (peer_public_key self) as [pk|] eqn:Hpk,
      (contract self) as [[a keys]|], (next_nonce self) as [n|]; simplify_eq; try done.
    destruct (WireFormat.encrypt _ _ _ _ _ _); simplify_eq; try done.
    apply wf_set_next_nonce; [done|]. rewrite Hpk. by eexists.
  - rewrite decrypt_session_run in Hrun.
    destruct (contract self) as [[a keys]|]; simplify_eq; try done.
    destruct (WireFormat.decrypt _ _ _) as [d| |]; simplify_eq; try done.
    cbv zeta in Hrun.
    destruct (nonce_increment _) as [[] n]; simplify_eq; try done;
      [|by apply wf_set_peer].
    apply wf_set_next_nonce; [by apply wf_set_peer|by eexists].
  - rewrite encrypt_storage_value_run in Hrun.
    destruct (next_storage_nonce self) as [n|] eqn:Hn; simplify_eq; try done.
    destruct (d2 self); simplify_eq; try done. by eapply wf_set_storage_nonce.
Qed.

Lemma reachable_wf p prev self : reachable p prev self -> ctx_wf self.
Proof.
  unfold reachable. intros Hr.
  assert (ctx_wf (new prev)) as Hwf by (split; [done|intros [? ?]; done]).
  revert Hwf. induction Hr; eauto using step_wf.
Qed.

Lemma step_prev p self self' : step p self self' -> prev_block_hash self' = prev_block_hash self.
Proof.
  intros Hstep. destruct Hstep as [keys c self r self' Hk Hrun Hp
    |self|data self r self' Hrun Hp|payload self r self' Hrun Hp|k v self r self' Hrun Hp].
  - rewrite activate_eq in Hrun by done.
    destruct c as [a|]; [destruct (keys (keccak a))|]; by simplify_eq.
  - done.
  - rewrite encrypt_session_run in Hrun. repeat case_match; by simplify_eq.
  - rewrite decrypt_session_run in Hrun. cbv zeta in Hrun. repeat case_match; by simplify_eq.
  - rewrite encrypt_storage_value_run in Hrun. repeat case_match; by simplify_eq.
Qed.

Lemma reachable_prev p prev self : reachable p prev self -> prev_block_hash self = prev.
Proof.
  unfold reachable. change prev with (prev_block_hash (new prev)) at 2.
  induction 1 as [|x y z Hxy _ IH]; [done|]. by rewrite IH, (step_prev _ _ _ Hxy).
Qed.

Lemma is_encrypting_contract self :
  ctx_wf self -> is_encrypting self = true <-> is_Some (contract self).
Proof.
  intros [Hc _]. unfold is_encrypting, activated. rewrite andb_true_iff, bool_decide_eq_true.
  destruct (contract self) as [c|]; [destruct Hc as (Ha & _ & _)|];
    (split; [by intros [_ ?]|]); [intros; split; [done|by eexists]|by intros [? ?]].
Qed.

(** Opening the concatenation of a sealed value and its nonce. *)
Lemma decrypt_storage_value_split self c k v n :
  d2 self = Some c -> length n = nonce_size ->
  decrypt_storage_value self k (d2_seal c n v k ++ n) = Ok v.
Proof.
  intros Hd Hn. unfold decrypt_storage_value. rewrite len_app.
  pose proof (d2_seal_length c n v k) as Hs.
  unfold len. rewrite (proj2 (Z.ltb_ge _ _)) by lia. cbv zeta.
  set (cipher := d2_seal c n v k) in *.
  replace (Z.of_nat (length cipher) + Z.of_nat (length n) - Z.of_nat nonce_size)%Z
    with (len cipher) by (unfold len; lia).
  rewrite <- (app_nil_r (cipher ++ n)), <- app_assoc.
  rewrite slice_app by (unfold len; lia). cbn [obind].
  change (cipher ++ n ++ []) with ([] ++ cipher ++ (n ++ [])).
  rewrite slice_app by (unfold len; simpl; lia). cbn [obind].
  rewrite Hd. cbn [expect obind]. subst cipher. by rewrite d2_open_seal.
Qed.

Lemma storage_nonce_of_sealed c n v k :
  length n = nonce_size -> storage_nonce_of_value (d2_seal c n v k ++ n) = n.
Proof.
  intros Hn. unfold storage_nonce_of_value. apply drop_app_length'.
  rewrite length_app. lia.
Qed.

Lemma encrypt_storage_value_Ok k v self ct self' :
  encrypt_storage_value k v self = (Ok ct, self') ->
  exists n n' c, next_storage_nonce self = Some n /\ d2 self = Some c /\
    nonce_increment n = (Ok tt, n') /\ ct = d2_seal c (nonce_value n) v k ++ nonce_value n /\
    self' = set_next_storage_nonce (Some n') self.
Proof.
  rewrite encrypt_storage_value_run.
  destruct (next_storage_nonce self) as [n|]; [|done].
  destruct (d2 self) as [c|]; [|done].
  destruct (nonce_increment n) as [[[]| |] n'] eqn:Hn; intros; simplify_eq/=.
  by exists n, n', c.
Qed.

(** A run of storage writes numbers its nonces upwards from the first one. *)
Lemma encrypt_storage_values_counts kvs self cs self' n :
  encrypt_storage_values kvs self = (Ok cs, self') ->
  next_storage_nonce self = Some n -> nonce_ok n ->
  Forall (fun ct => exists m, storage_nonce_of_value ct = nonce_value m /\ nonce_ok m /\
    nonce_start m = nonce_start n /\ (nonce_count n <= nonce_count m)%Z) cs /\
  NoDup (storage_nonce_of_value <$> cs).
Proof.
  revert self cs n. induction kvs as [|[k v] kvs IH]; intros self cs n Hrun Hn Hok.
  - unfold encrypt_storage_values, sret in Hrun. simplify_eq. split; constructor.
  - cbn [encrypt_storage_values] in Hrun. apply sbind_Ok in Hrun as (ct & s1 & Hct & Hrun).
    apply sbind_Ok in Hrun as (cs' & s2 & Hcs & Hrun). unfold sret in Hrun. simplify_eq.
    apply encrypt_storage_value_Ok in Hct as (n0 & n' & c & Hn0 & Hd & Hinc & -> & ->).
    assert (n0 = n) as -> by congruence. destruct (nonce_increment_ok n n' Hok Hinc) as (Hok' & Hst & Hcnt).
    destruct (IH _ _ n' Hcs eq_refl Hok') as [Hall Hnd].
    rewrite fmap_cons, storage_nonce_of_sealed by apply nonce_value_length.
    split.
    + constructor.
      { exists n. rewrite storage_nonce_of_sealed by apply nonce_value_length.
        split_and!; [done|done|done|lia]. }
      eapply Forall_impl; [exact Hall|]. intros ct (m & ? & ? & ? & ?).
      exists m. split_and!; [done|done|congruence|lia].
    + constructor; [|done]. intros Hin.
      apply list_elem_of_fmap in Hin as (ct & Heq & Hin).
      rewrite Forall_forall in Hall. destruct (Hall ct Hin) as (m & Hm & Hmok & Hms & Hmc).
      assert (nonce_count n = nonce_count m); [|lia].
      apply nonce_value_inj; congruence.
Qed.

(** ** Properties *)

(** C8. In every state the EVM can drive the context to, the contract in use
    has its storage cipher keyed by its own state key and has a storage
    nonce, a session nonce comes with a peer, the previous block hash is the
    one of the block, and [is_encrypting] holds exactly when a contract is in
    use. *)
Theorem reachable_invariant p prev self :
  reachable p prev self ->
  prev_block_hash self = prev /\ ctx_wf self /\
  (is_encrypting self = true <-> is_Some (contract self)).
Proof.
  intros Hr. pose proof (reachable_wf _ _ _ Hr). split_and!.
  - by eapply reachable_prev.
  - done.
  - by apply is_encrypting_contract.
Qed.

(** While the context encrypts, none of the [expect] calls of the three
    storage methods can fail: sealing a key, sealing a value and opening a
    value, however malformed, end in a value or an error, never a panic. *)
Theorem storage_methods_do_not_panic p prev self k v :
  reachable p prev self -> is_encrypting self = true ->
  panics (encrypt_storage_key self v) = false /\
  panics (encrypt_storage_value k v self).1 = false /\
  panics (decrypt_storage_value self k v) = false.
Proof.
  intros Hr Henc. pose proof (reachable_wf _ _ _ Hr) as Hwf.
  apply is_encrypting_contract in Henc as [c Hc]; [|done].
  destruct Hwf as [Hwf _]. rewrite Hc in Hwf. destruct Hwf as (_ & Hd & n & Hn).
  split_and!.
  - unfold encrypt_storage_key. by rewrite Hd.
  - rewrite encrypt_storage_value_run, Hn, Hd. simpl.
    pose proof (nonce_increment_panics n). by destruct (nonce_increment n).1.
  - unfold decrypt_storage_value. case_match eqn:Hlen; [done|].
    apply Z.ltb_ge in Hlen. rewrite !slice_in_bounds by (unfold len in *; lia).
    cbn [obind]. rewrite Hd. cbn [expect obind]. rewrite map_err_panics. apply d2_open_panics.
Qed.

(** C9. Contract storage round trip: what one context seals under a storage
    key, any context using the same contract opens under that storage key,
    also in a later block; and the sealed value is longer than the value by
    exactly the tag and the nonce. *)
Theorem storage_roundtrip p prev prev' self other k v ct self' :
  reachable p prev self -> reachable p prev' other ->
  contract other = contract self ->
  encrypt_storage_value k v self = (Ok ct, self') ->
  decrypt_storage_value other k ct = Ok v /\
  length ct = length v + tag_size + nonce_size.
Proof.
  intros Hr Hr' Hc Hrun.
  apply reachable_wf in Hr as [Hwf _], Hr' as [Hwf' _].
  apply encrypt_storage_value_Ok in Hrun as (n & n' & c & Hn & Hd & _ & -> & _).
  rewrite Hc in Hwf'. destruct (contract self); [|destruct Hwf; congruence].
  split.
  - apply decrypt_storage_value_split; [|apply nonce_value_length].
    destruct Hwf as (_ & ? & _), Hwf' as (_ & ? & _). congruence.
  - by rewrite length_app, d2_seal_length, nonce_value_length.
Qed.

(** C10. Storage integrity: the only texts that open under a storage key are
    those sealed with the contract's state key for that very storage key, so
    a value moved to another key or altered is rejected. *)
Theorem storage_integrity self k data v :
  decrypt_storage_value self k data = Ok v ->
  exists c n, d2 self = Some c /\ length n = nonce_size /\ data = d2_seal c n v k ++ n.
Proof.
  unfold decrypt_storage_value. intros H. case_match eqn:Hlen; [done|].
  apply Z.ltb_ge in Hlen. apply obind_Ok in H as (n & Hn & H).
  apply obind_Ok in H as (ct & Hct & H).
  apply slice_Ok in Hn as (_ & _ & Hl & Hn), Hct as (_ & _ & _ & ->).
  destruct (d2 self) as [c|]; [|done]. cbn [expect obind] in H.
  apply map_err_Ok, d2_open_sound in H.
  exists c, n. split_and!; [done|unfold len in *; lia|].
  rewrite <- H, drop_0, Z.sub_0_r, Hn, (take_ge (drop _ data)).
  - by rewrite take_drop.
  - unfold len in *. rewrite length_drop. lia.
Qed.

(** Encrypted storage keys address storage: within one contract the sealed
    key is the same in every block and after any other calls, so what was
    written under it can be found again, and different keys are sealed
    differently, so they do not share a slot. *)
Theorem storage_keys_stable p prev prev' self other k k' :
  reachable p prev self -> reachable p prev' other ->
  contract other = contract self -> is_encrypting self = true ->
  is_ok (encrypt_storage_key self k) = true /\
  (encrypt_storage_key other k' = encrypt_storage_key self k <-> k' = k).
Proof.
  intros Hr Hr' Hc He. apply reachable_wf in Hr, Hr'.
  apply is_encrypting_contract in He as [c Hself]; [|done].
  destruct Hr as [Hwf _], Hr' as [Hwf' _]. rewrite Hc, Hself in Hwf'. rewrite Hself in Hwf.
  destruct Hwf as (_ & Hd & _), Hwf' as (_ & Hd' & _).
  unfold encrypt_storage_key. rewrite Hd, Hd'. cbn [expect obind]. split; [done|].
  split; [|by intros ->]. intros [= Hseal].
  pose proof (d2_open_seal (d2_new (state_key c.2)) (replicate nonce_size x00) k []) as Ho.
  rewrite <- Hseal, d2_open_seal in Ho. by injection Ho.
Qed.

(** C12. No storage nonce is used twice while a contract stays in use: after an
    activation, the nonces at the end of the values sealed by any number of
    storage writes are pairwise distinct. *)
Theorem storage_nonces_distinct keys a self old self1 kvs cs self2 :
  (forall id k, keys id = Ok k -> length (state_key k) = key_size) ->
  activate keys (Some a) self = (Ok old, self1) ->
  encrypt_storage_values kvs self1 = (Ok cs, self2) ->
  NoDup (storage_nonce_of_value <$> cs).
Proof.
  intros Hk Hact Hrun. rewrite activate_eq in Hact by done.
  destruct (keys (keccak a)) as [k| |]; simplify_eq.
  destruct (nonce_new_ok (storage_nonce_start (prev_block_hash self) a)) as (Hok & _ & _);
    [apply storage_nonce_start_length|].
  by eapply encrypt_storage_values_counts in Hrun as [_ Hrun].
Qed.

(** Every switch to a contract restarts its storage nonce at
    H(prev_block_hash || address)[:11] || 0: the first value sealed after any
    activation carries that nonce, whatever was sealed for the same contract
    before, so two activations of a contract in a block reuse nonces. *)
Theorem activation_restarts_storage_nonce keys a self old self1 k v ct self2 :
  (forall id k, keys id = Ok k -> length (state_key k) = key_size) ->
  activate keys (Some a) self = (Ok old, self1) ->
  encrypt_storage_value k v self1 = (Ok ct, self2) ->
  storage_nonce_of_value ct = storage_nonce_start (prev_block_hash self) a.
Proof.
  intros Hk Hact Hrun. rewrite activate_eq in Hact by done.
  destruct (keys (keccak a)) as [key| |]; simplify_eq.
  apply encrypt_storage_value_Ok in Hrun as (n & n' & c & Hn & _ & _ & -> & _).
  simpl in Hn. simplify_eq. rewrite storage_nonce_of_sealed by apply nonce_value_length.
  apply nonce_value_new, storage_nonce_start_length.
Qed.

(** C13. Session round trip: a message the contract's context seals for its
    peer is opened by the peer's context, which then knows the contract as
    its peer and will answer under the next nonce. *)
Theorem session_roundtrip p data self payload self' other a keys a' keys' n n' :
  (len payload < u64_modulus)%Z ->
  contract self = Some (a, keys) -> input_pk keys = public_of (input_sk keys) ->
  contract other = Some (a', keys') ->
  peer_public_key self = Some (public_of (input_sk keys')) ->
  next_nonce self = Some n ->
  nonce_increment (nonce_new (nonce_value n)) = (Ok tt, n') ->
  encrypt_session data self = (Ok payload, self') ->
  decrypt_session p payload other =
    (Ok {| decrypted_data := data; additional_data := [] |},
     set_next_nonce (Some n') (set_peer_public_key (Some (input_pk keys)) other)) /\
  self' = set_next_nonce (Some (nonce_increment n).2) self.
Proof.
  intros Hmax Hc Hpk Hc' Hp Hn Hinc Hrun.
  rewrite encrypt_session_run, Hp, Hc, Hn in Hrun.
  destruct (WireFormat.encrypt _ _ _ _ _ _) as [payload'| |] eqn:He; simplify_eq.
  destruct ((nonce_increment n).1) eqn:Hi; simplify_eq. split; [|done].
  rewrite Hpk in He |- *. rewrite decrypt_session_run, Hc'.
  by erewrite WireFormat.decrypt_encrypted by done; simpl; rewrite Hinc.
Qed.

End lemmas.
End confidential_ctx.

#[global] Arguments swap_contract : simpl never.
#[global] Arguments activate : simpl never.
#[global] Arguments encrypt_session : simpl never.
#[global] Arguments decrypt_session : simpl never.
#[global] Arguments encrypt_storage_value : simpl never.

(** ** Witnesses *)

Module Witness.
#[local] Existing Instance Model.ops.

Definition keys_a : KeyPair := {|
  input_pk := Model.fixed_from 32 (replicate 32 x42);
  input_sk := Model.fixed_from 32 (replicate 32 x42);
  state_key := replicate 32 x61
|}.
Definition keys_b : KeyPair := {|
  input_pk := Model.fixed_from 32 (replicate 32 x43);
  input_sk := Model.fixed_from 32 (replicate 32 x43);
  state_key := replicate 32 x62
|}.
Definition key_manager : bytes -> outcome string KeyPair := fun _ => Ok keys_a.
Definition address_a : Address := replicate 20 x01.
Definition prev_hash : H256 := replicate 32 x07.

Definition ctx0 : ConfidentialCtx := new prev_hash.
Definition ctx1 : ConfidentialCtx := (activate key_manager (Some address_a) ctx0).2.
Definition sealed : bytes :=
  from_ok [] (encrypt_storage_value (str "slot") (str "value") ctx1).1.

Lemma key_manager_ok id k : key_manager id = Ok k -> length (state_key k) = key_size.
Proof. unfold key_manager. intros H. injection H as <-. reflexivity. Qed.

Lemma ctx1_reachable : reachable Release prev_hash ctx1.
Proof.
  eapply rtc_once, (step_activate Release key_manager (Some address_a) ctx0);
    [apply key_manager_ok|apply surjective_pairing|].
  vm_compute. reflexivity.
Qed.

Lemma reachable_invariant_witness :
  prev_block_hash ctx1 = prev_hash /\ ctx_wf ctx1 /\
  (is_encrypting ctx1 = true <-> is_Some (contract ctx1)).
Proof. apply (@reachable_invariant Model.ops Model.laws Release), ctx1_reachable. Defined.

Lemma storage_methods_do_not_panic_witness :
  panics (encrypt_storage_key ctx1 (str "v")) = false /\
  panics (encrypt_storage_value (str "k") (str "v") ctx1).1 = false /\
  panics (decrypt_storage_value ctx1 (str "k") (str "v")) = false.
Proof.
  apply (@storage_methods_do_not_panic Model.ops Model.laws Release prev_hash ctx1).
  - apply ctx1_reachable.
  - vm_compute. reflexivity.
Defined.

Lemma storage_roundtrip_witness :
  decrypt_storage_value ctx1 (str "slot") sealed = Ok (str "value") /\
  length sealed = length (str "value") + 16 + 15.
Proof.
  apply (@storage_roundtrip Model.ops Model.laws Release prev_hash prev_hash ctx1 ctx1
    (str "slot") (str "value") sealed
    (encrypt_storage_value (str "slot") (str "value") ctx1).2).
  - apply ctx1_reachable.
  - apply ctx1_reachable.
  - reflexivity.
  - apply stateful_is_ok. vm_compute. reflexivity.
Defined.

Lemma storage_integrity_witness :
  exists c n, d2 ctx1 = Some c /\ length n = 15 /\
    sealed = d2_seal c n (str "value") (str "slot") ++ n.
Proof.
  apply (@storage_integrity Model.ops Model.laws ctx1 (str "slot") sealed (str "value")).
  vm_compute. reflexivity.
Defined.

(** The same contract in another block. *)
Definition ctx_later : ConfidentialCtx :=
  (activate key_manager (Some address_a) (new (replicate 32 x08))).2.

Lemma ctx_later_reachable : reachable Release (replicate 32 x08) ctx_later.
Proof.
  eapply rtc_once, (step_activate Release key_manager (Some address_a) (new (replicate 32 x08)));
    [apply key_manager_ok|apply surjective_pairing|].
  vm_compute. reflexivity.
Qed.

Lemma ctx_contract prev :
  contract (activate key_manager (Some address_a) (new prev)).2 = Some (address_a, keys_a).
Proof. by rewrite (@activate_eq Model.ops Model.laws) by apply key_manager_ok. Qed.

Lemma storage_keys_stable_witness :
  encrypt_storage_key ctx_later (str "slot") = encrypt_storage_key ctx1 (str "slot").
Proof.
  apply (@storage_keys_stable Model.ops Model.laws Release prev_hash (replicate 32 x08)
    ctx1 ctx_later (str "slot") (str "slot")).
  - apply ctx1_reachable.
  - apply ctx_later_reachable.
  - etransitivity; [apply ctx_contract|symmetry; apply ctx_contract].
  - vm_compute. reflexivity.
  - reflexivity.
Defined.

Definition writes : list (bytes * bytes) :=
  [(str "a", str "1"); (str "b", str "2"); (str "a", str "3")].
Definition written : list bytes := from_ok [] (encrypt_storage_values writes ctx1).1.

Lemma storage_nonces_distinct_witness :
  length written = 3 /\ NoDup (storage_nonce_of_value <$> written).
Proof.
  split; [vm_compute; reflexivity|].
  apply (@storage_nonces_distinct Model.ops Model.laws key_manager address_a ctx0 None ctx1
    writes written (encrypt_storage_values writes ctx1).2 key_manager_ok).
  - reflexivity.
  - apply stateful_is_ok. vm_compute. reflexivity.
Defined.

(** The context seals a value for contract [a], is activated again for it in
    the same block, and seals under the same nonce. *)
Definition ctx2 : ConfidentialCtx :=
  (activate key_manager (Some address_a)
     (encrypt_storage_value (str "slot") (str "value") ctx1).2).2.
Definition sealed_again : bytes :=
  from_ok [] (encrypt_storage_value (str "slot") (str "other") ctx2).1.

Lemma activation_restarts_storage_nonce_witness :
  storage_nonce_of_value sealed_again = storage_nonce_start prev_hash address_a /\
  storage_nonce_of_value sealed_again = storage_nonce_of_value sealed.
Proof.
  split; [|vm_compute; reflexivity].
  apply (@activation_restarts_storage_nonce Model.ops Model.laws key_manager address_a
    (encrypt_storage_value (str "slot") (str "value") ctx1).2 (Some address_a) ctx2
    (str "slot") (str "other") sealed_again
    (encrypt_storage_value (str "slot") (str "other") ctx2).2 key_manager_ok).
  - reflexivity.
  - apply stateful_is_ok. vm_compute. reflexivity.
Defined.

(** The two ends of a session: the contract, and a client with its own keys. *)
Definition enclave : ConfidentialCtx :=
  set_next_nonce (Some (nonce_new (replicate 15 x00)))
    (set_peer_public_key (Some (input_pk keys_b)) ctx1).
Definition client : ConfidentialCtx :=
  set_contract (Some (address_a, keys_b)) (set_activated true ctx0).
Definition message : bytes := from_ok [] (encrypt_session (str "hello") enclave).1.

Lemma session_roundtrip_witness :
  decrypt_session Release message client =
    (Ok {| decrypted_data := str "hello"; additional_data := [] |},
     set_next_nonce (Some (nonce_increment (nonce_new (replicate 15 x00))).2)
       (set_peer_public_key (Some (input_pk keys_a)) client)) /\
  (encrypt_session (str "hello") enclave).2 =
  set_next_nonce (Some (nonce_increment (nonce_new (replicate 15 x00))).2) enclave.
Proof.
  apply (@session_roundtrip Model.ops Model.laws Release (str "hello") enclave message
    (encrypt_session (str "hello") enclave).2
    client address_a keys_a address_a keys_b (nonce_new (replicate 15 x00))).
  - vm_compute. reflexivity.
  - reflexivity.
  - reflexivity.
  - reflexivity.
  - reflexivity.
  - reflexivity.
  - reflexivity.
  - apply stateful_is_ok. vm_compute. reflexivity.
Defined.

End Witness.
