(* ===== verification/ConfidentialStore.v ===== *)
(** * Confidential storage as a map

    The contract between the confidential context ([ConfidentialCtx]) and the
    Ethereum state above it: the state keeps, for every contract, sealed
    values under sealed keys, and drives the context through the blocks, the
    contracts it switches to, the reads and the writes.  [Store] is this use
    of the context, [Plain] the map without encryption that it promises. *)

From Stdlib Require Import ZArith Lia Strings.Byte.
From stdpp Require Import base gmap strings option list.
From S2P Require Import Prelude Crypto ConfidentialCtx.

Section store.
Context {M : Mrae}.

Inductive op :=
| NextBlock (prev_block_hash : H256)
| Activate (contract : option Address)
| Deactivate
| Put (key value : bytes)
| Get (key : bytes).

(** The context of the block, and the sealed values of every contract. *)
Record Store := {
  ctx : ConfidentialCtx;
  slots : gmap (Address * bytes) bytes
}.

Definition set_ctx (c : ConfidentialCtx) (self : Store) : Store :=
  {| ctx := c; slots := slots self |}.

(** The contract whose storage is encrypted; without one, storage does not go
    through the context. *)
Definition in_use (c : ConfidentialCtx) : option Address :=
  if is_encrypting c then fst <$> contract c else None.

Section exec.
Context (get_or_create_keys : bytes -> outcome string KeyPair).

Definition exec (o : op) : stateful Store VmError (option bytes) := fun self =>
  match o with
  | NextBlock prev => (Ok None, set_ctx (new prev) self)
  | Activate contract =>
      let '(r, c) := activate get_or_create_keys contract (ctx self) in
      (omap_ok (fun _ => None) r, set_ctx c self)
  | Deactivate => (Ok None, set_ctx (deactivate (ctx self)) self)
  | Put key value =>
      match in_use (ctx self) with
      | None => (Ok None, self)
      | Some a =>
          match encrypt_storage_key (ctx self) key with
          | Ok sealed_key =>
              let '(r, c) := encrypt_storage_value sealed_key value (ctx self) in
              match r with
              | Ok sealed => (Ok None, {| ctx := c; slots := <[(a, sealed_key) := sealed]> (slots self) |})
              | Err e => (Err e, set_ctx c self)
              | Panic => (Panic, self)
              end
          | Err e => (Err e, self)
          | Panic => (Panic, self)
          end
      end
  | Get key =>
      match in_use (ctx self) with
      | None => (Ok None, self)
      | Some a =>
          (let? sealed_key := encrypt_storage_key (ctx self) key in
           match slots self !! (a, sealed_key) with
           | None => Ok None
           | Some sealed => omap_ok Some (decrypt_storage_value (ctx self) sealed_key sealed)
           end, self)
      end
  end.

(** A run goes on after an operation that fails. *)
Fixpoint run_ops (ops : list op) (self : Store)
  : list (outcome VmError (option bytes)) * Store :=
  match ops with
  | [] => ([], self)
  | o :: ops' =>
      let '(r, self1) := exec o self in
      let '(rs, self2) := run_ops ops' self1 in
      (r :: rs, self2)
  end.

End exec.

(** ** Specification *)

(** The contract in use and the values by contract and key. *)
Record Plain := {
  current : option Address;
  values : gmap (Address * bytes) bytes
}.

(** An operation that fails changes nothing. *)
Definition plain_exec (o : op) (ok : bool) (self : Plain) : option bytes * Plain :=
  match o with
  | NextBlock _ | Deactivate => (None, {| current := None; values := values self |})
  | Activate contract =>
      (None, if ok then {| current := contract; values := values self |} else self)
  | Put key value =>
      (None, match current self with
             | Some a =>
                 if ok then {| current := Some a; values := <[(a, key) := value]> (values self) |}
                 else self
             | None => self
             end)
  | Get key => (current self ≫= (fun a => values self !! (a, key)), self)
  end.

(** The outcomes a plain map allows: an answer is the map's; only the key
    manager and an exhausted nonce make an operation fail, and never a read. *)
Definition allows (o : op) (r : outcome VmError (option bytes)) (answer : option bytes) : Prop :=
  match r with
  | Ok x => x = answer
  | Err _ => match o with Activate (Some _) | Put _ _ => True | _ => False end
  | Panic => False
  end.

Fixpoint plain_run (ops : list op) (rs : list (outcome VmError (option bytes))) (self : Plain)
  : Prop :=
  match ops, rs with
  | [], [] => True
  | o :: ops', r :: rs' =>
      let '(answer, self') := plain_exec o (is_ok r) self in
      allows o r answer /\ plain_run ops' rs' self'
  | _, _ => False
  end.

(** ** Lemmas *)

Section lemmas.
Context {L : MraeLaws M} (keys : bytes -> outcome string KeyPair).
Context (keys_total : forall id, panics (keys id) = false)
  (keys_size : forall id k, keys id = Ok k -> length (state_key k) = key_size).

(** The sealed form of a key under the keys of a contract. *)
Definition seal_key (ks : KeyPair) (key : bytes) : bytes :=
  d2_seal (d2_new (state_key ks)) (replicate nonce_size x00) key [].

Lemma seal_key_inj ks key key' : seal_key ks key = seal_key ks key' -> key = key'.
Proof.
  unfold seal_key. intros Hs.
  pose proof (d2_open_seal (d2_new (state_key ks)) (replicate nonce_size x00) key []) as Ho.
  rewrite Hs, d2_open_seal in Ho. by injection Ho.
Qed.

(** The contract in use has the keys the key manager gives for it. *)
Definition keyed (c : ConfidentialCtx) : Prop :=
  ctx_wf c /\ forall a ks, contract c = Some (a, ks) -> keys (keccak a) = Ok ks.

(** A slot holds, sealed under its key, the value of the plain map. *)
Definition slot_holds (ks : KeyPair) (key : bytes) (slot value : option bytes) : Prop :=
  match slot with
  | None => value = None
  | Some sealed => exists v n, value = Some v /\ length n = nonce_size /\
      sealed = d2_seal (d2_new (state_key ks)) n v (seal_key ks key) ++ n
  end.

(** The store holds, sealed, what the plain map holds. *)
Record represents (self : Store) (plain : Plain) : Prop := {
  rep_keyed : keyed (ctx self);
  rep_current : in_use (ctx self) = current plain;
  rep_slots a ks key : keys (keccak a) = Ok ks ->
    slot_holds ks key (slots self !! (a, seal_key ks key)) (values plain !! (a, key))
}.

Lemma in_use_contract c : ctx_wf c -> in_use c = fst <$> contract c.
Proof.
  intros [Hwf _]. unfold in_use, is_encrypting, activated.
  destruct (contract c) as [k|]; [destruct Hwf as [-> _]; done|].
  by rewrite andb_false_r.
Qed.

(** What the storage methods work with while a contract is in use. *)
Lemma in_use_keyed c a :
  keyed c -> in_use c = Some a -> exists ks,
    contract c = Some (a, ks) /\ keys (keccak a) = Ok ks /\ d2 c = Some (d2_new (state_key ks)) /\
    forall key, encrypt_storage_key c key = Ok (seal_key ks key).
Proof.
  intros [Hwf Hk] Hu. rewrite in_use_contract in Hu by done.
  destruct (contract c) as [[a' ks]|] eqn:Hc; [|done]. injection Hu as ->.
  destruct Hwf as [Hwf _]. rewrite Hc in Hwf. destruct Hwf as (_ & Hd & _). exists ks.
  split_and!; [done|by apply Hk|done|]. intros key. unfold encrypt_storage_key. by rewrite Hd.
Qed.

(** Operations on the context alone keep the slots. *)
Lemma represents_ctx self plain c cur :
  represents self plain -> keyed c -> in_use c = cur ->
  represents (set_ctx c self) {| current := cur; values := values plain |}.
Proof. intros [_ _ Hs] Hk Hu. by constructor. Qed.

Lemma keyed_new prev : keyed (new prev).
Proof. split; [split; [done|by intros [? ?]]|done]. Qed.

Lemma exec_activate contract self plain r self' :
  represents self plain -> exec keys (Activate contract) self = (r, self') ->
  let '(answer, plain') := plain_exec (Activate contract) (is_ok r) plain in
  allows (Activate contract) r answer /\ represents self' plain'.
Proof.
  intros Hr Hrun. cbn [exec] in Hrun. pose proof (rep_keyed _ _ Hr) as [Hwf Hk].
  rewrite activate_eq in Hrun by done. cbn [plain_exec].
  assert (ctx_wf (set_activated true (ctx self))) as Hwf1 by by apply wf_set_activated.
  destruct contract as [a|].
  - pose proof (keys_total (keccak a)) as Ht. destruct (keys (keccak a)) as [ks|e|] eqn:Hka; [| |done];
      injection Hrun as <- <-; (split; [done|]).
    + apply (represents_ctx _ plain); [done| |].
      * split; [by apply wf_swapped|]. intros a' ks' [= <- <-]. done.
      * by rewrite in_use_contract by by apply wf_swapped.
    + destruct plain as [cur vs]. apply (represents_ctx _ {| current := cur; values := vs |}); [done| |].
      * by split.
      * rewrite in_use_contract by done.
        change cur with (current {| current := cur; values := vs |}).
        rewrite <- (rep_current _ _ Hr).
        by rewrite in_use_contract by done.
  - injection Hrun as <- <-. split; [done|]. apply (represents_ctx _ plain); [done| |].
    + by split; [apply wf_swapped|].
    + by rewrite in_use_contract by by apply wf_swapped.
Qed.

(** A write changes the slot of its contract and key and no other. *)
Lemma represents_put (a a' : Address) (ks ks' : KeyPair) (key key' value : bytes) (n : Nonce)
    (sl vs : gmap (Address * bytes) bytes) :
  keys (keccak a) = Ok ks -> keys (keccak a') = Ok ks' ->
  slot_holds ks' key' (sl !! (a', seal_key ks' key')) (vs !! (a', key')) ->
  slot_holds ks' key'
    (<[(a, seal_key ks key) :=
       d2_seal (d2_new (state_key ks)) (nonce_value n) value (seal_key ks key) ++ nonce_value n]> sl
     !! (a', seal_key ks' key'))
    (<[(a, key) := value]> vs !! (a', key')).
Proof.
  intros Ha Ha' Hold. destruct (decide (a' = a /\ key' = key)) as [[-> ->]|Hne].
  - rewrite Ha in Ha'. injection Ha' as <-. rewrite !lookup_insert_eq.
    exists value, (nonce_value n). split_and!; [done|apply nonce_value_length|done].
  - rewrite !lookup_insert_ne; [done|by intros [= <- <-]; destruct Hne|]. intros Hs.
    injection Hs as <- Hs. rewrite Ha in Ha'. injection Ha' as <-.
    apply seal_key_inj in Hs as <-. by destruct Hne.
Qed.

Lemma exec_put key value self plain r self' :
  represents self plain -> exec keys (Put key value) self = (r, self') ->
  let '(answer, plain') := plain_exec (Put key value) (is_ok r) plain in
  allows (Put key value) r answer /\ represents self' plain'.
Proof.
  intros Hr Hrun. cbn [exec plain_exec] in *. rewrite <- (rep_current _ _ Hr).
  pose proof (rep_keyed _ _ Hr) as Hkd.
  destruct (in_use (ctx self)) as [a|] eqn:Hu; [|injection Hrun as <- <-; done].
  destruct (in_use_keyed _ _ Hkd Hu) as (ks & Hc & Hka & Hd & Hseal). rewrite Hseal in Hrun.
  rewrite encrypt_storage_value_run, Hd in Hrun.
  pose proof Hkd as [[Hwf Hwf2] Hk]. pose proof Hwf as Hwf'. rewrite Hc in Hwf'.
  destruct Hwf' as (_ & _ & n & Hn). rewrite Hn in Hrun.
  assert (keyed (set_next_storage_nonce (Some (nonce_increment n).2) (ctx self))) as Hkd'.
  { split; [by eapply wf_set_storage_nonce|done]. }
  assert (in_use (set_next_storage_nonce (Some (nonce_increment n).2) (ctx self)) = Some a) as Hu'.
  { rewrite in_use_contract by apply Hkd'. cbn. by rewrite Hc. }
  destruct (nonce_increment n).1 as [[]|e|] eqn:Hi.
  - injection Hrun as <- <-. cbn [is_ok allows]. split; [done|]. constructor; [done|done|].
    intros a' ks' key' Hks'. apply represents_put; [done|done|].
    apply (rep_slots _ _ Hr). done.
  - injection Hrun as <- <-. cbn [is_ok allows]. split; [done|].
    constructor; [done|by rewrite <- (rep_current _ _ Hr)|apply (rep_slots _ _ Hr)].
  - pose proof (nonce_increment_panics n) as Hp. by rewrite Hi in Hp.
Qed.

Lemma exec_get key self plain r self' :
  represents self plain -> exec keys (Get key) self = (r, self') ->
  let '(answer, plain') := plain_exec (Get key) (is_ok r) plain in
  allows (Get key) r answer /\ represents self' plain'.
Proof.
  intros Hr Hrun. cbn [exec plain_exec] in *. rewrite <- (rep_current _ _ Hr).
  pose proof (rep_keyed _ _ Hr) as Hkd.
  destruct (in_use (ctx self)) as [a|] eqn:Hu; injection Hrun as <- <-; [|done].
  split; [|done]. destruct (in_use_keyed _ _ Hkd Hu) as (ks & Hc & Hka & Hd & Hseal).
  rewrite Hseal. cbn [obind mbind option_bind]. pose proof (rep_slots _ _ Hr a ks key Hka) as Hs.
  destruct (slots self !! (a, seal_key ks key)) as [sealed|]; [|by cbn; rewrite Hs].
  destruct Hs as (v & n & Hv & Hn & ->).
  rewrite (decrypt_storage_value_split _ _ _ _ _ Hd Hn). by rewrite Hv.
Qed.

Lemma exec_refines o self plain r self' :
  represents self plain -> exec keys o self = (r, self') ->
  let '(answer, plain') := plain_exec o (is_ok r) plain in
  allows o r answer /\ represents self' plain'.
Proof.
  intros Hr. destruct o as [prev|contract| |key value|key].
  - intros [= <- <-]. split; [done|]. by apply (represents_ctx _ plain); [|apply keyed_new|].
  - by apply exec_activate.
  - intros [= <- <-]. split; [done|].
    apply (represents_ctx _ plain); [done|apply (keyed_new (prev_block_hash (ctx self)))|done].
  - by apply exec_put.
  - by apply exec_get.
Qed.

Lemma run_refines ops self plain rs self' :
  represents self plain -> run_ops keys ops self = (rs, self') -> plain_run ops rs plain.
Proof.
  revert self plain rs. induction ops as [|o ops IH]; intros self plain rs Hr Hrun.
  - by injection Hrun as <- _.
  - cbn [run_ops] in Hrun. destruct (exec keys o self) as [r self1] eqn:Ho.
    destruct (run_ops keys ops self1) as [rs' self2] eqn:Hops. injection Hrun as <- <-.
    pose proof (exec_refines _ _ _ _ _ Hr Ho) as Hstep. cbn [plain_run].
    destruct (plain_exec o (is_ok r) plain) as [answer plain']. destruct Hstep as [Ha Hr1].
    split; [done|]. by eapply IH.
Qed.

Lemma represents_empty prev :
  represents {| ctx := new prev; slots := ∅ |} {| current := None; values := ∅ |}.
Proof.
  constructor; [apply keyed_new|done|]. intros a ks key _. cbn [slots values].
  by rewrite !lookup_empty.
Qed.

(** C11. Confidential storage is a map: drive the context from a new block
    through any blocks, activations (also failed ones), deactivations, reads
    and writes of any contracts, keeping each value sealed under its sealed
    key.  No call panics, every read gives the value last written
    successfully by that contract under that key, in whichever block, or
    nothing if there is none, and never fails; only the key manager or an
    exhausted storage nonce make an activation or a write fail, and then
    nothing changes. *)
Theorem store_refines_map ops prev :
  plain_run ops (run_ops keys ops {| ctx := new prev; slots := ∅ |}).1
    {| current := None; values := ∅ |}.
Proof.
  eapply run_refines; [apply represents_empty|apply surjective_pairing].
Qed.

End lemmas.
End store.

(** ** Witnesses *)

Module Witness.
#[local] Existing Instance Model.ops.

(** Two contracts with their own keys, and one the key manager refuses. *)
Definition address_b : Address := replicate 20 x02.
Definition address_c : Address := replicate 20 x03.

Definition key_manager : bytes -> outcome string KeyPair := fun id =>
  if decide (id = keccak ConfidentialCtx.Witness.address_a) then Ok ConfidentialCtx.Witness.keys_a
  else if decide (id = keccak address_b) then Ok ConfidentialCtx.Witness.keys_b
  else Err "refused"%string.

Lemma key_manager_total id : panics (key_manager id) = false.
Proof. unfold key_manager. by repeat case_decide. Qed.

Lemma key_manager_size id k : key_manager id = Ok k -> length (state_key k) = key_size.
Proof.
  unfold key_manager. intros H.
  repeat case_decide; [injection H as <-; reflexivity|injection H as <-; reflexivity|done].
Qed.

(** The same key of two contracts, written and read over two blocks; the
    failed activation keeps the first contract, an overwrite is read back, and
    nothing is read outside a contract. *)
Definition ops : list op :=
  [Get (str "k"); Activate (Some ConfidentialCtx.Witness.address_a); Put (str "k") (str "a1");
   Activate (Some address_b); Get (str "k"); Put (str "k") (str "b1");
   NextBlock (replicate 32 x08); Activate (Some ConfidentialCtx.Witness.address_a);
   Activate (Some address_c); Get (str "k"); Put (str "k") (str "a2"); Get (str "k");
   Activate (Some address_b); Get (str "k"); Deactivate; Get (str "k")].

Definition results : list (outcome VmError (option bytes)) :=
  (run_ops key_manager ops {| ctx := new ConfidentialCtx.Witness.prev_hash; slots := ∅ |}).1.

Lemma store_refines_map_witness :
  from_ok None <$> results =
    [None; None; None; None; None; None; None; None; None; Some (str "a1"); None; Some (str "a2");
     None; Some (str "b1"); None; None] /\
  plain_run ops results {| current := None; values := ∅ |}.
Proof.
  split; [vm_compute; reflexivity|].
  apply (@store_refines_map Model.ops Model.laws key_manager key_manager_total key_manager_size).
Defined.

End Witness.
