(* ===== verification/Ethcore.v ===== *)
(** * The Ethereum library the runtime and the gateway call

    Transactions, receipts and the state are those of [ethcore] and
    [ethereum_types], which are not part of this repository.  The record and
    variant types below are the parts of the library's data the code reads;
    the class [Ethcore] holds the operations the code calls and
    [EthcoreLaws] the documented behaviour it relies on.  [EthModel] is one
    concrete implementation of both, used to evaluate the theorems. *)

From Stdlib Require Import ZArith Lia Strings.Byte.
From stdpp Require Import base list strings option.
From S2P Require Import Prelude Crypto.
From S2P Require ConfidentialCtx.

(** ** Data *)

Inductive Action := Create | Call (receiver : Address).

Record Transaction := {
  nonce : U256;
  gas_price : U256;
  gas : U256;
  action : Action;
  value : U256;
  data : bytes
}.

Record LogEntry := {
  address : Address;
  topics : list H256;
  log_data : bytes
}.

Inductive TransactionOutcome :=
| Unknown
| StateRoot (root : H256)
| StatusCode (code : Z).

Record Receipt := {
  receipt_gas_used : U256;
  receipt_log_bloom : bytes;
  receipt_logs : list LogEntry;
  receipt_outcome : TransactionOutcome
}.

Record ApplyOutcome := {
  receipt : Receipt;
  apply_output : bytes
}.

Record EnvInfo := {
  number : Z;
  author : Address;
  timestamp : Z;
  difficulty : U256;
  gas_limit : U256;
  last_hashes : list H256;
  gas_used : U256
}.

Definition set_gas_used (g : U256) (e : EnvInfo) : EnvInfo :=
  Build_EnvInfo (number e) (author e) (timestamp e) (difficulty e) (gas_limit e)
    (last_hashes e) g.

(** ** Operations *)

Class Ethcore {M : Mrae} := {
  UnverifiedTransaction : Type;
  SignedTransaction : Type;
  (** [rlp::decode] and the accessors of a decoded transaction. *)
  rlp_decode : bytes -> outcome string UnverifiedTransaction;
  as_unsigned : UnverifiedTransaction -> Transaction;
  unverified_hash : UnverifiedTransaction -> H256;
  (** [SignedTransaction::new] recovers the sender from the signature. *)
  signed_new : UnverifiedTransaction -> outcome string SignedTransaction;
  signed_tx : SignedTransaction -> Transaction;
  signed_hash : SignedTransaction -> H256;
  signed_sender : SignedTransaction -> Address;
  (** [-] and [+] on [U256]: [None] is the library's overflow panic. *)
  u256_sub : U256 -> U256 -> option U256;
  u256_add : U256 -> U256 -> option U256;
  (** [U256::saturating_mul]. *)
  u256_saturating_mul : U256 -> U256 -> U256;
  (** The state over the runtime's key-value store, for a confidential
      context: [State::from_existing], [apply] and [commit]. *)
  State : Type;
  state_from_existing : option ConfidentialCtx.ConfidentialCtx -> outcome string State;
  state_apply : EnvInfo -> SignedTransaction -> State -> outcome string ApplyOutcome * State;
  state_commit : State -> outcome string unit * State
}.

(** ** What the code relies on *)

Class EthcoreLaws {M : Mrae} (E : Ethcore) : Prop := {
  signed_new_tx u s : signed_new u = Ok s -> signed_tx s = as_unsigned u;
  gas_range s : (0 <= gas (signed_tx s) < u256_modulus)%Z;
  u256_sub_exact a b : (0 <= b <= a)%Z -> (a < u256_modulus)%Z -> u256_sub a b = Some (a - b)%Z;
  u256_add_exact a b : (0 <= a)%Z -> (0 <= b)%Z -> (a + b < u256_modulus)%Z ->
    u256_add a b = Some (a + b)%Z;
  u256_saturating_mul_exact a b : (0 <= a < u256_modulus)%Z -> (0 <= b < u256_modulus)%Z ->
    u256_saturating_mul a b = Z.min (a * b) u256_max;
  (** [apply] charges the transaction at most its gas on top of the gas used
      so far in the block, and reports the outcome by status code (EIP-658). *)
  state_apply_gas env t st o st' : state_apply env t st = (Ok o, st') ->
    (gas_used env <= receipt_gas_used (receipt o) <= gas_used env + gas (signed_tx t))%Z;
  state_apply_status env t st o st' : state_apply env t st = (Ok o, st') ->
    exists code, receipt_outcome (receipt o) = StatusCode code;
  state_apply_panics env t st : panics (state_apply env t st).1 = false
}.

(** ** A concrete implementation *)

Module EthModel.

(** A raw transaction is its gas, its gas price and an identifying byte; the
    state is the list of the identifying bytes applied so far. *)
Definition tx_of (id : byte) (g p : Z) : Transaction := {|
  nonce := 0;
  gas_price := p mod 256;
  gas := Z.min (Z.max 0 g) (2 ^ 64);
  action := Call (replicate 20 id);
  value := 0;
  data := [id]
|}.

Definition decode (b : bytes) : outcome string Transaction :=
  match b with
  | [id; p; g0; g1; g2; g3] =>
      Ok (tx_of id (from_le_bytes [g0; g1; g2; g3]) (Z_of_byte p))
  | _ => Err "RlpIsTooShort"%string
  end.

(** The signature of identifier [xff] does not verify, and applying
    identifier [xfe] fails. *)
Definition verify (t : Transaction) : outcome string Transaction :=
  if decide (data t = [xff]) then Err "InvalidSignature"%string else Ok t.

Definition clamp (t : Transaction) : Transaction :=
  {| nonce := nonce t; gas_price := gas_price t; gas := Z.min (Z.max 0 (gas t)) (2 ^ 64);
     action := action t; value := value t; data := data t |}.

Definition apply (env : EnvInfo) (t : Transaction) (st : list bytes)
  : outcome string ApplyOutcome * list bytes :=
  if decide (data t = [xfe]) then (Err "invalid nonce"%string, st)
  else
    (Ok {| receipt := {|
             receipt_gas_used := gas_used env + Z.min 21000 (gas (clamp t));
             receipt_log_bloom := [];
             receipt_logs := [{| address := replicate 20 x0a; topics := [data t];
                                 log_data := [] |}];
             receipt_outcome := StatusCode 1 |};
           apply_output := data t |},
     st ++ [data t]).

Section model.
Context {M : Mrae}.

#[local] Instance ops : Ethcore := {|
  UnverifiedTransaction := Transaction;
  SignedTransaction := Transaction;
  rlp_decode := decode;
  as_unsigned := clamp;
  unverified_hash := data;
  signed_new := fun t => verify (clamp t);
  signed_tx := clamp;
  signed_hash := data;
  signed_sender := fun _ => replicate 20 x0b;
  u256_sub := fun a b => if (b <=? a)%Z then Some (a - b)%Z else None;
  u256_add := fun a b => if (a + b <? u256_modulus)%Z then Some (a + b)%Z else None;
  u256_saturating_mul := fun a b => Z.min (a * b) u256_max;
  State := list bytes;
  state_from_existing := fun _ => Ok [];
  state_apply := apply;
  state_commit := fun st => (Ok tt, st)
|}.

Lemma clamp_idemp t : clamp (clamp t) = clamp t.
Proof. unfold clamp. simpl. f_equal. lia. Qed.

#[local] Instance laws : EthcoreLaws ops.
Proof.
  constructor; simpl.
  - intros u s Hs. unfold verify in Hs. case_decide; simplify_eq. apply clamp_idemp.
  - intros s. unfold u256_modulus. lia.
  - intros a b Hb Ha. by rewrite (proj2 (Z.leb_le _ _)) by lia.
  - intros a b Ha Hb Hab. by rewrite (proj2 (Z.ltb_lt _ _)) by lia.
  - done.
  - intros env t st o st' Ho. unfold apply in Ho. case_decide; simplify_eq/=. lia.
  - intros env t st o st' Ho. unfold apply in Ho. case_decide; simplify_eq/=. by eexists.
  - intros env t st. unfold apply. by case_decide.
Qed.

End model.
End EthModel.
