(* ===== verification/Api.v ===== *)
(** * Shared data types and constants ([api/src/api.rs], [common/src/lib.rs],
    [common/src/genesis.rs])

    What the runtime returns for a transaction, the errors it raises, and the
    constants both sides of the API agree on. *)

From Stdlib Require Import ZArith Lia Strings.Byte.
From stdpp Require Import base list strings option.
From S2P Require Import Prelude.

(** ** [common/src/lib.rs] *)

(** Block gas limit. *)
Definition BLOCK_GAS_LIMIT : Z := 16000000.
(** Minimum gas price (in gwei). *)
Definition MIN_GAS_PRICE_GWEI : Z := 1.

(** Ethereum transaction hash tag (value is the Ethereum transaction hash). *)
Definition TAG_ETH_TX_HASH : bytes := str "heth".
(** Ethereum log address tag. *)
Definition TAG_ETH_LOG_ADDRESS : bytes := str "ladd".
(** Ethereum log topic tags. *)
Definition TAG_ETH_LOG_TOPICS : list bytes := [str "ltp1"; str "ltp2"; str "ltp3"; str "ltp4"].

(** ** [common/src/genesis.rs] *)

Definition GAS_LIMIT : Z := BLOCK_GAS_LIMIT.

(** The chain specifications under [resources/genesis/]. *)
Inductive SpecJson := genesis_json | genesis_benchmarking_json | genesis_testing_json.

(** The features of the build that select one. *)
Record Features := { production_genesis : bool; benchmarking : bool }.

(** The block of [SPEC]: each [#[cfg]] attribute keeps or drops its [let],
    and a [let] that is kept shadows the ones before it.  [None] is a build
    that does not compile. *)
Definition spec_json (features : Features) : option SpecJson :=
  if production_genesis features && benchmarking features then None
  else
    let spec_json := None in
    let spec_json := if production_genesis features then Some genesis_json else spec_json in
    let spec_json := if benchmarking features then Some genesis_benchmarking_json else spec_json in
    let spec_json :=
      if negb (benchmarking features) then Some genesis_testing_json else spec_json in
    spec_json.

(** [Spec::load] is the library's. *)
Definition SPEC {Spec Er} (load : SpecJson -> outcome string Spec) (features : Features)
  : option (outcome Er Spec) :=
  (fun json => unwrap_ok (load json)) <$> spec_json features.

(** The production genesis is never the one a build uses: the feature that
    selects it is overridden by the testing genesis. *)
Theorem production_genesis_is_shadowed features json :
  spec_json features = Some json ->
  json <> genesis_json /\
  (production_genesis features = true -> json = genesis_testing_json).
Proof. destruct features as [[] []]; cbn; intros [= <-]; done. Qed.

(** ** [api/src/api.rs] *)

(** Name of the method which executes a transaction. *)
Definition METHOD_TX : string := "tx".

Record LogEntry := {
  log_address : Address;
  log_topics : list H256;
  log_data : bytes
}.

Record ExecutionResult := {
  cumulative_gas_used : U256;
  gas_used : U256;
  log_bloom : bytes;
  logs : list LogEntry;
  status_code : Z;
  output : bytes
}.

Inductive TransactionError :=
| BlockGasLimitReached
| DuplicateTransaction
| ExecutionFailure (message : string)
| GasPrice
| TooMuchGas.

#[global] Instance TransactionError_eq_decision : EqDecision TransactionError.
Proof. solve_decision. Defined.

(** The [Display] text each variant is declared with. *)
Definition display_transaction_error (e : TransactionError) : string :=
  match e with
  | BlockGasLimitReached => "block gas limit reached"
  | DuplicateTransaction => "duplicate transaction"
  | ExecutionFailure message => "execution failed: " +:+ message
  | GasPrice => "insufficient gas price"
  | TooMuchGas => "requested gas greater than block gas limit"
  end%string.

(** [anyhow::Error]: the concrete errors the code downcasts to, and the text
    of any other one. *)
Inductive AnyError :=
| ErrTransaction (e : TransactionError)
| ErrMethodNotFound (method : string)
| ErrCheckOnlySuccess
| ErrMsg (message : string).

#[global] Instance AnyError_eq_decision : EqDecision AnyError.
Proof. solve_decision. Defined.
