(* ===== verification/OasisCore.v ===== *)
(** * The Oasis Core runtime library the runtime is written against

    [oasis_core_runtime] is not part of this repository.  [TxnContext] holds
    the fields of its transaction context the code reads and the batch state
    the runtime stores in it; the class [OasisCore] holds the operations on
    the rest of the context and the CBOR conversions, [OasisCoreLaws] the
    documented behaviour the code relies on, [OasisModel] a concrete
    implementation of both. *)

From Stdlib Require Import ZArith Lia Strings.Byte.
From stdpp Require Import base countable strings option pretty list.
From S2P Require Import Prelude Api.

(** ** Data *)

Abbreviation Tag := (bytes * bytes)%type.

Record Header := {
  round : Z;
  header_timestamp : Z;
  previous_hash : H256;
  state_root : H256;
  io_root : H256
}.

Record TxnCall (Value : Type) := {
  method : string;
  args : Value
}.
Arguments method {Value} t.
Arguments args {Value} t.

Inductive TxnOutput (Value : Type) :=
| Success (v : Value)
| Error (message : string).
Arguments Success {Value} v.
Arguments Error {Value} message.

(** ** Operations *)

Class OasisCore := {
  (** The part of a transaction context that buffers tags and messages. *)
  Inner : Type;
  RoothashMessage : Type;
  emit_txn_tag : bytes -> bytes -> Inner -> Inner;
  take_tags : Inner -> list Tag * Inner;
  close : Inner -> list RoothashMessage;
  (** [cbor]. *)
  Value : Type;
  call_from_slice : bytes -> outcome string (TxnCall Value);
  bytes_from_value : Value -> outcome string bytes;
  result_to_value : ExecutionResult -> Value;
  result_from_value : Value -> outcome string ExecutionResult;
  output_to_vec : TxnOutput Value -> bytes;
  (** The value and the text of [CheckOnlySuccess::default()]. *)
  check_only_value : Value;
  check_only_message : string
}.

(** The text of an error, as [format!] gives it: that of its
    outermost context. *)
Definition display_any_error {O : OasisCore} (err : AnyError) : string :=
  match err with
  | ErrTransaction e => display_transaction_error e
  | ErrMethodNotFound method => "method not found: " +:+ method
  | ErrCheckOnlySuccess => check_only_message
  | ErrMsg message => message
  end.

(** ** What the code relies on *)

Class OasisCoreLaws (O : OasisCore) := {
  (** The tags emitted since they were last taken, in order. *)
  pending_tags : Inner -> list Tag;
  pending_emit k v c : pending_tags (emit_txn_tag k v c) = pending_tags c ++ [(k, v)];
  take_tags_all c : (take_tags c).1 = pending_tags c;
  pending_take c : pending_tags (take_tags c).2 = [];
  result_value_roundtrip r : result_from_value (result_to_value r) = Ok r
}.

(** ** A concrete implementation *)

Module OasisModel.

Inductive value := VBytes (b : bytes) | VResult (r : ExecutionResult) | VNull.

#[local] Instance LogEntry_eq_decision : EqDecision LogEntry.
Proof. solve_decision. Defined.
#[local] Instance ExecutionResult_eq_decision : EqDecision ExecutionResult.
Proof. solve_decision. Defined.
#[local] Instance value_eq_decision : EqDecision value.
Proof. solve_decision. Defined.

(** A call is the bytes of its argument after the length-prefixed method. *)
Definition call_of (b : bytes) : outcome string (TxnCall value) :=
  match b with
  | [] => Err "empty"%string
  | x :: b' =>
      Ok {| method := String.string_of_list_byte (take (Z.to_nat (Z_of_byte x)) b');
            args := VBytes (drop (Z.to_nat (Z_of_byte x)) b') |}
  end.

(** Outputs are encoded bit by bit, so that they can be read back. *)
Fixpoint bits (p : positive) : bytes :=
  match p with
  | xH => []
  | xO p => x00 :: bits p
  | xI p => x01 :: bits p
  end.

Fixpoint of_bits (b : bytes) : positive :=
  match b with
  | [] => xH
  | x00 :: b => xO (of_bits b)
  | _ :: b => xI (of_bits b)
  end.

Lemma of_bits_bits p : of_bits (bits p) = p.
Proof. induction p; simpl; congruence. Qed.

#[local] Instance LogEntry_countable : Countable LogEntry :=
  inj_countable'
    (fun l => (log_address l, log_topics l, log_data l))
    (fun '(a, t, d) => Build_LogEntry a t d) ltac:(by intros []).

#[local] Instance ExecutionResult_countable : Countable ExecutionResult :=
  inj_countable'
    (fun r => (cumulative_gas_used r, gas_used r, log_bloom r, logs r, status_code r, output r))
    (fun '(c, g, b, l, s, o) => Build_ExecutionResult c g b l s o) ltac:(by intros []).

#[local] Instance value_countable : Countable value :=
  inj_countable'
    (fun v => match v with VBytes b => inl b | VResult r => inr (inl r) | VNull => inr (inr tt) end)
    (fun s => match s with inl b => VBytes b | inr (inl r) => VResult r | inr (inr _) => VNull end)
    ltac:(by intros []).

Definition output_bytes (o : TxnOutput value) : bytes :=
  bits (encode (match o with Success v => inl v | Error m => inr m end)).

Definition output_of_bytes (b : bytes) : outcome string (TxnOutput value) :=
  match decode (of_bits b) with
  | Some (inl v) => Ok (Success v)
  | Some (inr m) => Ok (Error m)
  | None => Err "malformed output"%string
  end.

Lemma output_of_output_bytes o : output_of_bytes (output_bytes o) = Ok o.
Proof. unfold output_of_bytes, output_bytes. rewrite of_bits_bits, decode_encode. by destruct o. Qed.

#[local] Instance ops : OasisCore := {|
  Inner := list Tag;
  RoothashMessage := Empty_set;
  emit_txn_tag := fun k v c => c ++ [(k, v)];
  take_tags := fun c => (c, []);
  close := fun _ => [];
  Value := value;
  call_from_slice := call_of;
  bytes_from_value := fun v => match v with VBytes b => Ok b | _ => Err "not bytes"%string end;
  result_to_value := VResult;
  result_from_value := fun v => match v with VResult r => Ok r | _ => Err "not a result"%string end;
  output_to_vec := output_bytes;
  check_only_value := VNull;
  check_only_message := "check only"
|}.

#[local] Instance laws : OasisCoreLaws ops.
Proof. by refine (Build_OasisCoreLaws ops (fun c => c) _ _ _ _). Defined.

End OasisModel.
