(* ===== verification/Methods.v ===== *)
(** * Checking and executing transactions ([src/methods.rs], [src/block.rs])

    [check_tx] and [execute_tx] are [check::tx] and [execute::tx];
    [start_batch] and [end_batch] are the batch handler's.  The runtime keeps
    one [BlockContext] per batch in the transaction context: the Ethereum
    state, the environment with the gas used so far, and the hashes of the
    transactions executed in the block. *)

From Stdlib Require Import ZArith Lia Strings.Byte.
From stdpp Require Import base list gmap strings option.
From S2P Require Import Prelude Crypto Api OasisCore Ethcore.
From S2P Require ConfidentialCtx.

Section methods.
Context {M : Mrae} {E : Ethcore} {O : OasisCore}.

Record BlockContext := {
  state : State;
  env_info : EnvInfo;
  transaction_set : gset H256
}.

Record TxnContext := {
  header : Header;
  check_only : bool;
  inner : Inner;
  runtime : option BlockContext
}.

Definition set_runtime (r : BlockContext) (ctx : TxnContext) : TxnContext :=
  Build_TxnContext (header ctx) (check_only ctx) (inner ctx) (Some r).
Definition set_inner (i : Inner) (ctx : TxnContext) : TxnContext :=
  Build_TxnContext (header ctx) (check_only ctx) i (runtime ctx).

Definition set_state (s : State) (b : BlockContext) : BlockContext :=
  Build_BlockContext s (env_info b) (transaction_set b).
Definition set_env_info (e : EnvInfo) (b : BlockContext) : BlockContext :=
  Build_BlockContext (state b) e (transaction_set b).
Definition set_transaction_set (t : gset H256) (b : BlockContext) : BlockContext :=
  Build_BlockContext (state b) (env_info b) t.

(** [runtime_context!(ctx, BlockContext)] *)
Definition runtime_context {Er} : stateful TxnContext Er BlockContext :=
  fun ctx => (expect (runtime ctx), ctx).

(** ** [src/block.rs] *)

Definition start_batch {Er} (p : profile) : stateful TxnContext Er unit :=
  let! ctx := sget in
  let prev := previous_hash (header ctx) in
  let! state :=
    slift (unwrap_ok (state_from_existing (Some (ConfidentialCtx.new prev)))) in
  let! number := slift (u64_add p (round (header ctx)) 1) in
  let env_info := {|
    number := number;
    author := replicate 20 x00;
    timestamp := header_timestamp (header ctx);
    difficulty := 0;
    gas_limit := BLOCK_GAS_LIMIT;
    last_hashes := [prev];
    gas_used := 0
  |} in
  smodify (set_runtime
    {| state := state; env_info := env_info; transaction_set := ∅ |}).

Definition end_batch {Er} : stateful TxnContext Er unit :=
  let! ectx := runtime_context in
  let '(r, s) := state_commit (state ectx) in
  let! _ := smodify (set_runtime (set_state s ectx)) in
  slift (unwrap_ok r).

(** ** [src/methods.rs]: [check::tx] *)

Definition check_tx (txn : bytes) : outcome AnyError SignedTransaction :=
  let? decoded := map_err ErrMsg (rlp_decode txn) in
  (* Check that gas < block gas limit. *)
  if (BLOCK_GAS_LIMIT <? gas (as_unsigned decoded))%Z
  then Err (ErrTransaction TooMuchGas)
  else
    (* Check signature. *)
    let? signed := map_err ErrMsg (signed_new decoded) in
    (* Check gas price. *)
    if (gas_price (signed_tx signed) <? MIN_GAS_PRICE_GWEI)%Z
    then Err (ErrTransaction GasPrice)
    else Ok signed.

(** ** [src/methods.rs]: [execute::tx] *)

(** The tags of a transaction: its hash, and for every log the address and
    the first four topics. *)
Definition log_tags (log : Ethcore.LogEntry) : list Tag :=
  (TAG_ETH_LOG_ADDRESS, Ethcore.address log)
  :: take 4 (zip_with (fun topic tag => (tag, topic)) (Ethcore.topics log) TAG_ETH_LOG_TOPICS).

Definition transaction_tags (txn_hash : H256) (logs : list Ethcore.LogEntry) : list Tag :=
  (TAG_ETH_TX_HASH, txn_hash) :: concat (log_tags <$> logs).

Definition emit_tags (tags : list Tag) (i : Inner) : Inner :=
  foldl (fun i kv => emit_txn_tag kv.1 kv.2 i) i tags.

Definition api_log (log : Ethcore.LogEntry) : Api.LogEntry := {|
  log_address := Ethcore.address log;
  log_topics := Ethcore.topics log;
  Api.log_data := Ethcore.log_data log
|}.

Definition execute_tx (txn : SignedTransaction)
  : stateful TxnContext AnyError ExecutionResult :=
  let! ctx := sget in
  (* If this is a check txn request, return success. *)
  if check_only ctx then slift (Err ErrCheckOnlySuccess)
  else
    let! ectx := runtime_context in
    (* Check if current block already contains the transaction. Reject if so. *)
    let txn_hash := signed_hash txn in
    if bool_decide (txn_hash ∈ transaction_set ectx)
    then slift (Err (ErrTransaction DuplicateTransaction))
    else
      (* Check whether the transaction fits in the current block. *)
      let! gas_remaining :=
        slift (expect (u256_sub BLOCK_GAS_LIMIT (Ethcore.gas_used (env_info ectx)))) in
      if (gas_remaining <? gas (signed_tx txn))%Z
      then slift (Err (ErrTransaction BlockGasLimitReached))
      else
        (* Create Ethereum state instance and apply the transaction. *)
        let '(applied, st) := state_apply (env_info ectx) txn (state ectx) in
        let ectx := set_state st ectx in
        let! _ := smodify (set_runtime ectx) in
        let! outcome :=
          slift (map_err (fun err => ErrTransaction (ExecutionFailure err)) applied) in
        (* Add to set of executed transactions. *)
        let ectx := set_transaction_set ({[txn_hash]} ∪ transaction_set ectx) ectx in
        let! _ := smodify (set_runtime ectx) in
        (* receipt.gas_used is the cumulative gas used after the transaction. *)
        let! gas_used :=
          slift (expect (u256_sub (receipt_gas_used (receipt outcome))
                                  (Ethcore.gas_used (env_info ectx)))) in
        let ectx :=
          set_env_info
            (set_gas_used (receipt_gas_used (receipt outcome)) (env_info ectx)) ectx in
        let! _ := smodify (set_runtime ectx) in
        (* Emit the transaction hash so that we can query it. *)
        let! _ := smodify (fun ctx =>
          set_inner (emit_tags (transaction_tags txn_hash (receipt_logs (receipt outcome)))
                               (inner ctx)) ctx) in
        let! status_code :=
          slift (match receipt_outcome (receipt outcome) with
                 | StatusCode code => Ok code
                 | _ => Panic
                 end) in
        sret {|
          cumulative_gas_used := receipt_gas_used (receipt outcome);
          Api.gas_used := gas_used;
          log_bloom := receipt_log_bloom (receipt outcome);
          logs := api_log <$> receipt_logs (receipt outcome);
          status_code := status_code;
          output := apply_output outcome
        |}.

(** The transactions of a batch, one after the other in one context. *)
Fixpoint execute_all (txns : list SignedTransaction) (ctx : TxnContext)
  : list (outcome AnyError ExecutionResult) * TxnContext :=
  match txns with
  | [] => ([], ctx)
  | txn :: txns' =>
      let '(r, ctx') := execute_tx txn ctx in
      let '(rs, ctx'') := execute_all txns' ctx' in
      (r :: rs, ctx'')
  end.

(** ** Specification *)

(** The tags of a transaction as a client of the result sees them. *)
Definition api_log_tags (log : Api.LogEntry) : list Tag :=
  (TAG_ETH_LOG_ADDRESS, log_address log)
  :: take 4 (zip_with (fun topic tag => (tag, topic)) (log_topics log) TAG_ETH_LOG_TOPICS).

Definition result_tags (txn_hash : H256) (x : ExecutionResult) : list Tag :=
  (TAG_ETH_TX_HASH, txn_hash) :: concat (api_log_tags <$> logs x).

(** The bookkeeping of a successful execution. *)
Definition executed (b : BlockContext) (st : State) (txn_hash : H256) (o : ApplyOutcome)
  : BlockContext := {|
  state := st;
  env_info := set_gas_used (receipt_gas_used (receipt o)) (env_info b);
  transaction_set := {[txn_hash]} ∪ transaction_set b
|}.

Definition status_of (o : ApplyOutcome) : outcome AnyError Z :=
  match receipt_outcome (receipt o) with
  | StatusCode code => Ok code
  | _ => Panic
  end.

Definition result_of (b : BlockContext) (o : ApplyOutcome) (code : Z) : ExecutionResult := {|
  cumulative_gas_used := receipt_gas_used (receipt o);
  Api.gas_used := receipt_gas_used (receipt o) - Ethcore.gas_used (env_info b);
  log_bloom := receipt_log_bloom (receipt o);
  logs := api_log <$> receipt_logs (receipt o);
  status_code := code;
  output := apply_output o
|}.

Definition gas_in_range (b : BlockContext) : Prop :=
  (0 <= Ethcore.gas_used (env_info b) <= BLOCK_GAS_LIMIT)%Z.

(** The results of the transactions that succeeded, and their hashes. *)
Definition successes (rs : list (outcome AnyError ExecutionResult)) : list ExecutionResult :=
  omap (fun r => match r with Ok x => Some x | _ => None end) rs.

Definition success_hashes (txns : list SignedTransaction)
    (rs : list (outcome AnyError ExecutionResult)) : list H256 :=
  omap (fun '(t, r) => match r with Ok _ => Some (signed_hash t) | _ => None end)
       (zip txns rs).

Fixpoint running_totals (acc : Z) (l : list Z) : list Z :=
  match l with
  | [] => []
  | g :: l' => (acc + g)%Z :: running_totals (acc + g)%Z l'
  end.

Definition sum_Z (l : list Z) : Z := foldr Z.add 0%Z l.

(** The decoders return a [Result] on every input. *)
Class DecodersTotal : Prop := {
  call_from_slice_total b : panics (call_from_slice b) = false;
  bytes_from_value_total v : panics (bytes_from_value v) = false;
  rlp_decode_total b : panics (rlp_decode b) = false;
  signed_new_total u : panics (signed_new u) = false
}.

(** ** Lemmas *)

Section lemmas.
Context {L : EthcoreLaws E}.

(** Execution in a batch whose gas is within the limit, branch by branch. *)
Lemma execute_tx_run txn ctx :
  (forall b, runtime ctx = Some b -> gas_in_range b) ->
  execute_tx txn ctx =
  if check_only ctx then (Err ErrCheckOnlySuccess, ctx)
  else match runtime ctx with
  | None => (Panic, ctx)
  | Some b =>
      if bool_decide (signed_hash txn ∈ transaction_set b)
      then (Err (ErrTransaction DuplicateTransaction), ctx)
      else if (BLOCK_GAS_LIMIT - Ethcore.gas_used (env_info b) <? gas (signed_tx txn))%Z
      then (Err (ErrTransaction BlockGasLimitReached), ctx)
      else match state_apply (env_info b) txn (state b) with
      | (Ok o, st) =>
          (omap_ok (result_of b o) (status_of o),
           set_inner (emit_tags (transaction_tags (signed_hash txn) (receipt_logs (receipt o)))
                        (inner ctx))
             (set_runtime (executed b st (signed_hash txn) o) ctx))
      | (Err e, st) =>
          (Err (ErrTransaction (ExecutionFailure e)), set_runtime (set_state st b) ctx)
      | (Panic, st) => (Panic, set_runtime (set_state st b) ctx)
      end
  end.
Proof.
  intros Hgas. unfold execute_tx, runtime_context, sbind, sget, slift, smodify, sret.
  destruct (check_only ctx); [done|].
  destruct (runtime ctx) as [b|]; [|done]. cbn [expect].
  specialize (Hgas b eq_refl). unfold gas_in_range, BLOCK_GAS_LIMIT in *.
  case_bool_decide; [done|].
  rewrite u256_sub_exact by (unfold u256_modulus; lia). cbn [expect].
  case_match eqn:Hfit; [done|]. apply Z.ltb_ge in Hfit.
  destruct (state_apply _ txn _) as [[o|e|] st] eqn:Ha; [|done|done]. cbn [map_err].
  apply state_apply_gas in Ha as Hg. pose proof (gas_range txn).
  cbn [env_info set_transaction_set set_state].
  rewrite u256_sub_exact by (unfold u256_modulus; lia). cbn [expect].
  unfold status_of. by destruct (receipt_outcome (receipt o)).
Qed.

(** What one execution does to the batch: it does not panic; a result adds
    its gas and its hash, an error adds nothing. *)
Definition batch_step (txn : SignedTransaction) (b : BlockContext)
    (r : outcome AnyError ExecutionResult) (b' : BlockContext) : Prop :=
  match r with
  | Ok x =>
      signed_hash txn ∉ transaction_set b /\
      transaction_set b' = {[signed_hash txn]} ∪ transaction_set b /\
      Ethcore.gas_used (env_info b') = (Ethcore.gas_used (env_info b) + Api.gas_used x)%Z /\
      cumulative_gas_used x = Ethcore.gas_used (env_info b') /\
      (0 <= Api.gas_used x <= gas (signed_tx txn))%Z
  | Err _ => transaction_set b' = transaction_set b /\ env_info b' = env_info b
  | Panic => False
  end.

Lemma execute_tx_step txn ctx b r ctx' :
  runtime ctx = Some b -> gas_in_range b -> execute_tx txn ctx = (r, ctx') ->
  exists b', runtime ctx' = Some b' /\ gas_in_range b' /\ batch_step txn b r b' /\
    check_only ctx' = check_only ctx /\ header ctx' = header ctx.
Proof.
  intros Hb Hgas Hrun. rewrite execute_tx_run in Hrun by (intros; by simplify_eq).
  destruct (check_only ctx) eqn:Hc; [simplify_eq; by exists b|]. rewrite Hb in Hrun.
  case_bool_decide as Hin; [simplify_eq; by exists b|].
  case_match eqn:Hfit; [simplify_eq; by exists b|]. apply Z.ltb_ge in Hfit.
  destruct (state_apply _ txn _) as [[o|e|] st] eqn:Ha; simplify_eq.
  - apply state_apply_gas in Ha as Hg. apply state_apply_status in Ha as [code Hs].
    unfold status_of. rewrite Hs. exists (executed b st (signed_hash txn) o).
    unfold gas_in_range in *. simpl. split_and!; try done; lia.
  - exists (set_state st b). done.
  - pose proof (state_apply_panics (env_info b) txn (state b)) as Hp. by rewrite Ha in Hp.
Qed.

Lemma execute_all_inv txns ctx b rs ctx' :
  runtime ctx = Some b -> gas_in_range b -> execute_all txns ctx = (rs, ctx') ->
  exists b', runtime ctx' = Some b' /\ gas_in_range b' /\
    Forall (fun r => panics r = false) rs /\ length rs = length txns /\
    Ethcore.gas_used (env_info b')
      = (Ethcore.gas_used (env_info b) + sum_Z (Api.gas_used <$> successes rs))%Z /\
    cumulative_gas_used <$> successes rs
      = running_totals (Ethcore.gas_used (env_info b)) (Api.gas_used <$> successes rs) /\
    NoDup (success_hashes txns rs) /\
    (forall h, h ∈ success_hashes txns rs -> h ∉ transaction_set b) /\
    transaction_set b' = list_to_set (success_hashes txns rs) ∪ transaction_set b.
Proof.
  revert ctx b rs ctx'. induction txns as [|txn txns IH]; intros ctx b rs ctx' Hb Hgas Hrun.
  - simpl in Hrun. simplify_eq. exists b. simpl.
    split_and!; try done; [lia|constructor|set_solver|set_solver].
  - cbn [execute_all] in Hrun.
    destruct (execute_tx txn ctx) as [r ctx1] eqn:Htx.
    destruct (execute_all txns ctx1) as [rs1 ctx2] eqn:Hall. simplify_eq.
    destruct (execute_tx_step _ _ _ _ _ Hb Hgas Htx) as (b1 & Hb1 & Hgas1 & Hstep & _ & _).
    destruct (IH _ _ _ _ Hb1 Hgas1 Hall)
      as (b2 & Hb2 & Hgas2 & Hp & Hlen & Hsum & Hcum & Hnd & Hfresh & Hset).
    exists b2. unfold successes, success_hashes in *. cbn [omap list_omap zip_with].
    destruct r as [x|e|]; [|destruct Hstep as [Hs He]|done].
    + destruct Hstep as (Hnin & Hset1 & Hg1 & Hc1 & _). rewrite Hset1 in *.
      cbn [fmap list_fmap sum_Z foldr running_totals length list_to_set].
      split_and!; try done.
      * by constructor.
      * by rewrite Hlen.
      * fold (sum_Z (Api.gas_used <$> omap (fun r => match r with Ok x => Some x | _ => None end) rs1)). lia.
      * by rewrite Hc1, Hg1, Hcum, Hg1.
      * constructor; [|done]. intros Hin. specialize (Hfresh _ Hin). set_solver.
      * intros h Hh. apply elem_of_cons in Hh as [->|Hh]; [done|].
        specialize (Hfresh _ Hh). set_solver.
      * rewrite Hset. set_solver.
    + rewrite Hs in *. rewrite He in *. split_and!; try done; [by constructor|simpl; lia].
Qed.

Lemma start_batch_Ok {Er} p ctx u ctx' :
  start_batch p ctx = (@Ok Er unit u, ctx') ->
  exists b, runtime ctx' = Some b /\ gas_in_range b /\
    Ethcore.gas_used (env_info b) = 0%Z /\ transaction_set b = ∅ /\
    check_only ctx' = check_only ctx /\ header ctx' = header ctx /\ inner ctx' = inner ctx.
Proof.
  unfold start_batch, sbind, sget, slift, smodify. intros H.
  destruct (unwrap_ok _) as [st| |]; simplify_eq.
  destruct (u64_add p _ 1) as [n| |]; simplify_eq.
  eexists. split; [reflexivity|]. unfold gas_in_range, BLOCK_GAS_LIMIT. simpl.
  split_and!; lia || done.
Qed.

Lemma pending_emit_tags {OL : OasisCoreLaws O} tags i :
  pending_tags (emit_tags tags i) = pending_tags i ++ tags.
Proof.
  unfold emit_tags. revert i.
  induction tags as [|[k v] tags IH]; intros i; simpl; [by rewrite app_nil_r|].
  by rewrite IH, pending_emit, <- app_assoc.
Qed.

(** A result adds the tags of its transaction to the pending ones, an error
    adds nothing. *)
Lemma execute_tx_pending {OL : OasisCoreLaws O} txn ctx b r ctx' :
  runtime ctx = Some b -> gas_in_range b -> execute_tx txn ctx = (r, ctx') ->
  pending_tags (inner ctx') =
  pending_tags (inner ctx) ++ match r with
                              | Ok x => result_tags (signed_hash txn) x
                              | _ => []
                              end.
Proof.
  intros Hb Hgas Hrun. rewrite execute_tx_run in Hrun by (intros; by simplify_eq).
  destruct (check_only ctx); [simplify_eq; by rewrite app_nil_r|].
  rewrite Hb in Hrun. case_bool_decide; [simplify_eq; by rewrite app_nil_r|].
  case_match; [simplify_eq; by rewrite app_nil_r|].
  destruct (state_apply _ txn _) as [[o|m|] st] eqn:Ha.
  - apply state_apply_status in Ha as [code Hs]. unfold status_of in Hrun.
    rewrite Hs in Hrun. injection Hrun as <- <-. cbn [inner set_inner omap_ok].
    rewrite pending_emit_tags. unfold result_tags, transaction_tags, result_of. cbn [logs].
    rewrite pending_emit, <- app_assoc, <- list_fmap_compose. done.
  - injection Hrun as <- <-. by rewrite app_nil_r.
  - injection Hrun as <- <-. by rewrite app_nil_r.
Qed.

(** ** Properties *)

(** C17. [check::tx] accepts exactly the raw transactions that decode, ask for
    at most the block gas limit, carry a valid signature and offer at least
    the minimum gas price; every other input is an error, in that order of
    the checks, and never a panic unless the decoder or the signature check
    panics. *)
Theorem check_tx_accepts_iff txn signed :
  check_tx txn = Ok signed <->
  exists decoded, rlp_decode txn = Ok decoded /\
    (gas (as_unsigned decoded) <= BLOCK_GAS_LIMIT)%Z /\
    signed_new decoded = Ok signed /\
    (MIN_GAS_PRICE_GWEI <= gas_price (as_unsigned decoded))%Z.
Proof.
  unfold check_tx. split.
  - intros H. apply obind_Ok in H as (decoded & Hd & H). apply map_err_Ok in Hd.
    case_match eqn:Hg; [done|]. apply Z.ltb_ge in Hg.
    apply obind_Ok in H as (s & Hs & H). apply map_err_Ok in Hs.
    case_match eqn:Hp; simplify_eq. apply Z.ltb_ge in Hp.
    rewrite (signed_new_tx _ _ Hs) in Hp. exists decoded. by split_and!.
  - intros (decoded & -> & Hg & Hs & Hp). cbn [map_err obind].
    rewrite (proj2 (Z.ltb_ge _ _)) by done. rewrite Hs. cbn [map_err obind].
    by rewrite (signed_new_tx _ _ Hs), (proj2 (Z.ltb_ge _ _)).
Qed.


(** C16. A transaction is executed at most once per block: in a batch, the
    hashes of the transactions that succeed are pairwise distinct, and the
    set the block keeps is exactly the set of these hashes. *)
Theorem batch_executes_once {Er} p ctx0 u ctx txns rs ctx' :
  start_batch p ctx0 = (@Ok Er unit u, ctx) ->
  execute_all txns ctx = (rs, ctx') ->
  NoDup (success_hashes txns rs) /\
  exists b, runtime ctx' = Some b /\
    forall h, h ∈ transaction_set b <-> h ∈ success_hashes txns rs.
Proof.
  intros Hs Hrun. apply start_batch_Ok in Hs as (b & Hb & Hg & _ & H0 & _ & _ & _).
  destruct (execute_all_inv _ _ _ _ _ Hb Hg Hrun)
    as (b' & Hb' & _ & _ & _ & _ & _ & Hnd & _ & Hset).
  split; [done|]. exists b'. split; [done|]. intros h. rewrite Hset, H0. set_solver.
Qed.

(** C28. An execution that fails leaves no trace in the batch's bookkeeping:
    the emitted tags, the gas used and the set of executed transactions are
    those of before; only a failing [apply] may have touched the state, and a
    check-only context is not touched at all. *)
Theorem execute_tx_error_frame txn ctx e ctx' :
  (forall b, runtime ctx = Some b -> gas_in_range b) ->
  execute_tx txn ctx = (Err e, ctx') ->
  ctx' = ctx \/
  check_only ctx = false /\
  exists b st m, runtime ctx = Some b /\ e = ErrTransaction (ExecutionFailure m) /\
    state_apply (env_info b) txn (state b) = (Err m, st) /\
    ctx' = set_runtime (set_state st b) ctx.
Proof.
  intros Hgas Hrun. rewrite execute_tx_run in Hrun by done.
  destruct (check_only ctx); [simplify_eq; by left|].
  destruct (runtime ctx) as [b|]; simplify_eq.
  case_bool_decide; [simplify_eq; by left|]. case_match; [simplify_eq; by left|].
  destruct (state_apply _ txn _) as [[o|m|] st] eqn:Ha; [|simplify_eq|done].
  - unfold status_of in Hrun. by destruct (receipt_outcome (receipt o)).
  - right. split; [done|]. by exists b, st, m.
Qed.

End lemmas.
End methods.

#[global] Arguments execute_tx : simpl never.

(** ** Witnesses *)

Module Witness.
#[local] Existing Instance Model.ops.
#[local] Existing Instance EthModel.ops.
#[local] Existing Instance EthModel.laws.
#[local] Existing Instance OasisModel.ops.
#[local] Existing Instance OasisModel.laws.

(** A raw transaction: an identifier, a gas price and a gas limit. *)
Definition raw (id : byte) (price gas : Z) : bytes :=
  id :: byte_of_Z price :: to_le_bytes 4 gas.
Definition signed (id : byte) (gas : Z) : SignedTransaction := EthModel.tx_of id gas 1.

Definition header0 : Header := {|
  round := 41; header_timestamp := 1000; previous_hash := replicate 32 x07;
  state_root := []; io_root := [] |}.
Definition ctx0 : TxnContext :=
  {| header := header0; check_only := false; inner := []; runtime := None |}.
Definition ctx1 : TxnContext := (@start_batch _ _ _ AnyError Release ctx0).2.

(** A batch with a duplicate, a transaction whose execution fails and one that
    does not fit in what is left of the block. *)
Definition batch : list SignedTransaction :=
  [signed x01 30000; signed x02 10000; signed x01 30000; signed xfe 30000;
   signed x03 15999999].

Lemma check_tx_accepts_iff_witness :
  check_tx (raw x01 1 30000) = Ok (signed x01 30000).
Proof.
  apply check_tx_accepts_iff. exists (signed x01 30000).
  split_and!; vm_compute; congruence.
Defined.


Lemma batch_executes_once_witness :
  success_hashes batch (execute_all batch ctx1).1 = [[x01]; [x02]] /\
  NoDup (success_hashes batch (execute_all batch ctx1).1).
Proof.
  split; [vm_compute; reflexivity|].
  apply (@batch_executes_once _ _ _ _ AnyError Release ctx0 tt ctx1 batch
    (execute_all batch ctx1).1 (execute_all batch ctx1).2).
  - reflexivity.
  - apply surjective_pairing.
Defined.

Lemma ctx1_in_range b : runtime ctx1 = Some b -> gas_in_range b.
Proof.
  intros H. destruct (start_batch_Ok (Er:=AnyError) Release ctx0 tt ctx1) as (b' & Hb & Hg & _).
  - reflexivity.
  - rewrite H in Hb. by injection Hb as ->.
Qed.

Lemma execute_tx_error_frame_witness :
  let run := execute_tx (signed xfe 30000) ctx1 in
  let e := ErrTransaction (ExecutionFailure "invalid nonce") in
  run.1 = Err e /\
  (run.2 = ctx1 \/
   check_only ctx1 = false /\
   exists b st m, runtime ctx1 = Some b /\ e = ErrTransaction (ExecutionFailure m) /\
     state_apply (env_info b) (signed xfe 30000) (state b) = (Err m, st) /\
     run.2 = set_runtime (set_state st b) ctx1).
Proof.
  intros run e. assert (run.1 = Err e) as Hr by (vm_compute; reflexivity).
  split; [exact Hr|].
  apply (execute_tx_error_frame (signed xfe 30000) ctx1 e run.2 ctx1_in_range).
  rewrite <- Hr. apply surjective_pairing.
Defined.

End Witness.
