(* ===== verification/Dispatcher.v ===== *)
(** * The runtime's batch dispatcher ([src/dispatcher.rs])

    [check_batch] and [execute_batch] are the two entry points the runtime
    gives to Oasis Core: they open a batch, decode and check every call, and
    [execute_batch] then runs the calls one after the other, turning every
    result into an output and the tags it emitted. *)

From Stdlib Require Import ZArith Lia Strings.Byte.
From stdpp Require Import base list gmap strings option.
From S2P Require Import Prelude Crypto Api OasisCore Ethcore Methods.

Section dispatcher.
Context {M : Mrae} {E : Ethcore} {O : OasisCore}.

(** The abort flag is an [AtomicBool] another thread may set at any time: the
    k-th [load] of a batch returns its k-th value. *)
Record Dispatcher := {
  abort_batch : option (nat -> bool)
}.

Definition dispatcher_new : Dispatcher := {| abort_batch := None |}.

Definition set_abort_batch_flag (flag : nat -> bool) (self : Dispatcher) : Dispatcher :=
  {| abort_batch := Some flag |}.

(** [RuntimeError] and [CheckTxResult], and the latter's [default()]. *)
Record RuntimeError := { module : string; code : Z; message : string }.

Record CheckTxResult := { error : RuntimeError; meta : option Value }.

Definition CheckTxResult_default : CheckTxResult :=
  {| error := {| module := ""; code := 0; message := "" |}; meta := None |}.

Record ExecuteTxResult := { tx_output : bytes; tx_tags : list Tag }.

Record ExecuteBatchResult := {
  results : list ExecuteTxResult;
  messages : list RoothashMessage
}.

(** ** Operations *)

Definition decode_transaction (call : bytes) : outcome AnyError SignedTransaction :=
  let? call := map_err (fun _ => ErrMsg "unable to parse call") (call_from_slice call) in
  if bool_decide (method call <> METHOD_TX) then Err (ErrMethodNotFound (method call))
  else
    let? call_args :=
      map_err (fun _ => ErrMsg "unable to parse call arguments") (bytes_from_value (args call)) in
    check_tx call_args.

Definition encode_response (call : SignedTransaction) : stateful TxnContext AnyError bytes :=
  let! response := execute_tx call in
  sret (output_to_vec (Success (result_to_value response))).

Definition serialize_error (err : AnyError) : bytes :=
  output_to_vec
    (match err with
     | ErrCheckOnlySuccess => Success check_only_value
     | _ => Error (display_any_error err)
     end).

(** [abort_batch.as_ref().map(|b| b.load(..)).unwrap_or(false)], for load [i]. *)
Definition aborted (self : Dispatcher) (i : nat) : bool :=
  match abort_batch self with
  | Some load => load i
  | None => false
  end.

Definition batch_aborted : AnyError := ErrMsg "batch aborted".

(** The closure that decodes a call, mapped over the batch; [i] is the number
    of loads of the abort flag so far. *)
Fixpoint decode_calls {Er} (self : Dispatcher) (i : nat) (batch : list bytes)
  : outcome Er (list (AnyError + SignedTransaction)) :=
  match batch with
  | [] => Ok []
  | call :: batch' =>
      let? c := as_result
        (if aborted self i then Err batch_aborted else decode_transaction call) in
      let? cs := decode_calls self (S i) batch' in
      Ok (c :: cs)
  end.

Definition check_tx_result (c : AnyError + SignedTransaction) : CheckTxResult :=
  match c with
  | inr _ => CheckTxResult_default
  | inl error => {|
      error := {| module := ""; code := 1; message := display_any_error error |};
      meta := None
    |}
  end.

Definition check_batch (p : profile) (self : Dispatcher) (ctx : TxnContext) (batch : list bytes)
  : outcome RuntimeError (list CheckTxResult) :=
  run (let! _ := start_batch p in
       let! checked_calls := slift (decode_calls self 0 batch) in
       let! _ := end_batch in
       let! _ := smodify (fun ctx => set_inner (take_tags (inner ctx)).2 ctx) in
       sret (check_tx_result <$> checked_calls)) ctx.

(** The closure that runs a decoded call. *)
Definition process_call {Er} (self : Dispatcher) (i : nat) (call : AnyError + SignedTransaction)
  : stateful TxnContext Er (bytes * list Tag) := fun ctx =>
  if aborted self i then (Ok (serialize_error batch_aborted, []), ctx)
  else match call with
  | inr call =>
      match encode_response call ctx with
      | (Ok r, ctx) =>
          let '(tags, i') := take_tags (inner ctx) in
          (Ok (r, tags), set_inner i' ctx)
      | (Err err, ctx) => (Ok (serialize_error err, []), ctx)
      | (Panic, ctx) => (Panic, ctx)
      end
  | inl err => (Ok (serialize_error err, []), ctx)
  end.

Fixpoint process_calls {Er} (self : Dispatcher) (i : nat)
    (calls : list (AnyError + SignedTransaction))
  : stateful TxnContext Er (list (bytes * list Tag)) :=
  match calls with
  | [] => sret []
  | call :: calls' =>
      let! o := process_call self i call in
      let! os := process_calls self (S i) calls' in
      sret (o :: os)
  end.

Definition execute_tx_result (o : bytes * list Tag) : ExecuteTxResult :=
  {| tx_output := o.1; tx_tags := o.2 |}.

Definition execute_batch (p : profile) (self : Dispatcher) (ctx : TxnContext)
    (batch : list bytes) : outcome RuntimeError ExecuteBatchResult :=
  run (let! _ := start_batch p in
       let! calls := slift (decode_calls self 0 batch) in
       let! outputs := process_calls self (length batch) calls in
       let! _ := end_batch in
       let! ctx := sget in
       sret {| results := execute_tx_result <$> outputs; messages := close (inner ctx) |}) ctx.

(** ** Specification *)

(** What a batch reports for a call: its encoded result and its tags, or the
    encoded error and no tag. *)
Definition call_output (txn : SignedTransaction) (r : outcome AnyError ExecutionResult)
  : bytes * list Tag :=
  match r with
  | Ok x => (output_to_vec (Success (result_to_value x)), result_tags (signed_hash txn) x)
  | Err e => (serialize_error e, [])
  | Panic => ([], [])
  end.

(** The tags emitted by a successful call are taken out of the context. *)
Definition settle (r : outcome AnyError ExecutionResult) (ctx : TxnContext) : TxnContext :=
  if is_ok r then set_inner (take_tags (inner ctx)).2 ctx else ctx.

(** The calls of a batch decoded and executed one at a time. *)
Fixpoint run_in_order (batch : list bytes) (ctx : TxnContext)
  : list (bytes * list Tag) * TxnContext :=
  match batch with
  | [] => ([], ctx)
  | call :: batch' =>
      let '(o, ctx1) :=
        match decode_transaction call with
        | Ok txn =>
            let '(r, ctx1) := execute_tx txn ctx in (call_output txn r, settle r ctx1)
        | Err e => ((serialize_error e, []), ctx)
        | Panic => (([], []), ctx)
        end in
      let '(os, ctx2) := run_in_order batch' ctx1 in
      (o :: os, ctx2)
  end.

(** [n] more calls reported as aborted. *)
Definition append_aborted (n : nat) (r : ExecuteBatchResult) : ExecuteBatchResult := {|
  results := results r ++
    replicate n {| tx_output := serialize_error batch_aborted; tx_tags := [] |};
  messages := messages r
|}.

(** ** Lemmas *)

Section lemmas.
Context {L : EthcoreLaws E} {OL : OasisCoreLaws O} {DT : DecodersTotal}.

Lemma decode_transaction_total call : panics (decode_transaction call) = false.
Proof.
  unfold decode_transaction. rewrite obind_panics, map_err_panics, call_from_slice_total.
  destruct (map_err _ (call_from_slice call)) as [c| |]; [|done|done].
  cbn [orb]. case_bool_decide; [done|].
  rewrite obind_panics, map_err_panics, bytes_from_value_total.
  destruct (map_err _ (bytes_from_value (args c))) as [b| |]; [|done|done].
  cbn [orb]. unfold check_tx. rewrite obind_panics, map_err_panics, rlp_decode_total.
  destruct (map_err _ (rlp_decode b)) as [u| |]; [|done|done].
  cbn [orb]. case_match; [done|].
  rewrite obind_panics, map_err_panics, signed_new_total.
  destruct (map_err _ (signed_new u)); [|done|done]. cbn [orb]. by case_match.
Qed.

(** The decoded call a batch keeps. *)
Definition decoded (call : bytes) : AnyError + SignedTransaction :=
  match decode_transaction call with
  | Ok txn => inr txn
  | Err e => inl e
  | Panic => inl batch_aborted
  end.

Definition load_or_decode (self : Dispatcher) (i : nat) (call : bytes)
  : AnyError + SignedTransaction :=
  if aborted self i then inl batch_aborted else decoded call.

Lemma decode_calls_eq {Er} self i batch :
  decode_calls (Er:=Er) self i batch =
  Ok (imap (fun j => load_or_decode self (i + j)) batch).
Proof.
  revert i. induction batch as [|call batch IH]; intros i; [done|].
  cbn [decode_calls imap]. rewrite Nat.add_0_r. unfold load_or_decode at 1, decoded.
  pose proof (decode_transaction_total call) as Hp.
  rewrite IH. destruct (aborted self i).
  - cbn [as_result obind]. do 2 f_equal. apply imap_ext. intros. simpl. by rewrite Nat.add_succ_r.
  - destruct (decode_transaction call); [| |done]; cbn [as_result obind]; do 2 f_equal;
      apply imap_ext; intros; simpl; by rewrite Nat.add_succ_r.
Qed.

Lemma aborted_new i : aborted dispatcher_new i = false.
Proof. done. Qed.

Lemma decode_calls_all {Er} self i batch :
  (forall j, aborted self j = false) ->
  decode_calls (Er:=Er) self i batch = Ok (decoded <$> batch).
Proof.
  intros Ha. rewrite decode_calls_eq. f_equal.
  rewrite <- imap_const. apply imap_ext. intros j call _. unfold load_or_decode. by rewrite Ha.
Qed.

(** The batch is between two calls: it is open and has no pending tag. *)
Definition between_calls (ctx : TxnContext) : Prop :=
  (exists b, runtime ctx = Some b /\ gas_in_range b) /\ pending_tags (inner ctx) = [].

Lemma process_call_in_order {Er} self i call ctx :
  aborted self i = false -> between_calls ctx ->
  exists o ctx', process_call (Er:=Er) self i (decoded call) ctx = (Ok o, ctx') /\
    between_calls ctx' /\
    forall batch, run_in_order (call :: batch) ctx =
      (o :: (run_in_order batch ctx').1, (run_in_order batch ctx').2).
Proof.
  intros Ha [(b & Hb & Hg) Hp]. unfold process_call, decoded. rewrite Ha. cbn [run_in_order].
  pose proof (decode_transaction_total call) as Ht.
  destruct (decode_transaction call) as [txn|e|]; [| |done].
  - unfold encode_response, sbind, sret. destruct (execute_tx txn ctx) as [r ctx1] eqn:Hrun.
    destruct (execute_tx_step _ _ _ _ _ Hb Hg Hrun) as (b1 & Hb1 & Hg1 & Hs & _ & _).
    pose proof (execute_tx_pending _ _ _ _ _ Hb Hg Hrun) as Hpe. rewrite Hp in Hpe.
    unfold settle. destruct r as [x|e|]; [| |done]; cbn [is_ok call_output].
    + pose proof (take_tags_all (inner ctx1)) as Htt.
      pose proof (pending_take (inner ctx1)) as Hpt.
      destruct (take_tags (inner ctx1)) as [tags i']. cbn [fst snd] in *. subst tags.
      rewrite Hpe. eexists _, _. split; [reflexivity|]. split; [split; [by exists b1|done]|].
      intros batch. by destruct (run_in_order batch _).
    + eexists _, _. split; [reflexivity|]. split; [split; [by exists b1|done]|].
      intros batch. by destruct (run_in_order batch _).
  - eexists _, _. split; [reflexivity|]. split; [split; [by exists b|done]|].
    intros batch. by destruct (run_in_order batch _).
Qed.

Lemma process_calls_in_order {Er} self i batch ctx :
  (forall j, aborted self j = false) -> between_calls ctx ->
  process_calls (Er:=Er) self i (decoded <$> batch) ctx =
    (Ok (run_in_order batch ctx).1, (run_in_order batch ctx).2).
Proof.
  intros Ha. revert i ctx. induction batch as [|call batch IH]; intros i ctx Hb; [done|].
  destruct (process_call_in_order (Er:=Er) self i call ctx (Ha i) Hb)
    as (o & ctx' & Hrun & Hb' & Heq).
  rewrite Heq. cbn [fmap list_fmap process_calls]. unfold sbind. rewrite Hrun.
  by rewrite (IH _ _ Hb').
Qed.

(** Once the flag is set, the remaining calls are reported as aborted. *)
Lemma process_calls_aborted {Er} self i calls ctx :
  (forall j, i <= j -> aborted self j = true) ->
  process_calls (Er:=Er) self i calls ctx =
    (Ok (replicate (length calls) (serialize_error batch_aborted, [])), ctx).
Proof.
  revert i ctx. induction calls as [|call calls IH]; intros i ctx Ha; [done|].
  cbn [process_calls]. unfold sbind, process_call. rewrite Ha by lia.
  rewrite IH by (intros; apply Ha; lia). done.
Qed.

Lemma process_calls_app {Er} self i calls calls' ctx :
  process_calls (Er:=Er) self i (calls ++ calls') ctx =
  sbind (process_calls self i calls)
    (fun os => sbind (process_calls self (i + length calls) calls')
      (fun os' => sret (os ++ os'))) ctx.
Proof.
  revert i ctx. induction calls as [|call calls IH]; intros i ctx.
  - cbn [app length process_calls]. rewrite Nat.add_0_r. unfold sbind, sret.
    by destruct (process_calls _ _ _ _) as [[]].
  - cbn [app length process_calls]. rewrite Nat.add_succ_r, <- Nat.add_succ_l.
    unfold sbind in IH |- *.
    destruct (process_call _ _ _ _) as [[o| |] ctx1]; [|done|done]. rewrite IH.
    destruct (process_calls self (S i) calls ctx1) as [[os| |] ctx2]; [|done|done].
    cbn [sret]. by destruct (process_calls self _ calls' ctx2) as [[]].
Qed.

Lemma process_calls_ext {Er} self self' i i' calls ctx :
  (forall j, j < length calls -> aborted self (i + j) = aborted self' (i' + j)) ->
  process_calls (Er:=Er) self i calls ctx = process_calls self' i' calls ctx.
Proof.
  revert i i' ctx. induction calls as [|call calls IH]; intros i i' ctx Ha; [done|].
  cbn [process_calls length] in *. unfold sbind, process_call.
  pose proof (Ha 0) as H0. rewrite !Nat.add_0_r in H0. rewrite H0 by lia.
  destruct (if aborted self' i' then _ else _) as [[] ctx1]; [|done|done].
  rewrite (IH (S i) (S i')); [done|]. intros j Hj. rewrite !Nat.add_succ_l, <- !Nat.add_succ_r.
  apply Ha. lia.
Qed.

(** Raised at load [k], the flag lets the first [k - n] of the [n] calls run. *)
Lemma abort_at_process {Er} k batch ctx :
  let self := set_abort_batch_flag (fun j => k <=? j) dispatcher_new in
  let m := k - length batch in
  process_calls (Er:=Er) self (length batch)
    (imap (fun j => load_or_decode self (0 + j)) batch) ctx =
  sbind (process_calls dispatcher_new (length (take m batch)) (decoded <$> take m batch))
    (fun os => sret (os ++ replicate (length batch - m) (serialize_error batch_aborted, []))) ctx.
Proof.
  intros self m.
  assert (forall j, j < k -> aborted self j = false) as Hlow.
  { intros j Hj. unfold aborted. simpl. apply Nat.leb_gt. lia. }
  assert (forall j, k <= j -> aborted self j = true) as Hhigh.
  { intros j Hj. unfold aborted. simpl. apply Nat.leb_le. lia. }
  destruct (decide (k <= length batch)) as [Hk|Hk].
  - rewrite process_calls_aborted by (intros; apply Hhigh; lia).
    replace m with 0 by lia. rewrite length_imap, Nat.sub_0_r. done.
  - assert (imap (fun j => load_or_decode self (0 + j)) batch
      = (decoded <$> take m batch) ++ (decoded <$> drop m batch)) as ->.
    { rewrite <- fmap_app, take_drop, <- imap_const. apply imap_ext. intros j call Hj.
      apply lookup_lt_Some in Hj. unfold load_or_decode. rewrite Hlow by lia. done. }
    rewrite process_calls_app. unfold sbind.
    rewrite (process_calls_ext self dispatcher_new _ (length (take m batch))).
    2:{ rewrite length_fmap, length_take. intros j Hj. rewrite Hlow by lia. done. }
    destruct (process_calls dispatcher_new _ _ ctx) as [[os| |] ctx1]; [|done|done].
    destruct (decide (length batch <= m)).
    + rewrite drop_ge by lia. by replace (length batch - m) with 0 by lia.
    + rewrite process_calls_aborted.
      * by rewrite length_fmap, length_drop.
      * rewrite length_fmap, length_take. intros j Hj. apply Hhigh. lia.
Qed.

(** ** Properties *)

(** C1. A batch that is not aborted runs in order: the two passes of
    [execute_batch] give exactly one result per call, those of decoding and
    executing the calls one at a time, where a call that succeeds reports its
    encoded result with the tags of its own transaction hash and logs, and a
    call that fails reports its encoded error with no tag.  No tag leaks from
    one call to another. *)
Theorem execute_batch_in_order p self ctx ctx1 ctx3 batch :
  (forall j, aborted self j = false) ->
  pending_tags (inner ctx) = [] ->
  start_batch (Er:=RuntimeError) p ctx = (Ok tt, ctx1) ->
  end_batch (Er:=RuntimeError) (run_in_order batch ctx1).2 = (Ok tt, ctx3) ->
  execute_batch p self ctx batch = Ok {|
    results := execute_tx_result <$> (run_in_order batch ctx1).1;
    messages := close (inner ctx3)
  |}.
Proof.
  intros Ha Hp Hs He.
  assert (between_calls ctx1) as Hb.
  { destruct (start_batch_Ok _ _ _ _ Hs) as (b & ? & ? & _ & _ & _ & _ & Hi).
    split; [by exists b|congruence]. }
  unfold execute_batch, run, sbind, slift, sget, sret. rewrite Hs.
  rewrite decode_calls_all by done. rewrite process_calls_in_order by done.
  by rewrite He.
Qed.

(** C20. Aborting a batch of [n] calls from the [k]-th load of the flag on is
    running the batch of its first [k - n] calls and reporting every other
    call as "batch aborted" without tags: each phase loads the flag once per
    call, so a flag raised while decoding stops every execution. *)
Theorem abort_cuts_batch p k ctx batch :
  let m := k - length batch in
  execute_batch p (set_abort_batch_flag (fun j => k <=? j) dispatcher_new) ctx batch =
  omap_ok (append_aborted (length batch - m))
    (execute_batch p dispatcher_new ctx (take m batch)).
Proof.
  intros m. unfold execute_batch. rewrite !run_sbind.
  destruct (start_batch p ctx) as [[[]| |] ctx1]; [|done|done].
  rewrite !run_sbind. unfold slift.
  rewrite decode_calls_eq, (decode_calls_all dispatcher_new) by done.
  rewrite !run_sbind.
  rewrite (abort_at_process k batch). fold m. unfold sbind at 1, sret at 1.
  destruct (process_calls dispatcher_new _ _ ctx1) as [[os| |] ctx2]; [|done|done].
  rewrite !run_sbind. destruct (end_batch ctx2) as [[[]| |] ctx3]; [|done|done].
  cbn. unfold append_aborted. cbn [results messages]. do 2 f_equal.
  by rewrite fmap_app, fmap_replicate.
Qed.

(** C30. Checking a batch reports, in order, code 0 for exactly the calls whose
    method is "tx" and whose argument is a raw transaction [check_tx]
    accepts, and code 1 with the error's text for the others; it executes
    nothing. *)
Theorem check_batch_reports p ctx ctx1 ctx3 batch :
  start_batch (Er:=RuntimeError) p ctx = (Ok tt, ctx1) -> end_batch (Er:=RuntimeError) ctx1 = (Ok tt, ctx3) ->
  exists rs, check_batch p dispatcher_new ctx batch = Ok rs /\
    Forall2 (fun call r =>
      (code (error r) = 0%Z <->
       exists c raw txn, call_from_slice call = Ok c /\ method c = METHOD_TX /\
         bytes_from_value (args c) = Ok raw /\ check_tx raw = Ok txn) /\
      (code (error r) <> 0%Z -> exists e, decode_transaction call = Err e /\
         message (error r) = display_any_error e)) batch rs.
Proof.
  intros Hs He. exists (check_tx_result ∘ decoded <$> batch). split.
  - unfold check_batch, run, sbind, slift, smodify, sret. rewrite Hs.
    rewrite decode_calls_all by done. rewrite He. by rewrite list_fmap_compose.
  - apply Forall2_fmap_r, Forall_Forall2_diag, Forall_forall. intros call _.
    pose proof (decode_transaction_total call) as Ht.
    unfold decoded, compose. destruct (decode_transaction call) as [txn|e|] eqn:Hd; [| |done].
    + split; [|done]. split; [|done]. intros _. unfold decode_transaction in Hd.
      apply obind_Ok in Hd as (c & Hc & Hd). apply map_err_Ok in Hc.
      case_bool_decide as Hm; [done|]. apply obind_Ok in Hd as (b & Hb & Hd).
      apply map_err_Ok in Hb. exists c, b, txn. by split_and!.
    + split; [|intros _; by exists e]. split; [done|]. intros (c & b & txn & Hc & Hm & Hb & Ht').
      unfold decode_transaction in Hd. rewrite Hc in Hd. cbn [map_err obind] in Hd.
      rewrite bool_decide_false in Hd by (intros Hn; by apply Hn).
      rewrite Hb in Hd. cbn [map_err obind] in Hd. by rewrite Ht' in Hd.
Qed.

End lemmas.
End dispatcher.

(** ** Witnesses *)

Module Witness.
#[local] Existing Instance Model.ops.
#[local] Existing Instance EthModel.ops.
#[local] Existing Instance EthModel.laws.
#[local] Existing Instance OasisModel.ops.
#[local] Existing Instance OasisModel.laws.

#[local] Instance model_decoders : DecodersTotal.
Proof.
  constructor.
  - intros b. by destruct b.
  - intros v. by destruct v.
  - intros b. simpl. unfold EthModel.decode. by repeat case_match.
  - intros u. simpl. unfold EthModel.verify. by case_decide.
Qed.

Definition ctx0 := Methods.Witness.ctx0.
Definition opened : TxnContext := (start_batch (Er:=RuntimeError) Release ctx0).2.

Definition call (method : string) (arg : bytes) : bytes :=
  byte_of_Z (len (str method)) :: str method ++ arg.

(** A transaction, its duplicate, a call to another method, a transaction of
    another sender and one whose execution fails. *)
Definition batch : list bytes :=
  [call "tx" (Methods.Witness.raw x01 1 30000); call "tx" (Methods.Witness.raw x01 1 30000);
   call "genesis" []; call "tx" (Methods.Witness.raw x02 1 30000);
   call "tx" (Methods.Witness.raw xfe 1 30000)].

Definition closed (batch : list bytes) : TxnContext :=
  (end_batch (Er:=RuntimeError) (run_in_order batch opened).2).2.

Lemma execute_batch_in_order_witness :
  execute_batch Release dispatcher_new ctx0 batch =
    Ok {| results := execute_tx_result <$> (run_in_order batch opened).1;
          messages := close (inner (closed batch)) |} /\
  (tx_tags <$> (execute_tx_result <$> (run_in_order batch opened).1)) =
    [Methods.result_tags [x01] {|
       cumulative_gas_used := 0; Api.gas_used := 0; log_bloom := []; status_code := 1;
       output := []; logs := [{| log_address := replicate 20 x0a; log_topics := [[x01]];
                                 Api.log_data := [] |}] |};
     []; [];
     Methods.result_tags [x02] {|
       cumulative_gas_used := 0; Api.gas_used := 0; log_bloom := []; status_code := 1;
       output := []; logs := [{| log_address := replicate 20 x0a; log_topics := [[x02]];
                                 Api.log_data := [] |}] |};
     []].
Proof.
  split; [|vm_compute; reflexivity].
  apply (execute_batch_in_order Release dispatcher_new ctx0 opened (closed batch) batch).
  - intros j. reflexivity.
  - reflexivity.
  - reflexivity.
  - etransitivity; [apply surjective_pairing|]. f_equal.
Defined.

Lemma abort_cuts_batch_witness :
  execute_batch Release (set_abort_batch_flag (fun j => 9 <=? j) dispatcher_new) ctx0 batch =
    omap_ok (append_aborted 1) (execute_batch Release dispatcher_new ctx0 (take 4 batch)) /\
  is_ok (execute_batch Release dispatcher_new ctx0 (take 4 batch)) = true.
Proof.
  split; [|vm_compute; reflexivity]. apply (abort_cuts_batch Release 9 ctx0 batch).
Defined.

Lemma check_batch_reports_witness :
  exists rs, check_batch Release dispatcher_new ctx0 batch = Ok rs /\ length rs = 5.
Proof.
  destruct (check_batch_reports Release ctx0 opened (closed []) batch) as (rs & Hrs & Hf).
  - reflexivity.
  - etransitivity; [apply surjective_pairing|]. f_equal.
  - exists rs. split; [exact Hrs|]. rewrite <- (Forall2_length Hf). reflexivity.
Defined.

End Witness.
