(* ===== verification/Prefetch.v ===== *)
(** * Prefetching ([src/dispatcher.rs], feature [prefetch])

    Built with the [prefetch] feature, [execute_batch] asks the store for the
    accounts and the code its calls will need, between decoding the calls and
    executing them.  The feature is off by default; [Dispatcher] is the batch
    execution without it. *)

From Stdlib Require Import ZArith Lia Strings.Byte.
From stdpp Require Import base sets numbers sorting strings option countable list.
From S2P Require Import Prelude Crypto Api OasisCore Ethcore Methods Dispatcher.

(** The store: the key layout of an account, the order of [Prefix] and the
    content of the cache when the batch has been decoded. *)
Class PrefixOps := {
  MKVS_KEY_CODE : bytes;
  MKVS_KEY_METADATA : bytes;
  prefix_le : relation bytes;
  prefix_le_dec : RelDecision prefix_le;
  cache_contains_key : bytes -> bool
}.

#[global] Existing Instance prefix_le_dec.

Class PrefixLaws (PO : PrefixOps) : Prop := {
  prefix_le_total : TotalOrder prefix_le
}.

Section prefetch.
Context {M : Mrae} {E : Ethcore} {O : OasisCore} {PO : PrefixOps}.

(** [Vec::dedup]. *)
Fixpoint dedup (l : list bytes) : list bytes :=
  match l with
  | a :: ((b :: _) as l') => if bool_decide (a = b) then dedup l' else a :: dedup l'
  | _ => l
  end.

(** The prefixes a decoded call adds. *)
Definition call_prefixes (tx : SignedTransaction) : list bytes :=
  match action (signed_tx tx) with
  | Call receiver => [receiver ++ MKVS_KEY_CODE; receiver ++ MKVS_KEY_METADATA]
  | Create => []
  end ++ [signed_sender tx ++ MKVS_KEY_METADATA].

(** What the store is asked for: the prefixes and the limit. *)
Definition prefetch_request (calls : list (AnyError + SignedTransaction))
  : option (list bytes * Z) :=
  let prefixes := concat ((fun call => match call with
    | inr tx => call_prefixes tx
    | inl _ => []
    end) <$> calls) in
  let prefixes := dedup (merge_sort prefix_le prefixes) in
  let prefixes := filter (fun key => cache_contains_key key = false) prefixes in
  if 0 <? length prefixes then Some (prefixes, 10000%Z) else None.

(** [execute_batch] with the feature, and the request it makes. *)
Definition execute_batch_prefetch (p : profile) (self : Dispatcher) (ctx : TxnContext)
    (batch : list bytes) : outcome RuntimeError (ExecuteBatchResult * option (list bytes * Z)) :=
  run (let! _ := start_batch p in
       let! calls := slift (decode_calls self 0 batch) in
       let request := prefetch_request calls in
       let! outputs := process_calls self (length batch) calls in
       let! _ := end_batch in
       let! ctx := sget in
       sret ({| results := execute_tx_result <$> outputs; messages := close (inner ctx) |},
             request)) ctx.

(** ** Lemmas *)

(** No repetitions, in the order of the store. *)
Definition prefix_lt (a b : bytes) : Prop := prefix_le a b /\ a <> b.

Lemma dedup_cons a b l :
  dedup (a :: b :: l) = if bool_decide (a = b) then dedup (b :: l) else a :: dedup (b :: l).
Proof. done. Qed.

Lemma elem_of_dedup a l : a ∈ dedup l <-> a ∈ l.
Proof.
  induction l as [|b [|c l] IH]; [done|done|]. rewrite dedup_cons, elem_of_cons, <- IH.
  case_bool_decide as Hbc; [|by rewrite elem_of_cons].
  subst b. rewrite IH. set_solver.
Qed.

Lemma StronglySorted_filter (R : relation bytes) (P : bytes -> Prop) `{forall x, Decision (P x)} l :
  StronglySorted R l -> StronglySorted R (filter P l).
Proof.
  induction 1 as [|a l Hs IH Ha]; [constructor|]. rewrite filter_cons. case_decide; [|done].
  constructor; [done|]. rewrite Forall_forall in Ha |- *. intros b Hb.
  apply list_elem_of_filter in Hb as [_ Hb]. by apply Ha.
Qed.

Section lemmas.
Context {L : EthcoreLaws E} {OL : OasisCoreLaws O} {DT : DecodersTotal} {PL : PrefixLaws PO}.
#[local] Existing Instance prefix_le_total.

Lemma dedup_sorted l : StronglySorted prefix_le l -> StronglySorted prefix_lt (dedup l).
Proof.
  induction 1 as [|a l Hs IH Ha]; [constructor|]. destruct l as [|b l]; [by repeat constructor|].
  rewrite dedup_cons. case_bool_decide as Hab; [done|]. constructor; [done|].
  rewrite Forall_forall in Ha |- *. intros c Hc. rewrite elem_of_dedup in Hc.
  split; [by apply Ha|].
  intros ->. apply Hab. apply elem_of_cons in Hc as [|Hc]; [done|].
  apply (anti_symm prefix_le); [by apply Ha; left|].
  apply StronglySorted_inv in Hs as [_ Hb]. rewrite Forall_forall in Hb. by apply Hb.
Qed.

Lemma prefetch_request_spec calls :
  match prefetch_request calls with
  | Some (keys, limit) => limit = 10000%Z /\ keys <> [] /\ StronglySorted prefix_lt keys /\
      forall key, key ∈ keys <->
        cache_contains_key key = false /\ exists tx, inr tx ∈ calls /\ key ∈ call_prefixes tx
  | None => forall tx key, inr tx ∈ calls -> key ∈ call_prefixes tx ->
      cache_contains_key key = true
  end.
Proof.
  unfold prefetch_request.
  set (needed := concat _). set (keys := filter _ _).
  assert (forall key, key ∈ keys <->
    cache_contains_key key = false /\ exists tx, inr tx ∈ calls /\ key ∈ call_prefixes tx) as Hin.
  { intros key. unfold keys. rewrite list_elem_of_filter, elem_of_dedup, merge_sort_Permutation.
    f_equiv. unfold needed. rewrite list_elem_of_In, in_concat.
    setoid_rewrite <- list_elem_of_In. split.
    - intros (ks & Hks & Hk). apply list_elem_of_fmap in Hks as ([e|tx] & -> & Hc).
      + by apply elem_of_nil in Hk.
      + by exists tx.
    - intros (tx & Hc & Hk). exists (call_prefixes tx). split; [|done].
      apply list_elem_of_fmap. by exists (inr tx). }
  destruct (Nat.ltb_spec 0 (length keys)) as [Hl|Hl].
  - split_and!; [done|by destruct keys; simpl in Hl; [lia|]| |done].
    unfold keys. apply StronglySorted_filter, dedup_sorted, StronglySorted_merge_sort; apply _.
  - intros tx key Hc Hk. destruct (cache_contains_key key) eqn:Hcache; [done|].
    assert (key ∈ keys) as Hkey by (apply Hin; eauto).
    destruct keys; [by apply elem_of_nil in Hkey|simpl in Hl; lia].
Qed.

(** The request does not depend on the results, nor they on it. *)
Lemma execute_batch_prefetch_fst p self ctx batch :
  omap_ok fst (execute_batch_prefetch p self ctx batch) = execute_batch p self ctx batch.
Proof.
  unfold execute_batch_prefetch, execute_batch. rewrite !run_sbind.
  destruct (start_batch p ctx) as [[[]| |] ctx1]; [|done|done].
  rewrite !run_sbind. destruct (slift _ ctx1) as [[calls| |] ctx2]; [|done|done].
  rewrite !run_sbind. destruct (process_calls _ _ _ ctx2) as [[os| |] ctx3]; [|done|done].
  rewrite !run_sbind. by destruct (end_batch ctx3) as [[[]| |] ctx4].
Qed.

(** ** Properties *)

(** C34. With the [prefetch] feature, a batch has the results it has without;
    and when it is not aborted, the store is asked, in order and without
    repetition, for exactly the code and metadata of the receivers and the
    metadata of the senders of the calls that decode, as far as they are not
    cached: nothing is asked for when all of them are. *)
Theorem prefetch_transparent p self ctx batch :
  (forall j, aborted self j = false) ->
  omap_ok fst (execute_batch_prefetch p self ctx batch) = execute_batch p self ctx batch /\
  forall res request, execute_batch_prefetch p self ctx batch = Ok (res, request) ->
  match request with
  | Some (keys, limit) => limit = 10000%Z /\ keys <> [] /\ StronglySorted prefix_lt keys /\
      forall key, key ∈ keys <-> cache_contains_key key = false /\
        exists call tx, call ∈ batch /\ decode_transaction call = Ok tx /\ key ∈ call_prefixes tx
  | None => forall call tx key, call ∈ batch -> decode_transaction call = Ok tx ->
      key ∈ call_prefixes tx -> cache_contains_key key = true
  end.
Proof.
  intros Ha. split; [apply execute_batch_prefetch_fst|].
  intros res request. unfold execute_batch_prefetch. rewrite run_sbind.
  destruct (start_batch p ctx) as [[[]| |] ctx1]; [|done|done].
  rewrite run_sbind. unfold slift. rewrite decode_calls_all by done. rewrite run_sbind.
  destruct (process_calls _ _ _ ctx1) as [[os| |] ctx2]; [|done|done].
  rewrite run_sbind. destruct (end_batch ctx2) as [[[]| |] ctx3]; [|done|done].
  intros [= _ <-].
  assert (forall tx, inr tx ∈ decoded <$> batch <->
    exists call, call ∈ batch /\ decode_transaction call = Ok tx) as Hd.
  { intros tx. rewrite list_elem_of_fmap. unfold decoded. split; intros (call & H1 & H2).
    - exists call. split; [done|]. by destruct (decode_transaction call); simplify_eq.
    - exists call. by rewrite H2. }
  pose proof (prefetch_request_spec (decoded <$> batch)) as Hs.
  destruct (prefetch_request _) as [[keys limit]|].
  - destruct Hs as (? & ? & ? & Hin). split_and!; [done..|]. intros key. rewrite Hin.
    setoid_rewrite Hd. naive_solver.
  - intros call tx key Hc Ht Hk. apply (Hs tx); [|done]. apply Hd. by exists call.
Qed.

End lemmas.
End prefetch.

(** ** Witnesses *)

Module PrefixModel.

Definition le (a b : bytes) : Prop := (encode a <= encode b)%positive.

(** A store that has cached everything under the address [0x0b...]. *)
#[local] Instance ops : PrefixOps := {|
  MKVS_KEY_CODE := [x01];
  MKVS_KEY_METADATA := [x02];
  prefix_le := le;
  prefix_le_dec := fun a b => decide (encode a <= encode b)%positive;
  cache_contains_key := fun key => bool_decide (head key = Some x0b)
|}.

#[local] Instance laws : PrefixLaws ops.
Proof.
  constructor. repeat split.
  - intros a. unfold prefix_le, ops, le. lia.
  - intros a b c. unfold prefix_le, ops, le. lia.
  - intros a b. unfold prefix_le, ops, le. intros H1 H2. apply (inj encode). lia.
  - intros a b. unfold strict, prefix_le, ops, le.
    destruct (decide (encode a = encode b)) as [Hab%(inj encode)|Hab];
      [right; left; done|]. destruct (decide (encode a <= encode b)%positive); [left|right; right]; lia.
Qed.

End PrefixModel.

Module Witness.
#[local] Existing Instance Model.ops.
#[local] Existing Instance EthModel.ops.
#[local] Existing Instance EthModel.laws.
#[local] Existing Instance OasisModel.ops.
#[local] Existing Instance OasisModel.laws.
#[local] Existing Instance Dispatcher.Witness.model_decoders.
#[local] Existing Instance PrefixModel.ops.
#[local] Existing Instance PrefixModel.laws.

(** The batch calls three receivers, one of them twice; the metadata of its
    only sender is cached. *)
Lemma prefetch_transparent_witness :
  omap_ok fst (execute_batch_prefetch Release dispatcher_new Dispatcher.Witness.ctx0
                 Dispatcher.Witness.batch) =
    execute_batch Release dispatcher_new Dispatcher.Witness.ctx0 Dispatcher.Witness.batch /\
  exists res keys,
    execute_batch_prefetch Release dispatcher_new Dispatcher.Witness.ctx0
      Dispatcher.Witness.batch = Ok (res, Some (keys, 10000%Z)) /\
    length keys = 6 /\ replicate 20 x02 ++ [x01] ∈ keys.
Proof.
  destruct (prefetch_transparent Release dispatcher_new Dispatcher.Witness.ctx0
    Dispatcher.Witness.batch) as [Heq Hreq].
  - reflexivity.
  - split; [exact Heq|]. eexists _, _. split; [vm_compute; reflexivity|].
    split; [reflexivity|]. repeat (left; reflexivity) || right.
Defined.

End Witness.
