(* ===== verification/Runtime.v ===== *)
(** * What a runtime promises to the node that runs it

    The node gives batches to the runtime and stores what it reports.  The
    class [BatchRuntime] is the interface between the two: it says what the
    results of a batch may be, whatever is in the batch and whenever it is
    aborted.  The dispatcher of [src/dispatcher.rs], with and without the
    [prefetch] feature, is an instance; [Chain] builds on the interface
    only. *)

From Stdlib Require Import ZArith Lia Strings.Byte.
From stdpp Require Import base gmap strings option list.
From S2P Require Import Prelude Crypto Api OasisCore Ethcore Methods Dispatcher Prefetch.

Section runtime.
Context {M : Mrae} {E : Ethcore} {O : OasisCore} {OL : OasisCoreLaws O}.

(** What is reported for a call: the encoded result of its own transaction
    with the tags of that transaction, or an encoded error without tags. *)
Inductive reports (call : bytes) : ExecuteTxResult -> Prop :=
| reports_success txn x :
    decode_transaction call = Ok txn ->
    reports call {| tx_output := output_to_vec (Success (result_to_value x));
                    tx_tags := result_tags (signed_hash txn) x |}
| reports_error m :
    reports call {| tx_output := output_to_vec (Error m); tx_tags := [] |}.

(** A context the node opens a batch with. *)
Definition opens (ctx : TxnContext) : Prop :=
  check_only ctx = false /\ pending_tags (inner ctx) = [].

Class BatchRuntime (R : Type) := {
  run_batch : R -> TxnContext -> list bytes -> outcome RuntimeError ExecuteBatchResult;
  run_batch_reports r ctx batch res :
    opens ctx -> run_batch r ctx batch = Ok res -> Forall2 reports batch (results res)
}.

(** ** The dispatcher *)

Section dispatcher.
Context {L : EthcoreLaws E} {DT : DecodersTotal}.

(** Only a check-only context answers with [CheckOnlySuccess]. *)
Lemma check_tx_error raw e : check_tx raw = Err e -> e <> ErrCheckOnlySuccess.
Proof.
  unfold check_tx. intros H ->. destruct (rlp_decode raw) as [u| |]; [|done|done].
  cbn [map_err obind] in H. case_match; [done|]. destruct (signed_new u); [|done|done].
  cbn [map_err obind] in H. by case_match.
Qed.

Lemma decode_transaction_error call e :
  decode_transaction call = Err e -> e <> ErrCheckOnlySuccess.
Proof.
  unfold decode_transaction. intros H ->. destruct (call_from_slice call) as [c| |]; [|done|done].
  cbn [map_err obind] in H. case_bool_decide; [done|].
  destruct (bytes_from_value (args c)) as [b| |]; [|done|done]. cbn [map_err obind] in H.
  by apply check_tx_error in H.
Qed.

Lemma execute_tx_error txn ctx b e ctx' :
  check_only ctx = false -> runtime ctx = Some b -> gas_in_range b ->
  execute_tx txn ctx = (Err e, ctx') -> e <> ErrCheckOnlySuccess.
Proof.
  intros Hc Hb Hg Hrun ->. rewrite execute_tx_run in Hrun by (intros; by simplify_eq).
  rewrite Hc, Hb in Hrun. case_bool_decide; [done|]. case_match; [done|].
  destruct (state_apply _ txn _) as [[o|m|] st]; [|done|done].
  unfold status_of in Hrun. by destruct (receipt_outcome (receipt o)).
Qed.

Lemma reports_serialized call e :
  e <> ErrCheckOnlySuccess ->
  reports call {| tx_output := serialize_error e; tx_tags := [] |}.
Proof. intros He. unfold serialize_error. destruct e; try done; apply reports_error. Qed.

Lemma load_or_decode_cases self j call :
  (exists txn, load_or_decode self j call = inr txn /\ decode_transaction call = Ok txn) \/
  (exists e, load_or_decode self j call = inl e /\ e <> ErrCheckOnlySuccess).
Proof.
  unfold load_or_decode, decoded. destruct (aborted self j); [right; by exists batch_aborted|].
  pose proof (decode_transaction_error call).
  destruct (decode_transaction call) as [txn|e|]; [left; by exists txn|right|right].
  - exists e. eauto.
  - by exists batch_aborted.
Qed.

Lemma process_call_reports {Er} self i j call ctx o ctx' :
  between_calls ctx -> check_only ctx = false ->
  process_call (Er:=Er) self i (load_or_decode self j call) ctx = (Ok o, ctx') ->
  reports call (execute_tx_result o) /\ between_calls ctx' /\ check_only ctx' = false.
Proof.
  intros Hbc Hc Hrun. unfold process_call in Hrun.
  destruct (aborted self i).
  { simplify_eq. split; [by apply reports_serialized|done]. }
  destruct (load_or_decode_cases self j call) as [(txn & Hl & Hd)|(e & Hl & He)];
    rewrite Hl in Hrun.
  2:{ simplify_eq. split; [by apply reports_serialized|done]. }
  destruct Hbc as [(b & Hb & Hg) Hp].
  unfold encode_response, sbind, sret in Hrun. destruct (execute_tx txn ctx) as [r ctx1] eqn:Hx.
  destruct (execute_tx_step _ _ _ _ _ Hb Hg Hx) as (b1 & Hb1 & Hg1 & Hs & Hc1 & _).
  pose proof (execute_tx_pending _ _ _ _ _ Hb Hg Hx) as Hpe. rewrite Hp in Hpe. cbn [app] in Hpe.
  rewrite Hc in Hc1. destruct r as [x|e|]; [| |done].
  - pose proof (take_tags_all (inner ctx1)) as Htt. pose proof (pending_take (inner ctx1)) as Hpt.
    destruct (take_tags (inner ctx1)) as [tags i1]. cbn [fst snd] in *. simplify_eq.
    split; [|by split; [split; [exists b1|]|]].
    unfold execute_tx_result. cbn [fst snd]. rewrite Hpe. by apply reports_success.
  - simplify_eq. split; [|by split; [split; [exists b1|]|]].
    apply reports_serialized. by apply (execute_tx_error txn ctx b e ctx').
Qed.

Lemma process_calls_reports {Er} self i k batch ctx os ctx' :
  between_calls ctx -> check_only ctx = false ->
  process_calls (Er:=Er) self i (imap (fun j => load_or_decode self (k + j)) batch) ctx
    = (Ok os, ctx') ->
  Forall2 reports batch (execute_tx_result <$> os).
Proof.
  revert i k ctx os. induction batch as [|call batch IH]; intros i k ctx os Hbc Hc Hrun.
  - injection Hrun as <- <-. constructor.
  - cbn [imap process_calls] in Hrun. apply sbind_Ok in Hrun as (o & ctx1 & Ho & Hrun).
    apply sbind_Ok in Hrun as (os1 & ctx2 & Hos & Hrun). injection Hrun as <- <-.
    apply process_call_reports in Ho as (Hr & Hbc1 & Hc1); [|done|done].
    constructor; [done|]. apply (IH (S i) (S k) ctx1); [done|done|].
    rewrite <- Hos. f_equal. apply imap_ext. intros. simpl. by rewrite Nat.add_succ_r.
Qed.

Lemma execute_batch_reports p self ctx batch res :
  opens ctx -> execute_batch p self ctx batch = Ok res -> Forall2 reports batch (results res).
Proof.
  intros [Hc Hp]. unfold execute_batch. rewrite run_sbind.
  destruct (start_batch p ctx) as [[[]| |] ctx1] eqn:Hs; [|done|done].
  destruct (start_batch_Ok _ _ _ _ Hs) as (b & Hb & Hg & _ & _ & Hc1 & _ & Hi).
  rewrite run_sbind. unfold slift. rewrite decode_calls_eq, run_sbind.
  destruct (process_calls _ _ _ ctx1) as [[os| |] ctx2] eqn:Hrun; [|done|done].
  rewrite run_sbind. destruct (end_batch ctx2) as [[[]| |] ctx3]; [|done|done].
  cbn. intros [= <-]. cbn [results]. eapply process_calls_reports; [| |exact Hrun].
  - split; [by exists b|congruence].
  - congruence.
Qed.

#[export] Instance dispatcher_runtime : BatchRuntime (profile * Dispatcher) := {|
  run_batch r := execute_batch r.1 r.2;
  run_batch_reports r := execute_batch_reports r.1 r.2
|}.

(** The dispatcher built with the [prefetch] feature keeps the promise
    because it returns the same results. *)
Lemma execute_batch_prefetch_reports {PO : PrefixOps} p self ctx batch res :
  opens ctx -> omap_ok fst (execute_batch_prefetch p self ctx batch) = Ok res ->
  Forall2 reports batch (results res).
Proof. rewrite execute_batch_prefetch_fst. apply execute_batch_reports. Qed.

End dispatcher.
End runtime.
