(* ===== verification/Informant.v ===== *)
(** * Request statistics of WebSocket sessions ([gateway/src/informant.rs])

    A [RateCalculator] counts the requests of a session per second in a ring
    of ten slots; [RpcStats] keeps one calculator per open session.  Every
    read of the clock is an argument, in nanoseconds: a tick reads it up to
    three times, and nothing keeps the reads within one second. *)

From Stdlib Require Import ZArith Lia.
From Stdlib Require Strings.Byte.
From stdpp Require Import base relations gmap option strings pretty list.
From S2P Require Import Prelude.

Local Open Scope Z_scope.

Definition RATE_SECONDS : Z := 10.
Definition nanos : Z := 10 ^ 9.

Definition u16_max : Z := 65535.
(** [u16::saturating_add] *)
Definition u16_saturating_add (a b : Z) : Z := Z.min u16_max (a + b).

Record RateCalculator := { era : Z; samples : list Z }.

(** [RateCalculator::default()], at the instant it reads. *)
Definition RateCalculator_default (now : Z) : RateCalculator :=
  {| era := now; samples := replicate (Z.to_nat RATE_SECONDS) 0 |}.

(** [self.era.elapsed().as_secs()], at [now]. *)
Definition elapsed (now : Z) (self : RateCalculator) : Z := (now - era self) / nanos.

(** [self.samples[pos]], for an index within the array. *)
Definition sample (pos : Z) (self : RateCalculator) : Z := nth (Z.to_nat pos) (samples self) 0.

Definition set_sample (pos v : Z) (self : RateCalculator) : RateCalculator :=
  {| era := era self; samples := <[Z.to_nat pos := v]> (samples self) |}.

(** The clock reads of one [tick]: the test of the era, the new era when the
    test asks for one, and the position. *)
Record reads := { at_check : Z; at_reset : Z; at_pos : Z }.

Definition tick (now : reads) (self : RateCalculator) : Z * RateCalculator :=
  let self :=
    if RATE_SECONDS <=? elapsed (at_check now) self
    then set_sample 0 0 {| era := at_reset now; samples := samples self |}
    else self in
  let pos := elapsed (at_pos now) self mod RATE_SECONDS in
  let next := (pos + 1) mod RATE_SECONDS in
  let self := set_sample next 0 self in
  let self := set_sample pos (u16_saturating_add (sample pos self) 1) self in
  (sample pos self, self).

Definition current_rate (now : Z) (self : RateCalculator) : Z :=
  let i := elapsed now self in
  let now := if RATE_SECONDS <=? i then RATE_SECONDS else i + 1 in
  foldr Z.add 0 (take (Z.to_nat now) (samples self)) / now.

(** [rate] reads the clock for its own test, then again in [current_rate]. *)
Definition rate (now1 now2 : Z) (self : RateCalculator) : Z :=
  if RATE_SECONDS <? elapsed now1 self then 0 else current_rate now2 self.

(** [Debug], as [WsStats] and [RpcStats] print it. *)
Definition RateCalculator_fmt (now1 now2 : Z) (self : RateCalculator) : string :=
  (pretty (rate now1 now2 self) +:+ " req/s")%string.

(** ** [RpcStats] *)

Record RpcStats := { sessions_map : gmap H256 RateCalculator }.

Definition RpcStats_default : RpcStats := {| sessions_map := ∅ |}.

Definition open_session (now : Z) (id : H256) (self : RpcStats) : RpcStats :=
  {| sessions_map := <[id := RateCalculator_default now]> (sessions_map self) |}.

Definition close_session (id : H256) (self : RpcStats) : RpcStats :=
  {| sessions_map := delete id (sessions_map self) |}.

Definition count_request (now : reads) (id : H256) (self : RpcStats) : Z * RpcStats :=
  match sessions_map self !! id with
  | Some calc =>
      let '(n, calc) := tick now calc in
      (n, {| sessions_map := <[id := calc]> (sessions_map self) |})
  | None => (0, self)
  end.

Definition sessions (self : RpcStats) : Z := Z.of_nat (size (sessions_map self)).

Definition requests_rate (now1 now2 : Z) (id : H256) (self : RpcStats) : Z :=
  match sessions_map self !! id with
  | Some calc => rate now1 now2 calc
  | None => 0
  end.

(** ** Specification *)

(** Ten samples, each a [u16]. *)
Definition calc_wf (self : RateCalculator) : Prop :=
  length (samples self) = Z.to_nat RATE_SECONDS /\
  Forall (fun x => 0 <= x <= u16_max) (samples self).

(** A tick all of whose reads are in second [s] of the era. *)
Definition in_second (self : RateCalculator) (s : Z) (now : reads) : Prop :=
  elapsed (at_check now) self = s /\ elapsed (at_pos now) self = s.

(** The results of successive ticks. *)
Fixpoint ticks (nows : list reads) (self : RateCalculator) : list Z * RateCalculator :=
  match nows with
  | [] => ([], self)
  | now :: nows' =>
      let '(n, self1) := tick now self in
      let '(ns, self2) := ticks nows' self1 in
      (n :: ns, self2)
  end.

(** Counting [n] requests from [k] requests on. *)
Fixpoint counts (k : Z) (n : nat) : list Z :=
  match n with
  | O => []
  | S n' => Z.min u16_max (k + 1) :: counts (Z.min u16_max (k + 1)) n'
  end.

(** The operations on the statistics. *)
Inductive stats_step : RpcStats -> RpcStats -> Prop :=
| step_open now id stats : stats_step stats (open_session now id stats)
| step_close id stats : stats_step stats (close_session id stats)
| step_count now id stats : stats_step stats (count_request now id stats).2.

(** ** Lemmas *)

Lemma sample_set_eq pos v self :
  calc_wf self -> 0 <= pos < RATE_SECONDS -> sample pos (set_sample pos v self) = v.
Proof.
  intros [Hl _] Hp. unfold sample, set_sample. cbn [samples].
  rewrite nth_lookup, list_lookup_insert_eq; [done|]. unfold RATE_SECONDS in *. lia.
Qed.

Lemma sample_set_ne pos pos' v self :
  0 <= pos -> 0 <= pos' -> pos <> pos' -> sample pos (set_sample pos' v self) = sample pos self.
Proof.
  intros H1 H2 Hne. unfold sample, set_sample. cbn [samples].
  rewrite !nth_lookup, list_lookup_insert_ne; [done|]. lia.
Qed.

Lemma sample_bound pos self : calc_wf self -> 0 <= sample pos self <= u16_max.
Proof.
  intros [_ Hf]. unfold sample. rewrite nth_lookup.
  destruct (samples self !! Z.to_nat pos) as [x|] eqn:Hx; [|unfold u16_max; simpl; lia].
  rewrite Forall_lookup in Hf. by apply Hf in Hx.
Qed.

Lemma set_sample_wf pos v self :
  calc_wf self -> 0 <= v <= u16_max -> calc_wf (set_sample pos v self).
Proof.
  intros [Hl Hf] Hv. split; cbn [samples set_sample].
  - by rewrite length_insert.
  - by apply Forall_insert.
Qed.

Lemma era_wf e self : calc_wf self -> calc_wf {| era := e; samples := samples self |}.
Proof. done. Qed.

Lemma default_wf now : calc_wf (RateCalculator_default now).
Proof.
  split; [done|]. apply Forall_replicate. unfold u16_max. lia.
Qed.

#[local] Hint Resolve set_sample_wf era_wf default_wf sample_bound : rt.

Lemma add1_bound x : 0 <= x <= u16_max -> 0 <= u16_saturating_add x 1 <= u16_max.
Proof. unfold u16_saturating_add, u16_max. lia. Qed.

Lemma zero_bound : 0 <= 0 <= u16_max.
Proof. unfold u16_max. lia. Qed.
#[local] Hint Resolve add1_bound zero_bound : rt.

Lemma next_pos s : 0 <= s < RATE_SECONDS ->
  0 <= (s + 1) mod RATE_SECONDS < RATE_SECONDS /\ (s + 1) mod RATE_SECONDS <> s.
Proof.
  unfold RATE_SECONDS. intros Hs. pose proof (Z.mod_pos_bound (s + 1) 10).
  destruct (decide (s = 9)) as [->|]; [done|]. rewrite Z.mod_small by lia. lia.
Qed.

(** A tick within second [s] of the era bumps slot [s] and clears the next. *)
Lemma tick_in_second self s now :
  calc_wf self -> 0 <= s < RATE_SECONDS -> in_second self s now ->
  tick now self =
    (Z.min u16_max (sample s self + 1),
     set_sample s (Z.min u16_max (sample s self + 1))
       (set_sample ((s + 1) mod RATE_SECONDS) 0 self)).
Proof.
  intros Hwf Hs [Hc Hp]. unfold tick. rewrite Hc. rewrite (proj2 (Z.leb_gt _ _)) by lia.
  rewrite Hp, Z.mod_small by done. destruct (next_pos s Hs) as [Hn Hne].
  rewrite (sample_set_ne s ((s + 1) mod RATE_SECONDS)) by lia.
  rewrite sample_set_eq by auto with rt. unfold u16_saturating_add. done.
Qed.

Lemma tick_wf now self : calc_wf self -> calc_wf (tick now self).2.
Proof. intros Hwf. unfold tick. case_match; cbn [snd]; auto 10 with rt. Qed.

Lemma tick_value now self : calc_wf self -> 1 <= (tick now self).1 <= u16_max.
Proof.
  intros Hwf. unfold tick. set (self1 := if _ <=? _ then _ else _).
  assert (calc_wf self1) as Hwf1 by (subst self1; case_match; auto 10 with rt).
  cbn [fst]. set (pos := _ mod _). pose proof (Z.mod_pos_bound (elapsed (at_pos now) self1) 10).
  rewrite sample_set_eq by (auto with rt || (subst pos; unfold RATE_SECONDS; lia)).
  set (self2 := set_sample _ 0 self1).
  assert (0 <= sample pos self2 <= u16_max) by (subst self2; auto with rt).
  unfold u16_saturating_add, u16_max in *. lia.
Qed.

Lemma ticks_wf nows self : calc_wf self -> calc_wf (ticks nows self).2.
Proof.
  revert self. induction nows as [|now nows IH]; intros self Hwf; [done|].
  cbn [ticks]. pose proof (tick_wf now self Hwf) as Hw.
  destruct (tick now self) as [n self1]. specialize (IH self1 Hw).
  by destruct (ticks nows self1).
Qed.

Lemma ticks_in_second nows self s :
  calc_wf self -> 0 <= s < RATE_SECONDS -> Forall (in_second self s) nows ->
  (ticks nows self).1 = counts (sample s self) (length nows).
Proof.
  revert self. induction nows as [|now nows IH]; intros self Hwf Hs Hin; [done|].
  apply Forall_cons_1 in Hin as [Hn Hin]. cbn [ticks counts length].
  rewrite (tick_in_second self s now) by done. set (self1 := set_sample s _ _).
  assert (calc_wf self1) as Hwf1.
  { pose proof (sample_bound s self Hwf). apply set_sample_wf; [auto with rt|].
    unfold u16_max in *. lia. }
  assert (Forall (in_second self1 s) nows) as Hin1 by exact Hin.
  specialize (IH self1 Hwf1 Hs Hin1).
  destruct (ticks nows self1) as [ns self2]. cbn [fst] in *. rewrite IH.
  subst self1. by rewrite sample_set_eq by auto with rt.
Qed.

Lemma counts_lookup k n i :
  0 <= k <= u16_max -> (i < n)%nat ->
  counts k n !! i = Some (Z.min u16_max (k + Z.of_nat i + 1)).
Proof.
  revert k i. induction n as [|n IH]; intros k i Hk Hi; [lia|].
  destruct i as [|i]; cbn [counts lookup list_lookup].
  - do 2 f_equal. lia.
  - rewrite IH by (unfold u16_max in *; lia). f_equal. unfold u16_max in *. lia.
Qed.

Lemma length_counts k n : length (counts k n) = n.
Proof. revert k. induction n; intros; simpl; [done|]. by rewrite IHn. Qed.

Lemma sum_bound (l : list Z) :
  Forall (fun x => 0 <= x <= u16_max) l ->
  0 <= foldr Z.add 0 l <= u16_max * Z.of_nat (length l).
Proof.
  induction 1 as [|x l Hx Hl IH]; simpl; [lia|]. unfold u16_max in *. lia.
Qed.

(** ** Properties *)

(** A session's count never misses a request: of the ticks that all fall
    in one second of the era, the [i]-th returns the requests of that second
    so far on top of what the slot held, saturated at 65535; and when a tick
    fell in the second before, the slot held nothing and the count is exact. *)
Theorem tick_counts_second self s now nows i :
  calc_wf self -> 0 <= s < RATE_SECONDS -> (i < length nows)%nat ->
  (Forall (in_second self s) nows ->
   (ticks nows self).1 !! i =
     Some (Z.min u16_max (sample s self + Z.of_nat i + 1))) /\
  (in_second self s now -> s + 1 < RATE_SECONDS -> Forall (in_second self (s + 1)) nows ->
   (ticks nows (tick now self).2).1 !! i = Some (Z.min u16_max (Z.of_nat i + 1))).
Proof.
  intros Hwf Hs Hi. split.
  - intros Hin. rewrite (ticks_in_second nows self s) by done.
    rewrite counts_lookup by auto with rt. done.
  - intros Hn Hs1 Hin. pose proof (tick_wf now self Hwf) as Hwf1.
    rewrite (tick_in_second self s now) in * by done. cbn [snd] in *.
    set (self1 := set_sample s _ _) in *.
    assert (Forall (in_second self1 (s + 1)) nows) as Hin1 by exact Hin.
    rewrite (ticks_in_second nows self1 (s + 1)) by (done || lia).
    assert (sample (s + 1) self1 = 0) as ->.
    { subst self1. rewrite sample_set_ne by lia. rewrite Z.mod_small by lia.
      apply sample_set_eq; [done|unfold RATE_SECONDS in *; lia]. }
    rewrite counts_lookup by auto with rt. by rewrite Z.add_0_l.
Qed.

(** The count can exceed the requests of the second: a tick ten seconds
    or more into an era starts a new era but only clears the first two slots,
    so the first tick of a later second of the new era that follows a second
    without ticks returns one more than the old era's count for that slot. *)
Theorem stale_slot_is_counted self s now now' :
  calc_wf self -> 2 <= s < RATE_SECONDS ->
  RATE_SECONDS <= elapsed (at_check now) self ->
  (at_pos now - at_reset now) / nanos = 0 ->
  in_second (tick now self).2 s now' ->
  (tick now' (tick now self).2).1 = Z.min u16_max (sample s self + 1).
Proof.
  intros Hwf Hs Hc Hp Hin. pose proof (tick_wf now self Hwf) as Hwf1.
  rewrite (tick_in_second _ s now') by (done || lia). cbn [fst]. do 2 f_equal.
  unfold tick. rewrite (proj2 (Z.leb_le _ _)) by done. cbn [snd].
  set (self1 := set_sample 0 0 _).
  assert (elapsed (at_pos now) self1 = 0) as -> by exact Hp.
  change (0 mod RATE_SECONDS) with 0. change ((0 + 1) mod RATE_SECONDS) with 1.
  subst self1. by rewrite !sample_set_ne by lia.
Qed.

Lemma rate_in_range now1 now2 self :
  calc_wf self -> era self <= now2 -> 0 <= rate now1 now2 self <= u16_max.
Proof.
  intros [Hl Hf] Hn. unfold rate. case_match; [unfold u16_max; lia|].
  unfold current_rate.
  assert (0 <= elapsed now2 self) as H0.
  { unfold elapsed, nanos. apply Z.div_pos; lia. }
  set (w := if RATE_SECONDS <=? elapsed now2 self then _ else _).
  assert (1 <= w <= RATE_SECONDS) as Hw.
  { subst w. unfold RATE_SECONDS in *. case_match eqn:Hc; [lia|]. apply Z.leb_gt in Hc. lia. }
  pose proof (sum_bound (take (Z.to_nat w) (samples self)) ltac:(by apply Forall_take)) as Hb.
  rewrite length_take, Hl in Hb.
  split; [apply Z.div_pos; lia|].
  assert (foldr Z.add 0 (take (Z.to_nat w) (samples self)) <= u16_max * w).
  { unfold u16_max, RATE_SECONDS in *. lia. }
  apply Z.div_le_upper_bound; lia.
Qed.

Definition stats_wf (self : RpcStats) : Prop := map_Forall (fun _ => calc_wf) (sessions_map self).

Lemma stats_step_wf stats stats' : stats_step stats stats' -> stats_wf stats -> stats_wf stats'.
Proof.
  intros Hs Hwf. destruct Hs as [now id stats|id stats|now id stats].
  - apply map_Forall_insert_2; [apply default_wf|done].
  - by apply map_Forall_delete.
  - unfold count_request. destruct (sessions_map stats !! id) as [calc|] eqn:Hc; [|done].
    pose proof (tick_wf now calc (Hwf id calc Hc)) as Hw.
    destruct (tick now calc) as [n calc']. by apply map_Forall_insert_2.
Qed.

(** C26. The statistics keep their types: after any sequence of operations
    every session has ten samples that fit a [u16], whatever the clock reads;
    so a count fits a [u16], is positive exactly for open sessions, and the
    rate divides by a nonempty window and fits a [u16] as well. *)
Theorem stats_keep_types stats now now1 now2 id :
  rtc stats_step RpcStats_default stats ->
  map_Forall (fun _ calc => length (samples calc) = 10%nat /\
    Forall (fun x => 0 <= x <= u16_max) (samples calc)) (sessions_map stats) /\
  0 <= (count_request now id stats).1 <= u16_max /\
  (0 < (count_request now id stats).1 <-> is_Some (sessions_map stats !! id)) /\
  (map_Forall (fun _ calc => era calc <= now2) (sessions_map stats) ->
   0 <= requests_rate now1 now2 id stats <= u16_max).
Proof.
  intros Hr. assert (stats_wf stats) as Hwf.
  { revert stats Hr. apply (rtc_ind_r stats_wf); [done|]. intros s1 s2 _ Hs Hwf.
    by eapply stats_step_wf. }
  split; [exact Hwf|]. unfold count_request, requests_rate.
  destruct (sessions_map stats !! id) as [calc|] eqn:Hc.
  - pose proof (tick_value now calc (Hwf id calc Hc)). destruct (tick now calc) as [n calc'].
    cbn [fst] in *. split_and!; [lia|lia|split; [done|lia]|].
    intros He. apply rate_in_range; [by apply (Hwf id)|by apply (He id)].
  - cbn [fst]. unfold u16_max. split_and!; [lia|lia|split; [lia|by intros []]|lia].
Qed.

(** ** Witnesses *)

Module Witness.

Definition at_second (s : Z) : reads :=
  {| at_check := s * nanos; at_reset := s * nanos; at_pos := s * nanos |}.
Definition calc0 : RateCalculator := RateCalculator_default 0.

Lemma tick_counts_second_witness :
  (ticks [at_second 4; at_second 4] (tick (at_second 3) calc0).2).1 !! 1%nat = Some 2.
Proof.
  destruct (tick_counts_second calc0 3 (at_second 3) [at_second 4; at_second 4] 1)
    as [_ H].
  - apply default_wf.
  - unfold RATE_SECONDS. lia.
  - simpl. lia.
  - rewrite H; [reflexivity|split; reflexivity|unfold RATE_SECONDS; lia|].
    repeat constructor.
Defined.

(** Five requests in second 3, silence until second 12, then one request in
    second 12 and one in second 15: the last is counted as the sixth. *)
Definition calc3 : RateCalculator := (ticks (replicate 5 (at_second 3)) calc0).2.

Lemma stale_slot_is_counted_witness :
  (tick (at_second 15) (tick (at_second 12) calc3).2).1 = 6.
Proof.
  rewrite (stale_slot_is_counted calc3 3 (at_second 12) (at_second 15)).
  - vm_compute. reflexivity.
  - apply ticks_wf, default_wf.
  - unfold RATE_SECONDS. lia.
  - vm_compute. discriminate.
  - reflexivity.
  - split; vm_compute; reflexivity.
Defined.

(** One session counted three times, another one opened and closed. *)
Definition stats3 : RpcStats :=
  close_session [Byte.x01] (open_session 0 [Byte.x01]
    (count_request (at_second 3) [] (count_request (at_second 3) []
      (count_request (at_second 3) [] (open_session 0 [] RpcStats_default)).2).2).2).

Lemma stats_keep_types_witness :
  0 <= (count_request (at_second 3) [] stats3).1 <= u16_max /\
  (count_request (at_second 3) [] stats3).1 = 4.
Proof.
  split; [|vm_compute; reflexivity].
  apply (stats_keep_types stats3 (at_second 3) 0 0 []).
  eapply rtc_l; [apply (step_open 0 [])|]. do 3 (eapply rtc_l; [apply (step_count (at_second 3) [])|]).
  eapply rtc_l; [apply (step_open 0 [Byte.x01])|].
  eapply rtc_l; [apply (step_close [Byte.x01])|]. apply rtc_refl.
Defined.

End Witness.
