(* ===== verification/JsonRpc.v ===== *)
(** * JSON-RPC data and the gateway's conversions ([gateway/src/util.rs])

    The request, response and error types are those of [jsonrpc_core] as the
    code matches on and builds them; [ParityRpc] holds the error constructors
    and the response constructor of the libraries.  The conversions of
    [util.rs] follow. *)

From Stdlib Require Import ZArith Lia.
From stdpp Require Import base list strings option.
From S2P Require Import Prelude Crypto Api Ethcore.

(** ** Data *)

Inductive ErrorCode :=
| InternalError
| InvalidParams
| MethodNotFound
| ServerError (code : Z).

(** A JSON-RPC error; every [data] the code builds is a JSON string. *)
Record Error := {
  error_code : ErrorCode;
  error_message : string;
  error_data : option string
}.

Inductive Version := V2.

Inductive Id := Null | Num (n : Z) | Str (s : string).

#[global] Instance Id_eq_decision : EqDecision Id.
Proof. solve_decision. Defined.

(** [Call]: the parameters of a call are not inspected by the gateway. *)
Inductive Call {Params : Type} :=
| MethodCall (jsonrpc : option Version) (method : string) (params : Params) (id : Id)
| Notification (jsonrpc : option Version) (method : string) (params : Params)
| Invalid (id : Id).
Arguments Call : clear implicits.

Inductive Request {Params : Type} :=
| Single (call : Call Params)
| Batch (calls : list (Call Params)).
Arguments Request : clear implicits.

(** ** The libraries' constructors *)

Class ParityRpc := {
  (** [Output] and [Output::from(Err(error), id, jsonrpc)]. *)
  Output : Type;
  output_from_error : Error -> Id -> option Version -> Output;
  (** [parity_rpc]'s [errors] helpers, and the code of its execution error. *)
  EXECUTION_ERROR : Z;
  errors_deprecated : string -> Error;
  errors_unimplemented : Error;
  errors_filter_not_found : Error;
  errors_invalid_params : string -> string -> Error
}.

(** What the gateway relies on: a failure shows the id and the error it was
    made from. *)
Class ParityRpcLaws (P : ParityRpc) := {
  output_id : Output -> option Id;
  output_error : Output -> option Error;
  output_id_from_error e i v : output_id (output_from_error e i v) = Some i;
  output_error_from_error e i v : output_error (output_from_error e i v) = Some e
}.

Section responses.
Context {P : ParityRpc}.

Inductive Response :=
| ResponseSingle (output : Output)
| ResponseBatch (outputs : list Output).

(** ** [util.rs] *)

Definition jsonrpc_error (err : string) : Error := {|
  error_code := InternalError;
  error_message := err;
  error_data := None
|}.

Definition execution_error (data : string) : Error := {|
  error_code := ServerError EXECUTION_ERROR;
  error_message := "Transaction execution error with cause: " +:+ data;
  error_data := Some data
|}.

End responses.

(** An RPC block number, and the block identifier of [ethcore]. *)
Inductive BlockNumber := NumBlock (num : Z) | EarliestBlock | LatestBlock | PendingBlock.

Inductive BlockId := Hash (hash : H256) | Number (num : Z) | Earliest | Latest.

Definition block_number_to_id (number : BlockNumber) : BlockId :=
  match number with
  | NumBlock num => Number num
  | EarliestBlock => Earliest
  | LatestBlock => Latest
  | PendingBlock => Latest
  end.

Definition gwei_to_wei `{Ethcore} (gwei : Z) : U256 := u256_saturating_mul gwei 1000000000.

(** ** A concrete library *)

Module RpcModel.

Record output := { out_error : Error; out_id : Id; out_version : option Version }.

Definition server_error (code : Z) (m : string) : Error :=
  {| error_code := ServerError code; error_message := m; error_data := None |}.

#[local] Instance ops : ParityRpc := {|
  Output := output;
  output_from_error := Build_output;
  EXECUTION_ERROR := -32015;
  errors_deprecated := server_error (-32000);
  errors_unimplemented := server_error (-32000) "unimplemented";
  errors_filter_not_found := server_error (-32000) "Filter not found";
  errors_invalid_params := fun p m =>
    {| error_code := InvalidParams; error_message := p; error_data := Some m |}
|}.

#[local] Instance laws : ParityRpcLaws ops.
Proof.
  by refine (Build_ParityRpcLaws ops (fun o => Some (out_id o)) (fun o => Some (out_error o)) _ _).
Defined.

End RpcModel.
