(* ===== verification/Middleware.v ===== *)
(** * JSON-RPC middleware ([gateway/src/middleware.rs])

    [Middleware] refuses batches over a size, [WsDispatcher] refuses requests
    of a WebSocket session over a rate, [WsStats] opens and closes the
    sessions.  [on_request] either answers with errors or passes the request
    to the rest of the stack, the argument [process]. *)

From Stdlib Require Import ZArith Lia.
From Stdlib Require Strings.Byte.
From stdpp Require Import base list gmap strings option.
From S2P Require Import Prelude JsonRpc Informant.

Section middleware.
Context {P : ParityRpc} {Params Meta X : Type}.

Definition ERROR_BATCH_SIZE : Z := -32099.
Definition ERROR_RATE_LIMITED : Z := -32098.

Definition error_batch_size : Error := {|
  error_code := ServerError ERROR_BATCH_SIZE;
  error_message := "Too many JSON-RPC requests in batch";
  error_data := None
|}.

Definition error_rate_limited : Error := {|
  error_code := ServerError ERROR_RATE_LIMITED;
  error_message := "Too many requests";
  error_data := None
|}.

(** The trait [ErrGen] and its two implementations. *)
Class ErrGen (G : Type) := generate : G -> Error.
Inductive BatchSizeErrGen := BatchSize.
Inductive RateLimitedErrGen := RateLimited.
#[global] Instance BatchSize_gen : ErrGen BatchSizeErrGen := fun _ => error_batch_size.
#[global] Instance RateLimited_gen : ErrGen RateLimitedErrGen := fun _ => error_rate_limited.

Definition generate_error_response_call {G} `{ErrGen G} (call : Call Params) (gen : G) : Output :=
  match call with
  | MethodCall jsonrpc _ _ id => output_from_error (generate gen) id jsonrpc
  | Notification jsonrpc _ _ => output_from_error (generate gen) Null jsonrpc
  | Invalid id => output_from_error (generate gen) id None
  end.

Definition generate_error_response_calls {G} `{ErrGen G} (calls : list (Call Params)) (gen : G)
  : list Output :=
  (fun call => generate_error_response_call call gen) <$> calls.

Definition generate_error_response {G} `{ErrGen G} (request : Request Params) (gen : G)
  : option Response :=
  Some (match request with
        | Single call => ResponseSingle (generate_error_response_call call gen)
        | Batch calls => ResponseBatch (generate_error_response_calls calls gen)
        end).

(** ** [Middleware] *)

Record Middleware := { max_batch_size : Z }.

(** The calls an [on_request] makes: the activity notifier and the batch size
    histogram. *)
Inductive effect := Active | ObserveBatchSize (n : Z).

(** [Either::A] is an answer, [Either::B] what [process] returns. *)
Definition on_request (self : Middleware) (request : Request Params) (meta : Meta)
    (process : Request Params -> Meta -> X) : list effect * (option Response + X) :=
  match request with
  | Batch calls =>
      let batch_size := len calls in
      ([Active; ObserveBatchSize batch_size],
       if (max_batch_size self <? batch_size)%Z
       then inl (Some (ResponseBatch (generate_error_response_calls calls BatchSize)))
       else inr (process request meta))
  | Single _ => ([Active], inr (process request meta))
  end.

(** ** [WsDispatcher] *)

(** The origin of a request: only a WebSocket's session is read. *)
Inductive Origin := Ws (session : H256) | OtherOrigin.

Record WsDispatcher := { max_req_per_sec : Z }.

(** The dispatcher shares its [RpcStats] with [WsStats]. *)
Definition ws_on_request (self : WsDispatcher) (now : reads) (request : Request Params)
    (origin : Origin) (process : Request Params -> X) (stats : RpcStats)
  : (option Response + X) * RpcStats :=
  match origin with
  | Ws session =>
      let '(n, stats) := count_request now session stats in
      if (max_req_per_sec self <? n)%Z
      then (inl (generate_error_response request RateLimited), stats)
      else (inr (process request), stats)
  | OtherOrigin => (inr (process request), stats)
  end.

(** ** [WsStats] *)

(** Both callbacks set the session gauge to the number they leave open. *)
Definition ws_open_session (now : Z) (id : H256) (stats : RpcStats) : Z * RpcStats :=
  let stats := open_session now id stats in (sessions stats, stats).

Definition ws_close_session (id : H256) (stats : RpcStats) : Z * RpcStats :=
  let stats := close_session id stats in (sessions stats, stats).

(** ** Specification *)

(** The id a client correlates an answer with. *)
Definition call_id (call : Call Params) : Id :=
  match call with
  | MethodCall _ _ _ id => id
  | Notification _ _ _ => Null
  | Invalid id => id
  end.

(** One session's requests, one after the other. *)
Fixpoint ws_requests (self : WsDispatcher) (session : H256)
    (reqs : list (reads * Request Params)) (process : Request Params -> X) (stats : RpcStats)
  : list (option Response + X) * RpcStats :=
  match reqs with
  | [] => ([], stats)
  | (now, request) :: reqs' =>
      let '(r, stats1) := ws_on_request self now request (Ws session) process stats in
      let '(rs, stats2) := ws_requests self session reqs' process stats1 in
      (r :: rs, stats2)
  end.

Definition processed (rs : list (option Response + X)) : list X :=
  omap (fun r => match r with inr x => Some x | inl _ => None end) rs.

(** What reaches the WebSocket server, in the order it takes the lock of the
    statistics. *)
Inductive ws_event :=
| Opened (now : Z) (id : H256)
| Closed (id : H256)
| Requested (origin : Origin) (now : reads) (request : Request Params).

(** The answers with the origins of their requests. *)
Fixpoint ws_run (self : WsDispatcher) (process : Request Params -> X) (evs : list ws_event)
    (stats : RpcStats) : list (Origin * (option Response + X)) * RpcStats :=
  match evs with
  | [] => ([], stats)
  | Opened now id :: evs' => ws_run self process evs' (ws_open_session now id stats).2
  | Closed id :: evs' => ws_run self process evs' (ws_close_session id stats).2
  | Requested origin now request :: evs' =>
      let '(r, stats1) := ws_on_request self now request origin process stats in
      let '(rs, stats2) := ws_run self process evs' stats1 in
      ((origin, r) :: rs, stats2)
  end.

Definition is_ws (session : H256) (origin : Origin) : bool :=
  match origin with
  | Ws id => bool_decide (id = session)
  | OtherOrigin => false
  end.

Definition requests_of (session : H256) (evs : list ws_event) : list (reads * Request Params) :=
  omap (fun ev => match ev with
    | Requested origin now request =>
        if is_ws session origin then Some (now, request) else None
    | _ => None
    end) evs.

Definition answers_to (session : H256) (rs : list (Origin * (option Response + X)))
  : list (option Response + X) :=
  omap (fun r => if is_ws session r.1 then Some r.2 else None) rs.

(** The session is neither opened again nor closed. *)
Definition stays_open (session : H256) (ev : ws_event) : Prop :=
  match ev with
  | Opened _ id | Closed id => id <> session
  | Requested _ _ _ => True
  end.

(** ** Lemmas *)

Lemma generate_ids {PL : ParityRpcLaws P} {G} `{ErrGen G} (calls : list (Call Params)) (gen : G) :
  Forall2 (fun call o => output_id o = Some (call_id call) /\ output_error o = Some (generate gen))
    calls (generate_error_response_calls calls gen).
Proof.
  unfold generate_error_response_calls. apply Forall2_fmap_r, Forall_Forall2_diag, Forall_forall.
  intros call _. destruct call; simpl; by rewrite output_id_from_error, output_error_from_error.
Qed.

(** The requests of one second see successive counts. *)
Lemma ws_requests_counts self session reqs process stats calc s :
  sessions_map stats !! session = Some calc -> calc_wf calc ->
  (0 <= s < RATE_SECONDS)%Z -> Forall (fun r : reads * Request Params => in_second calc s r.1) reqs ->
  (ws_requests self session reqs process stats).1 =
  zip_with (fun (r : reads * Request Params) n =>
      if (max_req_per_sec self <? n)%Z then inl (generate_error_response r.2 RateLimited)
      else inr (process r.2))
    reqs (counts (sample s calc) (length reqs)).
Proof.
  revert stats calc. induction reqs as [|[now request] reqs IH]; intros stats calc Hc Hwf Hs Hin;
    [done|].
  apply Forall_cons_1 in Hin as [Hn Hin]. cbn [fst] in Hn.
  cbn [ws_requests length counts zip_with]. unfold ws_on_request, count_request. rewrite Hc.
  rewrite (tick_in_second calc s now) by done. set (n := Z.min u16_max (sample s calc + 1)).
  set (calc1 := set_sample s n _). set (stats1 := Build_RpcStats _).
  assert (calc_wf calc1) as Hwf1.
  { pose proof (sample_bound s calc Hwf). apply set_sample_wf.
    - apply set_sample_wf; [done|apply zero_bound].
    - subst n. unfold u16_max in *. lia. }
  specialize (IH stats1 calc1 (lookup_insert_eq _ _ _) Hwf1 Hs Hin).
  assert (sample s calc1 = n) as Hsn.
  { apply sample_set_eq; [|done]. apply set_sample_wf; [done|apply zero_bound]. }
  rewrite Hsn in IH. cbn [snd].
  destruct (max_req_per_sec self <? n)%Z;
    destruct (ws_requests self session reqs process stats1) as [rs stats2]; cbn [fst] in *;
    by rewrite IH.
Qed.

Lemma processed_counts self reqs process k :
  (0 <= k)%Z -> (max_req_per_sec self < u16_max)%Z ->
  (len (processed (zip_with (fun (r : reads * Request Params) n =>
      if (max_req_per_sec self <? n)%Z then inl (generate_error_response r.2 RateLimited)
      else inr (process r.2)) reqs (counts k (length reqs))))
   <= Z.max 0 (max_req_per_sec self - k))%Z.
Proof.
  intros Hk HM. revert k Hk. induction reqs as [|[now request] reqs IH]; intros k Hk.
  - simpl. unfold len. simpl. lia.
  - cbn [length counts zip_with]. unfold processed in *. cbn [omap list_omap].
    specialize (IH (Z.min u16_max (k + 1))). unfold u16_max in *.
    destruct (max_req_per_sec self <? Z.min 65535 (k + 1))%Z eqn:Hlim.
    + apply Z.ltb_lt in Hlim. unfold len in *. lia.
    + apply Z.ltb_ge in Hlim. unfold len in *. cbn [length]. lia.
Qed.

(** A request changes the statistics of no other session, and depends on those
    of its own only. *)
Lemma ws_on_request_other self now request origin process stats session :
  is_ws session origin = false ->
  sessions_map (ws_on_request self now request origin process stats).2 !! session =
  sessions_map stats !! session.
Proof.
  destruct origin as [id|]; [|done]. cbn [is_ws]. intros Hid%bool_decide_eq_false.
  unfold ws_on_request, count_request. destruct (sessions_map stats !! id) as [calc|].
  - destruct (tick now calc). case_match; simpl; by rewrite lookup_insert_ne.
  - by case_match.
Qed.

Lemma ws_on_request_local self now request session process stats stats' :
  sessions_map stats !! session = sessions_map stats' !! session ->
  (ws_on_request self now request (Ws session) process stats).1 =
    (ws_on_request self now request (Ws session) process stats').1 /\
  sessions_map (ws_on_request self now request (Ws session) process stats).2 !! session =
    sessions_map (ws_on_request self now request (Ws session) process stats').2 !! session.
Proof.
  intros Heq. unfold ws_on_request, count_request. rewrite Heq.
  destruct (sessions_map stats' !! session) as [calc|] eqn:Hc.
  - destruct (tick now calc). case_match; simpl; by rewrite !lookup_insert_eq.
  - case_match; simpl; by rewrite Hc.
Qed.

(** The answers to a session are those it would get alone. *)
Lemma ws_run_isolated self process session evs stats stats' :
  Forall (stays_open session) evs ->
  sessions_map stats !! session = sessions_map stats' !! session ->
  answers_to session (ws_run self process evs stats).1 =
  (ws_requests self session (requests_of session evs) process stats').1.
Proof.
  revert stats stats'. induction evs as [|ev evs IH]; intros stats stats' Ho Heq; [done|].
  apply Forall_cons_1 in Ho as [Hev Ho].
  destruct ev as [now id|id|origin now request]; cbn [ws_run requests_of omap list_omap] in *.
  - apply IH; [done|]. simpl. by rewrite lookup_insert_ne.
  - apply IH; [done|]. simpl. by rewrite lookup_delete_ne.
  - fold (requests_of session evs). destruct (is_ws session origin) eqn:Hw.
    + destruct origin as [id|]; [|done]. pose proof Hw as Hid. apply bool_decide_eq_true in Hid.
      subst id. cbn [ws_requests].
      destruct (ws_on_request_local self now request session process stats stats' Heq) as [H1 H2].
      destruct (ws_on_request self now request _ process stats) as [r s1].
      destruct (ws_on_request self now request _ process stats') as [r' s1'].
      cbn [fst snd] in *. specialize (IH s1 s1' Ho H2). subst r'.
      destruct (ws_run self process evs s1), (ws_requests _ _ _ _ s1').
      cbn [fst answers_to omap list_omap] in *. rewrite Hw. cbn [snd]. by f_equal.
    + pose proof (ws_on_request_other self now request origin process stats session Hw) as H.
      destruct (ws_on_request self now request origin process stats) as [r s1].
      cbn [snd] in H. specialize (IH s1 stats' Ho (eq_trans H Heq)).
      destruct (ws_run self process evs s1). cbn [fst answers_to omap list_omap] in *. by rewrite Hw.
Qed.

(** ** Properties *)

(** The batch limit: a request is passed on, unchanged, exactly when it is
    not a batch of more than [max_batch_size] calls; a refused batch gets one
    error per call, in order, each with the id of its call and the batch size
    error, and never reaches the handlers. *)
Theorem batch_limit {PL : ParityRpcLaws P} self request meta process :
  match request with
  | Batch calls =>
      if bool_decide (len calls <= max_batch_size self)%Z
      then (on_request self request meta process).2 = inr (process request meta)
      else exists outputs,
        (on_request self request meta process).2 = inl (Some (ResponseBatch outputs)) /\
        Forall2 (fun call o => output_id o = Some (call_id call) /\
                               output_error o = Some error_batch_size) calls outputs
  | Single _ => (on_request self request meta process).2 = inr (process request meta)
  end.
Proof.
  destruct request as [call|calls]; [done|]. unfold on_request. cbn [snd].
  case_bool_decide as Hl.
  - by rewrite (proj2 (Z.ltb_ge _ _)).
  - rewrite (proj2 (Z.ltb_lt _ _)) by lia. eexists. split; [done|].
    exact (generate_ids (H:=BatchSize_gen) calls BatchSize).
Qed.

(** C24. The rate limit holds for every session on its own: however its
    requests are interleaved with those of other sessions and with sessions
    opening and closing, of the requests of an open session that fall in one
    second of its era, at most [max_req_per_sec] are processed and every
    other is answered with the rate limit error, as long as the limit is below
    the counter's ceiling of 65535. *)
Theorem rate_limit_holds self session evs process stats calc s :
  sessions_map stats !! session = Some calc -> calc_wf calc ->
  Forall (stays_open session) evs ->
  (0 <= s < RATE_SECONDS)%Z ->
  Forall (fun r => in_second calc s r.1) (requests_of session evs) ->
  (0 <= max_req_per_sec self < u16_max)%Z ->
  let answers := answers_to session (ws_run self process evs stats).1 in
  (len (processed answers) <= max_req_per_sec self)%Z /\
  Forall2 (fun (r : reads * Request Params) o => o = inr (process r.2) \/
                      o = inl (generate_error_response r.2 RateLimited))
    (requests_of session evs) answers.
Proof.
  intros Hc Hwf Ho Hs Hin HM answers. subst answers.
  rewrite (ws_run_isolated self process session evs stats stats) by done.
  rewrite (ws_requests_counts _ _ _ _ _ calc s) by done.
  pose proof (sample_bound s calc Hwf) as Hb. split.
  - pose proof (processed_counts self (requests_of session evs) process (sample s calc)). lia.
  - clear. generalize (sample s calc).
    induction (requests_of session evs) as [|r reqs IH]; intros k; [constructor|].
    cbn [length counts zip_with]. constructor; [case_match; auto|]. apply IH.
Qed.

(** Above the ceiling there is no limit: with [max_req_per_sec] at 65535
    or more every request of an open session is processed, and so is every
    request of a session that is not open. *)
Theorem no_limit_above_ceiling self now request session process stats :
  (forall calc, sessions_map stats !! session = Some calc ->
    calc_wf calc /\ u16_max <= max_req_per_sec self)%Z ->
  (0 <= max_req_per_sec self)%Z ->
  (ws_on_request self now request (Ws session) process stats).1 = inr (process request).
Proof.
  intros Hc HM. unfold ws_on_request, count_request.
  destruct (sessions_map stats !! session) as [calc|].
  - destruct (Hc calc eq_refl) as [Hwf Hmax]. pose proof (tick_value now calc Hwf).
    destruct (tick now calc) as [n calc']. cbn [fst] in *.
    by rewrite (proj2 (Z.ltb_ge _ _)) by lia.
  - by rewrite (proj2 (Z.ltb_ge _ _)).
Qed.

End middleware.

(** ** Witnesses *)

Module Witness.
#[local] Existing Instance RpcModel.ops.
#[local] Existing Instance RpcModel.laws.

Definition req (n : Z) : Request unit := Single (MethodCall (Some V2) "test" () (Num n)).
Definition stats1 : RpcStats := open_session 0 [] RpcStats_default.

(** Two requests of the session, with another session's between them. *)
Definition interleaved : list (@ws_event unit) :=
  [Requested (Ws []) (Informant.Witness.at_second 3) (req 1);
   Opened 0 [Byte.x01];
   Requested (Ws [Byte.x01]) (Informant.Witness.at_second 3) (req 2);
   Requested (Ws []) (Informant.Witness.at_second 3) (req 3);
   Closed [Byte.x01]].

Lemma batch_limit_witness :
  (on_request {| max_batch_size := 1 |} (Batch [MethodCall (Some V2) "test" () (Num 1)]) ()
     (fun _ _ => true)).2 = inr true.
Proof.
  exact (batch_limit {| max_batch_size := 1 |} (Batch [MethodCall (Some V2) "test" () (Num 1)])
    () (fun _ _ => true)).
Defined.

Lemma rate_limit_holds_witness :
  (len (processed (answers_to [] (ws_run {| max_req_per_sec := 1 |} (fun _ => true)
                                    interleaved stats1).1)) <= 1)%Z /\
  snd <$> (ws_run {| max_req_per_sec := 1 |} (fun _ => true) interleaved stats1).1 =
    [inr true; inr true; inl (generate_error_response (req 3) RateLimited)].
Proof.
  split; [|vm_compute; reflexivity].
  apply (rate_limit_holds {| max_req_per_sec := 1 |} [] interleaved (fun _ => true) stats1
    (RateCalculator_default 0) 3).
  - reflexivity.
  - apply default_wf.
  - repeat constructor; discriminate.
  - unfold RATE_SECONDS. lia.
  - repeat constructor.
  - unfold u16_max. simpl. lia.
Defined.

Lemma no_limit_above_ceiling_witness :
  (ws_on_request {| max_req_per_sec := 65535 |} (Informant.Witness.at_second 3) (req 1) (Ws [])
     (fun _ => true) stats1).1 = inr true.
Proof.
  apply (no_limit_above_ceiling {| max_req_per_sec := 65535 |} (Informant.Witness.at_second 3)
    (req 1) [] (fun _ => true) stats1).
  - intros calc Hc. assert (calc = RateCalculator_default 0) as -> by (by injection Hc).
    split; [apply default_wf|unfold u16_max; simpl; lia].
  - simpl. lia.
Defined.

End Witness.
