(* ===== verification/Metrics.v ===== *)
(** * The gateway's metrics (the [lazy_static] metrics of
    [gateway/src/middleware.rs] and [gateway/src/impls/])

    Every metric is a static that is registered under its name when it is
    first used; two statics with one name cannot both be registered.  An RPC method counts its calls in the counter of its API,
    under a label of its own, and some methods also time them; the middleware
    counts what it refuses and observes the batch sizes.  The registry and
    the metrics are the library's: [MetricsLib] holds the calls the code
    makes, [MetricsLibLaws] what registration promises. *)

From Stdlib Require Import ZArith Lia.
From stdpp Require Import base numbers gmap strings option list.
From S2P Require Import Prelude JsonRpc Informant Middleware.

(** A metric: a counter, a gauge or a histogram, or a vector of them with
    label names; the buckets of a histogram are in hundredths. *)
Inductive MetricKind :=
| IntCounter
| IntGauge
| Histogram
| IntCounterVec (label_names : list string)
| HistogramVec (label_names : list string) (buckets : list Z).

Record Metric := { metric_name : string; metric_help : string; metric_kind : MetricKind }.

(** A static that holds a metric, known by its path in the crate. *)
Record Static := { static_path : string; static_metric : Metric }.

Class MetricsLib := {
  Registry : Type;
  (** [register_..!] *)
  register : Metric -> Registry -> outcome string unit * Registry
}.

Class MetricsLibLaws (L : MetricsLib) := {
  registered : Registry -> gset string;
  register_new m r : metric_name m ∉ registered r -> exists r',
    register m r = (Ok tt, r') /\ registered r' = {[metric_name m]} ∪ registered r
}.

(** ** The statics *)

(** The buckets of the call times. *)
Definition call_time_buckets : list Z :=
  [25; 50; 100; 200; 300; 400; 500; 600; 700; 800; 900; 1000; 2500; 5000]%Z.

Definition WS_RATE_LIMITED : Static := {|
  static_path := "middleware::WS_RATE_LIMITED";
  static_metric := {|
    metric_name := "web3_gateway_ws_rate_limited";
    metric_help := "Number of WebSocket rate limiter activations";
    metric_kind := IntCounter
  |}
|}.
Definition JSONRPC_BATCH_SIZE : Static := {|
  static_path := "middleware::JSONRPC_BATCH_SIZE";
  static_metric := {|
    metric_name := "web3_gateway_jsonrpc_batch_size";
    metric_help := "JSON-RPC batch sizes";
    metric_kind := Histogram
  |}
|}.
Definition WS_SESSIONS : Static := {|
  static_path := "middleware::WS_SESSIONS";
  static_metric := {|
    metric_name := "web3_gateway_ws_sessions";
    metric_help := "Number of WebSocket sessions";
    metric_kind := IntGauge
  |}
|}.
Definition ETH_RPC_CALLS : Static := {|
  static_path := "impls::eth::ETH_RPC_CALLS";
  static_metric := {|
    metric_name := "web3_gateway_eth_rpc_calls";
    metric_help := "Number of eth API RPC calls";
    metric_kind := IntCounterVec ["call"]
  |}
|}.
Definition ETH_RPC_CALL_TIME : Static := {|
  static_path := "impls::eth::ETH_RPC_CALL_TIME";
  static_metric := {|
    metric_name := "web3_gateway_eth_rpc_call_time";
    metric_help := "Time taken by eth API RPC calls";
    metric_kind := HistogramVec ["call"] call_time_buckets
  |}
|}.
Definition ETH_FILTER_RPC_CALLS : Static := {|
  static_path := "impls::eth_filter::ETH_FILTER_RPC_CALLS";
  static_metric := {|
    metric_name := "web3_gateway_eth_filter_rpc_calls";
    metric_help := "Number of eth_filter API RPC calls";
    metric_kind := IntCounterVec ["call"]
  |}
|}.
Definition ETH_PUBSUB_RPC_CALLS : Static := {|
  static_path := "impls::eth_pubsub::ETH_PUBSUB_RPC_CALLS";
  static_metric := {|
    metric_name := "web3_gateway_eth_pubsub_rpc_calls";
    metric_help := "Number of eth_pubsub API RPC calls";
    metric_kind := IntCounterVec ["call"]
  |}
|}.
Definition ETH_SIGNING_RPC_CALLS : Static := {|
  static_path := "impls::eth_signing::ETH_SIGNING_RPC_CALLS";
  static_metric := {|
    metric_name := "web3_gateway_eth_signing_rpc_calls";
    metric_help := "Number of eth_signing API RPC calls";
    metric_kind := IntCounterVec ["call"]
  |}
|}.
Definition NET_RPC_CALLS : Static := {|
  static_path := "impls::net::NET_RPC_CALLS";
  static_metric := {|
    metric_name := "web3_gateway_net_rpc_calls";
    metric_help := "Number of net API RPC calls";
    metric_kind := IntCounterVec ["call"]
  |}
|}.
Definition OASIS_RPC_CALLS : Static := {|
  static_path := "impls::oasis::OASIS_RPC_CALLS";
  static_metric := {|
    metric_name := "web3_gateway_oasis_rpc_calls";
    metric_help := "Number of oasis API RPC calls";
    metric_kind := IntCounterVec ["call"]
  |}
|}.
Definition OASIS_RPC_CALL_TIME : Static := {|
  static_path := "impls::oasis::OASIS_RPC_CALL_TIME";
  static_metric := {|
    metric_name := "web3_gateway_oasis_rpc_call_time";
    metric_help := "Time taken by oasis API RPC calls";
    metric_kind := HistogramVec ["call"] call_time_buckets
  |}
|}.
Definition WEB3_RPC_CALLS : Static := {|
  static_path := "impls::web3::WEB3_RPC_CALLS";
  static_metric := {|
    metric_name := "web3_gateway_web3_rpc_calls";
    metric_help := "Number of web3 API RPC calls";
    metric_kind := IntCounterVec ["call"]
  |}
|}.

Definition statics : list Static :=
  [WS_RATE_LIMITED; JSONRPC_BATCH_SIZE; WS_SESSIONS; ETH_RPC_CALLS; ETH_RPC_CALL_TIME;
   ETH_FILTER_RPC_CALLS; ETH_PUBSUB_RPC_CALLS; ETH_SIGNING_RPC_CALLS; NET_RPC_CALLS;
   OASIS_RPC_CALLS; OASIS_RPC_CALL_TIME; WEB3_RPC_CALLS].

(** ** The methods *)

Inductive EthMethod :=
| protocol_version | syncing | author | is_mining | hashrate | gas_price | accounts | block_number
| balance | storage_at | transaction_count | block_transaction_count_by_hash
| block_transaction_count_by_number | block_uncles_count_by_hash | block_uncles_count_by_number
| code_at | block_by_hash | block_by_number | transaction_by_hash
| transaction_by_block_hash_and_index | transaction_by_block_number_and_index
| transaction_receipt | uncle_by_block_hash_and_index | uncle_by_block_number_and_index
| compilers | logs | work | submit_work | submit_hashrate | send_raw_transaction
| submit_transaction | call | estimate_gas | compile_lll | compile_serpent | compile_solidity.

Inductive EthFilterMethod :=
| new_filter | new_block_filter | new_pending_transaction_filter | filter_changes | filter_logs
| uninstall_filter.

Inductive EthPubSubMethod := subscribe | unsubscribe.
Inductive EthSigningMethod := sign | send_transaction | sign_transaction.
Inductive NetMethod := version | peer_count | is_listening.
Inductive OasisMethod := public_key | get_expiry | invoke.
Inductive Web3Method := client_version | sha3.

(** The label of a method's counter. *)
Definition eth_label (m : EthMethod) : string :=
  match m with
  | protocol_version => "protocolVersion"
  | syncing => "syncing"
  | author => "coinbase"
  | is_mining => "mining"
  | hashrate => "hashrate"
  | gas_price => "gasPrice"
  | accounts => "accounts"
  | block_number => "blockNumber"
  | balance => "getBalance"
  | storage_at => "getStorageAt"
  | transaction_count => "getTransactionCount"
  | block_transaction_count_by_hash => "getBlockTransactionCountByHash"
  | block_transaction_count_by_number => "getBlockTransactionCountByNumber"
  | block_uncles_count_by_hash => "getUncleCountByBlockHash"
  | block_uncles_count_by_number => "getUncleCountByBlockNumber"
  | code_at => "getCode"
  | block_by_hash => "getBlockByHash"
  | block_by_number => "getBlockByNumber"
  | transaction_by_hash => "getTransactionByHash"
  | transaction_by_block_hash_and_index => "getTransactionByBlockHashAndIndex"
  | transaction_by_block_number_and_index => "getTransactionByBlockNumberAndIndex"
  | transaction_receipt => "getTransactionReceipt"
  | uncle_by_block_hash_and_index => "getUncleByBlockHashAndIndex"
  | uncle_by_block_number_and_index => "getUncleByBlockNumberAndIndex"
  | compilers => "getCompilers"
  | logs => "getLogs"
  | work => "getWork"
  | submit_work => "submitWork"
  | submit_hashrate => "submitHashrate"
  | send_raw_transaction => "sendRawTransaction"
  | submit_transaction => "submitTransaction"
  | call => "call"
  | estimate_gas => "estimateGas"
  | compile_lll => "compileLLL"
  | compile_serpent => "compileSerpent"
  | compile_solidity => "compileSolidity"
  end.

Definition eth_filter_label (m : EthFilterMethod) : string :=
  match m with
  | new_filter => "newFilter"
  | new_block_filter => "newBlockFilter"
  | new_pending_transaction_filter => "newPendingTransactionFilter"
  | filter_changes => "getFilterChanges"
  | filter_logs => "getFilterLogs"
  | uninstall_filter => "uninstallFilter"
  end.

Definition eth_pubsub_label (m : EthPubSubMethod) : string :=
  match m with subscribe => "subscribe" | unsubscribe => "unsubscribe" end.

Definition eth_signing_label (m : EthSigningMethod) : string :=
  match m with
  | sign => "sign"
  | send_transaction => "sendTransaction"
  | sign_transaction => "signTransaction"
  end.

Definition net_label (m : NetMethod) : string :=
  match m with version => "version" | peer_count => "peerCount" | is_listening => "listening" end.

Definition oasis_label (m : OasisMethod) : string :=
  match m with public_key => "publicKey" | get_expiry => "getExpiry" | invoke => "invoke" end.

Definition web3_label (m : Web3Method) : string :=
  match m with client_version => "clientVersion" | sha3 => "sha3" end.

(** ** What a call records *)

(** A counter is incremented, a histogram observes a value, a gauge is set. *)
Inductive Event :=
| Inc (metric : Static) (label : string)
| Observe (metric : Static) (label : string)
| SetGauge (metric : Static) (value : Z).

(** The timer of a call is started after its count, and observed when it is
    dropped: in every outcome of the call. *)
Definition eth_send_raw_events : list Event :=
  [Inc ETH_RPC_CALLS "sendRawTransaction"; Observe ETH_RPC_CALL_TIME "sendRawTransaction"].

Definition eth_events (m : EthMethod) : list Event :=
  match m with
  | send_raw_transaction => eth_send_raw_events
  | submit_transaction => Inc ETH_RPC_CALLS "submitTransaction" :: eth_send_raw_events
  | call => [Inc ETH_RPC_CALLS "call"; Observe ETH_RPC_CALL_TIME "call"]
  | estimate_gas => [Inc ETH_RPC_CALLS "estimateGas"; Observe ETH_RPC_CALL_TIME "estimateGas"]
  | _ => [Inc ETH_RPC_CALLS (eth_label m)]
  end.

Definition oasis_events (m : OasisMethod) : list Event :=
  match m with
  | public_key => [Inc OASIS_RPC_CALLS "publicKey"; Observe OASIS_RPC_CALL_TIME "publicKey"]
  | get_expiry => [Inc OASIS_RPC_CALLS "getExpiry"]
  | invoke => [Inc OASIS_RPC_CALLS "invoke"; Observe OASIS_RPC_CALL_TIME "invoke"]
  end.

Inductive RpcMethod :=
| Eth (m : EthMethod)
| EthFilter (m : EthFilterMethod)
| EthPubSub (m : EthPubSubMethod)
| EthSigning (m : EthSigningMethod)
| Net (m : NetMethod)
| Oasis (m : OasisMethod)
| Web3 (m : Web3Method).

Definition rpc_events (m : RpcMethod) : list Event :=
  match m with
  | Eth m => eth_events m
  | EthFilter m => [Inc ETH_FILTER_RPC_CALLS (eth_filter_label m)]
  | EthPubSub m => [Inc ETH_PUBSUB_RPC_CALLS (eth_pubsub_label m)]
  | EthSigning m => [Inc ETH_SIGNING_RPC_CALLS (eth_signing_label m)]
  | Net m => [Inc NET_RPC_CALLS (net_label m)]
  | Oasis m => oasis_events m
  | Web3 m => [Inc WEB3_RPC_CALLS (web3_label m)]
  end.

Section middleware.
Context {P : ParityRpc} {Params X : Type}.

Definition middleware_events (effects : list effect) : list Event :=
  e ← effects; match e with Active => [] | ObserveBatchSize _ => [Observe JSONRPC_BATCH_SIZE ""] end.

(** What one event at the WebSocket server records, with the statistics it
    leaves: a refused request is counted, and opening or closing a session
    sets the gauge to the number of sessions. *)
Definition ws_event_step (self : WsDispatcher) (process : Request Params -> X)
    (ev : @ws_event Params) (stats : RpcStats) : list Event * RpcStats :=
  match ev with
  | Opened now id => let '(n, stats) := ws_open_session now id stats in ([SetGauge WS_SESSIONS n], stats)
  | Closed id => let '(n, stats) := ws_close_session id stats in ([SetGauge WS_SESSIONS n], stats)
  | Requested origin now request =>
      let '(r, stats) := ws_on_request self now request origin process stats in
      (match r with inl _ => [Inc WS_RATE_LIMITED ""] | inr _ => [] end, stats)
  end.

Fixpoint ws_events (self : WsDispatcher) (process : Request Params -> X)
    (evs : list (@ws_event Params)) (stats : RpcStats) : list Event * RpcStats :=
  match evs with
  | [] => ([], stats)
  | ev :: evs' =>
      let '(es, stats) := ws_event_step self process ev stats in
      let '(es', stats) := ws_events self process evs' stats in
      (es ++ es', stats)
  end.

End middleware.

(** ** Recording *)

Section recording.
Context {L : MetricsLib}.

(** The statics that have been initialised, and the values of the metrics
    they hold: counters by static and label, the number of values a histogram
    has observed, and gauges. *)
Record Metrics := {
  registry : Registry;
  initialized : gset string;
  counters : gmap (string * string) Z;
  observations : gmap (string * string) Z;
  gauges : gmap string Z
}.

Definition add_one (k : string * string) (m : gmap (string * string) Z) : gmap (string * string) Z :=
  <[k := (default 0 (m !! k) + 1)%Z]> m.

(** The first use of a static initialises it; its [unwrap] panics when the
    name cannot be registered. *)
Definition force (metric : Static) : stateful Metrics Empty_set unit := fun self =>
  if bool_decide (static_path metric ∈ initialized self) then (Ok tt, self)
  else
    let '(r, reg) := register (static_metric metric) (registry self) in
    match r with
    | Ok _ =>
        (Ok tt, {| registry := reg; initialized := {[static_path metric]} ∪ initialized self;
                   counters := counters self; observations := observations self;
                   gauges := gauges self |})
    | _ => (Panic, self)
    end.

Definition record (e : Event) : stateful Metrics Empty_set unit :=
  match e with
  | Inc metric label =>
      let! _ := force metric in
      smodify (fun self => {| registry := registry self; initialized := initialized self;
        counters := add_one (static_path metric, label) (counters self);
        observations := observations self; gauges := gauges self |})
  | Observe metric label =>
      let! _ := force metric in
      smodify (fun self => {| registry := registry self; initialized := initialized self;
        counters := counters self;
        observations := add_one (static_path metric, label) (observations self);
        gauges := gauges self |})
  | SetGauge metric value =>
      let! _ := force metric in
      smodify (fun self => {| registry := registry self; initialized := initialized self;
        counters := counters self; observations := observations self;
        gauges := <[static_path metric := value]> (gauges self) |})
  end.

Fixpoint record_all (es : list Event) : stateful Metrics Empty_set unit :=
  match es with
  | [] => sret tt
  | e :: es' => let! _ := record e in record_all es'
  end.

End recording.

(** ** Specification *)

#[global] Instance EthMethod_eq_decision : EqDecision EthMethod.
Proof. solve_decision. Defined.
#[global] Instance EthFilterMethod_eq_decision : EqDecision EthFilterMethod.
Proof. solve_decision. Defined.
#[global] Instance EthPubSubMethod_eq_decision : EqDecision EthPubSubMethod.
Proof. solve_decision. Defined.
#[global] Instance EthSigningMethod_eq_decision : EqDecision EthSigningMethod.
Proof. solve_decision. Defined.
#[global] Instance NetMethod_eq_decision : EqDecision NetMethod.
Proof. solve_decision. Defined.
#[global] Instance OasisMethod_eq_decision : EqDecision OasisMethod.
Proof. solve_decision. Defined.
#[global] Instance Web3Method_eq_decision : EqDecision Web3Method.
Proof. solve_decision. Defined.
#[global] Instance RpcMethod_eq_decision : EqDecision RpcMethod.
Proof. solve_decision. Defined.
#[global] Instance MetricKind_eq_decision : EqDecision MetricKind.
Proof. solve_decision. Defined.
#[global] Instance Metric_eq_decision : EqDecision Metric.
Proof. solve_decision. Defined.
#[global] Instance Static_eq_decision : EqDecision Static.
Proof. solve_decision. Defined.

(** The counter of a method, and the timer of the methods that have one. *)
Definition counter_of (m : RpcMethod) : string * string :=
  match m with
  | Eth m => (static_path ETH_RPC_CALLS, eth_label m)
  | EthFilter m => (static_path ETH_FILTER_RPC_CALLS, eth_filter_label m)
  | EthPubSub m => (static_path ETH_PUBSUB_RPC_CALLS, eth_pubsub_label m)
  | EthSigning m => (static_path ETH_SIGNING_RPC_CALLS, eth_signing_label m)
  | Net m => (static_path NET_RPC_CALLS, net_label m)
  | Oasis m => (static_path OASIS_RPC_CALLS, oasis_label m)
  | Web3 m => (static_path WEB3_RPC_CALLS, web3_label m)
  end.

Definition timer_of (m : RpcMethod) : option (string * string) :=
  match m with
  | Eth send_raw_transaction | Eth call | Eth estimate_gas =>
      match m with Eth m => Some (static_path ETH_RPC_CALL_TIME, eth_label m) | _ => None end
  | Oasis public_key | Oasis invoke =>
      match m with Oasis m => Some (static_path OASIS_RPC_CALL_TIME, oasis_label m) | _ => None end
  | _ => None
  end.

(** [eth_submitTransaction] is [eth_sendRawTransaction] under another name:
    its calls count for both. *)
Definition counts_for (called m : RpcMethod) : bool :=
  bool_decide (called = m) ||
  (bool_decide (called = Eth submit_transaction) && bool_decide (m = Eth send_raw_transaction)).

Definition times (m : RpcMethod) (ms : list RpcMethod) : Z :=
  len (filter (fun called => counts_for called m = true) ms).

Definition metric_of (e : Event) : Static :=
  match e with Inc m _ | Observe m _ | SetGauge m _ => m end.

Definition inc_of (k : string * string) (e : Event) : Z :=
  match e with Inc m l => Z.b2z (bool_decide ((static_path m, l) = k)) | _ => 0 end.
Definition observe_of (k : string * string) (e : Event) : Z :=
  match e with Observe m l => Z.b2z (bool_decide ((static_path m, l) = k)) | _ => 0 end.
Definition gauge_of (name : string) (v : option Z) (e : Event) : option Z :=
  match e with SetGauge m v' => if bool_decide (static_path m = name) then Some v' else v | _ => v end.

Definition sum_by (f : Event -> Z) (es : list Event) : Z := foldr (fun e n => (f e + n)%Z) 0%Z es.
Definition incs (k : string * string) : list Event -> Z := sum_by (inc_of k).
Definition observes (k : string * string) : list Event -> Z := sum_by (observe_of k).

(** ** Lemmas *)

Definition all_methods : list RpcMethod :=
  (Eth <$> [protocol_version; syncing; author; is_mining; hashrate; gas_price; accounts;
    block_number; balance; storage_at; transaction_count; block_transaction_count_by_hash;
    block_transaction_count_by_number; block_uncles_count_by_hash; block_uncles_count_by_number;
    code_at; block_by_hash; block_by_number; transaction_by_hash;
    transaction_by_block_hash_and_index; transaction_by_block_number_and_index;
    transaction_receipt; uncle_by_block_hash_and_index; uncle_by_block_number_and_index;
    compilers; logs; work; submit_work; submit_hashrate; send_raw_transaction;
    submit_transaction; call; estimate_gas; compile_lll; compile_serpent; compile_solidity]) ++
  (EthFilter <$> [new_filter; new_block_filter; new_pending_transaction_filter; filter_changes;
    filter_logs; uninstall_filter]) ++
  (EthPubSub <$> [subscribe; unsubscribe]) ++
  (EthSigning <$> [sign; send_transaction; sign_transaction]) ++
  (Net <$> [version; peer_count; is_listening]) ++
  (Oasis <$> [public_key; get_expiry; invoke]) ++ (Web3 <$> [client_version; sha3]).

Lemma all_methods_complete m : m ∈ all_methods.
Proof. apply (bool_decide_unpack _). destruct m as [[]|[]|[]|[]|[]|[]|[]]; vm_compute; exact I. Qed.

Lemma for_all_methods (P : RpcMethod -> bool) : forallb P all_methods = true -> forall m, P m = true.
Proof.
  intros Hall m. rewrite forallb_forall in Hall. apply Hall, list_elem_of_In, all_methods_complete.
Qed.

(** What one call adds to the metrics of a method. *)
Lemma call_adds called m :
  incs (counter_of m) (rpc_events called) = Z.b2z (counts_for called m) /\
  (forall k, timer_of m = Some k ->
     observes k (rpc_events called) = Z.b2z (counts_for called m)) /\
  Forall (fun e => metric_of e ∈ statics) (rpc_events called).
Proof.
  set (P called m := bool_decide (incs (counter_of m) (rpc_events called) = Z.b2z (counts_for called m))
    && match timer_of m with
       | Some k => bool_decide (observes k (rpc_events called) = Z.b2z (counts_for called m))
       | None => true
       end && bool_decide (Forall (fun e => metric_of e ∈ statics) (rpc_events called))).
  assert (P called m = true) as HP.
  { revert m. apply for_all_methods. revert called. apply for_all_methods. vm_compute. reflexivity. }
  apply andb_prop in HP as [[Hi Ho]%andb_prop Hs]. split_and!.
  - by apply bool_decide_eq_true in Hi.
  - intros k Hk. rewrite Hk in Ho. by apply bool_decide_eq_true in Ho.
  - by apply bool_decide_eq_true in Hs.
Qed.

Lemma sum_by_app f es es' : sum_by f (es ++ es') = (sum_by f es + sum_by f es')%Z.
Proof. unfold sum_by. induction es as [|e es IH]; cbn; [done|]. rewrite IH. lia. Qed.

Lemma times_cons called ms m : times m (called :: ms) = (Z.b2z (counts_for called m) + times m ms)%Z.
Proof.
  unfold times, len. rewrite filter_cons.
  destruct (counts_for called m); cbn [Z.b2z]; case_decide; try done; cbn [length]; lia.
Qed.

(** The events of a run of calls. *)
Lemma calls_add ms m :
  incs (counter_of m) (concat (rpc_events <$> ms)) = times m ms /\
  (forall k, timer_of m = Some k -> observes k (concat (rpc_events <$> ms)) = times m ms) /\
  Forall (fun e => metric_of e ∈ statics) (concat (rpc_events <$> ms)).
Proof.
  induction ms as [|called ms (IHi & IHo & IHs)]; cbn [fmap list_fmap concat].
  { split; [done|]. split; [done|constructor]. }
  destruct (call_adds called m) as (Hi & Ho & Hs). unfold incs in *. rewrite sum_by_app, Hi, IHi, times_cons.
  split_and!; [done| |by apply Forall_app].
  intros k Hk. unfold observes in *. by rewrite sum_by_app, (Ho k Hk), (IHo k Hk).
Qed.

Section lemmas.
Context {L : MetricsLib} {LL : MetricsLibLaws L}.

Abbreviation name_of m := (metric_name (static_metric m)).

(** Only the initialised statics have taken their names. *)
Definition metrics_ok (self : Metrics) : Prop :=
  forall m, m ∈ statics -> name_of m ∈ registered (registry self) ->
    static_path m ∈ initialized self.

(** No two statics have the same name. *)
Lemma statics_distinct m m' : m ∈ statics -> m' ∈ statics -> name_of m = name_of m' -> m = m'.
Proof.
  intros Hm Hm' Hn. apply list_elem_of_lookup in Hm as [i Hi], Hm' as [j Hj].
  assert (i = j) as ->; [|congruence].
  assert (NoDup ((fun m => name_of m) <$> statics)) as Hnd
    by (apply (bool_decide_unpack _); vm_compute; exact I).
  apply (NoDup_lookup _ _ _ (name_of m) Hnd); rewrite list_lookup_fmap; [by rewrite Hi|].
  by rewrite Hj, Hn.
Qed.

Lemma force_Ok metric self :
  metric ∈ statics -> metrics_ok self -> exists self', force metric self = (Ok tt, self') /\
    metrics_ok self' /\ counters self' = counters self /\
    observations self' = observations self /\ gauges self' = gauges self.
Proof.
  intros Hin Hok. unfold force. case_bool_decide as Hini; [by exists self|].
  destruct (register_new (static_metric metric) (registry self)) as (r & -> & Hr).
  { intros Hreg. by apply Hini, Hok. }
  eexists. split; [reflexivity|]. split; [|done]. intros m Hm. cbn [registry initialized].
  rewrite Hr. intros [Hn%elem_of_singleton|Hn]%elem_of_union; apply elem_of_union.
  - left. apply elem_of_singleton. by rewrite (statics_distinct m metric).
  - right. by apply Hok.
Qed.

Lemma lookup_add_one k k' m :
  default 0%Z (add_one k' m !! k) = (default 0 (m !! k) + Z.b2z (bool_decide (k' = k)))%Z.
Proof.
  unfold add_one. case_bool_decide as Hk.
  - subst k'. by rewrite lookup_insert_eq.
  - rewrite lookup_insert_ne by done. cbn [Z.b2z]. lia.
Qed.

Lemma record_Ok e self :
  metric_of e ∈ statics -> metrics_ok self -> exists self', record e self = (Ok tt, self') /\
    metrics_ok self' /\
    (forall k, default 0 (counters self' !! k) = default 0 (counters self !! k) + inc_of k e)%Z /\
    (forall k, default 0 (observations self' !! k) =
               default 0 (observations self !! k) + observe_of k e)%Z /\
    (forall n, gauges self' !! n = gauge_of n (gauges self !! n) e).
Proof.
  intros Hin Hok. destruct (force_Ok (metric_of e) self Hin Hok) as (s1 & Hf & Hok1 & Hc & Ho & Hg).
  destruct e as [m l|m l|m v]; cbn [metric_of record inc_of observe_of gauge_of] in *;
    unfold sbind; rewrite Hf; unfold smodify;
    (eexists; split; [reflexivity|]; split; [exact Hok1|]);
    cbn [counters observations gauges]; rewrite Hc, Ho, Hg; split_and!; intros k;
    rewrite ?lookup_add_one, ?Z.add_0_r; try done.
  case_bool_decide as Hm; [subst k; apply lookup_insert_eq|by apply lookup_insert_ne].
Qed.

Lemma record_all_Ok es self :
  Forall (fun e => metric_of e ∈ statics) es -> metrics_ok self -> exists self',
    record_all es self = (Ok tt, self') /\ metrics_ok self' /\
    (forall k, default 0 (counters self' !! k) = default 0 (counters self !! k) + incs k es)%Z /\
    (forall k, default 0 (observations self' !! k) =
               default 0 (observations self !! k) + observes k es)%Z /\
    (forall n, gauges self' !! n = foldl (gauge_of n) (gauges self !! n) es).
Proof.
  intros Hs. revert self. induction Hs as [|e es He Hs IH]; intros self Hok.
  { exists self. cbn. setoid_rewrite Z.add_0_r. done. }
  destruct (record_Ok e self He Hok) as (s1 & H1 & Hok1 & Hc1 & Ho1 & Hg1).
  destruct (IH s1 Hok1) as (s2 & H2 & Hok2 & Hc2 & Ho2 & Hg2).
  exists s2. cbn [record_all]. unfold sbind. rewrite H1. split; [done|]. split; [done|].
  unfold incs, observes in *. cbn [sum_by foldr foldl]. split_and!; intros k.
  - rewrite Hc2, Hc1. unfold sum_by. lia.
  - rewrite Ho2, Ho1. unfold sum_by. lia.
  - by rewrite Hg2, Hg1.
Qed.

(** ** Properties *)

(** C27. The metrics of the RPC methods count the calls: from a state in which
    no other part of the process has taken the names of the gateway's metrics,
    which are distinct, no sequence of calls, in whatever order it initialises them, panics; every
    counter has grown by the number of calls of its method, and so has the
    timer of a timed method; only the calls of eth_submitTransaction are
    counted twice, also as eth_sendRawTransaction. *)
Theorem calls_are_counted ms self :
  metrics_ok self -> exists self',
    record_all (concat (rpc_events <$> ms)) self = (Ok tt, self') /\
    forall m,
      default 0%Z (counters self' !! counter_of m) =
        (default 0 (counters self !! counter_of m) + times m ms)%Z /\
      forall k, timer_of m = Some k ->
        default 0%Z (observations self' !! k) = (default 0 (observations self !! k) + times m ms)%Z.
Proof.
  intros Hok. destruct (calls_add ms (Eth syncing)) as (_ & _ & Hs).
  destruct (record_all_Ok _ _ Hs Hok) as (self' & Hrun & _ & Hc & Ho & _).
  exists self'. split; [done|]. intros m. destruct (calls_add ms m) as (Hi & Hob & _).
  split; [by rewrite Hc, Hi|]. intros k Hk. by rewrite Ho, (Hob k Hk).
Qed.

End lemmas.

(** *** The WebSocket server *)

Section ws.
Context {P : ParityRpc} {Params X : Type}.

Definition refused (rs : list (Origin * (option Response + X))) : Z :=
  len (filter (fun r => match r.2 with inl _ => true | inr _ => false end = true) rs).

Lemma count_request_sessions now id stats :
  sessions (count_request now id stats).2 = sessions stats.
Proof.
  unfold count_request, sessions. destruct (sessions_map stats !! id) as [calc|] eqn:Hc; [|done].
  destruct (tick now calc) as [n calc']. cbn. by rewrite map_size_insert_Some.
Qed.

Lemma ws_on_request_sessions self now request origin (process : Request Params -> X) stats :
  sessions (ws_on_request self now request origin process stats).2 = sessions stats.
Proof.
  unfold ws_on_request. destruct origin as [id|]; [|done].
  pose proof (count_request_sessions now id stats) as Hs.
  destruct (count_request now id stats) as [n stats1]. by case_match.
Qed.

(** The middleware's metrics are those of its run: the refusals are counted,
    and once a session has been opened or closed the gauge is the number of
    open sessions. *)
Theorem ws_metrics (self : WsDispatcher) (process : Request Params -> X) evs stats :
  let '(rs, stats1) := ws_run self process evs stats in
  let '(es, stats2) := ws_events self process evs stats in
  stats2 = stats1 /\
  incs (static_path WS_RATE_LIMITED, ""%string) es = refused rs /\
  foldl (gauge_of (static_path WS_SESSIONS)) (Some (sessions stats)) es = Some (sessions stats1).
Proof.
  revert stats. induction evs as [|ev evs IH]; intros stats; [done|].
  destruct ev as [now id|id|origin now request]; cbn [ws_run ws_events ws_event_step].
  - specialize (IH (ws_open_session now id stats).2). unfold ws_open_session in *. cbn [snd] in IH.
    destruct (ws_run _ _ _ _) as [rs s1], (ws_events _ _ _ _) as [es s2]. done.
  - specialize (IH (ws_close_session id stats).2). unfold ws_close_session in *. cbn [snd] in IH.
    destruct (ws_run _ _ _ _) as [rs s1], (ws_events _ _ _ _) as [es s2]. done.
  - pose proof (ws_on_request_sessions self now request origin process stats) as Hs.
    destruct (ws_on_request _ _ _ _ _ _) as [r stats1]. cbn [snd] in Hs. specialize (IH stats1).
    destruct (ws_run _ _ _ _) as [rs s1], (ws_events _ _ _ _) as [es s2].
    destruct IH as (-> & Hi & Hg). rewrite Hs in Hg. unfold refused in *. rewrite filter_cons.
    destruct r as [r|x]; cbn [app snd]; [|done]. split; [done|].
    unfold incs in *. cbn [sum_by foldr foldl]. unfold sum_by in Hi. rewrite Hi. split; [|done].
    unfold len. rewrite decide_True by done. cbn [length inc_of]. rewrite bool_decide_true by done.
    cbn [Z.b2z]. lia.
Qed.

End ws.

(** ** Witnesses *)

Module Witness.

(** A registry that refuses a name it has. *)
#[local] Instance lib : MetricsLib := {|
  Registry := gset string;
  register := fun m r =>
    if bool_decide (metric_name m ∈ r) then (Err "AlreadyReg"%string, r)
    else (Ok tt, {[metric_name m]} ∪ r)
|}.

#[local] Instance laws : MetricsLibLaws lib.
Proof.
  refine {| registered := fun r => r |}. intros m r Hn. exists ({[metric_name m]} ∪ r).
  cbn. by rewrite bool_decide_false.
Defined.

Definition metrics0 : Metrics := {|
  registry := {["process_cpu_seconds_total"%string]}; initialized := ∅; counters := ∅;
  observations := ∅; gauges := ∅ |}.

Definition called : list RpcMethod :=
  [Eth send_raw_transaction; Net version; Eth submit_transaction; Eth balance; Net version].

Lemma calls_are_counted_witness :
  exists self', record_all (concat (rpc_events <$> called)) metrics0 = (Ok tt, self') /\
    default 0%Z (counters self' !! counter_of (Eth send_raw_transaction)) = 2%Z /\
    default 0%Z (counters self' !! counter_of (Net version)) = 2%Z /\
    default 0%Z (counters self' !! counter_of (Eth call)) = 0%Z.
Proof.
  destruct (calls_are_counted called metrics0) as (self' & Hrun & Hc).
  - intros m Hm Hreg. exfalso.
    change (metric_name (static_metric m) ∈ ({["process_cpu_seconds_total"%string]} : gset string)) in Hreg.
    apply elem_of_singleton in Hreg.
    revert Hreg. unfold statics in Hm.
    repeat (apply elem_of_cons in Hm as [->|Hm]; [discriminate|]). by apply elem_of_nil in Hm.
  - exists self'. split; [exact Hrun|].
    rewrite (proj1 (Hc (Eth send_raw_transaction))), (proj1 (Hc (Net version))), (proj1 (Hc (Eth call))).
    vm_compute. done.
Defined.

End Witness.
