(* ===== verification/Servers.v ===== *)
(** * The servers and the path of a request ([gateway/src/servers.rs], [gateway/src/rpc.rs])

    What the two servers of the JSON-RPC libraries are built with (executors,
    metadata extractors and session statistics are passed through), the status
    page of the HTTP server, and the handler of the WebSocket server: the
    rate limit of [WsDispatcher] is its outer middleware and the batch limit
    of [Middleware] the inner one, as the pair [new_ws] installs. *)

From Stdlib Require Import ZArith Lia.
From Stdlib Require Strings.Byte.
From stdpp Require Import base numbers gmap strings option list.
From S2P Require Import Prelude JsonRpc Informant Middleware.

(** ** [servers.rs] *)

Section servers.
(** [hyper]'s URIs, compared with a string. *)
Context {Uri SocketAddr Handler : Type} (uri_eq : Uri -> string -> bool).

(** [RequestMiddlewareAction]: answer, or go on with the request. *)
Inductive MiddlewareAction := Respond (status : Z) (body : string) | Proceed.

Definition status_middleware (uri : Uri) : MiddlewareAction :=
  if uri_eq uri "/status" then Respond 200 "" else Proceed.

(** The options a server is started with. *)
Record HttpServer := {
  http_handler : Handler;
  threads : Z;
  request_middleware : Uri -> MiddlewareAction;
  cors : option (list string);
  allowed_hosts : option (gset string);
  listen : SocketAddr
}.

Definition start_http (addr : SocketAddr) (cors_domains : option (list string))
    (hosts : option (gset string)) (handler : Handler) (num_threads : Z) : HttpServer := {|
  http_handler := handler;
  threads := num_threads;
  request_middleware := status_middleware;
  cors := cors_domains;
  allowed_hosts := hosts;
  listen := addr
|}.

Record WsServer := {
  ws_handler : Handler;
  ws_allowed_origins : option (gset string);
  ws_hosts : option (gset string);
  ws_max_connections : Z;
  ws_listen : SocketAddr
}.

Definition start_ws (addr : SocketAddr) (handler : Handler) (origins hosts : option (gset string))
    (connections : Z) : WsServer := {|
  ws_handler := handler;
  ws_allowed_origins := origins;
  ws_hosts := hosts;
  ws_max_connections := connections;
  ws_listen := addr
|}.

End servers.

(** ** The handler of the WebSocket server ([new_ws]) *)

Section ws_path.
Context {P : ParityRpc} {Params Meta X : Type}.

(** The inner middleware runs where the outer one passes the request on. *)
Definition ws_handle (dispatcher : WsDispatcher) (mw : Middleware) (meta : Meta)
    (process : Request Params -> Meta -> X) (now : reads) (request : Request Params)
    (origin : Origin) (stats : RpcStats) : (option Response + X) * RpcStats :=
  let '(r, stats) :=
    ws_on_request dispatcher now request origin
      (fun request => (on_request mw request meta process).2) stats in
  (match r with inl resp => inl resp | inr r => r end, stats).

(** What reaches the server, in order, with the answers. *)
Fixpoint serve (dispatcher : WsDispatcher) (mw : Middleware) (meta : Meta)
    (process : Request Params -> Meta -> X) (evs : list (@ws_event Params)) (stats : RpcStats)
  : list (Origin * (option Response + X)) * RpcStats :=
  match evs with
  | [] => ([], stats)
  | Opened now id :: evs' =>
      serve dispatcher mw meta process evs' (ws_open_session now id stats).2
  | Closed id :: evs' => serve dispatcher mw meta process evs' (ws_close_session id stats).2
  | Requested origin now request :: evs' =>
      let '(r, stats1) := ws_handle dispatcher mw meta process now request origin stats in
      let '(rs, stats2) := serve dispatcher mw meta process evs' stats1 in
      ((origin, r) :: rs, stats2)
  end.

(** ** Lemmas *)

(** The number of calls in a request. *)
Definition num_calls (request : Request Params) : Z :=
  match request with
  | Single _ => 1
  | Batch calls => len calls
  end.

Definition sum_calls (requests : list (Request Params)) : Z :=
  foldr Z.add 0%Z (num_calls <$> requests).

Definition join (r : option Response + (option Response + X)) : option Response + X :=
  match r with inl resp => inl resp | inr r => r end.

Lemma serve_ws_run dispatcher mw meta process evs stats :
  serve dispatcher mw meta process evs stats =
  let '(rs, stats') :=
    ws_run dispatcher (fun request => (on_request mw request meta process).2) evs stats in
  ((fun r => (r.1, join r.2)) <$> rs, stats').
Proof.
  revert stats. induction evs as [|[now id|id|origin now request] evs IH]; intros stats;
    cbn [serve ws_run]; [done|apply IH|apply IH|].
  unfold ws_handle. destruct (ws_on_request _ _ _ _ _ stats) as [r stats1]. rewrite IH.
  by destruct (ws_run _ _ evs stats1).
Qed.

Lemma answers_to_join session (rs : list (Origin * (option Response + (option Response + X)))) :
  answers_to session ((fun r => (r.1, join r.2)) <$> rs) = join <$> answers_to session rs.
Proof.
  unfold answers_to. induction rs as [|[origin r] rs IH]; [done|].
  cbn [fmap list_fmap omap list_omap fst snd]. destruct (is_ws session origin); [|done].
  cbn [fmap list_fmap]. by f_equal.
Qed.

End ws_path.

Section bound.
Context {P : ParityRpc} {Params Meta : Type}.

Lemma processed_join (rs : list (option Response + (option Response + Request Params))) :
  processed (join <$> rs) = processed (processed rs).
Proof.
  unfold processed. induction rs as [|[resp|r] rs IH]; cbn [fmap list_fmap omap list_omap join];
    [done|done|]. destruct r; cbn [omap list_omap]; by rewrite IH.
Qed.

(** The inner middleware passes on small requests only. *)
Lemma processed_small mw (meta : Meta) (requests : list (Request Params)) :
  (sum_calls (processed ((fun request => (on_request mw request meta (fun r _ => r)).2) <$> requests))
   <= len requests * Z.max 1 (max_batch_size mw))%Z.
Proof.
  unfold sum_calls. induction requests as [|request requests IH]; [done|].
  unfold len, processed in *. cbn [fmap list_fmap omap list_omap length].
  destruct request as [call|calls]; cbn [on_request snd].
  - cbn [fmap list_fmap foldr num_calls]. lia.
  - unfold len. destruct (Z.ltb_spec (max_batch_size mw) (Z.of_nat (length calls))).
    + cbn [fmap list_fmap foldr]. lia.
    + cbn [fmap list_fmap foldr num_calls]. unfold len. lia.
Qed.

(** The requests an outer middleware passed on, processed by the inner one. *)
Lemma passed_processed {X} (max : Z) (process : Request Params -> X)
    (reqs : list (reads * Request Params)) (ns : list Z) :
  exists requests, processed (zip_with (fun (r : reads * Request Params) n =>
      if (max <? n)%Z then inl (generate_error_response r.2 RateLimited) else inr (process r.2))
    reqs ns) = process <$> requests.
Proof.
  revert ns. induction reqs as [|r reqs IH]; intros ns; [by exists []|].
  destruct ns as [|n ns]; [by exists []|]. destruct (IH ns) as [requests Hr].
  unfold processed in *. cbn [zip_with omap list_omap].
  destruct (max <? n)%Z; [by exists requests|]. exists (r.2 :: requests). cbn. by rewrite Hr.
Qed.

(** ** Properties *)

(** C25. The two limits together bound the work of a session: of the requests
    of an open session that fall in one second, however they are interleaved
    with other sessions', at most [max_req_per_sec] times [max_batch_size]
    calls reach the handlers (with a batch size of at least one): a batch
    counts as one request for the rate limit, and the batch limit is checked
    behind it. *)
Theorem calls_per_second dispatcher mw (meta : Meta) session (evs : list (@ws_event Params))
    stats calc s :
  sessions_map stats !! session = Some calc -> calc_wf calc ->
  Forall (stays_open session) evs -> (0 <= s < RATE_SECONDS)%Z ->
  Forall (fun r => in_second calc s r.1) (requests_of session evs) ->
  (0 <= max_req_per_sec dispatcher < u16_max)%Z ->
  (sum_calls (processed (answers_to session
     (serve dispatcher mw meta (fun request _ => request) evs stats).1))
   <= max_req_per_sec dispatcher * Z.max 1 (max_batch_size mw))%Z.
Proof.
  intros Hc Hwf Ho Hs Hin HM. rewrite serve_ws_run.
  set (inner := fun request => (on_request mw request meta (fun request _ => request)).2).
  pose proof (ws_run_isolated dispatcher inner session evs stats stats Ho eq_refl) as Hiso.
  destruct (ws_run _ inner evs stats) as [rs stats']. cbn [fst] in *.
  rewrite answers_to_join, processed_join, Hiso.
  rewrite (ws_requests_counts _ _ _ _ _ calc s) by done.
  pose proof (sample_bound s calc Hwf) as Hb.
  pose proof (processed_counts dispatcher (requests_of session evs) inner (sample s calc)
    ltac:(lia) ltac:(lia)) as Hn.
  destruct (passed_processed (max_req_per_sec dispatcher) inner (requests_of session evs)
    (counts (sample s calc) (length (requests_of session evs)))) as [requests Hr].
  rewrite Hr in Hn |- *. etransitivity; [apply processed_small|].
  assert (len requests <= max_req_per_sec dispatcher)%Z; [|nia].
  unfold len in *. rewrite length_fmap in Hn. lia.
Qed.

End bound.

(** ** Witnesses *)

Module Witness.
#[local] Existing Instance RpcModel.ops.

Definition batch_of (n : nat) : Request unit :=
  Batch (replicate n (MethodCall (Some V2) "test" () (Num 1))).

(** Three batches in one second, the second one too large. *)
Definition batches : list (@ws_event unit) :=
  [Requested (Ws []) (Informant.Witness.at_second 3) (batch_of 2);
   Requested (Ws []) (Informant.Witness.at_second 3) (batch_of 3);
   Requested (Ws []) (Informant.Witness.at_second 3) (batch_of 1)].

Lemma calls_per_second_witness :
  (sum_calls (processed (answers_to []
     (serve {| max_req_per_sec := 2 |} {| max_batch_size := 2 |} () (fun request _ => request)
        batches Middleware.Witness.stats1).1)) <= 4)%Z /\
  sum_calls (processed (answers_to []
     (serve {| max_req_per_sec := 2 |} {| max_batch_size := 2 |} () (fun request _ => request)
        batches Middleware.Witness.stats1).1)) = 2%Z.
Proof.
  split; [|vm_compute; reflexivity].
  apply (calls_per_second {| max_req_per_sec := 2 |} {| max_batch_size := 2 |} () [] batches
    Middleware.Witness.stats1 (RateCalculator_default 0) 3).
  - reflexivity.
  - apply default_wf.
  - repeat constructor.
  - unfold RATE_SECONDS. lia.
  - repeat constructor.
  - unfold u16_max. simpl. lia.
Defined.

End Witness.
