(* ===== verification/GatewayLib.v ===== *)
(** * The libraries the web3 gateway calls

    [Node] is the client of an Oasis Core node ([oasis_core_client] and the
    generated [EthereumRuntimeClient]); [EthQueries] the parts of [ethcore]
    only the gateway uses.  Neither is part of this repository.  Answers of a
    node change over time: a [Node] is what it answers at one moment, and an
    operation that depends on two moments takes two. *)

From Stdlib Require Import ZArith Lia Strings.Byte.
From stdpp Require Import base list strings option.
From S2P Require Import Prelude Crypto Api OasisCore Ethcore JsonRpc.

(** ** Data *)

Record BlockSnapshot := { block_header : Header; block_hash : H256 }.

Record QueryCondition := { key : bytes; values : list bytes }.

Record Query := {
  round_min : Z;
  round_max : Z;
  conditions : list QueryCondition;
  limit : Z
}.

(** [ethcore]'s log filter. *)
Record Filter := {
  from_block : BlockId;
  to_block : BlockId;
  filter_address : option (list Address);
  filter_topics : list (option (list H256));
  filter_limit : option Z
}.

Inductive CallError := StateCorrupt | StatePruned | ExecutionError (message : string).

Record Executed := {
  executed_gas_used : U256;
  refunded : U256;
  executed_output : bytes;
  exception : option string
}.

Section node.
Context {O : OasisCore}.

Record TransactionSnapshot := {
  block_snapshot : BlockSnapshot;
  index : Z;
  input : TxnCall Value;
  txn_output : TxnOutput Value
}.

Record Node := {
  get_latest_block : outcome AnyError BlockSnapshot;
  get_block : Z -> outcome AnyError (option BlockSnapshot);
  get_block_by_hash : H256 -> outcome AnyError (option BlockSnapshot);
  get_tx : Z -> Z -> outcome AnyError (option TransactionSnapshot);
  get_tx_by_block_hash : H256 -> Z -> outcome AnyError (option TransactionSnapshot);
  (** The raw transactions of a block, by its round and I/O root. *)
  get_txs : Z -> H256 -> outcome AnyError (list bytes);
  query_tx : bytes -> bytes -> outcome AnyError (option TransactionSnapshot);
  query_txs : Query -> outcome AnyError (list TransactionSnapshot);
  wait_block_indexed : Z -> outcome AnyError unit;
  (** The round that stands for the latest one in a transaction lookup. *)
  ROUND_LATEST : Z
}.

End node.

(** A transaction with its place in the chain. *)
Record LocalizedTransaction {M : Mrae} {E : Ethcore} := {
  signed : UnverifiedTransaction;
  block_number : Z;
  tx_block_hash : H256;
  tx_index : Z
}.

Class EthQueries {M : Mrae} {E : Ethcore} := {
  (** [State::from_existing] over a block's snapshot, without a confidential
      context, and the queries on the state. *)
  snapshot_state : BlockSnapshot -> outcome AnyError State;
  state_balance : State -> Address -> outcome AnyError U256;
  state_storage_at : State -> Address -> H256 -> outcome AnyError H256;
  state_nonce : State -> Address -> outcome AnyError U256;
  state_code : State -> Address -> outcome AnyError (option bytes);
  state_storage_expiry : State -> Address -> outcome AnyError Z;
  (** [Executive::transact_virtual] without tracing and nonce checks. *)
  transact_virtual : EnvInfo -> State -> SignedTransaction -> outcome string Executed;
  (** [contract_address], at a block number. *)
  contract_address : Z -> Address -> U256 -> bytes -> Address;
  (** [LocalizedTransaction::sender]: [None] is its panic. *)
  localized_sender : UnverifiedTransaction -> option Address;
  (** The transaction of the RPC types, its place, and
      [RpcTransaction::from_localized]: [None] is its panic. *)
  RpcTransaction : Type;
  rpc_hash : RpcTransaction -> H256;
  rpc_block_number : RpcTransaction -> option U256;
  rpc_block_hash : RpcTransaction -> option H256;
  rpc_transaction_index : RpcTransaction -> option U256;
  from_localized : LocalizedTransaction -> option RpcTransaction;
  KECCAK_EMPTY_LIST_RLP : H256;
  (** [Filter::matches]. *)
  filter_matches : Filter -> Ethcore.LogEntry -> bool
}.

Class EthQueriesLaws {M : Mrae} {E : Ethcore} (Q : EthQueries) : Prop := {
  signed_new_hash u s : signed_new u = Ok s -> signed_hash s = unverified_hash u;
  localized_sender_signed u s : signed_new u = Ok s -> localized_sender u = Some (signed_sender s);
  (** It shows the sender, and the transaction with its place. *)
  from_localized_sender lt :
    is_Some (from_localized lt) <-> is_Some (localized_sender (signed lt));
  from_localized_fields lt t : from_localized lt = Some t ->
    rpc_hash t = unverified_hash (signed lt) /\
    rpc_block_number t = Some (block_number lt) /\
    rpc_block_hash t = Some (tx_block_hash lt) /\
    rpc_transaction_index t = Some (tx_index lt);
  (** A matching log has one of the addresses, when there are any, and one of
      the topics of every position that lists any. *)
  filter_matches_spec f e :
    filter_matches f e = true ->
    (forall addrs, filter_address f = Some addrs -> addrs <> [] -> address e ∈ addrs) /\
    (forall i ts, filter_topics f !! i = Some (Some ts) -> ts <> [] ->
       exists t, topics e !! i = Some t /\ t ∈ ts);
  (** It reads neither the range of blocks nor the limit. *)
  filter_matches_content f g e :
    filter_address f = filter_address g -> filter_topics f = filter_topics g ->
    filter_matches f e = filter_matches g e
}.

(** ** A concrete library *)

Module QueryModel.

Section model.
Context {M : Mrae}.
#[local] Existing Instance EthModel.ops.

Definition matches (f : Filter) (e : Ethcore.LogEntry) : bool :=
  match filter_address f with
  | Some ((_ :: _) as addrs) => bool_decide (address e ∈ addrs)
  | _ => true
  end &&
  forallb (fun it : nat * option (list H256) =>
    match it.2 with
    | Some ((_ :: _) as ts) => existsb (fun t => bool_decide (topics e !! it.1 = Some t)) ts
    | _ => true
    end) (imap pair (filter_topics f)).

Definition sender (u : UnverifiedTransaction) : option Address :=
  match signed_new u with Ok s => Some (signed_sender s) | _ => None end.

#[local] Instance ops : @EthQueries M EthModel.ops := {|
  snapshot_state := fun b => Ok [block_hash b];
  state_balance := fun st a => Ok (len st);
  state_storage_at := fun st a pos => Ok pos;
  state_nonce := fun st a => Ok (len st);
  state_code := fun st a => Ok None;
  state_storage_expiry := fun st a => Ok 0%Z;
  transact_virtual := fun env st t =>
    Ok {| executed_gas_used := 21000; refunded := 0; executed_output := data t;
          exception := None |};
  contract_address := fun _ sender _ _ => sender;
  localized_sender := sender;
  RpcTransaction := LocalizedTransaction;
  rpc_hash := fun lt => unverified_hash (signed lt);
  rpc_block_number := fun lt => Some (block_number lt);
  rpc_block_hash := fun lt => Some (tx_block_hash lt);
  rpc_transaction_index := fun lt => Some (tx_index lt);
  from_localized := fun lt => (fun _ => lt) <$> sender (signed lt);
  KECCAK_EMPTY_LIST_RLP := replicate 32 x1d;
  filter_matches := matches
|}.

#[local] Instance laws : EthQueriesLaws ops.
Proof.
  constructor.
  - intros u s Hs. simpl in *. unfold EthModel.verify in Hs. case_decide; [done|].
    by injection Hs as <-.
  - intros u s Hs. cbn [localized_sender ops]. unfold sender. by rewrite Hs.
  - intros lt. cbn [from_localized localized_sender ops]. by rewrite fmap_is_Some.
  - intros lt t Hl. cbn [from_localized ops] in Hl. apply fmap_Some in Hl as (a & _ & ->). done.
  - intros f e Hm. simpl in Hm. unfold matches in Hm. apply andb_prop in Hm as [Ha Ht]. split.
    + intros addrs Haddr Hne. rewrite Haddr in Ha. destruct addrs; [done|].
      by apply bool_decide_eq_true in Ha.
    + intros i ts Hi Hne. rewrite forallb_forall in Ht.
      specialize (Ht (i, Some ts)). destruct ts as [|t0 ts]; [done|].
      cbn [fst snd] in Ht.
      assert (In (i, Some (t0 :: ts)) (imap pair (filter_topics f))) as Hin.
      { apply list_elem_of_In, list_elem_of_lookup. exists i. by rewrite list_lookup_imap, Hi. }
      apply Ht, existsb_exists in Hin as (t & Hin & Hb).
      exists t. split; [by apply bool_decide_eq_true in Hb|]. by apply list_elem_of_In.
  - intros f g e Ha Ht. simpl. unfold matches. by rewrite Ha, Ht.
Qed.

End model.
End QueryModel.
