(* ===== verification/Translator.v ===== *)
(** * Translating between Oasis Core and Ethereum ([gateway/src/translator.rs])

    [Translator]'s lookups of blocks and transactions, the submission loop of
    raw transactions, simulation and log queries, and the two wrappers
    [EthereumTransaction] and [EthereumBlock] around a node's snapshots. *)

From Stdlib Require Import ZArith Lia Strings.Byte Sorted.
From stdpp Require Import base list gmap strings option sorting.
From S2P Require Import Prelude Crypto Api OasisCore Ethcore Methods JsonRpc GatewayLib.

(** ** Data *)

Record LocalizedLogEntry := {
  entry : Ethcore.LogEntry;
  log_block_hash : H256;
  log_block_number : Z;
  log_transaction_hash : H256;
  log_transaction_index : Z;
  log_index : Z;
  transaction_log_index : Z
}.

Record LocalizedReceipt := {
  transaction_hash : H256;
  transaction_index : Z;
  receipt_block_hash : H256;
  receipt_block_number : Z;
  receipt_cumulative_gas_used : U256;
  receipt_tx_gas_used : U256;
  receipt_contract_address : option Address;
  receipt_entries : list LocalizedLogEntry;
  receipt_bloom : bytes;
  receipt_status : TransactionOutcome
}.

(** The parts of an RPC header and block; "default" fields are empty. *)
Record RichHeader := {
  rh_hash : option H256;
  rh_size : option U256;
  rh_parent_hash : H256;
  rh_uncles_hash : H256;
  rh_author : Address;
  rh_miner : Address;
  rh_state_root : H256;
  rh_transactions_root : H256;
  rh_receipts_root : H256;
  rh_number : option U256;
  rh_gas_used : U256;
  rh_gas_limit : U256;
  rh_logs_bloom : bytes;
  rh_timestamp : U256;
  rh_difficulty : U256;
  rh_seal_fields : list bytes;
  rh_extra_data : bytes;
  rh_extra_info : list (string * string)
}.

Definition H256_default : H256 := replicate 32 x00.
Definition Address_default : Address := replicate 20 x00.
Definition Bloom_default : bytes := replicate 256 x00.

(** [BTreeMap]: in the order of its keys. *)
Definition EXTRA_INFO : list (string * string) :=
  [("mixHash", "0x0000000000000000000000000000000000000000000000000000000000000000");
   ("nonce", "0x0000000000000000")]%string.

(** What the arms of a match on an [Err] return instead of it. *)
Definition or_return {E F A B} (m : outcome F A) (d : B) (k : A -> outcome E B) : outcome E B :=
  match m with
  | Ok a => k a
  | Err _ => Ok d
  | Panic => Panic
  end.

Section translator.
Context {M : Mrae} {E : Ethcore} {O : OasisCore} {Q : EthQueries}.

Inductive BlockTransactions :=
| Hashes (hashes : list H256)
| Full (txns : list RpcTransaction).

(** A block repeats the fields of its header. *)
Record RichBlock := {
  rb_header : RichHeader;
  total_difficulty : option U256;
  uncles : list H256;
  transactions_of : BlockTransactions
}.

(** ** [EthereumTransaction] *)

Definition transaction (self : TransactionSnapshot) : outcome AnyError LocalizedTransaction :=
  if bool_decide (method (input self) <> METHOD_TX)
  then Err (ErrMsg "not an Ethereum transaction")
  else
    let? raw := map_err ErrMsg (bytes_from_value (args (input self))) in
    let? signed := map_err ErrMsg (rlp_decode raw) in
    Ok {|
      signed := signed;
      block_number := round (block_header (block_snapshot self));
      tx_block_hash := block_hash (block_snapshot self);
      tx_index := index self
    |}.

(** What the RPC methods show of it. *)
Definition rpc_transaction {Er} (lt : LocalizedTransaction) : outcome Er RpcTransaction :=
  expect (from_localized lt).

Definition eth_log (e : Api.LogEntry) : Ethcore.LogEntry := {|
  address := log_address e;
  topics := log_topics e;
  log_data := Api.log_data e
|}.

(** The log [e], the [i]-th of a transaction. *)
Definition localize (block_hash : H256) (block_number : Z) (transaction_hash : H256)
    (transaction_index : Z) (i : nat) (e : Api.LogEntry) : LocalizedLogEntry := {|
  entry := eth_log e;
  log_block_hash := block_hash;
  log_block_number := block_number;
  log_transaction_hash := transaction_hash;
  log_transaction_index := transaction_index;
  log_index := Z.of_nat i;
  transaction_log_index := Z.of_nat i
|}.

Definition receipt (self : TransactionSnapshot) : outcome AnyError LocalizedReceipt :=
  match txn_output self with
  | Success value =>
      let? result := map_err ErrMsg (result_from_value value) in
      let? tx := transaction self in
      let transaction_hash := unverified_hash (signed tx) in
      let transaction_index := tx_index tx in
      let block_hash := tx_block_hash tx in
      let block_number := block_number tx in
      let? contract_address :=
        (match action (as_unsigned (signed tx)) with
         | Ethcore.Call _ => Ok None
         | Ethcore.Create =>
             let? sender := expect (localized_sender (signed tx)) in
             Ok (Some (contract_address block_number sender
                         (nonce (as_unsigned (signed tx))) (data (as_unsigned (signed tx)))))
         end) in
      Ok {|
        transaction_hash := transaction_hash;
        transaction_index := transaction_index;
        receipt_block_hash := block_hash;
        receipt_block_number := block_number;
        receipt_cumulative_gas_used := cumulative_gas_used result;
        receipt_tx_gas_used := Api.gas_used result;
        receipt_contract_address := contract_address;
        receipt_entries :=
          imap (localize block_hash block_number transaction_hash transaction_index)
            (logs result);
        receipt_bloom := log_bloom result;
        receipt_status := StatusCode (status_code result)
      |}
  | OasisCore.Error _ => Err (ErrMsg "receipt not available")
  end.

(** ** [EthereumBlock] *)

Definition number_u64 (self : BlockSnapshot) : Z := round (block_header self).
Definition number (self : BlockSnapshot) : U256 := round (block_header self).
Definition hash (self : BlockSnapshot) : H256 := block_hash self.
Definition block_state (self : BlockSnapshot) : outcome AnyError State := snapshot_state self.

(** [Result::ok] in a [filter_map]. *)
Definition ok {F A Er} (m : outcome F A) : outcome Er (option A) :=
  match m with
  | Ok a => Ok (Some a)
  | Err _ => Ok None
  | Panic => Panic
  end.

Definition raw_transactions (node : Node) (self : BlockSnapshot)
  : outcome AnyError (list (TxnCall Value)) :=
  let? txns := get_txs node (round (block_header self)) (io_root (block_header self)) in
  let? calls :=
    omapM (fun txn =>
      let? call := ok (call_from_slice txn) in
      Ok (match call with
          | Some call => if bool_decide (method call <> METHOD_TX) then None else Some call
          | None => None
          end)) txns in
  Ok (omap id calls).

Definition transactions (node : Node) (self : BlockSnapshot)
  : outcome AnyError (list UnverifiedTransaction) :=
  let? txns := raw_transactions node self in
  let? signed :=
    omapM (fun txn =>
      or_return (bytes_from_value (args txn)) None (fun raw => ok (rlp_decode raw))) txns in
  Ok (omap id signed).

Definition rich_header (self : BlockSnapshot) : RichHeader := {|
  rh_hash := Some (block_hash self);
  rh_size := None;
  rh_parent_hash := previous_hash (block_header self);
  rh_uncles_hash := KECCAK_EMPTY_LIST_RLP;
  rh_author := Address_default;
  rh_miner := Address_default;
  rh_state_root := state_root (block_header self);
  rh_transactions_root := H256_default;
  rh_receipts_root := H256_default;
  rh_number := Some (round (block_header self));
  rh_gas_used := 0;
  rh_gas_limit := 0;
  rh_logs_bloom := Bloom_default;
  rh_timestamp := header_timestamp (block_header self);
  rh_difficulty := 0;
  rh_seal_fields := [];
  rh_extra_data := [];
  rh_extra_info := EXTRA_INFO
|}.

Definition rich_block (node : Node) (include_txns : bool) (self : BlockSnapshot)
  : outcome AnyError RichBlock :=
  let? txns := transactions node self in
  let? transactions :=
    (if include_txns
     then omap_ok Full
       (omapM rpc_transaction
          (imap (fun i txn => {|
             signed := txn;
             block_number := round (block_header self);
             tx_block_hash := block_hash self;
             tx_index := Z.of_nat i
           |}) txns))
     else Ok (Hashes (unverified_hash <$> txns))) in
  Ok {|
    rb_header := rich_header self;
    total_difficulty := None;
    uncles := [];
    transactions_of := transactions
  |}.

(** ** [Translator]: lookups *)

Definition get_latest_block (node : Node) : outcome AnyError BlockSnapshot :=
  GatewayLib.get_latest_block node.

Definition get_block_by_hash (node : Node) (hash : H256) : outcome AnyError (option BlockSnapshot) :=
  GatewayLib.get_block_by_hash node hash.

Definition get_block_by_round (node : Node) (round : Z) : outcome AnyError (option BlockSnapshot) :=
  GatewayLib.get_block node round.

Definition get_block (node : Node) (id : BlockId) : outcome AnyError (option BlockSnapshot) :=
  match id with
  | Hash hash => get_block_by_hash node hash
  | Number round => get_block_by_round node round
  | Latest => omap_ok Some (get_latest_block node)
  | Earliest => get_block_by_round node 0
  end.

Definition get_block_unwrap (node : Node) (id : BlockId) : outcome AnyError BlockSnapshot :=
  let? blk := get_block node id in
  ok_or blk (ErrMsg "block not found").

Definition get_txn_by_hash (node : Node) (hash : H256) : outcome AnyError (option TransactionSnapshot) :=
  query_tx node TAG_ETH_TX_HASH hash.

Definition get_txn_by_round_and_index (node : Node) (round index : Z)
  : outcome AnyError (option TransactionSnapshot) := get_tx node round index.

Definition get_txn_by_block_hash_and_index (node : Node) (block_hash : H256) (index : Z)
  : outcome AnyError (option TransactionSnapshot) := get_tx_by_block_hash node block_hash index.

Definition get_txn (node : Node) (id : BlockId) (index : Z)
  : outcome AnyError (option TransactionSnapshot) :=
  match id with
  | Hash hash => get_txn_by_block_hash_and_index node hash index
  | Number round => get_txn_by_round_and_index node round index
  | Latest => get_txn_by_round_and_index node (ROUND_LATEST node) index
  | Earliest => get_txn_by_round_and_index node 0 index
  end.

(** ** [Translator]: submission *)

Definition MAX_RETRIES : nat := 5.

(** The loop of [send_raw_transaction]: [client_tx k] is the answer to the
    [k]-th submission; the result comes with the number of submissions. *)
Fixpoint submit (client_tx : nat -> outcome AnyError ExecutionResult) (signed : SignedTransaction)
    (retries k : nat) : outcome AnyError (H256 * ExecutionResult) * nat :=
  match client_tx k with
  | Ok result => (Ok (signed_hash signed, result), S k)
  | Err (ErrTransaction BlockGasLimitReached) =>
      match retries with
      | 0 => (Err (ErrTransaction BlockGasLimitReached), S k)
      | S retries => submit client_tx signed retries (S k)
      end
  | Err err => (Err err, S k)
  | Panic => (Panic, S k)
  end.

Definition send_raw_transaction (client_tx : nat -> outcome AnyError ExecutionResult) (raw : bytes)
  : outcome AnyError (H256 * ExecutionResult) * nat :=
  match rlp_decode raw with
  | Err err => (Err (ErrMsg err), 0)
  | Panic => (Panic, 0)
  | Ok decoded =>
      match signed_new decoded with
      | Err err => (Err (ErrMsg err), 0)
      | Panic => (Panic, 0)
      | Ok signed => submit client_tx signed MAX_RETRIES 0
      end
  end.

(** ** [Translator]: simulation *)

Definition simulation_env {Er} (p : profile) (h : Header) : outcome Er EnvInfo :=
  let? number := u64_add p (round h) 1 in
  Ok {|
    Ethcore.number := number;
    author := Address_default;
    timestamp := header_timestamp h;
    difficulty := 0;
    gas_limit := u256_max;
    last_hashes := [previous_hash h];
    Ethcore.gas_used := 0
  |}.

Definition simulate_transaction (p : profile) (node : Node) (transaction : SignedTransaction)
    (id : BlockId) : outcome CallError Executed :=
  let? blk := map_err (fun _ => StateCorrupt) (get_block node id) in
  let? blk := ok_or blk StatePruned in
  let? state := map_err (fun _ => StateCorrupt) (block_state blk) in
  let? env_info := simulation_env p (block_header blk) in
  map_err ExecutionError (transact_virtual env_info state transaction).

Definition estimate_gas (p : profile) (node : Node) (transaction : SignedTransaction)
    (id : BlockId) : outcome CallError U256 :=
  let? executed := simulate_transaction p node transaction id in
  expect (u256_add (executed_gas_used executed) (refunded executed)).

(** ** [Translator]: logs *)

Definition query_conditions (filter : Filter) : list QueryCondition :=
  match filter_address filter with
  | Some addresses => [{| key := TAG_ETH_LOG_ADDRESS; values := addresses |}]
  | None => []
  end ++
  omap (fun '(topic, tag) => (fun topic => {| key := tag; values := topic |}) <$> topic)
    (take 4 (zip (filter_topics filter) TAG_ETH_LOG_TOPICS)).

(** The logs of one transaction of the query's answer. *)
Definition txn_logs (filter : Filter) (txn : TransactionSnapshot)
  : outcome AnyError (list LocalizedLogEntry) :=
  if bool_decide (method (input txn) <> METHOD_TX) then Ok []
  else
    or_return (bytes_from_value (args (input txn))) [] (fun raw =>
    or_return (rlp_decode raw) [] (fun eth_tx =>
    match txn_output txn with
    | Success value =>
        or_return (result_from_value value) [] (fun result =>
        Ok (omap (fun log => if filter_matches filter (entry log) then Some log else None)
              (imap (localize (block_hash (block_snapshot txn))
                       (round (block_header (block_snapshot txn)))
                       (unverified_hash eth_tx) (index txn)) (logs result))))
    | OasisCore.Error _ => Ok []
    end)).

Definition logs_query (filter : Filter) (from to : BlockSnapshot) : Query := {|
  round_min := round (block_header from);
  round_max := round (block_header to);
  conditions := query_conditions filter;
  limit := default 0%Z (filter_limit filter)
|}.

Definition logs (node : Node) (filter : Filter) : outcome AnyError (list LocalizedLogEntry) :=
  let? from := get_block_unwrap node (from_block filter) in
  let? to := get_block_unwrap node (to_block filter) in
  let? _ := wait_block_indexed node (round (block_header to)) in
  let? txns := query_txs node (logs_query filter from to) in
  let? logs := omapM (txn_logs filter) txns in
  Ok (sort_by log_block_number (concat logs)).

(** ** Specification *)

(** A transaction the runtime executed with result [x]. *)
Definition executed_entry (t : TransactionSnapshot) (txn : SignedTransaction) (x : ExecutionResult)
  : Prop :=
  method (input t) = METHOD_TX /\
  (exists raw u, bytes_from_value (args (input t)) = Ok raw /\ rlp_decode raw = Ok u /\
     signed_new u = Ok txn) /\
  txn_output t = Success (result_to_value x).

(** An entry of the chain with the tags the dispatcher emitted for it. *)
Definition emitted (t : TransactionSnapshot) (tags : list Tag) : Prop :=
  (exists txn x, executed_entry t txn x /\ tags = result_tags (signed_hash txn) x) \/
  (exists m, txn_output t = OasisCore.Error m /\ tags = []).

Definition entry_round (t : TransactionSnapshot) : Z := round (block_header (block_snapshot t)).

Definition in_range (lo hi : Z) (e : TransactionSnapshot * list Tag) : bool :=
  (lo <=? entry_round e.1)%Z && (entry_round e.1 <=? hi)%Z.

Definition satisfies (tags : list Tag) (c : QueryCondition) : bool :=
  existsb (fun v => bool_decide ((key c, v) ∈ tags)) (values c).

(** The transactions a query selects: in the range of rounds, with a tag for
    every condition. *)
Definition selected (q : Query) (e : TransactionSnapshot * list Tag) : bool :=
  in_range (round_min q) (round_max q) e && forallb (satisfies e.2) (conditions q).

(** A node that has indexed the chain [history]. *)
Record indexed (node : Node) (history : list (TransactionSnapshot * list Tag)) : Prop := {
  indexed_query q : limit q = 0%Z -> exists txs, query_txs node q = Ok txs /\
    txs ≡ₚ (filter (fun e => selected q e = true) history).*1;
  indexed_emitted t tags : (t, tags) ∈ history -> emitted t tags
}.

(** The logs of a transaction's receipt. *)
Definition entry_logs (t : TransactionSnapshot) : list LocalizedLogEntry :=
  match receipt t with
  | Ok r => receipt_entries r
  | _ => []
  end.

Definition matching (f : Filter) (ls : list LocalizedLogEntry) : list LocalizedLogEntry :=
  filter (fun l => filter_matches f (entry l) = true) ls.

(** The logs a filter matches in the receipts of blocks [lo] to [hi]. *)
Definition chain_logs (f : Filter) (lo hi : Z) (history : list (TransactionSnapshot * list Tag))
  : list LocalizedLogEntry :=
  matching f (concat (entry_logs <$> (filter (fun e => in_range lo hi e = true) history).*1)).

(** No empty list of alternatives, which a node would never satisfy. *)
Definition filter_wf (f : Filter) : Prop :=
  (forall addrs, filter_address f = Some addrs -> addrs <> []) /\
  (forall i ts, filter_topics f !! i = Some (Some ts) -> ts <> []).

Definition set_gas_limit (g : U256) (e : EnvInfo) : EnvInfo :=
  Build_EnvInfo (Ethcore.number e) (author e) (timestamp e) (difficulty e) g (last_hashes e)
    (Ethcore.gas_used e).

(** The Ethereum transaction a raw runtime call carries. *)
Definition eth_txn (raw : bytes) : option UnverifiedTransaction :=
  match call_from_slice raw with
  | Ok call =>
      if bool_decide (method call <> METHOD_TX) then None
      else match bytes_from_value (args call) with
           | Ok b => match rlp_decode b with Ok u => Some u | _ => None end
           | _ => None
           end
  | _ => None
  end.

(** ** Lemmas *)

Section lemmas.
Context {L : EthcoreLaws E} {OL : OasisCoreLaws O} {QL : EthQueriesLaws Q} {DT : DecodersTotal}.

Lemma submit_spec client_tx signed retries k :
  exists i, i <= retries /\
    (forall j, j < i -> client_tx (k + j) = Err (ErrTransaction BlockGasLimitReached)) /\
    (client_tx (k + i) = Err (ErrTransaction BlockGasLimitReached) -> i = retries) /\
    submit client_tx signed retries k =
      (omap_ok (pair (signed_hash signed)) (client_tx (k + i)), S (k + i)).
Proof.
  revert k. induction retries as [|retries IH]; intros k; cbn [submit].
  - exists 0. rewrite Nat.add_0_r. split_and!; [lia|intros; lia|done|].
    destruct (client_tx k) as [|[[]| | |]|]; done.
  - destruct (client_tx k) as [r|[[]| | |]|] eqn:Hk;
      try (exists 0; rewrite Nat.add_0_r; rewrite Hk;
           split_and!; [lia|intros; lia|done|done]).
    destruct (IH (S k)) as (i & Hi & Hlow & Hlast & Heq).
    exists (S i). rewrite <- Nat.add_succ_comm. split_and!; [lia| | |done].
    + intros [|j] Hj; [by rewrite Nat.add_0_r|]. rewrite <- Nat.add_succ_comm. apply Hlow. lia.
    + intros H. apply Hlast in H. lia.
Qed.

Lemma executed_transaction t txn x :
  executed_entry t txn x -> exists raw u, bytes_from_value (args (input t)) = Ok raw /\
    rlp_decode raw = Ok u /\ signed_hash txn = unverified_hash u /\
    localized_sender u = Some (signed_sender txn) /\
    as_unsigned u = signed_tx txn /\
    transaction t = Ok {| signed := u; block_number := entry_round t;
                          tx_block_hash := block_hash (block_snapshot t); tx_index := index t |}.
Proof.
  intros (Hm & (raw & u & Hraw & Hu & Hs) & _). exists raw, u. split_and!; [done|done| | | |].
  - by apply signed_new_hash.
  - by apply localized_sender_signed.
  - symmetry. by apply signed_new_tx.
  - unfold transaction. rewrite bool_decide_false by (intros Hn; by apply Hn).
    rewrite Hraw. cbn [map_err obind]. by rewrite Hu.
Qed.

Lemma executed_receipt t txn x :
  executed_entry t txn x -> exists r, receipt t = Ok r /\
    transaction_hash r = signed_hash txn /\
    transaction_index r = index t /\
    receipt_block_hash r = block_hash (block_snapshot t) /\
    receipt_block_number r = entry_round t /\
    receipt_cumulative_gas_used r = cumulative_gas_used x /\
    receipt_tx_gas_used r = Api.gas_used x /\
    receipt_bloom r = log_bloom x /\
    receipt_status r = StatusCode (status_code x) /\
    receipt_contract_address r =
      match action (signed_tx txn) with
      | Ethcore.Call _ => None
      | Ethcore.Create =>
          Some (contract_address (entry_round t) (signed_sender txn)
                  (nonce (signed_tx txn)) (data (signed_tx txn)))
      end /\
    receipt_entries r =
      imap (localize (block_hash (block_snapshot t)) (entry_round t) (signed_hash txn) (index t))
        (Api.logs x).
Proof.
  intros Hx. destruct (executed_transaction t txn x Hx) as (raw & u & _ & _ & Hh & Hsend & Hu & Ht).
  destruct Hx as (_ & _ & Hout). unfold receipt. rewrite Hout, result_value_roundtrip.
  cbn [map_err obind]. rewrite Ht. cbn [obind signed tx_index tx_block_hash block_number].
  rewrite Hu, Hsend. rewrite Hh.
  destruct (action (signed_tx txn)); cbn [expect obind]; eexists; by split_and!.
Qed.

Lemma executed_entry_logs t txn x :
  executed_entry t txn x ->
  entry_logs t =
  imap (localize (block_hash (block_snapshot t)) (entry_round t) (signed_hash txn) (index t))
    (Api.logs x).
Proof.
  intros Hx. destruct (executed_receipt t txn x Hx) as (r & Hr & H). unfold entry_logs.
  rewrite Hr. apply H.
Qed.

Lemma omap_filter {A} (p : A -> bool) (l : list A) :
  omap (fun x => if p x then Some x else None) l = filter (fun x => p x = true) l.
Proof.
  induction l as [|a l IH]; cbn [omap list_omap]; [done|]. rewrite filter_cons.
  destruct (p a) eqn:Hp; [rewrite decide_True by done|rewrite decide_False by done]; by rewrite IH.
Qed.

Lemma matching_app f l k : matching f (l ++ k) = matching f l ++ matching f k.
Proof. apply filter_app. Qed.

(** The logs found for a transaction are those of its receipt that match. *)
Lemma txn_logs_emitted f t tags :
  emitted t tags -> txn_logs f t = Ok (matching f (entry_logs t)).
Proof.
  intros [(txn & x & Hx & _)|(m & Hm & _)].
  - rewrite (executed_entry_logs t txn x Hx).
    destruct (executed_transaction t txn x Hx) as (raw & u & Hraw & Hu & Hh & _ & _ & _).
    destruct Hx as (Hm & _ & Hout). unfold txn_logs.
    rewrite bool_decide_false by (intros Hn; by apply Hn).
    rewrite Hraw. cbn [or_return]. rewrite Hu. cbn [or_return].
    rewrite Hout, result_value_roundtrip. cbn [or_return].
    rewrite Hh. unfold matching. by rewrite <- omap_filter.
  - unfold txn_logs, entry_logs, receipt, matching. rewrite Hm, filter_nil.
    case_bool_decide; [done|].
    pose proof (bytes_from_value_total (args (input t))) as H1.
    destruct (bytes_from_value (args (input t))) as [raw| |]; [|done|done]. cbn [or_return].
    pose proof (rlp_decode_total raw) as H2. by destruct (rlp_decode raw).
Qed.

(** The dispatcher's tags meet every condition of a query whose filter
    matches one of the logs. *)
Lemma topic_condition_met h x f e i ts tag :
  e ∈ Api.logs x -> filter_matches f (eth_log e) = true -> ts <> [] ->
  filter_topics f !! i = Some (Some ts) -> TAG_ETH_LOG_TOPICS !! i = Some tag ->
  exists v, v ∈ ts /\ (tag, v) ∈ result_tags h x.
Proof.
  intros He Hm Hne Hi Htag. apply filter_matches_spec in Hm as [_ Hm].
  destruct (Hm i ts Hi Hne) as (t & Ht & Hin). exists t. split; [done|].
  unfold result_tags. apply elem_of_cons. right.
  apply list_elem_of_In, in_concat. exists (api_log_tags e). split.
  - apply list_elem_of_In, list_elem_of_fmap. by exists e.
  - apply list_elem_of_In. unfold api_log_tags. apply elem_of_cons. right.
    rewrite take_ge.
    + apply list_elem_of_lookup. exists i. rewrite lookup_zip_with.
      simpl in Ht. rewrite Ht. simpl. by rewrite Htag.
    + rewrite length_zip_with. simpl. lia.
Qed.

Lemma conditions_met h x f e :
  filter_wf f -> e ∈ Api.logs x -> filter_matches f (eth_log e) = true ->
  forallb (satisfies (result_tags h x)) (query_conditions f) = true.
Proof.
  intros [Hwa Hwt] He Hm. apply forallb_forall. intros c Hc. apply list_elem_of_In in Hc.
  unfold query_conditions in Hc.
  assert (exists v, v ∈ values c /\ (key c, v) ∈ result_tags h x) as (v & Hv & Hin).
  { apply elem_of_app in Hc as [Hc|Hc].
    - destruct (filter_address f) as [addrs|] eqn:Ha; [|by apply elem_of_nil in Hc].
      apply list_elem_of_singleton in Hc as ->. exists (log_address e).
      apply filter_matches_spec in Hm as [Hm _]. split; [by apply (Hm addrs Ha), Hwa|].
      unfold result_tags. apply elem_of_cons. right. apply list_elem_of_In, in_concat.
      exists (api_log_tags e). split; [|by left].
      apply list_elem_of_In, list_elem_of_fmap. by exists e.
    - apply list_elem_of_omap in Hc as ([topic tag] & Hc & Hcond).
      apply elem_of_take in Hc as (i & Hi & _). apply lookup_zip_with_Some in Hi as
        (? & ? & [= <- <-] & Hi & Htag).
      destruct topic as [ts|]; [|done]. cbn in Hcond. injection Hcond as <-. cbn [key values].
      eapply topic_condition_met; [done|done| |done|done]. by eapply Hwt. }
  unfold satisfies. apply existsb_exists. exists v. split; [by apply list_elem_of_In|].
  by apply bool_decide_eq_true.
Qed.

Lemma transactions_eq node b raws :
  get_txs node (round (block_header b)) (io_root (block_header b)) = Ok raws ->
  transactions node b = Ok (omap eth_txn raws).
Proof.
  intros Hraws. unfold transactions, raw_transactions. rewrite Hraws. cbn [obind].
  set (call_of raw := match call_from_slice raw with
    | Ok call => if bool_decide (method call <> METHOD_TX) then None else Some call
    | _ => None end).
  set (txn_of (call : TxnCall Value) := match bytes_from_value (args call) with
    | Ok b => match rlp_decode b with Ok u => Some u | _ => None end
    | _ => None end).
  rewrite (omapM_fmap _ call_of). 2:{
    intros raw _. unfold call_of. pose proof (call_from_slice_total raw).
    by destruct (call_from_slice raw). }
  cbn [obind]. rewrite omap_id_fmap. rewrite (omapM_fmap _ txn_of). 2:{
    intros call _. unfold txn_of. pose proof (bytes_from_value_total (args call)).
    destruct (bytes_from_value (args call)) as [r| |]; [|done|done]. cbn [or_return].
    pose proof (rlp_decode_total r). by destruct (rlp_decode r). }
  cbn [obind]. rewrite omap_id_fmap. f_equal. clear Hraws.
  induction raws as [|raw raws IH]; [done|]. cbn [omap list_omap]. unfold eth_txn at 1, call_of at 1.
  destruct (call_from_slice raw) as [call| |]; [|done|done].
  case_bool_decide; [done|]. cbn [omap list_omap]. unfold txn_of at 1.
  destruct (bytes_from_value (args call)) as [r| |]; [|done|done].
  destruct (rlp_decode r); [|done|done]. f_equal. apply IH.
Qed.

(** The transactions of a block with their places in its list. *)
Definition localized_of (b : BlockSnapshot) (us : list UnverifiedTransaction)
  : list LocalizedTransaction :=
  imap (fun i u => {| signed := u; block_number := number_u64 b; tx_block_hash := block_hash b;
                      tx_index := Z.of_nat i |}) us.

Lemma rich_block_full node b raws :
  get_txs node (round (block_header b)) (io_root (block_header b)) = Ok raws ->
  rich_block node true b =
  match mapM from_localized (localized_of b (omap eth_txn raws)) with
  | Some txns => Ok {| rb_header := rich_header b; total_difficulty := None; uncles := [];
                       transactions_of := Full txns |}
  | None => Panic
  end.
Proof.
  intros Hraws. unfold rich_block. rewrite (transactions_eq node b raws Hraws). cbn [obind].
  unfold rpc_transaction. rewrite omapM_expect. fold (localized_of b (omap eth_txn raws)).
  by destruct (mapM from_localized _).
Qed.

Lemma localized_lookup b us txns i u :
  mapM from_localized (localized_of b us) = Some txns -> us !! i = Some u ->
  txns !! i = from_localized {| signed := u; block_number := number_u64 b;
                                tx_block_hash := block_hash b; tx_index := Z.of_nat i |}.
Proof.
  intros Htxns%mapM_Some Hi.
  assert (localized_of b us !! i = Some {| signed := u; block_number := number_u64 b;
    tx_block_hash := block_hash b; tx_index := Z.of_nat i |}) as Hl.
  { unfold localized_of. by rewrite list_lookup_imap, Hi. }
  destruct (Forall2_lookup_l _ _ _ _ _ Htxns Hl) as (t & -> & Ht). by rewrite Ht.
Qed.

(** They can all be shown when all senders can be recovered. *)
Lemma localized_all b us :
  Forall (fun u => is_Some (localized_sender u)) us <->
  is_Some (mapM from_localized (localized_of b us)).
Proof.
  rewrite mapM_is_Some, !Forall_forall. split.
  - intros Hu lt Hlt. apply list_elem_of_lookup in Hlt as [i Hi].
    unfold localized_of in Hi. rewrite list_lookup_imap in Hi.
    apply fmap_Some in Hi as (u & Hi & ->). apply from_localized_sender.
    apply Hu, list_elem_of_lookup. by exists i.
  - intros Hl u Hu. apply list_elem_of_lookup in Hu as [i Hi].
    apply (from_localized_sender {| signed := u; block_number := number_u64 b;
      tx_block_hash := block_hash b; tx_index := Z.of_nat i |}).
    apply Hl, list_elem_of_lookup. exists i. unfold localized_of. by rewrite list_lookup_imap, Hi.
Qed.

(** A transaction of the range that the query does not select has no log the
    filter matches. *)
Lemma unselected_no_match f q t tags :
  filter_wf f -> emitted t tags -> conditions q = query_conditions f ->
  in_range (round_min q) (round_max q) (t, tags) = true -> selected q (t, tags) = false ->
  matching f (entry_logs t) = [].
Proof.
  intros Hwf Hem Hq Hr Hs. unfold selected in Hs. rewrite Hr, Hq in Hs. cbn [andb snd] in Hs.
  unfold matching. apply filter_none. intros l Hl Hm.
  destruct Hem as [(txn & x & Hx & ->)|(m & Hout & ->)].
  - rewrite (executed_entry_logs t txn x Hx) in Hl.
    apply list_elem_of_lookup in Hl as (i & Hi). rewrite list_lookup_imap in Hi.
    destruct (Api.logs x !! i) as [e|] eqn:He; [|done]. injection Hi as <-.
    apply list_elem_of_lookup_2 in He.
    rewrite (conditions_met (signed_hash txn) x f e) in Hs by done. done.
  - unfold entry_logs, receipt in Hl. rewrite Hout in Hl. by apply elem_of_nil in Hl.
Qed.

Lemma selected_matching f q history :
  filter_wf f -> conditions q = query_conditions f ->
  (forall t tags, (t, tags) ∈ history -> emitted t tags) ->
  concat ((fun t => matching f (entry_logs t)) <$>
          (filter (fun e => selected q e = true) history).*1) =
  matching f (concat (entry_logs <$>
     (filter (fun e => in_range (round_min q) (round_max q) e = true) history).*1)).
Proof.
  intros Hwf Hq Hem. induction history as [|[t tags] history IH]; [done|].
  specialize (IH (fun t' tags' H => Hem t' tags' (list_elem_of_further _ _ _ H))).
  rewrite !filter_cons. destruct (selected q (t, tags)) eqn:Hs.
  - assert (in_range (round_min q) (round_max q) (t, tags) = true) as ->.
    { unfold selected in Hs. by apply andb_prop in Hs as [? _]. }
    rewrite !decide_True by done. cbn [fmap list_fmap concat]. rewrite IH.
    by rewrite matching_app.
  - rewrite decide_False by done. rewrite IH.
    destruct (in_range (round_min q) (round_max q) (t, tags)) eqn:Hr.
    + rewrite decide_True by done. cbn [fmap list_fmap concat].
      rewrite matching_app.
      pose proof (unselected_no_match f q t tags Hwf (Hem t tags (list_elem_of_here _ _)) Hq Hr Hs)
        as Hnil. cbn [fst]. by rewrite Hnil.
    + by rewrite decide_False by done.
Qed.

(** The logs of a range of blocks are those of its two parts. *)
Lemma chain_logs_split f lo mid hi history :
  (lo <= mid <= hi + 1)%Z ->
  chain_logs f lo hi history ≡ₚ
  chain_logs f lo (mid - 1) history ++ chain_logs f mid hi history.
Proof.
  intros Hr. unfold chain_logs. rewrite <- matching_app. unfold matching. f_equiv.
  induction history as [|e history IH]; [done|]. rewrite !filter_cons.
  unfold in_range. repeat case_decide; cbn [fmap list_fmap concat] in *; try lia; try done.
  - by rewrite IH, app_assoc.
  - rewrite IH. by rewrite Permutation_app_swap_app.
Qed.

Lemma chain_logs_empty f lo hi history : (hi < lo)%Z -> chain_logs f lo hi history = [].
Proof.
  intros Hr. unfold chain_logs. rewrite filter_none; [done|]. intros e _. unfold in_range. lia.
Qed.

Lemma elem_of_chain_logs f lo hi history l :
  l ∈ chain_logs f lo hi history <->
  filter_matches f (entry l) = true /\
  exists e, e ∈ history /\ (lo <= entry_round e.1 <= hi)%Z /\ l ∈ entry_logs e.1.
Proof.
  unfold chain_logs, matching. rewrite list_elem_of_filter. f_equiv.
  rewrite list_elem_of_In, in_concat. setoid_rewrite <- list_elem_of_In. split.
  - intros (ls & Hls & Hl). apply list_elem_of_fmap in Hls as (t & -> & Ht).
    apply list_elem_of_fmap in Ht as (e & -> & He). apply list_elem_of_filter in He as [He ?].
    exists e. unfold in_range in He. split_and!; [done|lia|lia|done].
  - intros (e & He & Hr & Hl). exists (entry_logs e.1). split; [|done].
    apply list_elem_of_fmap_2, list_elem_of_fmap_2, list_elem_of_filter. split; [|done].
    unfold in_range. lia.
Qed.

Lemma chain_logs_content f g lo hi history :
  filter_address f = filter_address g -> filter_topics f = filter_topics g ->
  chain_logs f lo hi history = chain_logs g lo hi history.
Proof.
  intros Ha Ht. unfold chain_logs, matching. apply list_filter_iff. intros l.
  by rewrite (filter_matches_content f g).
Qed.

(** What a node has indexed up to a block is enough for the logs up to it. *)
Lemma chain_logs_prefix f lo hi history :
  chain_logs f lo hi (filter (fun e => entry_round e.1 <= hi)%Z history) =
  chain_logs f lo hi history.
Proof.
  unfold chain_logs. rewrite list_filter_filter. do 4 f_equal. apply list_filter_iff.
  intros e. unfold in_range. split; [by intros [? _]|]. intros H. split; [done|].
  apply andb_prop in H. lia.
Qed.

(** What a log query makes of the node's answer. *)
Lemma logs_of_txns node f from to txs :
  get_block_unwrap node (from_block f) = Ok from ->
  get_block_unwrap node (to_block f) = Ok to ->
  wait_block_indexed node (round (block_header to)) = Ok tt ->
  query_txs node (logs_query f from to) = Ok txs ->
  (forall t, t ∈ txs -> exists tags, emitted t tags) ->
  logs node f =
    Ok (sort_by log_block_number (concat ((fun t => matching f (entry_logs t)) <$> txs))).
Proof.
  intros Hf Ht Hw Htxs Hem. unfold logs. rewrite Hf. cbn [obind]. rewrite Ht. cbn [obind].
  rewrite Hw. cbn [obind]. rewrite Htxs. cbn [obind].
  rewrite (omapM_fmap _ (fun t => matching f (entry_logs t))); [done|].
  intros t Hin. destruct (Hem t Hin) as [tags Htags]. by eapply txn_logs_emitted.
Qed.

(** The answer of a log query, up to the order of the node's own answer. *)
Lemma logs_answer node history f from to :
  indexed node history -> filter_wf f -> default 0%Z (filter_limit f) = 0%Z ->
  get_block_unwrap node (from_block f) = Ok from ->
  get_block_unwrap node (to_block f) = Ok to ->
  wait_block_indexed node (round (block_header to)) = Ok tt ->
  exists found, logs node f = Ok (sort_by log_block_number found) /\
    found ≡ₚ chain_logs f (number_u64 from) (number_u64 to) history.
Proof.
  intros Hidx Hwf Hlim Hf Ht Hw.
  destruct (indexed_query _ _ Hidx (logs_query f from to) Hlim) as (txs & Htxs & Hperm).
  assert (forall t, t ∈ txs -> exists tags, emitted t tags) as Hem.
  { intros t Hin. rewrite Hperm in Hin. apply list_elem_of_fmap in Hin as ([t' tags] & -> & Hin).
    apply list_elem_of_filter in Hin as [_ Hin]. exists tags. by eapply indexed_emitted. }
  exists (concat ((fun t => matching f (entry_logs t)) <$> txs)). split.
  - by eapply logs_of_txns.
  - rewrite Hperm. unfold chain_logs.
    rewrite (selected_matching f (logs_query f from to) history); [done|done|done|].
    intros t tags Hin. by eapply indexed_emitted.
Qed.

(** ** Properties *)

(** Log queries are complete and exact: on a node that has indexed the
    chain, [logs] returns, in the order of their blocks and once each, exactly
    the logs of the receipts of the transactions in the filter's range of
    blocks that the filter matches.  The tags the runtime emits are those the
    query asks for. *)
Theorem logs_complete node history f from to :
  indexed node history -> filter_wf f -> default 0%Z (filter_limit f) = 0%Z ->
  get_block_unwrap node (from_block f) = Ok from ->
  get_block_unwrap node (to_block f) = Ok to ->
  wait_block_indexed node (round (block_header to)) = Ok tt ->
  exists ls, logs node f = Ok ls /\
    Sorted (fun a b => log_block_number a <= log_block_number b)%Z ls /\
    ls ≡ₚ chain_logs f (number_u64 from) (number_u64 to) history.
Proof.
  intros Hidx Hwf Hlim Hf Ht Hw.
  destruct (logs_answer node history f from to) as (found & Hrun & Hp); [done..|].
  eexists. split_and!; [done|apply sort_by_sorted|]. by rewrite sort_by_Permutation.
Qed.

(** A receipt reports the execution: for a transaction the runtime
    executed with result [x], the receipt the gateway decodes has the
    transaction's hash and position, the gas, bloom and status of [x], the
    logs of [x] numbered in order, and a contract address exactly when the
    transaction creates a contract. *)
Theorem receipt_reports_execution t txn x :
  executed_entry t txn x -> exists r, receipt t = Ok r /\
    transaction_hash r = signed_hash txn /\
    (transaction_index r, receipt_block_hash r, receipt_block_number r) =
      (index t, block_hash (block_snapshot t), entry_round t) /\
    (receipt_cumulative_gas_used r, receipt_tx_gas_used r) =
      (cumulative_gas_used x, Api.gas_used x) /\
    (receipt_bloom r, receipt_status r) = (log_bloom x, StatusCode (status_code x)) /\
    (entry <$> receipt_entries r) = (eth_log <$> Api.logs x) /\
    (forall i l, receipt_entries r !! i = Some l -> log_index l = Z.of_nat i /\
       log_transaction_hash l = signed_hash txn) /\
    (is_Some (receipt_contract_address r) <-> action (signed_tx txn) = Ethcore.Create).
Proof.
  intros Hx. destruct (executed_receipt t txn x Hx)
    as (r & Hr & Hh & Hi & Hbh & Hbn & Hcg & Hg & Hbl & Hst & Hca & He).
  exists r. split_and!; [done|done|congruence|congruence|congruence| | |].
  - rewrite He, fmap_imap. by apply imap_const.
  - intros i l Hl. rewrite He, list_lookup_imap in Hl.
    destruct (Api.logs x !! i); [|done]. by injection Hl as <-.
  - rewrite Hca. destruct (action (signed_tx txn)); split; intros H; try done.
Qed.

(** C21. Submission: a raw transaction that does not decode or whose signature
    does not verify is refused without any submission; any other is submitted
    again only while the answer is "block gas limit reached", at most six
    times in all, and the last answer is returned under the transaction's
    hash. *)
Theorem send_raw_transaction_spec client_tx raw :
  match obind (rlp_decode raw) signed_new with
  | Ok signed => exists i, i <= 5 /\
      (forall j, j < i -> client_tx j = Err (ErrTransaction BlockGasLimitReached)) /\
      (client_tx i = Err (ErrTransaction BlockGasLimitReached) -> i = 5) /\
      send_raw_transaction client_tx raw =
        (omap_ok (pair (signed_hash signed)) (client_tx i), S i)
  | Err err => send_raw_transaction client_tx raw = (Err (ErrMsg err), 0)
  | Panic => send_raw_transaction client_tx raw = (Panic, 0)
  end.
Proof.
  unfold send_raw_transaction. destruct (rlp_decode raw) as [u| |]; [|done|done]. cbn [obind].
  destruct (signed_new u) as [signed| |]; [|done|done]. apply (submit_spec client_tx signed 5 0).
Qed.

(** A simulation against a block runs in the environment the runtime
    would execute the next batch in after that block's header, except for the
    gas limit, which is unbounded. *)
Theorem simulation_runs_in_batch_env {Er} p ctx ctx' b :
  start_batch p ctx = (@Ok Er unit tt, ctx') -> runtime ctx' = Some b ->
  simulation_env p (header ctx) = @Ok Er _ (set_gas_limit u256_max (env_info b)).
Proof.
  intros Hs Hb. unfold start_batch, sbind, sget, slift, smodify in Hs.
  destruct (unwrap_ok _) as [st| |]; simplify_eq. unfold simulation_env.
  destruct (u64_add p (round (header ctx)) 1) as [n| |]; simplify_eq.
  simpl in Hb. by injection Hb as <-.
Qed.

(** A block lists the Ethereum transactions of its raw transactions in
    order, with the position among these as the index: the [j]-th raw
    transaction is listed at the number of Ethereum transactions before it,
    which is [j] only if every earlier raw transaction is an Ethereum
    transaction.  But the list panics when the sender of one of them cannot be
    recovered. *)
Theorem rich_block_positions node b raws :
  get_txs node (round (block_header b)) (io_root (block_header b)) = Ok raws ->
  let known u := is_Some (localized_sender u) in
  (Forall known (omap eth_txn raws) ->
   exists rb txns, rich_block node true b = Ok rb /\ rb_header rb = rich_header b /\
     transactions_of rb = Full txns /\ length txns = length (omap eth_txn raws) /\
     forall j raw u, raws !! j = Some raw -> eth_txn raw = Some u ->
       let i := length (omap eth_txn (take j raws)) in
       txns !! i = from_localized {| signed := u; block_number := number_u64 b;
                                     tx_block_hash := block_hash b; tx_index := Z.of_nat i |} /\
       (i = j <-> Forall (fun raw => is_Some (eth_txn raw)) (take j raws))) /\
  (~ Forall known (omap eth_txn raws) -> rich_block node true b = Panic).
Proof.
  intros Hraws known. pose proof (rich_block_full node b raws Hraws) as Hrb. split; intros Hknown.
  - destruct (proj1 (localized_all b (omap eth_txn raws)) Hknown) as [txns Htxns].
    rewrite Htxns in Hrb. eexists _, txns. rewrite Hrb. split_and!; [done|done|done| |].
    + apply mapM_Some in Htxns. rewrite <- (Forall2_length _ _ _ Htxns). apply length_imap.
    + intros j raw u Hj Hu i. split.
      * apply (localized_lookup b (omap eth_txn raws)); [done|].
        by apply (omap_lookup_kept _ _ _ raw).
      * rewrite <- length_omap_all. apply lookup_lt_Some in Hj.
        subst i. rewrite length_take_le by lia. done.
  - rewrite Hrb. destruct (mapM _ _) as [txns|] eqn:Htxns; [|done].
    exfalso. apply Hknown, (localized_all b). by eexists.
Qed.

End lemmas.
End translator.

(** ** Witnesses *)

Module Witness.
#[local] Existing Instance Model.ops.
#[local] Existing Instance EthModel.ops.
#[local] Existing Instance EthModel.laws.
#[local] Existing Instance OasisModel.ops.
#[local] Existing Instance OasisModel.laws.
#[local] Existing Instance QueryModel.ops.
#[local] Existing Instance QueryModel.laws.

#[local] Instance model_decoders : DecodersTotal.
Proof.
  constructor.
  - intros b. by destruct b.
  - intros v. by destruct v.
  - intros b. simpl. unfold EthModel.decode. by repeat case_match.
  - intros u. simpl. unfold EthModel.verify. by case_decide.
Qed.

Definition block (n : Z) : BlockSnapshot := {|
  block_header := {| round := n; header_timestamp := 1000 + n; previous_hash := replicate 32 x07;
                     state_root := []; io_root := [] |};
  block_hash := [byte_of_Z n]
|}.

(** Transaction [id] of block [n], with one log under the topic [id]. *)
Definition snapshot (n i : Z) (id : byte) : TransactionSnapshot := {|
  block_snapshot := block n;
  index := i;
  input := {| method := "tx"; args := OasisModel.VBytes (Methods.Witness.raw id 1 30000) |};
  txn_output := Success (OasisModel.VResult {|
    cumulative_gas_used := 21000; Api.gas_used := 21000; log_bloom := [];
    Api.logs := [{| log_address := replicate 20 x0a; log_topics := [[id]]; Api.log_data := [] |}];
    status_code := 1; output := [id] |})
|}.

Definition result (id : byte) : ExecutionResult := {|
  cumulative_gas_used := 21000; Api.gas_used := 21000; log_bloom := [];
  Api.logs := [{| log_address := replicate 20 x0a; log_topics := [[id]]; Api.log_data := [] |}];
  status_code := 1; output := [id] |}.

Definition history : list (TransactionSnapshot * list Tag) :=
  [(snapshot 2 0 x02, result_tags [x02] (result x02));
   (snapshot 1 0 x01, result_tags [x01] (result x01));
   (snapshot 3 0 x02, result_tags [x02] (result x02))].

Definition node : Node := {|
  GatewayLib.get_latest_block := Ok (block 3);
  GatewayLib.get_block := fun n => Ok (if (0 <=? n)%Z && (n <=? 3)%Z then Some (block n) else None);
  GatewayLib.get_block_by_hash := fun _ => Ok None;
  get_tx := fun _ _ => Ok None;
  get_tx_by_block_hash := fun _ _ => Ok None;
  get_txs := fun _ _ => Ok [str "garbage"; x02 :: str "tx" ++ Methods.Witness.raw x01 1 30000];
  query_tx := fun _ _ => Ok None;
  query_txs := fun q => Ok (filter (fun e => selected q e = true) history).*1;
  wait_block_indexed := fun _ => Ok tt;
  ROUND_LATEST := 0
|}.

Lemma snapshot_executed n i id :
  id <> xff -> executed_entry (snapshot n i id) (Methods.Witness.signed id 30000) (result id).
Proof.
  intros Hid. split; [done|]. split; [|done].
  exists (Methods.Witness.raw id 1 30000), (Methods.Witness.signed id 30000).
  split_and!; [done|done|]. simpl. unfold EthModel.verify. rewrite decide_False; [done|].
  simpl. congruence.
Qed.

Lemma node_indexed : indexed node history.
Proof.
  constructor.
  - intros q _. eexists. split; [reflexivity|done].
  - intros t tags Hin. left. unfold history in Hin.
    repeat (apply elem_of_cons in Hin as [[= -> ->]|Hin];
      [eexists _, _; split; [by apply snapshot_executed|done]|]).
    by apply elem_of_nil in Hin.
Qed.

(** The logs under topic [x02] from block 1 on. *)
Definition filter2 : Filter := {|
  from_block := Number 1; to_block := Latest; filter_address := None;
  filter_topics := [Some [[x02]]]; filter_limit := None |}.

Lemma logs_complete_witness :
  exists ls, logs node filter2 = Ok ls /\ (log_block_number <$> ls) = [2; 3]%Z.
Proof.
  destruct (logs_complete node history filter2 (block 1) (block 3)) as (ls & Hls & _).
  - apply node_indexed.
  - split; [done|]. intros [|[|i]] ts Hi; [by injection Hi as <-|done|done].
  - reflexivity.
  - reflexivity.
  - reflexivity.
  - reflexivity.
  - exists ls. split; [exact Hls|]. vm_compute in Hls. by injection Hls as <-.
Defined.

Lemma receipt_reports_execution_witness :
  exists r, receipt (snapshot 2 0 x02) = Ok r /\ transaction_hash r = [x02].
Proof.
  destruct (receipt_reports_execution (snapshot 2 0 x02) (Methods.Witness.signed x02 30000)
    (result x02)) as (r & Hr & Hh & _).
  - by apply snapshot_executed.
  - by exists r.
Defined.

Lemma simulation_runs_in_batch_env_witness :
  exists b, simulation_env Release Methods.Witness.header0 =
    @Ok AnyError _ (set_gas_limit u256_max (env_info b)).
Proof.
  destruct (start_batch_Ok (Er:=AnyError) Release Methods.Witness.ctx0 tt Methods.Witness.ctx1)
    as (b & Hb & _); [reflexivity|].
  exists b. apply (@simulation_runs_in_batch_env _ _ _ AnyError Release Methods.Witness.ctx0
    Methods.Witness.ctx1 b); [reflexivity|exact Hb].
Defined.

(** The Ethereum transaction is the block's second raw transaction and is
    listed at index 0; a block that also has a transaction with a signature
    that does not verify cannot be listed. *)
Definition bad_raw : bytes := x02 :: str "tx" ++ Methods.Witness.raw xff 1 30000.
Definition node_bad : Node := {|
  GatewayLib.get_latest_block := GatewayLib.get_latest_block node;
  GatewayLib.get_block := GatewayLib.get_block node;
  GatewayLib.get_block_by_hash := GatewayLib.get_block_by_hash node;
  get_tx := get_tx node;
  get_tx_by_block_hash := get_tx_by_block_hash node;
  get_txs := fun _ _ => Ok [bad_raw];
  query_tx := query_tx node;
  query_txs := query_txs node;
  wait_block_indexed := wait_block_indexed node;
  ROUND_LATEST := ROUND_LATEST node
|}.

Lemma rich_block_positions_witness :
  (exists rb txns, rich_block node true (block 1) = Ok rb /\ transactions_of rb = Full txns /\
    (txns !! 0 ≫= rpc_transaction_index) = Some 0%Z) /\
  rich_block node_bad true (block 1) = Panic.
Proof.
  split.
  - destruct (rich_block_positions node (block 1)
      [str "garbage"; x02 :: str "tx" ++ Methods.Witness.raw x01 1 30000]) as [H _]; [reflexivity|].
    destruct H as (rb & txns & Hrb & _ & Htxns & _ & H).
    { apply Forall_cons_2; [by eexists|constructor]. }
    exists rb, txns. split_and!; [exact Hrb|exact Htxns|].
    destruct (H 1 (x02 :: str "tx" ++ Methods.Witness.raw x01 1 30000)
      (Methods.Witness.signed x01 30000)) as [Hl _]; [reflexivity|reflexivity|].
    change (length _) with 0 in Hl. by rewrite Hl.
  - apply (rich_block_positions node_bad (block 1) [bad_raw]); [reflexivity|].
    intros [[a Ha] _]%Forall_cons. vm_compute in Ha. discriminate.
Defined.

End Witness.
