(* ===== verification/PubSub.v ===== *)
(** * Publishing chain events ([gateway/src/pubsub.rs], [gateway/src/impls/eth_pubsub.rs])

    The [Broker] polls the latest block at every interval and notifies its
    listeners of the range of blocks since the last notification.  Its
    listener, the [ChainNotificationHandler] of [EthPubSubClient], spawns tasks
    that fetch the range's headers and its matching logs, and these spawn a
    task for each notification of a subscriber.  The executor runs the tasks
    in any order: [World] is the broker with the tasks that have not run yet
    and what has been sent so far, and [react] an event in it, a poll of the
    broker or the run of a task. *)

From Stdlib Require Import ZArith Lia.
From stdpp Require Import base numbers gmap strings option list.
From S2P Require Import Prelude Crypto Api OasisCore Ethcore JsonRpc GatewayLib Translator.

(** ** [Broker] *)

Section broker.
Context {O : OasisCore} {Listener : Type}.

Record Broker := {
  last_notified_block : Z;
  listeners : list Listener
}.

Definition broker_new : Broker := {| last_notified_block := 0; listeners := [] |}.

Definition add_listener (listener : Listener) (self : Broker) : Broker :=
  {| last_notified_block := last_notified_block self; listeners := listeners self ++ [listener] |}.

(** A call of [notify_blocks(from_block, to_block)] on a listener. *)
Record notification := { listener : Listener; notify_from : Z; notify_to : Z }.

(** One interval: the latest block is asked for and the listeners that are
    still alive are notified; a failure of the node aborts the process. *)
Definition interval (latest : outcome AnyError BlockSnapshot) (alive : Listener -> bool)
  : stateful Broker Empty_set (list notification) := fun self =>
  match latest with
  | Ok blk =>
      let to := number_u64 blk in
      if (to <=? last_notified_block self)%Z then (Ok [], self)
      else
        let from := (last_notified_block self + 1)%Z in
        (Ok ((fun l => {| listener := l; notify_from := from; notify_to := to |}) <$>
               filter (fun l => alive l = true) (listeners self)),
         {| last_notified_block := to; listeners := listeners self |})
  | _ => (Panic, self)
  end.

(** The intervals of a run of the broker. *)
Fixpoint intervals (polls : list (outcome AnyError BlockSnapshot * (Listener -> bool)))
  : stateful Broker Empty_set (list notification) :=
  match polls with
  | [] => sret []
  | (latest, alive) :: polls' =>
      let! ns := interval latest alive in
      let! ns' := intervals polls' in
      sret (ns ++ ns')
  end.

(** ** Specification *)

(** The blocks a listener is told about, in order. *)
Definition blocks_of `{!EqDecision Listener} (l : Listener) (ns : list notification) : list Z :=
  n ← filter (fun n => listener n = l) ns;
  seqZ (notify_from n) (notify_to n - notify_from n + 1).

Definition highest (b : Z) (polls : list (outcome AnyError BlockSnapshot * (Listener -> bool))) : Z :=
  foldl (fun m p => match p.1 with Ok blk => Z.max m (number_u64 blk) | _ => m end) b polls.

(** ** Lemmas *)

Context `{!EqDecision Listener}.

Lemma blocks_of_app l ns ns' : blocks_of l (ns ++ ns') = blocks_of l ns ++ blocks_of l ns'.
Proof. unfold blocks_of. by rewrite filter_app, bind_app. Qed.

(** A registered, living listener is notified exactly once. *)
Lemma notified_once l alive ls from to :
  NoDup ls -> l ∈ ls -> alive l = true ->
  filter (fun n => listener n = l)
    ((fun l => {| listener := l; notify_from := from; notify_to := to |}) <$>
       filter (fun l => alive l = true) ls) =
    [{| listener := l; notify_from := from; notify_to := to |}].
Proof.
  intros Hnd Hin Hal. induction ls as [|k ls IH]; [by apply elem_of_nil in Hin|].
  apply NoDup_cons in Hnd as [Hk Hnd]. rewrite filter_cons.
  apply elem_of_cons in Hin as [<-|Hin].
  - rewrite decide_True by done. cbn [fmap list_fmap]. rewrite filter_cons.
    rewrite decide_True by done. f_equal. apply filter_none.
    intros n Hn. apply list_elem_of_fmap in Hn as (k & -> & Hk').
    apply list_elem_of_filter in Hk' as [_ Hk']. simpl. by intros ->.
  - destruct (decide (alive k = true)).
    + cbn [fmap list_fmap]. rewrite filter_cons, decide_False; [by apply IH|].
      simpl. by intros ->.
    + by apply IH.
Qed.

Lemma blocks_of_notified l alive ls from to :
  NoDup ls -> l ∈ ls -> alive l = true ->
  blocks_of l ((fun l => {| listener := l; notify_from := from; notify_to := to |}) <$>
                 filter (fun l => alive l = true) ls) = seqZ from (to - from + 1).
Proof.
  intros Hnd Hin Hal. unfold blocks_of. rewrite notified_once by done. simpl. by rewrite app_nil_r.
Qed.

Lemma seqZ_split a b c : (a <= b <= c)%Z -> seqZ (a + 1) (b - a) ++ seqZ (b + 1) (c - b) = seqZ (a + 1) (c - a).
Proof.
  intros H. replace (c - a)%Z with ((b - a) + (c - b))%Z by lia.
  rewrite seqZ_app by lia. do 2 f_equal. lia.
Qed.

Lemma highest_ge m polls : (m <= highest m polls)%Z.
Proof.
  unfold highest. revert m. induction polls as [|[[blk| |] al] polls IH]; intros m; simpl; [lia| | |];
    [|apply IH|apply IH]. etransitivity; [|apply IH]. lia.
Qed.

(** ** Properties *)

(** Every block is announced exactly once: over any run of the broker
    that does not abort, a listener registered from the start that stays
    alive is told of every block after the last notified one up to the
    highest one seen, once each and in order, whatever latest blocks the
    node reports. *)
Theorem broker_announces_once l polls self ns self' :
  NoDup (listeners self) -> l ∈ listeners self ->
  Forall (fun p => p.2 l = true) polls ->
  intervals polls self = (Ok ns, self') ->
  last_notified_block self' = highest (last_notified_block self) polls /\
  blocks_of l ns =
    seqZ (last_notified_block self + 1) (last_notified_block self' - last_notified_block self).
Proof.
  intros Hnd Hin Hal. revert self ns self' Hnd Hin.
  induction polls as [|[latest alive] polls IH]; intros self ns self' Hnd Hin Hrun.
  - simpl in Hrun. injection Hrun as <- <-. by rewrite Z.sub_diag.
  - apply Forall_cons_1 in Hal as [Ha Hal]. cbn [snd] in Ha.
    cbn [intervals] in Hrun. apply sbind_Ok in Hrun as (ns1 & self1 & Hi & Hrun).
    apply sbind_Ok in Hrun as (ns2 & self2 & Hrest & Hret). injection Hret as <- <-.
    unfold interval in Hi. destruct latest as [blk| |]; [|done|done].
    rewrite blocks_of_app. unfold highest. cbn [foldl fst].
    destruct (number_u64 blk <=? last_notified_block self)%Z eqn:Hle.
    + apply Z.leb_le in Hle. injection Hi as <- <-.
      destruct (IH Hal _ _ _ Hnd Hin Hrest) as [Hh Hb]. rewrite Z.max_l by done. by split.
    + apply Z.leb_gt in Hle. injection Hi as <- <-.
      apply (IH Hal) in Hrest as [Hh Hb]; [|exact Hnd|exact Hin]. cbn [last_notified_block] in *.
      rewrite Z.max_r by lia. split; [done|]. rewrite Hb.
      rewrite blocks_of_notified by done.
      pose proof (highest_ge (number_u64 blk) polls).
      rewrite <- (seqZ_split (last_notified_block self) (number_u64 blk)) by lia.
      do 2 f_equal. lia.
Qed.

End broker.
Arguments Broker : clear implicits.
Arguments notification : clear implicits.

(** ** [EthPubSubClient] *)

Section eth_pubsub.
Context {M : Mrae} {E : Ethcore} {O : OasisCore} {Q : EthQueries} {P : ParityRpc}.
(** Subscribers and the transaction filters of a subscription. *)
Context {Client TxEntry TxFilter : Type} (tx_filter_matches : TxFilter -> TxEntry -> bool)
  (tx_entry_hash : TxEntry -> H256).

Inductive PubSubResult :=
| HeaderResult (header : RichHeader)
| LogResult (log : LocalizedLogEntry)
| TransactionOutcomeResult (hash : H256) (output : bytes).

(** [Subscribers]: the subscriptions by id, in the order of [values()]. *)
Record ChainNotificationHandler := {
  heads_subscribers : list (Id * Client);
  logs_subscribers : list (Id * (Client * Filter));
  tx_subscribers : list (Id * (Client * TxFilter))
}.

Definition handler_new : ChainNotificationHandler :=
  {| heads_subscribers := []; logs_subscribers := []; tx_subscribers := [] |}.

(** *** Tasks *)

(** What is spawned: the fetch of the headers of a range, the query of the
    logs of a subscription, and the notification of a subscriber. *)
Inductive Task :=
| FetchHeads (from_block to_block : Z)
| FetchLogs (subscriber : Client) (filter : Filter)
| Notify (subscriber : Client) (result : PubSubResult).

Definition notify (subscriber : Client) (result : PubSubResult) : list Task :=
  [Notify subscriber result].

(** The tasks a notification of the handler spawns; nothing is fetched without
    subscribers. *)
Definition notify_heads (from_block to_block : Z) (self : ChainNotificationHandler) : list Task :=
  match heads_subscribers self with
  | [] => []
  | _ => [FetchHeads from_block to_block]
  end.

Definition limit_range (from_block to_block : Z) (filter : Filter) : Filter := {|
  from_block := Number from_block;
  to_block := Number to_block;
  filter_address := filter_address filter;
  filter_topics := filter_topics filter;
  filter_limit := filter_limit filter
|}.

Definition notify_logs (from_block to_block : Z) (self : ChainNotificationHandler) : list Task :=
  (fun s => FetchLogs s.1 (limit_range from_block to_block s.2)) <$> (logs_subscribers self).*2.

Definition notify_blocks (from_block to_block : Z) (self : ChainNotificationHandler) : list Task :=
  notify_heads from_block to_block self ++ notify_logs from_block to_block self.

Definition notify_completed_transaction (entry : TxEntry) (output : bytes)
    (self : ChainNotificationHandler) : list Task :=
  subscription ← filter (fun s => tx_filter_matches s.2 entry = true) (tx_subscribers self).*2;
  notify subscription.1 (TransactionOutcomeResult (tx_entry_hash entry) output).

(** The headers of a range of blocks, or the first failure; the blocks are
    asked for one after the other, the block [round] from [node_at round]. *)
Definition fetch_headers (node_at : Z -> Node) (from_block to_block : Z)
  : outcome AnyError (list RichHeader) :=
  omapM (fun round =>
    let? blk := get_block_by_round (node_at round) round in
    let? blk := ok_or blk (ErrMsg "block not found") in
    Ok (rich_header blk))
    (seqZ from_block (to_block - from_block + 1)).

(** What the fetch tasks spawn; the subscribers to the headers are those of
    the handler when the headers have arrived.  A failed fetch is logged. *)
Definition fetched_heads (node_at : Z -> Node) (from_block to_block : Z)
    (later : ChainNotificationHandler) : list Task :=
  match fetch_headers node_at from_block to_block with
  | Ok headers =>
      header ← headers;
      subscriber ← (heads_subscribers later).*2;
      notify subscriber (HeaderResult header)
  | _ => []
  end.

Definition fetched_logs (node : Node) (subscriber : Client) (filter : Filter) : list Task :=
  match logs node filter with
  | Ok logs => log ← logs; notify subscriber (LogResult log)
  | _ => []
  end.

(** What a task finds when it runs: the node for each block, and for a log
    query, the handler's subscribers, and whether the sink of a subscriber
    takes a notification; one that is not taken is logged and lost. *)
Record Env := {
  node_at : Z -> Node;
  query_node : Node;
  subscribers : ChainNotificationHandler;
  accepts : Client -> bool
}.

(** What a task sends, and what it spawns. *)
Definition run_task (env : Env) (t : Task) : list (Client * PubSubResult) * list Task :=
  match t with
  | FetchHeads from_block to_block =>
      ([], fetched_heads (node_at env) from_block to_block (subscribers env))
  | FetchLogs subscriber filter => ([], fetched_logs (query_node env) subscriber filter)
  | Notify subscriber result =>
      (if accepts env subscriber then [(subscriber, result)] else [], [])
  end.

(** *** Subscriptions *)

Inductive Kind := NewHeads | Logs | NewPendingTransactions | CompletedTransaction | Syncing.

Inductive SubscriptionParams :=
| NoParams
| LogsParams (filter : Filter)
| TransactionParams (filter : TxFilter).

(** The new subscription gets the id [id]; [Some] is the rejection. *)
Definition subscribe (id : Id) (subscriber : Client) (kind : Kind)
    (params : option SubscriptionParams) (self : ChainNotificationHandler)
  : option Error * ChainNotificationHandler :=
  match kind, params with
  | NewHeads, None =>
      (None, {| heads_subscribers := heads_subscribers self ++ [(id, subscriber)];
                logs_subscribers := logs_subscribers self;
                tx_subscribers := tx_subscribers self |})
  | NewHeads, _ => (Some (errors_invalid_params "newHeads" "Expected no parameters."), self)
  | Logs, Some (LogsParams filter) =>
      (None, {| heads_subscribers := heads_subscribers self;
                logs_subscribers := logs_subscribers self ++ [(id, (subscriber, filter))];
                tx_subscribers := tx_subscribers self |})
  | Logs, _ => (Some (errors_invalid_params "logs" "Expected a filter object."), self)
  | CompletedTransaction, Some (TransactionParams filter) =>
      (None, {| heads_subscribers := heads_subscribers self;
                logs_subscribers := logs_subscribers self;
                tx_subscribers := tx_subscribers self ++ [(id, (subscriber, filter))] |})
  | _, _ => (Some errors_unimplemented, self)
  end.

(** [Subscribers::remove]: whether there was one, and the rest. *)
Definition remove {T} (id : Id) (l : list (Id * T)) : bool * list (Id * T) :=
  (existsb (fun s => bool_decide (s.1 = id)) l, filter (fun s => s.1 <> id) l).

Definition unsubscribe (id : Id) (self : ChainNotificationHandler)
  : bool * ChainNotificationHandler :=
  let '(res, heads) := remove id (heads_subscribers self) in
  let '(res2, logs) := remove id (logs_subscribers self) in
  let '(res3, txs) := remove id (tx_subscribers self) in
  (res || res2 || res3,
   {| heads_subscribers := heads; logs_subscribers := logs; tx_subscribers := txs |}).


(** *** The broker, a handler and the executor *)

Section world.
Context {Listener : Type} `{!EqDecision Listener}.

Record World := {
  broker : Broker Listener;
  pending : list Task;
  sent : list (Client * PubSubResult)
}.

Definition world_new (broker : Broker Listener) : World :=
  {| broker := broker; pending := []; sent := [] |}.

(** An interval of the broker: the node's answer, the listeners alive, and the
    handler's subscribers at the notification; or the executor runs one of
    the tasks that are pending, whichever. *)
Inductive Event :=
| Poll (latest : outcome AnyError BlockSnapshot) (alive : Listener -> bool)
    (subscribers : ChainNotificationHandler)
| Run (i : nat) (env : Env).

(** What an event does to the tasks of the handler that is the listener [l]. *)
Definition react (l : Listener) (e : Event) : stateful World Empty_set unit := fun self =>
  match e with
  | Poll latest alive subscribers =>
      let '(r, broker') := interval latest alive (broker self) in
      match r with
      | Ok ns =>
          let spawned :=
            n ← filter (fun n => listener n = l) ns;
            notify_blocks (notify_from n) (notify_to n) subscribers in
          (Ok tt, {| broker := broker'; pending := pending self ++ spawned; sent := sent self |})
      | _ => (Panic, self)
      end
  | Run i env =>
      match pending self !! i with
      | Some t =>
          let '(out, spawned) := run_task env t in
          (Ok tt, {| broker := broker self; pending := delete i (pending self) ++ spawned;
                     sent := sent self ++ out |})
      | None => (Ok tt, self)
      end
  end.

Fixpoint reacts (l : Listener) (es : list Event) : stateful World Empty_set unit :=
  match es with
  | [] => sret tt
  | e :: es' => let! _ := react l e in reacts l es'
  end.

(** The polls among the events. *)
Definition polls_of (es : list Event) : list (outcome AnyError BlockSnapshot * (Listener -> bool)) :=
  omap (fun e => match e with Poll latest alive _ => Some (latest, alive) | _ => None end) es.

(** A condition on every event, in the world it happens in. *)
Fixpoint throughout (good : World -> Event -> Prop) (l : Listener) (es : list Event) (w : World)
  : Prop :=
  match es with
  | [] => True
  | e :: es' => good w e /\ throughout good l es' (react l e w).2
  end.

End world.
Arguments World : clear implicits.
Arguments Event : clear implicits.

(** ** Lemmas *)

Lemma fetch_headers_Ok node_at from_block to_block hs :
  fetch_headers node_at from_block to_block = Ok hs ->
  Forall2 (fun round h => exists blk, GatewayLib.get_block (node_at round) round = Ok (Some blk) /\
                                      h = rich_header blk)
    (seqZ from_block (to_block - from_block + 1)) hs.
Proof.
  unfold fetch_headers. generalize (seqZ from_block (to_block - from_block + 1)).
  intros rs. revert hs. induction rs as [|r rs IH]; intros hs Hf; cbn [omapM] in Hf.
  - injection Hf as <-. constructor.
  - apply obind_Ok in Hf as (h & Hh & Hf). apply obind_Ok in Hf as (hs' & Hhs & Hf).
    injection Hf as <-. constructor; [|by apply IH].
    apply obind_Ok in Hh as (o & Ho & Hh). apply obind_Ok in Hh as (blk & Hb & Hh).
    destruct o; [|done]. injection Hb as ->. injection Hh as <-. by exists blk.
Qed.

Lemma fetch_headers_missing node_at from_block to_block round :
  (from_block <= round <= to_block)%Z ->
  (forall blk, GatewayLib.get_block (node_at round) round <> Ok (Some blk)) ->
  is_ok (fetch_headers node_at from_block to_block) = false.
Proof.
  intros Hr Hmiss. destruct (fetch_headers node_at from_block to_block) as [hs| |] eqn:Hf; [|done|done].
  apply fetch_headers_Ok in Hf. exfalso.
  assert (round ∈ seqZ from_block (to_block - from_block + 1)) as Hin by (apply elem_of_seqZ; lia).
  apply list_elem_of_lookup in Hin as (i & Hi).
  destruct (Forall2_lookup_l _ _ _ _ _ Hf Hi) as (h & _ & blk & Hb & _). by apply (Hmiss blk).
Qed.

Lemma remove_fresh {T} id (l : list (Id * T)) : id ∉ l.*1 -> remove id l = (false, l).
Proof.
  intros Hn. unfold remove. induction l as [|[i v] l IH]; [done|].
  apply not_elem_of_cons in Hn as [Hi Hn]. specialize (IH Hn). injection IH as Hb Hf.
  cbn [existsb fst]. rewrite bool_decide_false by (intros ->; done). rewrite Hb.
  rewrite filter_cons, decide_True by (cbn [fst]; intros ->; done). by rewrite Hf.
Qed.

Lemma remove_added {T} id (l : list (Id * T)) v :
  id ∉ l.*1 -> remove id (l ++ [(id, v)]) = (true, l).
Proof.
  intros Hn%(remove_fresh (T:=T)). unfold remove in *. injection Hn as Hb Hf.
  rewrite existsb_app, filter_app, Hb, Hf. cbn [existsb fst].
  rewrite bool_decide_true by done. rewrite filter_cons, decide_False by (cbn [fst]; auto).
  by rewrite filter_nil, app_nil_r.
Qed.

(** Blocks that can be fetched, by their numbers. *)
Lemma fetch_headers_of {B} (number : B -> Z) (snapshot : B -> BlockSnapshot) node_at from_block to_block bs :
  number <$> bs = seqZ from_block (to_block - from_block + 1) ->
  (forall b, b ∈ bs ->
     GatewayLib.get_block (node_at (number b)) (number b) = Ok (Some (snapshot b))) ->
  fetch_headers node_at from_block to_block = Ok (rich_header ∘ snapshot <$> bs).
Proof.
  intros Hn Hb. unfold fetch_headers. rewrite <- Hn. clear Hn. induction bs as [|b bs IH]; [done|].
  cbn [fmap list_fmap omapM]. unfold get_block_by_round at 1. rewrite (Hb b) by (by left).
  cbn [obind ok_or]. by rewrite IH by (intros b' Hb'; apply Hb; by right).
Qed.

(** The notifications among tasks that are for one client. *)
Definition notified_to `{!EqDecision Client} (c : Client) (ts : list Task) : list PubSubResult :=
  omap (fun t => match t with
    | Notify s r => if decide (s = c) then Some r else None
    | _ => None
    end) ts.

Lemma notified_fanout {A} `{!EqDecision Client} (g : A -> PubSubResult) (c : Client)
    (subs : list Client) (hs : list A) :
  NoDup subs -> c ∈ subs -> notified_to c (h ← hs; s ← subs; notify s (g h)) = g <$> hs.
Proof.
  intros Hnd Hin. unfold notified_to. induction hs as [|h hs IH]; [done|].
  cbn [mbind list_bind fmap list_fmap]. rewrite omap_app, IH. change (g h :: ?l) with ([g h] ++ l).
  f_equal. clear IH. induction subs as [|s subs IH]; [by apply elem_of_nil in Hin|].
  apply NoDup_cons in Hnd as [Hs Hnd]. cbn [mbind list_bind notify app omap list_omap].
  apply elem_of_cons in Hin as [<-|Hin].
  - rewrite decide_True by done. f_equal. clear IH Hnd. induction subs as [|s subs IH]; [done|].
    apply not_elem_of_cons in Hs as [Hne Hs]. cbn [mbind list_bind notify app omap list_omap].
    rewrite decide_False by congruence. by apply IH.
  - rewrite decide_False by (intros ->; done). by apply IH.
Qed.

(** *** Accounting

    What the blocks of a range owe to somebody is, over any run, divided
    between what has been sent and what the pending tasks still owe. *)
Section accounting.
Context {Listener : Type} `{!EqDecision Listener} {A : Type}.
(** What a notification gives, what a fetch and a log query owe, and what a
    range of blocks owes. *)
Context (gain : Client -> PubSubResult -> list A) (fetch_owes : Z -> Z -> list A)
  (query_owes : Client -> Filter -> list A) (due : Z -> Z -> list A).

Definition owed (t : Task) : list A :=
  match t with
  | FetchHeads from_block to_block => fetch_owes from_block to_block
  | FetchLogs subscriber filter => query_owes subscriber filter
  | Notify subscriber result => gain subscriber result
  end.

Definition gained (sent : list (Client * PubSubResult)) : list A := n ← sent; gain n.1 n.2.
Definition all_owed (ts : list Task) : list A := t ← ts; owed t.

(** The tasks that fit what the broker has announced, and the conditions on
    the events of a run that starts after [start]. *)
Context (l : Listener) (start : Z) (fits : Z -> Task -> Prop)
  (good : World Listener -> Event Listener -> Prop).
Context (fits_mono : forall m n t, (m <= n)%Z -> fits m t -> fits n t)
  (due_nil : due (start + 1) start = [])
  (due_split : forall m n, (start <= m <= n)%Z ->
     due (start + 1) m ++ due (m + 1) n ≡ₚ due (start + 1) n)
  (poll_due : forall w blk alive subs, good w (Poll (Ok blk) alive subs) ->
     let last := last_notified_block (broker w) in
     (start <= last < number_u64 blk)%Z ->
     let ts := notify_blocks (last + 1) (number_u64 blk) subs in
     alive l = true /\ all_owed ts ≡ₚ due (last + 1) (number_u64 blk) /\
     Forall (fits (number_u64 blk)) ts)
  (run_owed : forall w i env t, good w (Run i env) ->
     let last := last_notified_block (broker w) in
     fits last t ->
     let '(out, spawned) := run_task env t in
     gained out ++ all_owed spawned ≡ₚ owed t /\ Forall (fits last) spawned).

Definition balanced (w : World Listener) : Prop :=
  let last := last_notified_block (broker w) in
  (start <= last)%Z /\ Forall (fits last) (pending w) /\
  gained (sent w) ++ all_owed (pending w) ≡ₚ due (start + 1) last.

Lemma react_balanced e w w' :
  NoDup (listeners (broker w)) -> l ∈ listeners (broker w) ->
  balanced w -> good w e -> react l e w = (Ok tt, w') ->
  balanced w' /\ listeners (broker w') = listeners (broker w) /\
  last_notified_block (broker w') = highest (last_notified_block (broker w)) (polls_of [e]).
Proof.
  intros Hnd Hin (Hstart & Hfits & Hbal) Hgood Hrun. destruct e as [latest alive subs|i env].
  - cbn [react] in Hrun. unfold interval in Hrun. destruct latest as [blk| |]; [|done|done].
    unfold highest. cbn [polls_of omap list_omap foldl fst].
    destruct (Z.leb_spec (number_u64 blk) (last_notified_block (broker w))) as [Hle|Hgt];
      injection Hrun as <-; unfold balanced; cbn [broker pending sent last_notified_block listeners].
    { rewrite Z.max_l by done. by rewrite app_nil_r. }
    rewrite Z.max_r by lia. split_and!; [lia| | |done|done].
    + destruct (poll_due w blk alive subs Hgood) as (Hal & _ & Hts); [lia|].
      rewrite notified_once by done. cbn [mbind list_bind notify_from notify_to].
      rewrite app_nil_r. apply Forall_app. split; [|done].
      eapply Forall_impl; [exact Hfits|]. intros t. apply fits_mono. lia.
    + destruct (poll_due w blk alive subs Hgood) as (Hal & Hdue & _); [lia|].
      rewrite notified_once by done. cbn [mbind list_bind notify_from notify_to].
      rewrite app_nil_r. unfold all_owed at 1. rewrite bind_app. fold (all_owed (pending w)).
      rewrite (assoc_L (++)), Hbal. unfold all_owed in Hdue. rewrite Hdue. apply due_split. lia.
  - cbn [react] in Hrun. cbn [polls_of omap list_omap]. unfold highest. cbn [foldl].
    destruct (pending w !! i) as [t|] eqn:Hi; [|by injection Hrun as <-].
    pose proof (proj1 (Forall_lookup _ _) Hfits i t Hi) as Ht.
    pose proof (run_owed w i env t Hgood Ht) as Hrunt.
    destruct (run_task env t) as [out spawned]. destruct Hrunt as [Hout Hspawn].
    injection Hrun as <-. unfold balanced. cbn [broker pending sent]. split_and!; try done.
    + apply Forall_app. split; [by apply Forall_delete|done].
    + rewrite <- Hbal.
      assert (all_owed (pending w) ≡ₚ owed t ++ all_owed (delete i (pending w))) as ->.
      { unfold all_owed. by rewrite (bind_Permutation _ _ _ (delete_Permutation (pending w) i t Hi)). }
      rewrite <- Hout. unfold gained, all_owed. rewrite !bind_app. solve_Permutation.
Qed.

Lemma reacts_balanced es w w' :
  NoDup (listeners (broker w)) -> l ∈ listeners (broker w) ->
  balanced w -> throughout good l es w -> reacts l es w = (Ok tt, w') ->
  balanced w' /\ last_notified_block (broker w') =
    highest (last_notified_block (broker w)) (polls_of es).
Proof.
  revert w. induction es as [|e es IH]; intros w Hnd Hin Hbal Hgood Hrun.
  - by injection Hrun as <-.
  - cbn [reacts] in Hrun. apply sbind_Ok in Hrun as ([] & w1 & He & Hrun).
    cbn [throughout] in Hgood. rewrite He in Hgood. destruct Hgood as [Hg Hgood].
    destruct (react_balanced e w w1 Hnd Hin Hbal Hg He) as (Hbal1 & Hls & Hlast).
    destruct (IH w1) as [Hb Hl]; [by rewrite Hls|by rewrite Hls|done|done|done|].
    split; [done|]. rewrite Hl, Hlast. unfold highest, polls_of. cbn [omap list_omap].
    destruct e; done.
Qed.

(** From a fresh start: nothing is sent that is not owed, and when all tasks
    have run everything owed has been sent. *)
Lemma run_accounts es self w :
  NoDup (listeners self) -> l ∈ listeners self -> last_notified_block self = start ->
  throughout good l es (world_new self) -> reacts l es (world_new self) = (Ok tt, w) ->
  let last := last_notified_block (broker w) in
  gained (sent w) ⊆+ due (start + 1) last /\
  (pending w = [] -> gained (sent w) ≡ₚ due (start + 1) last) /\
  last = highest start (polls_of es).
Proof.
  intros Hnd Hin Hstart Hgood Hrun. destruct (reacts_balanced es (world_new self) w)
    as [(_ & _ & Hbal) Hlast]; [done|done| |done|done|].
  { unfold balanced. cbn. rewrite Hstart, due_nil. split_and!; [done|constructor|done]. }
  cbn [broker world_new] in Hlast. rewrite Hstart in Hlast. split_and!; [| |done].
  - rewrite <- Hbal. apply submseteq_inserts_r. done.
  - intros Hp. rewrite Hp in Hbal. by rewrite <- Hbal, app_nil_r.
Qed.

End accounting.

Lemma reacts_ok {Listener} `{!EqDecision Listener} (l : Listener) es w :
  (reacts l es w).1 = Ok tt -> reacts l es w = (Ok tt, (reacts l es w).2).
Proof. by destruct (reacts l es w) as [r w']; cbn; intros ->. Qed.

(** ** Properties *)

(** Heads are sent all or none: when every block of the notified range can be
    fetched, the task notifies each subscriber of the header of every block
    of the range once; when one of them cannot, nobody is sent anything for
    the whole range. *)
Theorem heads_all_or_none `{!EqDecision Client} node_at from_block to_block later c :
  NoDup (heads_subscribers later).*2 -> c ∈ (heads_subscribers later).*2 ->
  (forall blocks,
     Forall2 (fun round blk => GatewayLib.get_block (node_at round) round = Ok (Some blk))
       (seqZ from_block (to_block - from_block + 1)) blocks ->
     notified_to c (fetched_heads node_at from_block to_block later) =
       (fun blk => HeaderResult (rich_header blk)) <$> blocks) /\
  (forall round, (from_block <= round <= to_block)%Z ->
     (forall blk, GatewayLib.get_block (node_at round) round <> Ok (Some blk)) ->
     fetched_heads node_at from_block to_block later = []).
Proof.
  intros Hnd Hin. unfold fetched_heads. split.
  - intros blocks Hblocks.
    assert (fetch_headers node_at from_block to_block = Ok (rich_header <$> blocks)) as ->.
    { unfold fetch_headers. induction Hblocks as [|round blk rs blks Hb _ IH]; [done|].
      cbn [omapM]. unfold get_block_by_round at 1. rewrite Hb. cbn [obind ok_or]. by rewrite IH. }
    by rewrite notified_fanout, <- list_fmap_compose.
  - intros round Hr Hmiss. pose proof (fetch_headers_missing node_at _ _ _ Hr Hmiss) as Hf.
    by destruct (fetch_headers node_at from_block to_block).
Qed.

(** The tasks come to an end: whatever they find, from any world the executor
    can run them until none is pending. *)
Definition is_notify (t : Task) : bool := match t with Notify _ _ => true | _ => false end.

Lemma spawned_notify env t : Forall (fun t => is_notify t = true) (run_task env t).2.
Proof.
  destruct t as [a b|s f|s r]; cbn; [| |constructor].
  - unfold fetched_heads. destruct (fetch_headers _ _ _); [|constructor..].
    apply Forall_forall. intros t Ht. apply list_elem_of_bind in Ht as (h & Ht & _).
    apply list_elem_of_bind in Ht as (s & Ht & _). by apply list_elem_of_singleton in Ht as ->.
  - unfold fetched_logs. destruct (logs _ _); [|constructor..].
    apply Forall_forall. intros t Ht. apply list_elem_of_bind in Ht as (g & Ht & _).
    by apply list_elem_of_singleton in Ht as ->.
Qed.

Theorem tasks_drain {Listener} `{!EqDecision Listener} (l : Listener) env w : exists es w',
  Forall (fun e => exists i, e = Run i env) es /\
  reacts l es w = (Ok tt, w') /\ pending w' = [].
Proof.
  remember (length (filter (fun t => is_notify t = false) (pending w))) as n eqn:Hn.
  revert w Hn. induction n as [n IHn] using lt_wf_ind. intros w.
  remember (length (pending w)) as k eqn:Hk. revert w Hk. induction k as [k IHk] using lt_wf_ind.
  intros w -> ->. destruct (pending w) as [|t ts] eqn:Hp.
  { by exists [], w. }
  destruct (run_task env t) as [out spawned] eqn:Ht.
  set (w1 := {| broker := broker w; pending := ts ++ spawned; sent := sent w ++ out |}).
  assert (react l (Run 0 env) w = (Ok tt, w1)) as Hstep by (cbn [react]; by rewrite Hp; cbn; rewrite Ht).
  pose proof (spawned_notify env t) as Hs. rewrite Ht in Hs. cbn [snd] in Hs.
  assert (filter (fun t => is_notify t = false) (pending w1) =
    filter (fun t => is_notify t = false) ts) as Hf.
  { cbn [w1 pending]. rewrite filter_app, (filter_none _ spawned), app_nil_r; [done|].
    intros t' Ht'. rewrite Forall_forall in Hs. by rewrite (Hs t' Ht'). }
  assert (exists es w', Forall (fun e => exists i, e = Run i env) es /\
    reacts l es w1 = (Ok tt, w') /\ pending w' = []) as (es & w' & Hes & Hrun & Hend).
  { destruct (is_notify t) eqn:Hnt.
    - destruct t as [| |s r]; [done|done|]. injection Ht as <- <-.
      apply (IHk (length ts)); [cbn; lia| |].
      + cbn [w1 pending]. by rewrite app_nil_r.
      + rewrite Hf. by rewrite filter_cons_False.
    - eapply IHn; [|reflexivity]. rewrite Hf, filter_cons_True by done. cbn. lia. }
  exists (Run 0 env :: es), w'. split_and!; [|cbn [reacts]; unfold sbind; by rewrite Hstep|done].
  constructor; [by eexists|done].
Qed.

(** Subscribing and unsubscribing: a subscription that is not rejected
    is removed again, and only it, by unsubscribing under its id, and the
    rejected ones change nothing. *)
Theorem unsubscribe_subscribe id subscriber kind params self :
  id ∉ (heads_subscribers self).*1 -> id ∉ (logs_subscribers self).*1 ->
  id ∉ (tx_subscribers self).*1 ->
  let '(rejected, self') := subscribe id subscriber kind params self in
  unsubscribe id self' = (bool_decide (rejected = None), self).
Proof.
  intros Hh Hl Ht. unfold unsubscribe.
  destruct kind, params as [[]|]; cbn [subscribe heads_subscribers logs_subscribers tx_subscribers];
    rewrite ?remove_added, ?remove_fresh by done; by destruct self.
Qed.

End eth_pubsub.

(** ** Witnesses *)

Module Witness.
#[local] Existing Instance Model.ops.
#[local] Existing Instance EthModel.ops.
#[local] Existing Instance OasisModel.ops.
#[local] Existing Instance QueryModel.ops.
#[local] Existing Instance RpcModel.ops.

Definition broker1 : Broker nat := add_listener 7 broker_new.
Definition block := Translator.Witness.block.

(** The latest block seen is 2, again 2, then 1, then 4. *)
Definition polls : list (outcome AnyError BlockSnapshot * (nat -> bool)) :=
  (fun n => (Ok (block n), fun _ => true)) <$> [2; 2; 1; 4]%Z.

Lemma broker_announces_once_witness :
  exists ns self', intervals polls broker1 = (Ok ns, self') /\
    blocks_of 7 ns = [1; 2; 3; 4]%Z.
Proof.
  eexists _, _. split; [reflexivity|].
  refine (eq_trans (proj2 (broker_announces_once 7 polls broker1 _ _ _ _ _ eq_refl)) _).
  - apply NoDup_singleton.
  - by left.
  - by repeat constructor.
  - reflexivity.
Defined.

Definition handler1 : @ChainNotificationHandler nat nat :=
  (subscribe (Num 1) 5 NewHeads None (subscribe (Num 2) 6 NewHeads None handler_new).2).2.

Lemma heads_all_or_none_witness :
  notified_to 5 (fetched_heads (fun _ => Translator.Witness.node) 1 2 handler1) =
    [HeaderResult (rich_header (block 1)); HeaderResult (rich_header (block 2))] /\
  fetched_heads (fun _ => Translator.Witness.node) 2 4 handler1 = [].
Proof.
  destruct (heads_all_or_none (fun _ => Translator.Witness.node) 1 2 handler1 5) as [H _].
  - vm_compute. repeat constructor; set_solver.
  - vm_compute. set_solver.
  - split; [apply (H [block 1; block 2]); repeat constructor|].
    apply (proj2 (heads_all_or_none (fun _ => Translator.Witness.node) 2 4 handler1 5
      ltac:(vm_compute; repeat constructor; set_solver) ltac:(vm_compute; set_solver)) 4%Z).
    + lia.
    + intros blk H4. vm_compute in H4. discriminate.
Defined.

Lemma unsubscribe_subscribe_witness :
  unsubscribe (Num 3) (subscribe (Num 3) 8 NewHeads None handler1).2 = (true, handler1).
Proof.
  apply (unsubscribe_subscribe (Num 3) 8 NewHeads None handler1);
    vm_compute; intros H; repeat (apply elem_of_cons in H as [?|H]; [discriminate|]);
    by apply elem_of_nil in H.
Defined.

End Witness.
