(* ===== verification/EthFilter.v ===== *)
(** * Polling filters ([gateway/src/impls/eth_filter.rs])

    [EthFilterClient] keeps the installed filters in [parity_rpc]'s
    [PollManager]; each poll of a filter reports what is new since the last
    one.  A poll asks the node for the latest block, updates the filter, and
    only then fetches the changes: the node may answer differently, so a poll
    takes the node at both moments. *)

From Stdlib Require Import ZArith Lia.
From stdpp Require Import base numbers gmap strings option list.
From S2P Require Import Prelude Crypto Api OasisCore Ethcore Methods JsonRpc GatewayLib Translator.

Inductive PollFilter :=
| BlockFilter (number : Z)
| PendingTransactionFilter
| LogsFilter (block_number : Z) (filter : Filter).

(** [PollManager]: the filter of an id while it has not expired, writing
    through [poll_mut], and [limit_logs]. *)
Class PollManagerOps := {
  PollManager : Type;
  create_poll : PollFilter -> PollManager -> Z * PollManager;
  poll : Z -> PollManager -> option PollFilter;
  poll_write : Z -> PollFilter -> PollManager -> PollManager;
  remove_poll : Z -> PollManager -> bool * PollManager;
  limit_logs : list LocalizedLogEntry -> option Z -> list LocalizedLogEntry
}.

Class PollManagerLaws (PM : PollManagerOps) : Prop := {
  poll_create f pm id pm' : create_poll f pm = (id, pm') -> poll id pm' = Some f;
  poll_write_eq id f g pm : poll id pm = Some g -> poll id (poll_write id f pm) = Some f;
  limit_logs_none ls : limit_logs ls None = ls
}.

Inductive FilterChanges :=
| HashesChanges (hashes : list H256)
| LogsChanges (logs : list LocalizedLogEntry).

Section eth_filter.
Context {M : Mrae} {E : Ethcore} {O : OasisCore} {Q : EthQueries} {P : ParityRpc}
  {PM : PollManagerOps}.

Definition rpc_error (err : AnyError) : Error := jsonrpc_error (display_any_error err).

Definition new_filter (node : Node) (filter : Filter) : stateful PollManager Error Z := fun polls =>
  match map_err rpc_error (get_latest_block node) with
  | Ok blk =>
      let '(id, polls) := create_poll (LogsFilter (number_u64 blk) filter) polls in
      (Ok id, polls)
  | Err e => (Err e, polls)
  | Panic => (Panic, polls)
  end.

Definition new_block_filter (p : profile) (node : Node) : stateful PollManager Error Z :=
  let! blk := slift (map_err rpc_error (get_latest_block node)) in
  let! number := slift (u64_add p (number_u64 blk) 1) in
  fun polls =>
    let '(id, polls) := create_poll (BlockFilter number) polls in
    (Ok id, polls).

Definition new_pending_transaction_filter : stateful PollManager Error Z := fun polls =>
  let '(id, polls) := create_poll PendingTransactionFilter polls in
  (Ok id, polls).

(** The hashes of the blocks [number..=latest]. *)
Definition block_hashes (node : Node) (number latest : Z) : outcome Error (list H256) :=
  map_err rpc_error
    (omapM (fun round =>
       let? blk := get_block_by_round node round in
       let? blk := ok_or blk (ErrMsg "block not found") in
       Ok (hash blk))
     (seqZ number (latest - number + 1))).

Definition logs_filter (block_number : Z) (filter : Filter) : Filter := {|
  from_block := Number block_number;
  to_block := Latest;
  filter_address := filter_address filter;
  filter_topics := filter_topics filter;
  filter_limit := filter_limit filter
|}.

Definition filter_changes (p : profile) (node later : Node) (index : Z)
  : stateful PollManager Error FilterChanges :=
  let! blk := slift (map_err rpc_error (get_latest_block node)) in
  let! polls := sget in
  match poll index polls with
  | None => slift (Err errors_filter_not_found)
  | Some (BlockFilter number) =>
      let! _ := smodify (poll_write index (BlockFilter (number_u64 blk))) in
      slift (omap_ok HashesChanges (block_hashes later number (number_u64 blk)))
  | Some PendingTransactionFilter => sret (HashesChanges [])
  | Some (LogsFilter block_number filter) =>
      let! next := slift (u64_add p (number_u64 blk) 1) in
      let! _ := smodify (poll_write index (LogsFilter next filter)) in
      slift (omap_ok (fun ls => LogsChanges (limit_logs ls (filter_limit filter)))
               (map_err rpc_error (logs later (logs_filter block_number filter))))
  end.

Definition filter_logs (node : Node) (index : Z) : stateful PollManager Error (list LocalizedLogEntry) :=
  let! polls := sget in
  match poll index polls with
  | Some (LogsFilter _ filter) =>
      slift (omap_ok (fun ls => limit_logs ls (filter_limit filter))
               (map_err rpc_error (logs node filter)))
  | Some _ => sret []
  | None => slift (Err errors_filter_not_found)
  end.

Definition uninstall_filter (index : Z) : stateful PollManager Error bool := fun polls =>
  let '(removed, polls) := remove_poll index polls in
  (Ok removed, polls).

(** ** Specification *)

(** Successive polls of one filter: the nodes at the two moments of each poll,
    and the latest blocks they know. *)
Record moment := { before : Node; seen : Z; after : Node; upto : Z }.

Fixpoint run_polls (p : profile) (index : Z) (ms : list moment) (polls : PollManager)
  : list (outcome Error FilterChanges) :=
  match ms with
  | [] => []
  | m :: ms' =>
      let '(r, polls') := filter_changes p (before m) (after m) index polls in
      r :: run_polls p index ms' polls'
  end.

Definition reported (r : outcome Error FilterChanges) : list LocalizedLogEntry :=
  match r with
  | Ok (LogsChanges ls) => ls
  | _ => []
  end.

(** The blocks the polls of a block filter are asked for, when it is at
    [number] and they see these latest blocks. *)
Fixpoint ranges (number : Z) (seen : list Z) : list (list Z) :=
  match seen with
  | [] => []
  | n :: seen' => seqZ number (n - number + 1) :: ranges n seen'
  end.

(** A poll at which the node serves the blocks up to the latest one. *)
Definition serves_seen (chain : Z -> BlockSnapshot) (m : moment) : Prop :=
  (0 <= seen m)%Z /\ get_latest_block (before m) = Ok (chain (seen m)) /\
  forall r, (0 <= r <= seen m)%Z -> GatewayLib.get_block (after m) r = Ok (Some (chain r)).

(** A node that knows the blocks of [chain] up to [n] and has indexed the
    transactions of [history] in them. *)
Record synced (chain : Z -> BlockSnapshot) (history : list (TransactionSnapshot * list Tag))
    (node : Node) (n : Z) : Prop := {
  synced_latest : get_latest_block node = Ok (chain n);
  synced_block r : (0 <= r)%Z ->
    GatewayLib.get_block node r = Ok (if (r <=? n)%Z then Some (chain r) else None);
  synced_wait : wait_block_indexed node n = Ok tt;
  synced_indexed : indexed node (filter (fun e => entry_round e.1 <= n)%Z history)
}.

(** The chain grows from poll to poll, and possibly during one. *)
Fixpoint growing (chain : Z -> BlockSnapshot) (history : list (TransactionSnapshot * list Tag))
    (lo : Z) (ms : list moment) : Prop :=
  match ms with
  | [] => True
  | m :: ms' =>
      (lo <= seen m <= upto m)%Z /\ (seen m + 1 < u64_modulus)%Z /\
      get_latest_block (before m) = Ok (chain (seen m)) /\
      synced chain history (after m) (upto m) /\
      growing chain history (upto m) ms'
  end.

(** ** Lemmas *)

Section lemmas.
Context {L : EthcoreLaws E} {OL : OasisCoreLaws O} {QL : EthQueriesLaws Q} {DT : DecodersTotal}
  {PML : PollManagerLaws PM}.

Lemma block_hashes_available node chain number latest :
  (forall r, (number <= r <= latest)%Z -> GatewayLib.get_block node r = Ok (Some (chain r))) ->
  block_hashes node number latest =
    Ok ((fun r => block_hash (chain r)) <$> seqZ number (latest - number + 1)).
Proof.
  intros Hb. unfold block_hashes. rewrite (omapM_fmap _ (fun r => block_hash (chain r))); [done|].
  intros r Hr. apply elem_of_seqZ in Hr. unfold get_block_by_round. by rewrite Hb by lia.
Qed.

Lemma filter_changes_block p node later index polls blk number chain :
  get_latest_block node = Ok blk -> poll index polls = Some (BlockFilter number) ->
  (forall r, (number <= r <= number_u64 blk)%Z ->
     GatewayLib.get_block later r = Ok (Some (chain r))) ->
  exists polls', filter_changes p node later index polls =
    (Ok (HashesChanges ((fun r => block_hash (chain r)) <$>
                          seqZ number (number_u64 blk - number + 1))), polls') /\
    poll index polls' = Some (BlockFilter (number_u64 blk)).
Proof.
  intros Hl Hp Hb. unfold filter_changes, sbind, slift, sget, smodify. rewrite Hl. cbn [map_err].
  rewrite Hp. rewrite (block_hashes_available later chain) by done. eexists. split; [done|].
  by eapply poll_write_eq.
Qed.

Lemma run_polls_blocks p index ms polls number chain :
  (forall r, number_u64 (chain r) = r) -> (0 <= number)%Z ->
  poll index polls = Some (BlockFilter number) -> Forall (serves_seen chain) ms ->
  run_polls p index ms polls =
    (fun range => Ok (HashesChanges (block_hash ∘ chain <$> range))) <$> ranges number (seen <$> ms).
Proof.
  intros Hround H0 Hp Hs. revert number polls H0 Hp.
  induction Hs as [|m ms (Hm & Hl & Hb) Hs IH]; intros number polls H0 Hp; [done|].
  destruct (filter_changes_block p (before m) (after m) index polls (chain (seen m)) number chain)
    as (polls' & Hrun & Hp'); [done|done| |].
  { intros r Hr. rewrite Hround in Hr. apply Hb. lia. }
  cbn [run_polls fmap list_fmap ranges]. rewrite Hrun, Hround in *. f_equal.
  by apply IH.
Qed.

(** No block up to the last one seen is left out. *)
Lemma elem_of_ranges number seen k n :
  last seen = Some n -> (number <= k <= n)%Z -> k ∈ concat (ranges number seen).
Proof.
  revert number. induction seen as [|x seen IH]; intros number Hl Hk; [done|].
  cbn [ranges concat]. apply elem_of_app. destruct (decide (k <= x)%Z) as [Hx|Hx].
  { left. apply elem_of_seqZ. lia. }
  right. destruct seen as [|y seen]; [injection Hl as ->; lia|]. apply IH; [done|lia].
Qed.

Section log_polls.
Context (chain : Z -> BlockSnapshot) (history : list (TransactionSnapshot * list Tag)) (f : Filter).
Context (Hround : forall r, number_u64 (chain r) = r) (Hwf : filter_wf f)
  (Hnolimit : filter_limit f = None).

(** One poll reports the logs from the filter's block to the latest one. *)
Lemma filter_changes_logs p m index polls lo n :
  poll index polls = Some (LogsFilter n f) -> growing chain history lo [m] ->
  (0 <= n <= lo + 1)%Z ->
  exists r polls', filter_changes p (before m) (after m) index polls = (r, polls') /\
    poll index polls' = Some (LogsFilter (seen m + 1) f) /\
    reported r ≡ₚ chain_logs f n (upto m) history.
Proof.
  intros Hp ([Hlo Hup] & Hmax & Hseen & Hs & _) Hn.
  unfold filter_changes, sbind, slift, sget, smodify. rewrite Hseen. cbn [map_err].
  rewrite Hp, Hround. unfold u64_add. rewrite (proj2 (Z.ltb_lt _ _)) by done.
  eexists _, _. split; [done|]. split; [by eapply poll_write_eq|].
  pose proof (synced_block _ _ _ _ Hs n) as Hb.
  destruct (decide (n <= upto m)%Z) as [Hle|Hgt].
  - rewrite (proj2 (Z.leb_le _ _)) in Hb by done.
    destruct (logs_answer (after m) (filter (fun e => entry_round e.1 <= upto m)%Z history)
      (logs_filter n f) (chain n) (chain (upto m))) as (found & Hrun & Hfound).
    + by apply synced_indexed with chain.
    + done.
    + simpl. by rewrite Hnolimit.
    + unfold get_block_unwrap. cbn. unfold get_block_by_round. by rewrite Hb by lia.
    + unfold get_block_unwrap. cbn. by rewrite (synced_latest _ _ _ _ Hs).
    + change (round _) with (number_u64 (chain (upto m))). rewrite Hround. apply Hs.
    + rewrite Hrun. cbn [map_err omap_ok reported]. rewrite Hnolimit, limit_logs_none.
      rewrite sort_by_Permutation, Hfound, !Hround, chain_logs_prefix.
      by rewrite (chain_logs_content (logs_filter n f) f).
  - rewrite (proj2 (Z.leb_gt _ _)) in Hb by lia.
    rewrite chain_logs_empty by lia. unfold logs. cbn [logs_filter from_block].
    unfold get_block_unwrap, get_block, get_block_by_round. by rewrite Hb by lia.
Qed.

Lemma run_polls_logs p index ms m polls lo n :
  poll index polls = Some (LogsFilter n f) -> growing chain history lo ms ->
  (0 <= n <= lo + 1)%Z -> last ms = Some m ->
  (seen m <= upto m)%Z /\ (lo <= upto m)%Z /\
  (forall l, l ∈ concat (reported <$> run_polls p index ms polls) <->
     l ∈ chain_logs f n (upto m) history) /\
  (Forall (fun m => seen m = upto m) ms ->
     concat (reported <$> run_polls p index ms polls) ≡ₚ chain_logs f n (upto m) history).
Proof.
  revert polls lo n. induction ms as [|m0 ms IH]; intros polls lo n Hp Hg Hn Hlast; [done|].
  destruct Hg as (Hr & Hmax & Hseen & Hs & Hg).
  destruct (filter_changes_logs p m0 index polls lo n) as (r & polls' & Hrun & Hp' & Hrep);
    [done|done|done|].
  cbn [run_polls]. rewrite Hrun. cbn [fmap list_fmap concat].
  destruct ms as [|m1 ms].
  { injection Hlast as <-. cbn. rewrite app_nil_r. split_and!; [lia|lia| |done].
    intros l. by rewrite Hrep. }
  destruct (IH polls' (upto m0) (seen m0 + 1)%Z) as (Hsu & Hlo & Hin & Hq); [done|done|lia|done|].
  split_and!; [done|lia| |].
  - intros l. rewrite elem_of_app, Hin, Hrep, !elem_of_chain_logs. split.
    + intros [(? & e & ? & ? & ?)|(? & e & ? & ? & ?)]; (split; [done|]); exists e;
        split_and!; done || lia.
    + intros (Hm & e & He & Hre & Hl). destruct (decide (entry_round e.1 <= seen m0)%Z); [left|right];
        (split; [done|]); exists e; split_and!; done || lia.
  - intros Hquiet. apply Forall_cons in Hquiet as [Hq0 Hquiet].
    rewrite (Hq Hquiet), Hrep, <- Hq0, (chain_logs_split f n (seen m0 + 1) (upto m)); [|lia].
    by replace (seen m0 + 1 - 1)%Z with (seen m0) by lia.
Qed.

End log_polls.

(** ** Properties *)

(** C33. Polling a block filter: whatever latest blocks the polls see, the first
    reports the blocks after the one the filter was installed at, and every
    later one the blocks from the last one of the poll before it, which it
    repeats, up to the latest one; so every block up to the last one seen is
    reported, and a poll without new blocks reports the last block again,
    right after the installation the very block the filter was to exclude. *)
Theorem block_filter_repeats_last p node n polls id polls0 ms chain :
  (forall r, number_u64 (chain r) = r) -> (0 <= n)%Z -> (n + 1 < u64_modulus)%Z ->
  get_latest_block node = Ok (chain n) ->
  new_block_filter p node polls = (Ok id, polls0) -> Forall (serves_seen chain) ms ->
  let reports := ranges (n + 1) (seen <$> ms) in
  run_polls p id ms polls0 =
    (fun range => Ok (HashesChanges (block_hash ∘ chain <$> range))) <$> reports /\
  forall m k, last ms = Some m -> (n < k <= seen m)%Z -> k ∈ concat reports.
Proof.
  intros Hround H0 Hmax Hl Hnew Hs reports.
  assert (poll id polls0 = Some (BlockFilter (n + 1))) as Hp.
  { unfold new_block_filter, sbind, slift in Hnew. rewrite Hl in Hnew. cbn [map_err] in Hnew.
    unfold u64_add in Hnew. rewrite Hround in Hnew. rewrite (proj2 (Z.ltb_lt _ _)) in Hnew by done.
    destruct (create_poll _ polls) as [i pm] eqn:Hc. injection Hnew as <- <-.
    by eapply poll_create. }
  split; [apply run_polls_blocks; [done|lia|done|done]|].
  intros m k Hlast Hk. apply (elem_of_ranges _ _ _ (seen m)); [|lia].
  rewrite fmap_last, Hlast. done.
Qed.

(** A poll of a log filter sets the next range to start after the latest
    block, whatever comes of it: the logs of a poll whose query fails are not
    reported by a later one.  A poll without a new block then looks up the
    block after the latest one and fails. *)
Theorem log_filter_idle_poll_fails p node later index polls blk number filter r polls1 :
  get_latest_block node = Ok blk -> (number_u64 blk + 1 < u64_modulus)%Z ->
  GatewayLib.get_block later (number_u64 blk + 1) = Ok None ->
  poll index polls = Some (LogsFilter number filter) ->
  filter_changes p node later index polls = (r, polls1) ->
  poll index polls1 = Some (LogsFilter (number_u64 blk + 1) filter) /\
  (filter_changes p node later index polls1).1 = Err (jsonrpc_error "block not found").
Proof.
  intros Hl Hmax Hnone Hp Hrun. unfold filter_changes, sbind, slift, sget, smodify in *.
  rewrite Hl in *. cbn [map_err] in *. rewrite Hp in Hrun.
  unfold u64_add in *. rewrite (proj2 (Z.ltb_lt _ _)) in * by done.
  injection Hrun as _ <-. rewrite (poll_write_eq _ _ _ _ Hp). split; [done|]. cbn [fst].
  unfold logs. cbn [logs_filter from_block]. unfold get_block_unwrap, get_block, get_block_by_round.
  rewrite Hnone. done.
Qed.

(** Polling a log filter loses no log and invents none: from its
    installation at block [b], the polls together report exactly the matching
    logs of the blocks from [b] to the latest block of the last poll, also
    when a poll without a new block fails, and when blocks appear while a
    poll is under way.  Each of them is reported once if no block does. *)
Theorem log_polls_complete chain history f p node0 b polls id polls0 ms m :
  (forall r, number_u64 (chain r) = r) -> filter_wf f -> filter_limit f = None ->
  (0 <= b)%Z -> get_latest_block node0 = Ok (chain b) ->
  new_filter node0 f polls = (Ok id, polls0) ->
  growing chain history b ms -> last ms = Some m ->
  let all := concat (reported <$> run_polls p id ms polls0) in
  (forall l, l ∈ all <-> l ∈ chain_logs f b (upto m) history) /\
  (Forall (fun m => seen m = upto m) ms -> all ≡ₚ chain_logs f b (upto m) history).
Proof.
  intros Hround Hwf Hnl HL Hlatest Hnew Hg Hlast all.
  assert (poll id polls0 = Some (LogsFilter b f)) as Hp.
  { unfold new_filter in Hnew. rewrite Hlatest in Hnew. cbn [map_err] in Hnew.
    rewrite Hround in Hnew. destruct (create_poll _ polls) as [i pm] eqn:Hc.
    injection Hnew as <- <-. by eapply poll_create. }
  destruct (run_polls_logs chain history f Hround Hwf Hnl p id ms m polls0 b b)
    as (_ & _ & Hin & Hq); [done|done|lia|done|].
  by split.
Qed.

End lemmas.
End eth_filter.

(** ** Witnesses *)

Module PollModel.

(** Filters that never expire, numbered from 0. *)
#[local] Instance ops : PollManagerOps := {|
  PollManager := list (option PollFilter);
  create_poll := fun f pm => (len pm, pm ++ [Some f]);
  poll := fun id pm => default None (pm !! Z.to_nat id);
  poll_write := fun id f pm => <[Z.to_nat id := Some f]> pm;
  remove_poll := fun id pm =>
    (bool_decide (is_Some (default None (pm !! Z.to_nat id))), <[Z.to_nat id := None]> pm);
  limit_logs := fun ls l =>
    match l with Some n => drop (length ls - Z.to_nat n) ls | None => ls end
|}.

#[local] Instance laws : PollManagerLaws ops.
Proof.
  constructor; simpl.
  - intros f pm id pm' [= <- <-]. unfold len. rewrite Nat2Z.id, lookup_app_r by done.
    by rewrite Nat.sub_diag.
  - intros id f g pm Hp. destruct (pm !! Z.to_nat id) eqn:Hi; [|done].
    rewrite list_lookup_insert_eq; [done|]. by eapply lookup_lt_Some.
  - done.
Qed.

End PollModel.

Module Witness.
#[local] Existing Instance Model.ops.
#[local] Existing Instance EthModel.ops.
#[local] Existing Instance OasisModel.ops.
#[local] Existing Instance QueryModel.ops.
#[local] Existing Instance RpcModel.ops.
#[local] Existing Instance PollModel.ops.
#[local] Existing Instance PollModel.laws.
#[local] Existing Instance EthModel.laws.
#[local] Existing Instance OasisModel.laws.
#[local] Existing Instance QueryModel.laws.
#[local] Existing Instance Translator.Witness.model_decoders.

(** The manager's state with the given filters. *)
Definition installed (fs : list PollFilter) : @PollManager PollModel.ops := Some <$> fs.

Definition block := Translator.Witness.block.

(** A node whose latest block is [n] and that serves every block below [m]. *)
Definition node_at (n m : Z) : Node := {|
  GatewayLib.get_latest_block := Ok (block n);
  GatewayLib.get_block := fun r => Ok (if (r <? m)%Z then Some (block r) else None);
  GatewayLib.get_block_by_hash := fun _ => Ok None;
  get_tx := fun _ _ => Ok None;
  get_tx_by_block_hash := fun _ _ => Ok None;
  get_txs := fun _ _ => Ok [];
  query_tx := fun _ _ => Ok None;
  query_txs := fun _ => Ok [];
  wait_block_indexed := fun _ => Ok tt;
  ROUND_LATEST := 0
|}.

(** Every block of the chain, at any round. *)
Definition full_node (n : Z) : Node := {|
  GatewayLib.get_latest_block := Ok (block n);
  GatewayLib.get_block := fun r => Ok (Some (block r));
  GatewayLib.get_block_by_hash := fun _ => Ok None;
  get_tx := fun _ _ => Ok None;
  get_tx_by_block_hash := fun _ _ => Ok None;
  get_txs := fun _ _ => Ok [];
  query_tx := fun _ _ => Ok None;
  query_txs := fun _ => Ok [];
  wait_block_indexed := fun _ => Ok tt;
  ROUND_LATEST := 0
|}.

(** Installed at block 5, polled twice with nothing new, at block 7, and again:
    the second poll reports block 5, and the last one block 7. *)
Definition block_polls : list moment :=
  (fun n => {| before := full_node n; seen := n; after := full_node n; upto := n |}) <$>
    [5; 5; 7; 7]%Z.

Lemma block_filter_repeats_last_witness :
  run_polls Release 0 block_polls (installed [BlockFilter 6]) =
    (fun hashes => Ok (HashesChanges ((fun n => [byte_of_Z n]) <$> hashes))) <$>
      [[]; [5]; [5; 6; 7]; [7]]%Z /\
  7%Z ∈ concat (ranges 6 [5; 5; 7; 7]%Z).
Proof.
  destruct (block_filter_repeats_last Release (full_node 5) 5 (installed []) 0
    (installed [BlockFilter 6]) block_polls block) as [Hrun Hall].
  - reflexivity.
  - lia.
  - vm_compute. reflexivity.
  - reflexivity.
  - reflexivity.
  - repeat apply Forall_cons_2; try apply Forall_nil_2; (split; [vm_compute; discriminate|]);
      (split; [reflexivity|]); intros r _; reflexivity.
  - split; [exact Hrun|]. eapply Hall; [reflexivity|vm_compute; done].
Defined.

Definition any_log : Filter := {|
  from_block := Latest; to_block := Latest; filter_address := None; filter_topics := [];
  filter_limit := None |}.

Lemma log_filter_idle_poll_fails_witness :
  (filter_changes Release (node_at 5 6) (node_at 5 6) 0 (installed [LogsFilter 5 any_log])).1 =
    Ok (LogsChanges []) /\
  (filter_changes Release (node_at 5 6) (node_at 5 6) 0 (installed [LogsFilter 6 any_log])).1 =
    Err (jsonrpc_error "block not found").
Proof.
  split; [vm_compute; reflexivity|].
  apply (log_filter_idle_poll_fails Release (node_at 5 6) (node_at 5 6) 0
    (installed [LogsFilter 5 any_log]) (block 5) 5 any_log (Ok (LogsChanges []))
    (installed [LogsFilter 6 any_log])).
  - reflexivity.
  - vm_compute. reflexivity.
  - reflexivity.
  - reflexivity.
  - vm_compute. reflexivity.
Defined.

(** A node that knows the chain of [Translator.Witness.history] up to [n]. *)
Definition synced_node (n : Z) : Node := {|
  GatewayLib.get_latest_block := Ok (block n);
  GatewayLib.get_block := fun r => Ok (if (r <=? n)%Z then Some (block r) else None);
  GatewayLib.get_block_by_hash := fun _ => Ok None;
  get_tx := fun _ _ => Ok None;
  get_tx_by_block_hash := fun _ _ => Ok None;
  get_txs := fun _ _ => Ok [];
  query_tx := fun _ _ => Ok None;
  query_txs := fun q => Ok (filter (fun e => selected q e = true)
    (filter (fun e => entry_round e.1 <= n)%Z Translator.Witness.history)).*1;
  wait_block_indexed := fun _ => Ok tt;
  ROUND_LATEST := 0
|}.

Lemma synced_node_ok n : synced block Translator.Witness.history (synced_node n) n.
Proof.
  constructor; [done|done|done|]. constructor.
  - intros q _. eexists. split; [reflexivity|done].
  - intros t tags Hin. apply list_elem_of_filter in Hin as [_ Hin].
    by eapply indexed_emitted; [apply Translator.Witness.node_indexed|].
Qed.

Definition poll_at (n : Z) : moment :=
  {| before := synced_node n; seen := n; after := synced_node n; upto := n |}.

(** Installed at block 1 and polled at blocks 2, 2 and 3: the idle poll
    fails, and the three logs are reported once each. *)
Lemma log_polls_complete_witness :
  concat (reported <$> run_polls Release 0 (poll_at <$> [2; 2; 3]%Z)
                         (installed [LogsFilter 1 any_log])) ≡ₚ
    chain_logs any_log 1 3 Translator.Witness.history /\
  length (chain_logs any_log 1 3 Translator.Witness.history) = 3.
Proof.
  split; [|vm_compute; reflexivity].
  apply (log_polls_complete block Translator.Witness.history any_log Release (synced_node 1) 1
    (installed []) 0 (installed [LogsFilter 1 any_log]) (poll_at <$> [2; 2; 3]%Z) (poll_at 3)).
  - reflexivity.
  - split; [done|]. intros [|i] ts Hi; done.
  - reflexivity.
  - lia.
  - reflexivity.
  - reflexivity.
  - simpl. split_and!; try apply synced_node_ok; try lia; done.
  - reflexivity.
  - by repeat constructor.
Defined.

End Witness.
