(* ===== verification/EthRpc.v ===== *)
(** * The RPC methods ([gateway/src/impls/{eth,eth_signing,net,oasis,web3}.rs])

    One definition per method of the [eth], [eth_signing], [net], [oasis] and
    [web3] APIs, over the translator.  What a method counts and times is in
    [Metrics].  The optional block number of a method is an [option],
    defaulting to the latest block. *)

From Stdlib Require Import ZArith Lia Strings.Byte.
From stdpp Require Import base numbers gmap strings option list.
From S2P Require Import Prelude Crypto Api OasisCore Ethcore Methods JsonRpc GatewayLib Translator.

(** [parity_rpc]'s helpers: [fake_sign::sign_call], the error constructors
    these methods use, and conversions of its types. *)
Class RpcHelpers {M : Mrae} {E : Ethcore} := {
  CallRequest : Type;
  sign_call : CallRequest -> bool -> outcome Error SignedTransaction;
  errors_call : CallError -> Error;
  errors_vm : string -> bytes -> Error;
  errors_unsupported : string -> Error;
  display_call_error : CallError -> string;
  h256_from_u256 : U256 -> H256
}.

Section eth_rpc.
Context {M : Mrae} {E : Ethcore} {O : OasisCore} {Q : EthQueries} {P : ParityRpc} {H : RpcHelpers}.

(** [.map_err(jsonrpc_error)] *)
Definition rpc {A} (m : outcome AnyError A) : outcome Error A :=
  map_err (fun err => jsonrpc_error (display_any_error err)) m.

Definition at_block (num : option BlockNumber) : BlockId :=
  block_number_to_id (default LatestBlock num).

(** [Option::transpose] after a [map]. *)
Definition traverse {A B} (f : A -> outcome AnyError B) (o : option A)
  : outcome AnyError (option B) := option_traverse f o.

(** [index.value() as u32] *)
Definition as_u32 (index : Z) : Z := index mod 2 ^ 32.

(** ** [eth.rs] *)

Definition protocol_version : outcome Error string := Ok "63"%string.
Definition syncing : outcome Error bool := Ok false.
Definition author : outcome Error Address := Ok Address_default.
Definition is_mining : outcome Error bool := Ok true.
Definition hashrate : outcome Error U256 := Ok 0%Z.
Definition gas_price (translator_gas_price : U256) : outcome Error U256 := Ok translator_gas_price.
Definition accounts : outcome Error (list Address) := Ok [].

Definition block_number (node : Node) : outcome Error U256 :=
  rpc (omap_ok Translator.number (get_latest_block node)).

Definition balance (node : Node) (address : Address) (num : option BlockNumber)
  : outcome Error U256 :=
  rpc (let? blk := get_block_unwrap node (at_block num) in
       let? state := block_state blk in
       state_balance state address).

Definition storage_at (node : Node) (address : Address) (pos : U256) (num : option BlockNumber)
  : outcome Error H256 :=
  rpc (let? blk := get_block_unwrap node (at_block num) in
       let? state := block_state blk in
       state_storage_at state address (h256_from_u256 pos)).

Definition transaction_count (node : Node) (address : Address) (num : option BlockNumber)
  : outcome Error U256 :=
  rpc (let? blk := get_block_unwrap node (at_block num) in
       let? state := block_state blk in
       state_nonce state address).

(** The number of raw transactions, of a block that exists. *)
Definition count_of (node : Node) (blk : option BlockSnapshot) : outcome AnyError (option Z) :=
  match blk with
  | Some blk => omap_ok (fun txns => Some (len txns)) (raw_transactions node blk)
  | None => Ok None
  end.

Definition block_transaction_count_by_hash (node : Node) (hash : H256)
  : outcome Error (option U256) :=
  rpc (let? blk := get_block_by_hash node hash in count_of node blk).

Definition block_transaction_count_by_number (node : Node) (num : BlockNumber)
  : outcome Error (option U256) :=
  match num with
  | PendingBlock => Ok (Some 0%Z)
  | _ => rpc (let? blk := get_block node (block_number_to_id num) in count_of node blk)
  end.

Definition block_uncles_count_by_hash (hash : H256) : outcome Error (option U256) := Ok None.
Definition block_uncles_count_by_number (num : BlockNumber) : outcome Error (option U256) := Ok None.

Definition code_at (node : Node) (address : Address) (num : option BlockNumber)
  : outcome Error bytes :=
  rpc (let? blk := get_block_unwrap node (at_block num) in
       let? state := block_state blk in
       let? code := state_code state address in
       Ok (default [] code)).

Definition block_of (node : Node) (include_txs : bool) (blk : option BlockSnapshot)
  : outcome AnyError (option RichBlock) :=
  match blk with
  | Some blk => omap_ok Some (rich_block node include_txs blk)
  | None => Ok None
  end.

Definition block_by_hash (node : Node) (hash : H256) (include_txs : bool)
  : outcome Error (option RichBlock) :=
  rpc (let? blk := get_block_by_hash node hash in block_of node include_txs blk).

Definition block_by_number (node : Node) (num : BlockNumber) (include_txs : bool)
  : outcome Error (option RichBlock) :=
  rpc (let? blk := get_block node (block_number_to_id num) in block_of node include_txs blk).

(** [Ok(RpcTransaction::from_localized(txn.transaction()?))]. *)
Definition shown (txn : TransactionSnapshot) : outcome AnyError RpcTransaction :=
  let? lt := transaction txn in
  rpc_transaction lt.

Definition transaction_by_hash (node : Node) (hash : H256)
  : outcome Error (option RpcTransaction) :=
  rpc (let? txn := get_txn_by_hash node hash in traverse shown txn).

Definition transaction_by_block_hash_and_index (node : Node) (hash : H256) (index : Z)
  : outcome Error (option RpcTransaction) :=
  rpc (let? txn := get_txn_by_block_hash_and_index node hash (as_u32 index) in
       traverse shown txn).

Definition transaction_by_block_number_and_index (node : Node) (num : BlockNumber) (index : Z)
  : outcome Error (option RpcTransaction) :=
  match num with
  | PendingBlock => Ok None
  | _ => rpc (let? txn := get_txn node (block_number_to_id num) (as_u32 index) in
              traverse shown txn)
  end.

Definition transaction_receipt (node : Node) (hash : H256) : outcome Error (option LocalizedReceipt) :=
  rpc (let? txn := get_txn_by_hash node hash in traverse receipt txn).

Definition uncle_by_block_hash_and_index (hash : H256) (index : Z)
  : outcome Error (option RichBlock) := Ok None.
Definition uncle_by_block_number_and_index (num : BlockNumber) (index : Z)
  : outcome Error (option RichBlock) := Ok None.

Definition compilers : outcome Error (list string) :=
  Err (errors_deprecated "Compilation functionality is deprecated.").

Definition eth_logs (node : Node) (filter : Filter) : outcome Error (list LocalizedLogEntry) :=
  rpc (logs node filter).

Definition work : outcome Error unit := Err errors_unimplemented.
Definition submit_work : outcome Error bool := Err errors_unimplemented.
Definition submit_hashrate : outcome Error bool := Err errors_unimplemented.

(** With the number of submissions made. *)
Definition eth_send_raw_transaction (client_tx : nat -> outcome AnyError ExecutionResult) (raw : bytes)
  : outcome Error H256 * nat :=
  let '(r, n) := send_raw_transaction client_tx raw in
  (map_err (fun err => execution_error (display_any_error err)) (omap_ok fst r), n).

Definition submit_transaction (client_tx : nat -> outcome AnyError ExecutionResult) (raw : bytes)
  : outcome Error H256 * nat := eth_send_raw_transaction client_tx raw.

Definition call (p : profile) (node : Node) (is_dapp : bool) (request : CallRequest)
    (num : option BlockNumber) : outcome Error bytes :=
  let? signed := sign_call request is_dapp in
  let? executed := map_err errors_call (simulate_transaction p node signed (at_block num)) in
  match exception executed with
  | Some e => Err (errors_vm e (executed_output executed))
  | None => Ok (executed_output executed)
  end.

Definition eth_estimate_gas (p : profile) (node : Node) (is_dapp : bool) (request : CallRequest)
    (num : option BlockNumber) : outcome Error U256 :=
  let? signed := sign_call request is_dapp in
  map_err (fun err => execution_error (display_call_error err))
    (estimate_gas p node signed (at_block num)).

Definition compile_lll : outcome Error bytes :=
  Err (errors_deprecated "Compilation of LLL via RPC is deprecated").
Definition compile_serpent : outcome Error bytes :=
  Err (errors_deprecated "Compilation of Serpent via RPC is deprecated").
Definition compile_solidity : outcome Error bytes :=
  Err (errors_deprecated "Compilation of Solidity via RPC is deprecated").

(** ** [eth_signing.rs] *)

Definition cannot_sign (method : string) : Error :=
  errors_unsupported (method +:+ " is not implemented because the gateway cannot sign transactions. Make sure that the wallet is setup correctly in the client in case transaction signing is expected to happen transparently").

Definition sign : outcome Error bytes := Err (cannot_sign "eth_sign").
Definition send_transaction : outcome Error H256 := Err (cannot_sign "eth_sendTransaction").
Definition sign_transaction : outcome Error bytes := Err (cannot_sign "eth_signTransaction").

(** ** [net.rs], [web3.rs] *)

(** [0xa515], in decimal. *)
Definition net_version : outcome Error string := Ok "42261"%string.
Definition peer_count : outcome Error string := Ok "0x0"%string.
Definition is_listening : outcome Error bool := Ok true.

(** The package's name, version and revision are set by the build. *)
Definition client_version (pkg_name pkg_version git_rev : string) : outcome Error string :=
  Ok ("oasis/" +:+ pkg_name +:+ "/" +:+ pkg_version +:+ "/" +:+ git_rev)%string.
Definition sha3 (data : bytes) : outcome Error H256 := Ok (keccak data).

(** ** [oasis.rs] *)

Record RpcPublicKeyPayload := {
  payload_public_key : bytes;
  payload_checksum : bytes;
  payload_signature : bytes
}.

(** The key manager is asked for the keys of the contract's address. *)
Definition oasis_public_key
    (km_get_public_key : bytes -> outcome string (option RpcPublicKeyPayload))
    (display_address : Address -> string) (contract : Address)
  : outcome Error (option RpcPublicKeyPayload) :=
  map_err (fun err => errors_invalid_params (display_address contract) err)
    (km_get_public_key (keccak contract)).

Definition get_expiry (node : Node) (address : Address) (num : option BlockNumber)
  : outcome Error Z :=
  rpc (let? blk := get_block_unwrap node (at_block num) in
       let? state := block_state blk in
       state_storage_expiry state address).

Record RpcExecutionPayload := {
  payload_transaction_hash : H256;
  payload_status_code : Z;
  payload_output : bytes
}.

Definition invoke (client_tx : nat -> outcome AnyError ExecutionResult) (raw : bytes)
  : outcome Error RpcExecutionPayload * nat :=
  let '(r, n) := send_raw_transaction client_tx raw in
  (omap_ok (fun hr => {|
       payload_transaction_hash := hr.1;
       payload_status_code := status_code hr.2;
       payload_output := output hr.2 |})
     (map_err (fun err => execution_error (display_any_error err)) r), n).

(** ** Lemmas *)

Section lemmas.
Context {L : EthcoreLaws E} {DT : DecodersTotal}.

(** The calls to the Ethereum method among a block's raw transactions. *)
Definition tx_call (raw : bytes) : option (TxnCall Value) :=
  match call_from_slice raw with
  | Ok call => if bool_decide (method call <> METHOD_TX) then None else Some call
  | _ => None
  end.

Lemma raw_transactions_eq node b raws :
  get_txs node (round (block_header b)) (io_root (block_header b)) = Ok raws ->
  raw_transactions node b = Ok (omap tx_call raws).
Proof.
  intros Hraws. unfold raw_transactions. rewrite Hraws. cbn [obind].
  rewrite (omapM_fmap _ tx_call).
  - cbn [obind]. by rewrite omap_id_fmap.
  - intros raw _. unfold tx_call. pose proof (call_from_slice_total raw).
    by destruct (call_from_slice raw).
Qed.

Lemma eth_txn_call raw : is_Some (eth_txn raw) -> is_Some (tx_call raw).
Proof.
  unfold eth_txn, tx_call. intros [u Hu]. destruct (call_from_slice raw) as [call| |]; [|done|done].
  case_bool_decide; [done|by eexists].
Qed.

Lemma length_omap_sub {A B C} (f : A -> option B) (g : A -> option C) l :
  (forall a, is_Some (f a) -> is_Some (g a)) ->
  length (omap f l) <= length (omap g l) /\
  (length (omap f l) = length (omap g l) <->
   forall a, a ∈ l -> is_Some (g a) -> is_Some (f a)).
Proof.
  intros Hfg. induction l as [|a l [IHle IH]]; cbn [omap list_omap].
  { split; [done|]. split; [|done]. intros _ a Ha. by apply elem_of_nil in Ha. }
  pose proof (Hfg a) as Ha. destruct (f a) as [b|] eqn:Hf.
  - destruct Ha as [c Hc]; [by eexists|]. rewrite Hc. simpl in *. split; [lia|].
    rewrite Nat.succ_inj_wd, IH. split.
    + intros Hall x [->|Hx]%elem_of_cons Hg; [by rewrite Hf; eexists|by apply Hall].
    + intros Hall x Hx. apply Hall. by right.
  - destruct (g a) as [c|] eqn:Hg; simpl in *.
    + split; [lia|]. split; [lia|]. intros Hall.
      destruct (Hall a) as [? Hb]; [by left|by rewrite Hg; eexists|]. by rewrite Hf in Hb.
    + split; [done|]. rewrite IH. split.
      * intros Hall x [->|Hx]%elem_of_cons Hx'; [rewrite Hg in Hx'; by destruct Hx'|by apply Hall].
      * intros Hall x Hx. apply Hall. by right.
Qed.

(** ** Properties *)

(** The transaction count of a block and its transaction list can differ:
    the count includes every call of the Ethereum method, the list only those
    that carry a decodable transaction, so the count is at least the list's
    length and equal to it exactly when every such call decodes. *)
Theorem count_bounds_list node hash b raws :
  get_block_by_hash node hash = Ok (Some b) ->
  get_txs node (round (block_header b)) (io_root (block_header b)) = Ok raws ->
  exists n rb hs,
    block_transaction_count_by_hash node hash = Ok (Some n) /\
    block_by_hash node hash false = Ok (Some rb) /\ transactions_of rb = Hashes hs /\
    (len hs <= n)%Z /\
    (len hs = n <-> forall raw, raw ∈ raws -> is_Some (tx_call raw) -> is_Some (eth_txn raw)).
Proof.
  intros Hb Hraws. exists (len (omap tx_call raws)). eexists _, _. split_and!.
  - unfold block_transaction_count_by_hash. rewrite Hb. cbn [obind count_of].
    by rewrite (raw_transactions_eq node b raws Hraws).
  - unfold block_by_hash. rewrite Hb. cbn [obind block_of]. unfold rich_block.
    by rewrite (transactions_eq node b raws Hraws).
  - reflexivity.
  - unfold len. rewrite length_fmap. apply Nat2Z.inj_le.
    apply (length_omap_sub eth_txn tx_call raws eth_txn_call).
  - unfold len. rewrite length_fmap, Nat2Z.inj_iff.
    apply (length_omap_sub eth_txn tx_call raws eth_txn_call).
Qed.

(** Transaction indices wrap around at 2^32: a lookup by block and index
    truncates the index, so an index far beyond the end of the block answers
    with the transaction at the index modulo 2^32. *)
Theorem transaction_index_wraps node hash num index k :
  (0 <= index)%Z -> (0 <= k)%Z ->
  transaction_by_block_number_and_index node num (index + k * 2 ^ 32) =
    transaction_by_block_number_and_index node num index /\
  transaction_by_block_hash_and_index node hash (index + k * 2 ^ 32) =
    transaction_by_block_hash_and_index node hash index.
Proof.
  intros Hi Hk. unfold transaction_by_block_number_and_index, transaction_by_block_hash_and_index.
  unfold as_u32. by rewrite Z_mod_plus_full.
Qed.

(** [eth_call] reports a failed execution, [eth_estimateGas] does not:
    for the same simulated execution, the call fails with the exception when
    there is one and returns the output otherwise, while the estimate is the
    gas used plus the gas refunded in both cases. *)
Theorem estimate_ignores_exception p node is_dapp request num signed executed :
  sign_call request is_dapp = Ok signed ->
  simulate_transaction p node signed (at_block num) = Ok executed ->
  (0 <= executed_gas_used executed)%Z -> (0 <= refunded executed)%Z ->
  (executed_gas_used executed + refunded executed < u256_modulus)%Z ->
  call p node is_dapp request num =
    match exception executed with
    | Some e => Err (errors_vm e (executed_output executed))
    | None => Ok (executed_output executed)
    end /\
  eth_estimate_gas p node is_dapp request num =
    Ok (executed_gas_used executed + refunded executed)%Z.
Proof.
  intros Hs Hsim H1 H2 H3. unfold call, eth_estimate_gas, estimate_gas. rewrite Hs.
  cbn [obind]. rewrite Hsim. cbn [map_err obind]. split; [done|].
  by rewrite u256_add_exact by done.
Qed.

End lemmas.
End eth_rpc.

(** ** Witnesses *)

Module RpcHelpersModel.

Section model.
Context {M : Mrae}.
#[local] Existing Instance EthModel.ops.

#[local] Instance ops : @RpcHelpers M EthModel.ops := {|
  CallRequest := bytes;
  sign_call := fun b _ => Ok (EthModel.tx_of (default x00 (head b)) 21000 0);
  errors_call := fun _ => jsonrpc_error "call";
  errors_vm := fun m _ => jsonrpc_error m;
  errors_unsupported := jsonrpc_error;
  display_call_error := fun _ => "call error"%string;
  h256_from_u256 := fun z => rev (to_le_bytes 32 z)
|}.

End model.
End RpcHelpersModel.

Module Witness.
#[local] Existing Instance Model.ops.
#[local] Existing Instance EthModel.ops.
#[local] Existing Instance EthModel.laws.
#[local] Existing Instance OasisModel.ops.
#[local] Existing Instance QueryModel.ops.
#[local] Existing Instance RpcModel.ops.
#[local] Existing Instance RpcHelpersModel.ops.
#[local] Existing Instance Translator.Witness.model_decoders.

Definition block := Translator.Witness.block.

(** A block with a transaction that does not decode and one that does. *)
Definition raws : list bytes :=
  [x02 :: str "tx"; x02 :: str "tx" ++ Methods.Witness.raw x01 1 30000].

Definition node : Node := {|
  GatewayLib.get_latest_block := Ok (block 3);
  GatewayLib.get_block := fun n => Ok (Some (block n));
  GatewayLib.get_block_by_hash := fun _ => Ok (Some (block 3));
  get_tx := fun n i => Ok (if (i =? 1)%Z then Some (Translator.Witness.snapshot n i x01) else None);
  get_tx_by_block_hash := fun _ _ => Ok None;
  get_txs := fun _ _ => Ok raws;
  query_tx := fun _ _ => Ok None;
  query_txs := fun _ => Ok [];
  wait_block_indexed := fun _ => Ok tt;
  ROUND_LATEST := 0
|}.

Lemma count_bounds_list_witness :
  exists n rb hs, block_transaction_count_by_hash node [] = Ok (Some n) /\
    block_by_hash node [] false = Ok (Some rb) /\ transactions_of rb = Hashes hs /\
    (len hs < n)%Z.
Proof.
  destruct (count_bounds_list node [] (block 3) raws) as (n & rb & hs & Hn & Hrb & Hhs & Hle & Hiff).
  - reflexivity.
  - reflexivity.
  - exists n, rb, hs. split_and!; [exact Hn|exact Hrb|exact Hhs|].
    assert (len hs <> n); [|lia]. intros [u Hu]%(fun H => proj1 Hiff H (x02 :: str "tx")).
    + vm_compute in Hu. discriminate.
    + by left.
    + eexists. reflexivity.
Defined.

Lemma transaction_index_wraps_witness :
  (exists t, transaction_by_block_number_and_index node LatestBlock 4294967297 = Ok (Some t)).
Proof.
  destruct (transaction_index_wraps node [] LatestBlock 1 1) as [Heq _]; [lia|lia|].
  eexists. transitivity (transaction_by_block_number_and_index node LatestBlock 1).
  - exact Heq.
  - reflexivity.
Defined.

Definition request : @CallRequest _ _ RpcHelpersModel.ops := [x01].

Lemma estimate_ignores_exception_witness :
  call Release node false request None = Ok [x01] /\
  eth_estimate_gas Release node false request None = Ok 21000%Z.
Proof.
  apply (estimate_ignores_exception Release node false request None (EthModel.tx_of x01 21000 0)
    {| executed_gas_used := 21000; refunded := 0; executed_output := [x01]; exception := None |}).
  - reflexivity.
  - reflexivity.
  - simpl. lia.
  - simpl. lia.
  - vm_compute. reflexivity.
Defined.

End Witness.
