(* ===== verification/LogLimits.v ===== *)
(** * Log queries with a limit

    A filter's limit goes into the node's query ([Translator.logs_query]), so
    it bounds the transactions the node answers with, before the filter is
    applied to the logs of each.  [limits] is what a node promises of such a
    query, [limited_logs] what [eth_getLogs] then answers, and the examples
    how that differs from a limit on logs. *)

From Stdlib Require Import ZArith Lia Strings.Byte Sorted.
From stdpp Require Import base numbers gmap strings option sorting list.
From S2P Require Import Prelude Crypto Api OasisCore Ethcore Methods JsonRpc GatewayLib Translator EthRpc.

Section limits.
Context {M : Mrae} {E : Ethcore} {O : OasisCore} {Q : EthQueries} {P : ParityRpc}.

Definition selection (q : Query) (history : list (TransactionSnapshot * list Tag))
  : list TransactionSnapshot := (filter (fun e => selected q e = true) history).*1.

(** A node that has indexed [history] answers with selected transactions, each
    once, at most as many as a limit other than 0 says, and with all of them
    if they are not more. *)
Record limits (node : Node) (history : list (TransactionSnapshot * list Tag)) : Prop := {
  limits_query q : (0 <= limit q)%Z -> exists txs, query_txs node q = Ok txs /\
    txs ⊆+ selection q history /\
    (limit q <> 0%Z -> (len txs <= limit q)%Z) /\
    (limit q = 0%Z \/ (len (selection q history) <= limit q)%Z -> txs ≡ₚ selection q history);
  limits_emitted t tags : (t, tags) ∈ history -> emitted t tags
}.

(** ** Lemmas *)

Section lemmas.
Context {L : EthcoreLaws E} {OL : OasisCoreLaws O} {QL : EthQueriesLaws Q} {DT : DecodersTotal}.

Lemma concat_fmap_submseteq {A B} (g : A -> list B) (l k : list A) :
  l ⊆+ k -> concat (g <$> l) ⊆+ concat (g <$> k).
Proof.
  intros [m ->]%submseteq_Permutation. rewrite fmap_app, concat_app. by apply submseteq_inserts_r.
Qed.

(** The matching logs of all selected transactions are those of the range. *)
Lemma selection_logs f from to history :
  filter_wf f -> (forall t tags, (t, tags) ∈ history -> emitted t tags) ->
  concat ((fun t => matching f (entry_logs t)) <$> selection (logs_query f from to) history) =
  chain_logs f (number_u64 from) (number_u64 to) history.
Proof. intros Hwf Hem. by apply (selected_matching f (logs_query f from to)). Qed.

(** ** Properties *)

(** C31. A limited log query: whatever the limit, [eth_getLogs] answers, in
    the order of their blocks, with matching logs of the range only, none more
    often than it was emitted; they come from at most as many transactions as
    the limit says, a limit of 0 being none, and are all the matching logs if
    the range has no more transactions the query selects. *)
Theorem limited_logs node history f from to :
  limits node history -> filter_wf f -> (0 <= default 0 (filter_limit f))%Z ->
  get_block_unwrap node (from_block f) = Ok from ->
  get_block_unwrap node (to_block f) = Ok to ->
  wait_block_indexed node (round (block_header to)) = Ok tt ->
  exists ls txs, eth_logs node f = Ok ls /\
    Sorted (fun a b => log_block_number a <= log_block_number b)%Z ls /\
    ls ⊆+ chain_logs f (number_u64 from) (number_u64 to) history /\
    txs ⊆+ selection (logs_query f from to) history /\
    ls ≡ₚ concat ((fun t => matching f (entry_logs t)) <$> txs) /\
    let n := default 0%Z (filter_limit f) in
    (n <> 0%Z -> (len txs <= n)%Z) /\
    (n = 0%Z \/ (len (selection (logs_query f from to) history) <= n)%Z ->
     ls ≡ₚ chain_logs f (number_u64 from) (number_u64 to) history).
Proof.
  intros Hl Hwf Hn0 Hf Ht Hw.
  destruct (limits_query _ _ Hl (logs_query f from to) Hn0) as (txs & Htxs & Hsub & Hle & Hall).
  pose proof (selection_logs f from to history Hwf (limits_emitted _ _ Hl)) as Hsel.
  assert (forall t, t ∈ txs -> exists tags, emitted t tags) as Hem.
  { intros t Hin. apply (elem_of_submseteq _ _ _ Hin) in Hsub.
    apply list_elem_of_fmap in Hsub as ([t' tags] & -> & He). apply list_elem_of_filter in He as [_ He].
    exists tags. by eapply limits_emitted. }
  unfold eth_logs. rewrite (logs_of_txns node f from to txs Hf Ht Hw Htxs Hem).
  eexists _, txs. split_and!; [reflexivity|apply sort_by_sorted| |done|apply sort_by_Permutation|exact Hle|].
  - rewrite sort_by_Permutation, <- Hsel. by apply concat_fmap_submseteq.
  - intros Hn. rewrite sort_by_Permutation, <- Hsel.
    by rewrite (Hall Hn).
Qed.

End lemmas.
End limits.

(** ** Witnesses *)

Module Witness.
#[local] Existing Instance Model.ops.
#[local] Existing Instance EthModel.ops.
#[local] Existing Instance EthModel.laws.
#[local] Existing Instance OasisModel.ops.
#[local] Existing Instance OasisModel.laws.
#[local] Existing Instance QueryModel.ops.
#[local] Existing Instance QueryModel.laws.
#[local] Existing Instance RpcModel.ops.
#[local] Existing Instance Translator.Witness.model_decoders.

(** A log of address [a] with topic [t]. *)
Definition log (a t : byte) : Api.LogEntry :=
  {| log_address := replicate 20 a; log_topics := [[t]]; Api.log_data := [] |}.

Definition result (ls : list Api.LogEntry) : ExecutionResult := {|
  cumulative_gas_used := 21000; Api.gas_used := 21000; log_bloom := []; Api.logs := ls;
  status_code := 1; output := [] |}.

Definition executed (n : Z) (id : byte) (ls : list Api.LogEntry) : TransactionSnapshot * list Tag :=
  ({| block_snapshot := Translator.Witness.block n; index := 0;
      input := {| method := "tx"; args := OasisModel.VBytes (Methods.Witness.raw id 1 30000) |};
      txn_output := Success (OasisModel.VResult (result ls)) |},
   result_tags [id] (result ls)).

(** Two logs that have the address and the topic asked for between them, a
    log that has both, and two such logs of one transaction. *)
Definition history : list (TransactionSnapshot * list Tag) :=
  [executed 1 x01 [log x0a x02; log x0b x01]; executed 2 x02 [log x0a x01];
   executed 3 x03 [log x0a x01; log x0a x01]].

Definition node : Node := {|
  GatewayLib.get_latest_block := Ok (Translator.Witness.block 3);
  GatewayLib.get_block := fun n => Ok (Some (Translator.Witness.block n));
  GatewayLib.get_block_by_hash := fun _ => Ok None;
  get_tx := fun _ _ => Ok None;
  get_tx_by_block_hash := fun _ _ => Ok None;
  get_txs := fun _ _ => Ok [];
  query_tx := fun _ _ => Ok None;
  query_txs := fun q =>
    Ok (if (limit q =? 0)%Z then selection q history else take (Z.to_nat (limit q)) (selection q history));
  wait_block_indexed := fun _ => Ok tt;
  ROUND_LATEST := 0
|}.

Lemma node_limits : limits node history.
Proof.
  constructor.
  - intros q Hq. eexists. split; [reflexivity|]. unfold len. destruct (Z.eqb_spec (limit q) 0) as [->|Hn].
    { by split_and!. }
    split_and!.
    + apply sublist_submseteq, sublist_take.
    + intros _. rewrite length_take. lia.
    + intros [?|Hle]; [done|]. rewrite take_ge; [done|]. lia.
  - intros t tags Hin. left. unfold history in Hin.
    repeat (apply elem_of_cons in Hin as [[= -> ->]|Hin];
      [eexists (Methods.Witness.signed _ 30000), _; split; [|reflexivity];
       split; [done|]; split; [|done]; eexists _, _; by split_and!|]).
    by apply elem_of_nil in Hin.
Qed.

(** The logs of address [x0a] with topic [x01]. *)
Definition filter_of (n : option Z) : Filter := {|
  from_block := Number 1; to_block := Latest; filter_address := Some [replicate 20 x0a];
  filter_topics := [Some [[x01]]]; filter_limit := n |}.

Definition places (o : outcome Error (list LocalizedLogEntry)) : list (Z * Z) :=
  (fun l => (log_block_number l, log_index l)) <$> from_ok [] o.

Lemma limited_logs_witness :
  exists ls, eth_logs node (filter_of (Some 2%Z)) = Ok ls /\
    ls ⊆+ chain_logs (filter_of (Some 2%Z)) 1 3 history.
Proof.
  destruct (limited_logs node history (filter_of (Some 2%Z)) (Translator.Witness.block 1)
    (Translator.Witness.block 3)) as (ls & txs & Hls & _ & Hsub & _).
  - apply node_limits.
  - split; [by intros addrs [= <-]|]. intros [|[|i]] ts Hi; [by injection Hi as <-|done|done].
  - simpl. lia.
  - reflexivity.
  - reflexivity.
  - reflexivity.
  - exists ls. split; [exact Hls|exact Hsub].
Defined.

(** The same query without a limit finds three logs; with the limit 1 none,
    with the limit 2 one, and with the limit 0 all three. From block 3 on, the
    limit 1 answers with two logs. *)
Example limit_is_on_transactions :
  places (eth_logs node (filter_of None)) = [(2, 0); (3, 0); (3, 1)]%Z /\
  places (eth_logs node (filter_of (Some 1%Z))) = []%Z /\
  places (eth_logs node (filter_of (Some 2%Z))) = [(2, 0)]%Z /\
  places (eth_logs node (filter_of (Some 0%Z))) = [(2, 0); (3, 0); (3, 1)]%Z /\
  places (eth_logs node {| from_block := Number 3; to_block := Latest;
    filter_address := filter_address (filter_of None);
    filter_topics := filter_topics (filter_of None); filter_limit := Some 1%Z |}) =
    [(3, 0); (3, 1)]%Z.
Proof. split_and!; vm_compute; reflexivity. Qed.

End Witness.
