(* ===== verification/Chain.v ===== *)
(** * The chain between the runtime and the gateway

    A node executes batches with a runtime, stores the calls and the reported
    results as blocks, indexes them by their tags, and shows them to the
    gateway.  [Block] and [chain_step] are this store, over any
    [BatchRuntime]; [entry] is what the node's client makes of a stored call,
    and [serves] what it answers to the gateway's queries.  The theorems are
    about the two ends: what the runtime executed, and what the gateway's
    RPC methods report. *)

From Stdlib Require Import ZArith Lia Strings.Byte.
From stdpp Require Import base numbers relations gmap strings option sorting list.
From S2P Require Import Prelude Crypto Api OasisCore Ethcore Methods.
From S2P Require Import Dispatcher Runtime JsonRpc GatewayLib Translator EthRpc.

(** The node's client decodes the stored outputs. *)
Class OutputCodec {O : OasisCore} := {
  output_from_slice : bytes -> outcome string (TxnOutput Value)
}.

Class OutputCodecLaws {O : OasisCore} (C : OutputCodec) : Prop := {
  output_roundtrip o : output_from_slice (output_to_vec o) = Ok o
}.

Section chain.
Context {M : Mrae} {E : Ethcore} {O : OasisCore} {OL : OasisCoreLaws O} {Q : EthQueries}
  {C : OutputCodec}.

(** ** The node's store *)

Record Block := {
  snapshot : BlockSnapshot;
  calls : list bytes;
  outcomes : list ExecuteTxResult
}.

(** The batch of a block is executed on top of the header of the last one. *)
Definition follows (chain : list Block) (h : Header) : Prop :=
  forall b, last chain = Some b -> h = block_header (snapshot b).

Inductive chain_step {R} {BR : BatchRuntime R} (r : R) : list Block -> list Block -> Prop :=
| step_block chain ctx res b :
    opens ctx -> follows chain (header ctx) ->
    run_batch r ctx (calls b) = Ok res -> outcomes b = results res ->
    number_u64 (snapshot b) = (round (header ctx) + 1)%Z ->
    chain_step r chain (chain ++ [b]).

Definition valid_chain {R} {BR : BatchRuntime R} (r : R) : list Block -> Prop := rtc (chain_step r) [].

(** What the client shows of the [i]-th call of a block. *)
Definition entry (b : Block) (i : nat) (cr : bytes * ExecuteTxResult)
  : option (TransactionSnapshot * list Tag) :=
  match call_from_slice cr.1, output_from_slice (tx_output cr.2) with
  | Ok c, Ok o =>
      Some ({| block_snapshot := snapshot b; index := Z.of_nat i; input := c; txn_output := o |},
            tx_tags cr.2)
  | _, _ => None
  end.

Definition block_entries (b : Block) : list (TransactionSnapshot * list Tag) :=
  omap id (imap (entry b) (zip (calls b) (outcomes b))).

Definition chain_entries (chain : list Block) : list (TransactionSnapshot * list Tag) :=
  concat (block_entries <$> chain).

(** A node that answers by tags over the whole chain. *)
Record serves (node : Node) (chain : list Block) : Prop := {
  serves_query q : limit q = 0%Z -> exists txs, query_txs node q = Ok txs /\
    txs ≡ₚ (filter (fun e => selected q e = true) (chain_entries chain)).*1;
  serves_tx k v :
    (exists t tags, query_tx node k v = Ok (Some t) /\ (t, tags) ∈ chain_entries chain /\
       (k, v) ∈ tags) \/
    (query_tx node k v = Ok None /\
     forall t tags, (t, tags) ∈ chain_entries chain -> (k, v) ∉ tags)
}.

(** ** Specification *)

(** The [i]-th call of block [b] carries [txn], which was executed with
    result [x]. *)
Definition executed_in (chain : list Block) (b : Block) (i : nat) (txn : SignedTransaction)
    (x : ExecutionResult) : Prop :=
  b ∈ chain /\ exists call, calls b !! i = Some call /\ decode_transaction call = Ok txn /\
    outcomes b !! i = Some {| tx_output := output_to_vec (Success (result_to_value x));
                              tx_tags := result_tags (signed_hash txn) x |}.

(** The [j]-th log of that execution, [e], as the gateway shows it. *)
Definition shown_log (b : Block) (i : nat) (txn : SignedTransaction) (j : nat)
    (e : Api.LogEntry) : LocalizedLogEntry :=
  localize (block_hash (snapshot b)) (number_u64 (snapshot b)) (signed_hash txn) (Z.of_nat i) j e.

(** ** Lemmas *)

Section lemmas.
Context {L : EthcoreLaws E} {QL : EthQueriesLaws Q} {DT : DecodersTotal} {CL : OutputCodecLaws C}.
Context {R : Type} {BR : BatchRuntime R} (r : R).

Lemma valid_chain_ind (P : list Block -> Prop) :
  P [] ->
  (forall chain chain', valid_chain r chain -> P chain -> chain_step r chain chain' -> P chain') ->
  forall chain, valid_chain r chain -> P chain.
Proof. intros H0 Hs chain. unfold valid_chain. revert chain. apply rtc_ind_r; eauto. Qed.

Lemma valid_reports chain :
  valid_chain r chain -> forall b, b ∈ chain -> Forall2 reports (calls b) (outcomes b).
Proof.
  revert chain. refine (valid_chain_ind _ _ _).
  { intros b Hb. by apply elem_of_nil in Hb. }
  intros chain chain' Hv IH Hs b Hb. destruct Hs as [chain ctx res b' Ho Hf Hrun Hout Hn].
  apply elem_of_app in Hb as [Hb|Hb]; [by apply IH|].
  apply list_elem_of_singleton in Hb as ->. rewrite Hout. by eapply run_batch_reports.
Qed.

(** What comes before is a valid chain. *)
Lemma valid_prefix seen rest : valid_chain r (seen ++ rest) -> valid_chain r seen.
Proof.
  intros Hv. remember (seen ++ rest) as chain eqn:Heq. revert chain Hv seen rest Heq.
  refine (valid_chain_ind _ _ _).
  { intros seen rest Heq. symmetry in Heq. apply app_eq_nil in Heq as [-> _]. apply rtc_refl. }
  intros chain chain' Hv IH Hs seen rest Heq.
  destruct rest as [|b rest _] using rev_ind.
  - rewrite app_nil_r in Heq. subst seen. by eapply rtc_r.
  - pose proof Hs as Hs'. destruct Hs' as [chain ctx res b' _ _ _ _ _].
    rewrite app_assoc in Heq. apply app_inj_tail in Heq as [-> _]. by apply (IH seen rest).
Qed.

(** Blocks are numbered in a row. *)
Lemma valid_numbers chain :
  valid_chain r chain -> StronglySorted Z.lt (number_u64 ∘ snapshot <$> chain).
Proof.
  revert chain. refine (valid_chain_ind _ _ _); [constructor|].
  intros chain chain' Hv IH Hs. destruct Hs as [chain ctx res b Ho Hf Hrun Hout Hn].
  rewrite fmap_app. apply StronglySorted_app_2; [|done|by repeat constructor].
  intros n1 n2 H1 H2. apply list_elem_of_singleton in H2 as ->.
  unfold compose at 1. rewrite Hn.
  destruct chain as [|b' chain _] using rev_ind; [by apply elem_of_nil in H1|].
  rewrite (Hf b') by apply last_snoc. fold (number_u64 (snapshot b')).
  rewrite fmap_app in H1, IH. apply elem_of_app in H1 as [H1|H1].
  - assert (n1 < number_u64 (snapshot b'))%Z; [|lia].
    eapply (StronglySorted_app_1_elem_of Z.lt); [exact IH|done|by left].
  - apply list_elem_of_singleton in H1 as ->. unfold compose. lia.
Qed.

Lemma NoDup_StronglySorted_lt (l : list Z) : StronglySorted Z.lt l -> NoDup l.
Proof.
  induction 1 as [|a l Hs IH Ha]; constructor; [|done]. intros Hin.
  rewrite Forall_forall in Ha. specialize (Ha a Hin). lia.
Qed.

Lemma decode_transaction_Ok call txn :
  decode_transaction call = Ok txn -> exists c, call_from_slice call = Ok c /\
    method c = METHOD_TX /\
    exists raw u, bytes_from_value (args c) = Ok raw /\ rlp_decode raw = Ok u /\
      signed_new u = Ok txn.
Proof.
  unfold decode_transaction. intros H. apply obind_Ok in H as (c & Hc & H).
  apply map_err_Ok in Hc. case_bool_decide as Hm; [done|].
  apply obind_Ok in H as (raw & Hraw & H). apply map_err_Ok in Hraw.
  exists c. split; [done|]. split; [done|]. exists raw.
  unfold check_tx in H. apply obind_Ok in H as (u & Hu & H). apply map_err_Ok in Hu.
  case_match; [done|]. apply obind_Ok in H as (s & Hs & H). apply map_err_Ok in Hs.
  case_match; simplify_eq. by exists u.
Qed.

(** The entry of a call that was executed, and of one that was not. *)
Lemma entry_success b i call txn x :
  decode_transaction call = Ok txn ->
  exists t, entry b i (call, {| tx_output := output_to_vec (Success (result_to_value x));
                                tx_tags := result_tags (signed_hash txn) x |})
      = Some (t, result_tags (signed_hash txn) x) /\
    executed_entry t txn x /\ block_snapshot t = snapshot b /\ index t = Z.of_nat i.
Proof.
  intros Hd. destruct (decode_transaction_Ok _ _ Hd) as (c & Hc & Hm & Hraw).
  unfold entry. cbn [fst snd tx_output tx_tags]. rewrite Hc, output_roundtrip.
  eexists. split; [reflexivity|]. by split; [|split].
Qed.

Lemma entry_error b i call m t tags :
  entry b i (call, {| tx_output := output_to_vec (OasisCore.Error m); tx_tags := [] |}) = Some (t, tags) ->
  tags = [] /\ txn_output t = OasisCore.Error m.
Proof.
  unfold entry. cbn [fst snd tx_output tx_tags]. rewrite output_roundtrip.
  destruct (call_from_slice call); [|done|done]. by intros [= <- <-].
Qed.

Lemma entry_place b i cr t tags :
  entry b i cr = Some (t, tags) -> block_snapshot t = snapshot b /\ index t = Z.of_nat i.
Proof.
  unfold entry. destruct (call_from_slice cr.1); [|done|done].
  destruct (output_from_slice _); [|done|done]. by intros [= <- <-].
Qed.

Lemma elem_of_chain_entries chain e :
  e ∈ chain_entries chain <-> exists b i call res, b ∈ chain /\ calls b !! i = Some call /\
    outcomes b !! i = Some res /\ entry b i (call, res) = Some e.
Proof.
  unfold chain_entries. rewrite list_elem_of_In, in_concat. setoid_rewrite <- list_elem_of_In. split.
  - intros (es & Hes & He). apply list_elem_of_fmap in Hes as (b & -> & Hb).
    apply elem_of_omap_imap in He as (i & [call res] & Hi & He).
    apply lookup_zip_with_Some in Hi as (? & ? & [= <- <-] & Hc & Ho). by exists b, i, call, res.
  - intros (b & i & call & res & Hb & Hc & Ho & He). exists (block_entries b).
    split; [by apply list_elem_of_fmap_2|]. apply elem_of_omap_imap. exists i, (call, res).
    split; [|done]. apply lookup_zip_with_Some. by exists call, res.
Qed.

(** Every entry of a valid chain is that of an execution or of an error. *)
Lemma chain_entry_cases chain t tags :
  valid_chain r chain -> (t, tags) ∈ chain_entries chain ->
  (exists b i txn x, executed_in chain b i txn x /\ executed_entry t txn x /\
     tags = result_tags (signed_hash txn) x /\ block_snapshot t = snapshot b /\
     index t = Z.of_nat i) \/
  (exists m, txn_output t = OasisCore.Error m /\ tags = []).
Proof.
  intros Hv He. apply elem_of_chain_entries in He as (b & i & call & res & Hb & Hc & Ho & He).
  destruct (Forall2_lookup_l _ _ _ _ _ (valid_reports _ Hv b Hb) Hc) as (res' & Ho' & Hr).
  rewrite Ho in Ho'. injection Ho' as <-. destruct Hr as [txn x Hd|m].
  - destruct (entry_success b i call txn x Hd) as (t' & He' & Hx & Hs & Hi).
    rewrite He' in He. injection He as <- <-. left. exists b, i, txn, x.
    split_and!; try done. split; [done|]. by exists call.
  - destruct (entry_error _ _ _ _ _ _ He) as [-> Hm]. right. by exists m.
Qed.

(** An execution has an entry. *)
Lemma executed_in_entry chain b i txn x :
  executed_in chain b i txn x -> exists t,
    (t, result_tags (signed_hash txn) x) ∈ chain_entries chain /\ executed_entry t txn x /\
    block_snapshot t = snapshot b /\ index t = Z.of_nat i.
Proof.
  intros (Hb & call & Hc & Hd & Ho). destruct (entry_success b i call txn x Hd) as (t & He & H).
  exists t. split; [|done]. apply elem_of_chain_entries. eauto 8.
Qed.

Lemma chain_indexed node chain :
  valid_chain r chain -> serves node chain -> indexed node (chain_entries chain).
Proof.
  intros Hv Hs. constructor; [apply Hs|]. intros t tags He.
  destruct (chain_entry_cases _ _ _ Hv He) as [(b & i & txn & x & _ & Hx & Ht & _)|Hm].
  - left. by exists txn, x.
  - by right.
Qed.

(** An entry is told by its block and its position, a log also by its own. *)
Definition place (t : TransactionSnapshot) : Z * Z := (entry_round t, index t).

Lemma chain_entries_places chain :
  valid_chain r chain -> NoDup ((fun e => place e.1) <$> chain_entries chain).
Proof.
  intros Hv. unfold chain_entries. rewrite fmap_concat.
  apply (NoDup_concat_keyed _ (number_u64 ∘ snapshot) fst).
  - by apply NoDup_StronglySorted_lt, valid_numbers.
  - intros b _. apply (NoDup_fmap_1 (Z.to_nat ∘ snd)). unfold compose.
    rewrite <- list_fmap_compose. apply NoDup_omap_imap. intros i cr [t tags] He.
    destruct (entry_place _ _ _ _ _ He) as [_ Hi]. cbn. rewrite Hi. lia.
  - intros b k _ Hk. apply list_elem_of_fmap in Hk as ([t tags] & -> & He).
    apply elem_of_omap_imap in He as (i & cr & _ & He).
    destruct (entry_place _ _ _ _ _ He) as [Hs _]. cbn. unfold entry_round. by rewrite Hs.
Qed.

Lemma entry_logs_places t tags chain :
  valid_chain r chain -> (t, tags) ∈ chain_entries chain ->
  NoDup (entry_logs t) /\
  forall l, l ∈ entry_logs t -> (log_block_number l, log_transaction_index l) = place t.
Proof.
  intros Hv He.
  destruct (chain_entry_cases _ _ _ Hv He) as [(b & i & txn & x & _ & Hx & _)|(m & Hm & _)].
  - rewrite (executed_entry_logs t txn x Hx). split.
    + apply (NoDup_imap _ (Z.to_nat ∘ log_index)). intros j e. cbn. lia.
    + intros l Hl. apply list_elem_of_lookup in Hl as (j & Hj). rewrite list_lookup_imap in Hj.
      destruct (Api.logs x !! j); [|done]. by injection Hj as <-.
  - unfold entry_logs, receipt. rewrite Hm. split; [constructor|].
    intros l Hl. by apply elem_of_nil in Hl.
Qed.

Lemma chain_logs_NoDup f lo hi chain :
  valid_chain r chain -> NoDup (chain_logs f lo hi (chain_entries chain)).
Proof.
  intros Hv. unfold chain_logs, matching. apply NoDup_filter.
  assert (forall t, t ∈ (filter (fun e => in_range lo hi e = true) (chain_entries chain)).*1 ->
    exists tags, (t, tags) ∈ chain_entries chain) as Hin.
  { intros t Ht. apply list_elem_of_fmap in Ht as ([t' tags] & -> & Ht).
    apply list_elem_of_filter in Ht as [_ Ht]. by exists tags. }
  apply (NoDup_concat_keyed _ place (fun l => (log_block_number l, log_transaction_index l))).
  - rewrite <- list_fmap_compose. apply NoDup_fmap_filter. by apply chain_entries_places.
  - intros t Ht. destruct (Hin t Ht) as [tags He]. by eapply entry_logs_places.
  - intros t l Ht Hl. destruct (Hin t Ht) as [tags He].
    by apply (entry_logs_places _ _ _ Hv He).
Qed.

(** The logs of a range of blocks of the chain are those the executions in
    them emitted. *)
Lemma executed_logs f lo hi chain l :
  valid_chain r chain ->
  l ∈ chain_logs f lo hi (chain_entries chain) <-> exists b i txn x j e,
    executed_in chain b i txn x /\ (lo <= number_u64 (snapshot b) <= hi)%Z /\
    Api.logs x !! j = Some e /\ filter_matches f (eth_log e) = true /\
    l = shown_log b i txn j e.
Proof.
  intros Hv. rewrite elem_of_chain_logs. split.
  - intros (Hm & [t tags] & He & Hr & Hl).
    destruct (chain_entry_cases _ _ _ Hv He) as [(b & i & txn & x & Hin & Hx & _ & Hb & Hi)|(m & Ho & _)].
    + cbn [fst] in *. rewrite (executed_entry_logs t txn x Hx) in Hl.
      apply list_elem_of_lookup in Hl as (j & Hj). rewrite list_lookup_imap in Hj.
      destruct (Api.logs x !! j) as [e|] eqn:Hj'; [|done]. injection Hj as <-.
      unfold entry_round in *. rewrite Hb, Hi in *. by exists b, i, txn, x, j, e.
    + unfold entry_logs, receipt in Hl. cbn [fst] in Hl. rewrite Ho in Hl.
      by apply elem_of_nil in Hl.
  - intros (b & i & txn & x & j & e & Hin & Hr & Hj & Hm & ->). split; [done|].
    destruct (executed_in_entry _ _ _ _ _ Hin) as (t & He & Hx & Hb & Hi).
    exists (t, result_tags (signed_hash txn) x). cbn [fst]. split; [done|].
    unfold entry_round. rewrite Hb. split; [done|].
    rewrite (executed_entry_logs t txn x Hx). apply list_elem_of_lookup. exists j.
    rewrite list_lookup_imap, Hj. unfold entry_round. by rewrite Hb, Hi.
Qed.

(** The only hash tag of a transaction is its own. *)
Lemma hash_tag h h' x : (TAG_ETH_TX_HASH, h') ∈ result_tags h x <-> h' = h.
Proof.
  unfold result_tags. rewrite elem_of_cons. split; [|intros ->; by left].
  intros [[= ->]|Hin]; [done|]. exfalso.
  apply list_elem_of_In, in_concat in Hin as (tags & Htags & Hin).
  apply list_elem_of_In, list_elem_of_fmap in Htags as (e & -> & _).
  apply list_elem_of_In, elem_of_cons in Hin as [?|Hin]; [done|].
  apply elem_of_take in Hin as (i & Hi & _).
  apply lookup_zip_with_Some in Hi as (topic & tag & [= ? _] & _ & Htag). subst tag.
  apply list_elem_of_lookup_2 in Htag. revert Htag. unfold TAG_ETH_LOG_TOPICS, TAG_ETH_TX_HASH.
  rewrite !elem_of_cons, elem_of_nil. naive_solver.
Qed.

(** ** Properties *)

(** C2. From the execution to the log query: on a node that serves a chain of
    batches executed by a runtime, [eth_getLogs] answers, ordered by block,
    with exactly the logs of the executed transactions in the range that
    match the filter, each of them once, under the block, the position and
    the transaction that emitted it. *)
Theorem logs_end_to_end chain node f from to :
  valid_chain r chain -> serves node chain -> filter_wf f ->
  default 0%Z (filter_limit f) = 0%Z ->
  get_block_unwrap node (from_block f) = Ok from ->
  get_block_unwrap node (to_block f) = Ok to ->
  wait_block_indexed node (round (block_header to)) = Ok tt ->
  exists ls, logs node f = Ok ls /\ NoDup ls /\
    Sorted (fun a b => log_block_number a <= log_block_number b)%Z ls /\
    forall l, l ∈ ls <-> exists b i txn x j e,
      executed_in chain b i txn x /\
      (number_u64 from <= number_u64 (snapshot b) <= number_u64 to)%Z /\
      Api.logs x !! j = Some e /\ filter_matches f (eth_log e) = true /\
      l = shown_log b i txn j e.
Proof.
  intros Hv Hs Hwf Hlim Hf Ht Hw.
  destruct (logs_answer node (chain_entries chain) f from to) as (found & Hrun & Hp);
    [by apply chain_indexed|done..|].
  eexists. split_and!; [exact Hrun| |apply sort_by_sorted|].
  { rewrite sort_by_Permutation, Hp. by apply chain_logs_NoDup. }
  intros l. rewrite sort_by_Permutation, Hp. by apply executed_logs.
Qed.

(** C3. From the execution to the receipt: on such a node,
    [eth_getTransactionReceipt] answers nothing exactly for the hashes no
    executed transaction has, and otherwise with the receipt of an execution
    of that hash: its block and position, gas, status, bloom and logs are
    those of the result the runtime reported. *)
Theorem receipt_end_to_end {P : ParityRpc} chain node hash :
  valid_chain r chain -> serves node chain ->
  exists o, transaction_receipt node hash = Ok o /\
    match o with
    | None => forall b i txn x, executed_in chain b i txn x -> signed_hash txn <> hash
    | Some rc => exists b i txn x, executed_in chain b i txn x /\ signed_hash txn = hash /\
        transaction_hash rc = hash /\
        (receipt_block_number rc, receipt_block_hash rc, transaction_index rc) =
          (number_u64 (snapshot b), block_hash (snapshot b), Z.of_nat i) /\
        (receipt_cumulative_gas_used rc, receipt_tx_gas_used rc) =
          (cumulative_gas_used x, Api.gas_used x) /\
        (receipt_status rc, receipt_bloom rc) = (StatusCode (status_code x), log_bloom x) /\
        receipt_entries rc = imap (shown_log b i txn) (Api.logs x)
    end.
Proof.
  intros Hv Hs. unfold transaction_receipt, get_txn_by_hash, traverse, option_traverse.
  destruct (serves_tx _ _ Hs TAG_ETH_TX_HASH hash) as [(t & tags & Hq & He & Htag)|[Hq Hno]];
    rewrite Hq; cbn [obind].
  - destruct (chain_entry_cases _ _ _ Hv He)
      as [(b & i & txn & x & Hin & Hx & -> & Hb & Hi)|(m & _ & ->)];
      [|by apply elem_of_nil in Htag].
    apply hash_tag in Htag. destruct (executed_receipt t txn x Hx)
      as (rc & -> & Hh & Hti & Hbh & Hbn & Hcg & Hg & Hbl & Hst & _ & Hent).
    exists (Some rc). split; [done|]. exists b, i, txn, x. unfold entry_round in *.
    rewrite Hb, Hi in *. fold (number_u64 (snapshot b)) in *. split_and!; done || congruence.
  - exists None. split; [done|]. intros b i txn x Hin Hh.
    destruct (executed_in_entry _ _ _ _ _ Hin) as (t & He & _). apply (Hno _ _ He).
    by apply hash_tag.
Qed.

End lemmas.
End chain.

(** ** Witnesses *)

Module Witness.
#[local] Existing Instance Model.ops.
#[local] Existing Instance EthModel.ops.
#[local] Existing Instance EthModel.laws.
#[local] Existing Instance OasisModel.ops.
#[local] Existing Instance OasisModel.laws.
#[local] Existing Instance QueryModel.ops.
#[local] Existing Instance QueryModel.laws.
#[local] Existing Instance RpcModel.ops.
#[local] Existing Instance Dispatcher.Witness.model_decoders.

#[local] Instance codec : OutputCodec := {| output_from_slice := OasisModel.output_of_bytes |}.
#[local] Instance codec_laws : OutputCodecLaws codec.
Proof. constructor. apply OasisModel.output_of_output_bytes. Qed.

Definition runtime0 : profile * Dispatcher := (Release, dispatcher_new).

Definition header_at (n : Z) : Header := {|
  round := n; header_timestamp := 1000 + n; previous_hash := replicate 32 x07;
  state_root := []; io_root := [] |}.

Definition context_at (n : Z) : TxnContext :=
  {| header := header_at n; check_only := false; inner := []; Methods.runtime := None |}.

Definition results_at (n : Z) (batch : list bytes) : list ExecuteTxResult :=
  match execute_batch Release dispatcher_new (context_at n) batch with
  | Ok res => results res
  | _ => []
  end.

(** The block with the results of [batch]. *)
Definition block_at (n : Z) (batch : list bytes) : Block := {|
  snapshot := {| block_header := header_at n; block_hash := [byte_of_Z n] |};
  calls := batch;
  outcomes := results_at (n - 1) batch
|}.

Definition batch2 : list bytes := [Dispatcher.Witness.call "tx" (Methods.Witness.raw x02 1 30000)].

Definition chain2 : list Block := [block_at 42 Dispatcher.Witness.batch; block_at 43 batch2].

(** A node that knows a chain. *)
Definition node_of (chain : list Block) (latest : BlockSnapshot) : Node := {|
  GatewayLib.get_latest_block := Ok latest;
  GatewayLib.get_block := fun n =>
    Ok (snapshot <$> (snd <$> list_find (fun b => number_u64 (snapshot b) = n) chain));
  GatewayLib.get_block_by_hash := fun _ => Ok None;
  get_tx := fun _ _ => Ok None;
  get_tx_by_block_hash := fun _ _ => Ok None;
  get_txs := fun _ _ => Ok [];
  query_tx := fun k v => Ok (fst <$> (snd <$> list_find (fun e => (k, v) ∈ e.2) (chain_entries chain)));
  query_txs := fun q => Ok (filter (fun e => selected q e = true) (chain_entries chain)).*1;
  wait_block_indexed := fun _ => Ok tt;
  ROUND_LATEST := 0
|}.

Lemma node_of_serves chain latest : serves (node_of chain latest) chain.
Proof.
  constructor.
  - intros q _. eexists. split; [reflexivity|done].
  - intros k v. cbn [query_tx node_of].
    destruct (list_find (fun e => (k, v) ∈ e.2) (chain_entries chain)) as [[i [t tags]]|] eqn:Hf.
    + apply list_find_Some in Hf as (Hi & Htag & _). left. exists t, tags.
      split_and!; [done|by eapply list_elem_of_lookup_2|done].
    + right. split; [done|]. intros t tags He Htag.
      apply list_find_None in Hf. rewrite Forall_forall in Hf. by apply (Hf _ He).
Qed.

Lemma block_at_step chain n batch :
  follows chain (header_at (n - 1)) ->
  is_ok (execute_batch Release dispatcher_new (context_at (n - 1)) batch) = true ->
  chain_step runtime0 chain (chain ++ [block_at n batch]).
Proof.
  intros Hf Hok. destruct (execute_batch Release dispatcher_new (context_at (n - 1)) batch)
    as [res| |] eqn:Hrun; [|done|done].
  apply (step_block runtime0 chain (context_at (n - 1)) res).
  - done.
  - done.
  - exact Hrun.
  - cbn [outcomes block_at]. unfold results_at. by rewrite Hrun.
  - unfold number_u64. cbn [block_at snapshot block_header header_at context_at header round]. lia.
Qed.

Lemma chain2_valid : valid_chain runtime0 chain2.
Proof.
  eapply rtc_l; [apply (block_at_step [] 42 Dispatcher.Witness.batch); [done|vm_compute; reflexivity]|].
  eapply rtc_l; [|apply rtc_refl]. apply (block_at_step [block_at 42 Dispatcher.Witness.batch] 43 batch2).
  - intros b [= <-]. done.
  - vm_compute. reflexivity.
Qed.

Definition node2 : Node := node_of chain2 (snapshot (block_at 43 batch2)).

(** Two blocks, with the failed and duplicate calls of the first one. *)
Definition any_log : Filter := {|
  from_block := Number 42; to_block := Latest; filter_address := None; filter_topics := [];
  filter_limit := None |}.

Lemma logs_end_to_end_witness :
  exists ls, logs node2 any_log = Ok ls /\ NoDup ls /\
    ((fun l => (log_block_number l, log_transaction_index l, log_transaction_hash l)) <$> ls) =
      [(42, 0, [x01]); (42, 3, [x02]); (43, 0, [x02])]%Z.
Proof.
  destruct (logs_end_to_end runtime0 chain2 node2 any_log (snapshot (block_at 42 Dispatcher.Witness.batch))
    (snapshot (block_at 43 batch2))) as (ls & Hls & Hnd & _).
  - exact chain2_valid.
  - apply node_of_serves.
  - split; [done|]. intros [|i] ts Hi; done.
  - reflexivity.
  - reflexivity.
  - reflexivity.
  - reflexivity.
  - exists ls. split; [exact Hls|]. split; [exact Hnd|].
    vm_compute in Hls. injection Hls as <-. reflexivity.
Defined.

(** A hash of the first block, and one nothing was executed under. *)
Lemma receipt_end_to_end_witness :
  exists rc, transaction_receipt node2 [x02] = Ok (Some rc) /\ transaction_hash rc = [x02] /\
    (receipt_block_number rc, transaction_index rc) = (42, 3)%Z /\
    transaction_receipt node2 [x09] = Ok None.
Proof.
  destruct (receipt_end_to_end runtime0 chain2 node2 [x02]) as (o & Ho & Hspec).
  - exact chain2_valid.
  - apply node_of_serves.
  - destruct o as [rc|].
    + exists rc. destruct Hspec as (b & i & txn & x & _ & _ & Hh & _).
      split; [exact Ho|]. split; [exact Hh|]. split; [|vm_compute; reflexivity].
      vm_compute in Ho. injection Ho as <-. reflexivity.
    + exfalso. vm_compute in Ho. discriminate Ho.
Defined.

End Witness.
