(* ===== verification/Lookups.v ===== *)
(** * Lookups of blocks and transactions, from the runtime to the RPC

    The gateway answers for a transaction under its hash, under its block's
    number or hash with its index, and within its block.  [serves_places] is
    what the node's client answers for the blocks of a chain and the entries
    in them; the theorem is that the methods of [EthRpc] agree on what the
    runtime executed. *)

From Stdlib Require Import ZArith Lia Strings.Byte.
From stdpp Require Import base numbers relations gmap strings option sorting list.
From S2P Require Import Prelude Crypto Api OasisCore Ethcore Methods.
From S2P Require Import Dispatcher Runtime JsonRpc GatewayLib Translator EthRpc Chain.

Section lookups.
Context {M : Mrae} {E : Ethcore} {O : OasisCore} {OL : OasisCoreLaws O} {Q : EthQueries}
  {C : OutputCodec} {P : ParityRpc}.

(** The entry the [i]-th call of a block of the chain has. *)
Definition placed (chain : list Block) (b : Block) (i : nat) (t : TransactionSnapshot) : Prop :=
  b ∈ chain /\ exists call res tags, calls b !! i = Some call /\ outcomes b !! i = Some res /\
    entry b i (call, res) = Some (t, tags).

(** A node that knows the blocks of the chain by number and hash, the calls of
    each, and the entries by their places. *)
Record serves_places (node : Node) (chain : list Block) : Prop := {
  places_number b i t : placed chain b i t ->
    get_tx node (number_u64 (snapshot b)) (Z.of_nat i) = Ok (Some t);
  places_hash b i t : placed chain b i t ->
    get_tx_by_block_hash node (block_hash (snapshot b)) (Z.of_nat i) = Ok (Some t);
  places_block b : b ∈ chain ->
    GatewayLib.get_block node (number_u64 (snapshot b)) = Ok (Some (snapshot b)) /\
    get_block_by_hash node (block_hash (snapshot b)) = Ok (Some (snapshot b)) /\
    get_txs node (number_u64 (snapshot b)) (io_root (block_header (snapshot b))) = Ok (calls b)
}.

(** ** Specification *)

(** What the gateway shows of the transaction [u] at position [i] of [b]. *)
Definition shown_transaction (b : Block) (i : nat) (u : UnverifiedTransaction)
  : LocalizedTransaction := {|
  signed := u;
  GatewayLib.block_number := number_u64 (snapshot b);
  tx_block_hash := block_hash (snapshot b);
  tx_index := Z.of_nat i
|}.

(** ** Lemmas *)

Section lemmas.
Context {L : EthcoreLaws E} {QL : EthQueriesLaws Q} {DT : DecodersTotal} {CL : OutputCodecLaws C}.
Context {R : Type} {BR : BatchRuntime R} (r : R).

(** An execution, as its entry and as its call. *)
Lemma executed_placed chain b i txn x :
  executed_in chain b i txn x -> exists t u call,
    placed chain b i t /\ transaction t = Ok (shown_transaction b i u) /\
    calls b !! i = Some call /\ eth_txn call = Some u /\
    unverified_hash u = signed_hash txn /\ as_unsigned u = signed_tx txn /\
    is_Some (from_localized (shown_transaction b i u)).
Proof.
  intros (Hb & call & Hc & Hd & Ho).
  destruct (entry_success b i call txn x Hd) as (t & He & Hx & Hs & Hi).
  destruct (executed_transaction t txn x Hx) as (raw & u & Hraw & Hu & Hh & Hsend & Hun & Ht).
  destruct (decode_transaction_Ok _ _ Hd) as (c & Hcall & Hm & raw' & u' & Hraw' & Hu' & Hs').
  assert (input t = c) as Hin.
  { unfold entry in He. cbn [fst snd] in He. rewrite Hcall in He.
    destruct (output_from_slice _); [|done|done]. by injection He as <-. }
  exists t, u, call. split_and!; [|rewrite Ht|done| |done|done|].
  - split; [done|]. by exists call, {| tx_output := output_to_vec (Success (result_to_value x));
      tx_tags := result_tags (signed_hash txn) x |}, (result_tags (signed_hash txn) x).
  - unfold entry_round. rewrite Hs, Hi. done.
  - unfold eth_txn. rewrite Hcall, bool_decide_false by (intros Hn; by apply Hn).
    rewrite <- Hin. by rewrite Hraw, Hu.
  - apply from_localized_sender. cbn [signed shown_transaction]. rewrite Hsend. by eexists.
Qed.

(** The entry of an executed place is that of the execution. *)
Lemma placed_lookup node chain b i t u rt :
  serves_places node chain -> placed chain b i t -> transaction t = Ok (shown_transaction b i u) ->
  from_localized (shown_transaction b i u) = Some rt -> (Z.of_nat i < 2 ^ 32)%Z ->
  transaction_by_block_number_and_index node (NumBlock (number_u64 (snapshot b))) (Z.of_nat i) =
    Ok (Some rt) /\
  transaction_by_block_hash_and_index node (block_hash (snapshot b)) (Z.of_nat i) = Ok (Some rt).
Proof.
  intros Hs Hp Ht Hrt Hi.
  assert (as_u32 (Z.of_nat i) = Z.of_nat i) as Hu32 by (apply Z.mod_small; lia).
  unfold transaction_by_block_number_and_index, transaction_by_block_hash_and_index. rewrite Hu32.
  unfold get_txn_by_block_hash_and_index. rewrite (places_hash _ _ Hs _ _ _ Hp).
  cbn [block_number_to_id get_txn]. unfold get_txn_by_round_and_index.
  rewrite (places_number _ _ Hs _ _ _ Hp). cbn [obind]. unfold traverse, option_traverse, shown.
  rewrite Ht. cbn [obind]. unfold rpc_transaction. by rewrite Hrt.
Qed.

Lemma placed_functional chain b i t t' : placed chain b i t -> placed chain b i t' -> t = t'.
Proof.
  intros (_ & call & res & tags & Hc & Ho & He) (_ & call' & res' & tags' & Hc' & Ho' & He').
  congruence.
Qed.

(** The lookup by hash finds an execution of that hash, if there is one. *)
Lemma hash_lookup node chain hash :
  valid_chain r chain -> serves node chain ->
  (get_txn_by_hash node hash = Ok None /\
   forall b i txn x, executed_in chain b i txn x -> signed_hash txn <> hash) \/
  (exists b i txn x t, executed_in chain b i txn x /\ signed_hash txn = hash /\
     placed chain b i t /\ get_txn_by_hash node hash = Ok (Some t)).
Proof.
  intros Hv Hs. unfold get_txn_by_hash.
  destruct (serves_tx _ _ Hs TAG_ETH_TX_HASH hash) as [(t & tags & Hq & He & Htag)|[Hq Hno]];
    rewrite Hq.
  - right. apply elem_of_chain_entries in He as (b & i & call & res & Hb & Hc & Ho & He).
    destruct (Forall2_lookup_l _ _ _ _ _ (valid_reports _ _ Hv b Hb) Hc) as (res' & Ho' & Hr).
    rewrite Ho in Ho'. injection Ho' as <-. destruct Hr as [txn x Hd|m].
    + exists b, i, txn, x, t. split_and!; [by split; [|exists call]| |by split; [|eauto 8]|done].
      destruct (entry_success b i call txn x Hd) as (t' & He' & _). rewrite He in He'.
      injection He' as -> ->. symmetry. by apply hash_tag in Htag.
    + destruct (entry_error _ _ _ _ _ _ He) as [-> _]. by apply elem_of_nil in Htag.
  - left. split; [done|]. intros b i txn x Hin Hh.
    destruct (executed_in_entry _ _ _ _ _ Hin) as (t & He & _). apply (Hno _ _ He).
    by apply hash_tag.
Qed.

(** The block that is listed. *)
Lemma block_listed node chain b :
  serves_places node chain -> b ∈ chain ->
  let list := mapM from_localized (localized_of (snapshot b) (omap eth_txn (calls b))) in
  let answer := match list with
    | Some txns => Ok (Some {| rb_header := rich_header (snapshot b); total_difficulty := None;
                               uncles := []; transactions_of := Full txns |})
    | None => Panic
    end in
  block_by_number node (NumBlock (number_u64 (snapshot b))) true = answer /\
  block_by_hash node (block_hash (snapshot b)) true = answer.
Proof.
  intros Hs Hb list answer. destruct (places_block _ _ Hs b Hb) as (Hn & Hh & Htxs).
  unfold block_by_number, block_by_hash. cbn [block_number_to_id get_block].
  unfold get_block_by_round. rewrite Hn, Hh. cbn [obind block_of].
  rewrite (rich_block_full node (snapshot b) (calls b) Htxs). fold list. subst answer.
  by destruct list.
Qed.

(** ** Properties *)

(** C6. The lookups agree on what the runtime executed.  On a node that
    serves a chain of executed batches, [eth_getTransactionByHash] answers
    nothing exactly for the hashes no executed transaction has; otherwise its
    answer is an execution of that hash, and the lookups by the number and by
    the hash of the block it shows with the index it shows answer the same.
    Every executed transaction is found at its place.  When the senders of all
    the Ethereum transactions of its block can be recovered, it is also what
    its block lists, by number and by hash, at the number of Ethereum
    transactions before it, and is listed there under the index of its place
    exactly when all calls before it are Ethereum transactions; when one of
    them cannot, the lookups of the block with its transactions panic. *)
Theorem lookups_agree chain node :
  valid_chain r chain -> serves node chain -> serves_places node chain ->
  (forall b, b ∈ chain -> (len (calls b) <= 2 ^ 32)%Z) ->
  (forall hash, exists o, transaction_by_hash node hash = Ok o /\
     match o with
     | None => forall b i txn x, executed_in chain b i txn x -> signed_hash txn <> hash
     | Some t => rpc_hash t = hash /\
         (exists b i txn x u, executed_in chain b i txn x /\ signed_hash txn = hash /\
            from_localized (shown_transaction b i u) = Some t) /\
         exists n h j, rpc_block_number t = Some n /\ rpc_block_hash t = Some h /\
           rpc_transaction_index t = Some j /\
           transaction_by_block_number_and_index node (NumBlock n) j = Ok (Some t) /\
           transaction_by_block_hash_and_index node h j = Ok (Some t)
     end) /\
  (forall b i txn x, executed_in chain b i txn x -> exists u t,
     as_unsigned u = signed_tx txn /\ unverified_hash u = signed_hash txn /\
     from_localized (shown_transaction b i u) = Some t /\
     let number := NumBlock (number_u64 (snapshot b)) in
     let hash := block_hash (snapshot b) in
     transaction_by_block_number_and_index node number (Z.of_nat i) = Ok (Some t) /\
     transaction_by_block_hash_and_index node hash (Z.of_nat i) = Ok (Some t) /\
     let known := Forall (fun u => is_Some (localized_sender u)) (omap eth_txn (calls b)) in
     (known -> exists rb txns,
        block_by_number node number true = Ok (Some rb) /\
        block_by_hash node hash true = Ok (Some rb) /\
        transactions_of rb = Full txns /\
        let before := take i (calls b) in
        let j := length (omap eth_txn before) in
        txns !! j = from_localized (shown_transaction b j u) /\ is_Some (txns !! j) /\
        (j = i <-> Forall (fun call => is_Some (eth_txn call)) before)) /\
     (~ known -> block_by_number node number true = Panic /\ block_by_hash node hash true = Panic)).
Proof.
  intros Hv Hs Hp Hlen.
  assert (forall b i txn x, executed_in chain b i txn x -> (Z.of_nat i < 2 ^ 32)%Z) as Hi32.
  { intros b i txn x (Hb & call & Hc & _). specialize (Hlen b Hb).
    apply lookup_lt_Some in Hc. unfold len in Hlen. lia. }
  split.
  - intros hash. unfold transaction_by_hash. destruct (hash_lookup node chain hash Hv Hs)
      as [[-> Hno]|(b & i & txn & x & t & Hin & Hh & Hpl & ->)]; [by exists None|].
    destruct (executed_placed _ _ _ _ _ Hin) as (t' & u & call & Hpl' & Ht & _ & _ & Huh & _ & [rt Hrt]).
    rewrite (placed_functional _ _ _ _ _ Hpl Hpl'). cbn [obind]. unfold traverse, option_traverse, shown.
    rewrite Ht. cbn [obind]. unfold rpc_transaction. rewrite Hrt.
    eexists. split; [reflexivity|].
    destruct (placed_lookup _ _ _ _ _ _ _ Hp Hpl' Ht Hrt (Hi32 _ _ _ _ Hin)) as [Hn Hbh].
    destruct (from_localized_fields _ _ Hrt) as (Hfh & Hfn & Hfb & Hfi). split_and!.
    + rewrite Hfh. cbn. congruence.
    + by exists b, i, txn, x, u.
    + eexists _, _, _. split_and!; [exact Hfn|exact Hfb|exact Hfi|exact Hn|exact Hbh].
  - intros b i txn x Hin. pose proof Hin as [Hb _].
    destruct (executed_placed _ _ _ _ _ Hin)
      as (t & u & call & Hpl & Ht & Hc & Hu & Huh & Hun & [rt Hrt]).
    destruct (placed_lookup _ _ _ _ _ _ _ Hp Hpl Ht Hrt (Hi32 _ _ _ _ Hin)) as [Hn Hbh].
    destruct (block_listed node chain b Hp Hb) as [Hbn Hbb].
    exists u, rt. split_and!; [done|done|done|]. intros number hash.
    split_and!; [exact Hn|exact Hbh|]. intros known. split; intros Hknown.
    + apply (localized_all (snapshot b)) in Hknown as [txns Htxns]. rewrite Htxns in Hbn, Hbb.
      eexists _, txns. split_and!; [exact Hbn|exact Hbb|done|]. intros before j.
      assert (txns !! j = from_localized (shown_transaction b j u)) as Hj.
      { apply (localized_lookup (snapshot b) (omap eth_txn (calls b))); [done|].
        by apply (omap_lookup_kept _ _ _ call). }
      split_and!; [exact Hj| |].
      * rewrite Hj. apply from_localized_sender.
        apply (from_localized_sender (shown_transaction b i u)). by eexists.
      * subst before j. rewrite <- length_omap_all. apply lookup_lt_Some in Hc.
        rewrite length_take_le by lia. done.
    + destruct (mapM _ _) as [txns|] eqn:Htxns; [|done].
      exfalso. apply Hknown, (localized_all (snapshot b)). by eexists.
Qed.

End lemmas.
End lookups.

(** ** Witnesses *)

Module Witness.
#[local] Existing Instance Model.ops.
#[local] Existing Instance EthModel.ops.
#[local] Existing Instance EthModel.laws.
#[local] Existing Instance OasisModel.ops.
#[local] Existing Instance OasisModel.laws.
#[local] Existing Instance QueryModel.ops.
#[local] Existing Instance QueryModel.laws.
#[local] Existing Instance RpcModel.ops.
#[local] Existing Instance Dispatcher.Witness.model_decoders.
#[local] Existing Instance Chain.Witness.codec.
#[local] Existing Instance Chain.Witness.codec_laws.

(** The block a key is that of. *)
Definition block_with {K} `{!EqDecision K} (key : Block -> K) (chain : list Block) (k : K)
  : option Block := snd <$> list_find (fun b => key b = k) chain.

Definition entry_of (b : Block) (i : Z) : option TransactionSnapshot :=
  cr ← zip (calls b) (outcomes b) !! Z.to_nat i; fst <$> entry b (Z.to_nat i) cr.

Definition number_of (b : Block) : Z := number_u64 (snapshot b).
Definition hash_of (b : Block) : H256 := block_hash (snapshot b).

Definition places_node (chain : list Block) (latest : BlockSnapshot) : Node := {|
  GatewayLib.get_latest_block := Ok latest;
  GatewayLib.get_block := fun n => Ok (snapshot <$> block_with number_of chain n);
  GatewayLib.get_block_by_hash := fun h => Ok (snapshot <$> block_with hash_of chain h);
  get_tx := fun n i => Ok (block_with number_of chain n ≫= fun b => entry_of b i);
  get_tx_by_block_hash := fun h i => Ok (block_with hash_of chain h ≫= fun b => entry_of b i);
  get_txs := fun n _ => Ok (from_option calls [] (block_with number_of chain n));
  query_tx := query_tx (Chain.Witness.node_of chain latest);
  query_txs := query_txs (Chain.Witness.node_of chain latest);
  wait_block_indexed := fun _ => Ok tt;
  ROUND_LATEST := 0
|}.

Lemma block_with_key {K} `{!EqDecision K} (key : Block -> K) chain b :
  NoDup (key <$> chain) -> b ∈ chain -> block_with key chain (key b) = Some b.
Proof.
  intros Hnd Hb. apply list_elem_of_lookup in Hb as [i Hi]. unfold block_with.
  assert (list_find (fun b' => key b' = key b) chain = Some (i, b)) as ->; [|done].
  apply list_find_Some. split_and!; [done|done|]. intros j b' Hj Hlt Hk.
  assert (j = i); [|lia]. apply (NoDup_lookup (key <$> chain) j i (key b)); [done| |];
    by rewrite list_lookup_fmap, ?Hj, ?Hi; cbn; congruence.
Qed.

Lemma entry_of_placed chain b i t : placed chain b i t -> entry_of b (Z.of_nat i) = Some t.
Proof.
  intros (_ & call & res & tags & Hc & Ho & He). unfold entry_of. rewrite Nat2Z.id.
  assert (zip (calls b) (outcomes b) !! i = Some (call, res)) as ->.
  { apply lookup_zip_with_Some. by exists call, res. }
  cbn. by rewrite He.
Qed.

Lemma places_node_serves chain latest :
  NoDup (number_of <$> chain) -> NoDup (hash_of <$> chain) ->
  serves (places_node chain latest) chain /\ serves_places (places_node chain latest) chain.
Proof.
  intros Hn Hh. pose proof (Chain.Witness.node_of_serves chain latest) as [Hq Ht]. split.
  { by constructor. }
  constructor; [intros b i t Hp|intros b i t Hp|intros b Hb]; cbn;
    fold (number_of b); fold (hash_of b); rewrite ?block_with_key by (done || apply Hp); cbn.
  - by rewrite (entry_of_placed _ _ _ _ Hp).
  - by rewrite (entry_of_placed _ _ _ _ Hp).
  - done.
Qed.

Definition node2 : Node :=
  places_node Chain.Witness.chain2 (snapshot (Chain.Witness.block_at 43 Chain.Witness.batch2)).

Definition place_of (o : outcome Error (option RpcTransaction)) : option (Z * Z) :=
  match o with
  | Ok (Some t) => n ← rpc_block_number t; j ← rpc_transaction_index t; Some (n, j)
  | _ => None
  end.

Lemma place_of_x09 : place_of (transaction_by_hash node2 [x09]) = None.
Proof. vm_compute. reflexivity. Qed.

Lemma place_of_x02 : place_of (transaction_by_hash node2 [x02]) = Some (42, 3)%Z.
Proof. vm_compute. reflexivity. Qed.

(** All senders are recovered. *)
Lemma chain2_known b :
  b ∈ Chain.Witness.chain2 ->
  Forall (fun u => is_Some (localized_sender u)) (omap eth_txn (calls b)).
Proof.
  intros Hb. apply Forall_forall. intros u Hu.
  assert (forallb (fun u => bool_decide (is_Some (localized_sender u))) (omap eth_txn (calls b)) = true)
    as Hall.
  { repeat (apply elem_of_cons in Hb as [->|Hb]; [vm_compute; reflexivity|]).
    by apply elem_of_nil in Hb. }
  rewrite forallb_forall in Hall. specialize (Hall u). apply bool_decide_eq_true in Hall; [done|].
  by apply list_elem_of_In.
Qed.

(** A transaction found at index 3 of its block, which its block lists at
    index 2, and a hash nothing was executed under. *)
Lemma lookups_agree_witness :
  (exists t, transaction_by_hash node2 [x02] = Ok (Some t) /\
     transaction_by_block_number_and_index node2 (NumBlock 42) 3 = Ok (Some t)) /\
  transaction_by_hash node2 [x09] = Ok None /\
  (exists b rb txns, block_by_number node2 (NumBlock (number_of b)) true = Ok (Some rb) /\
     transactions_of rb = Full txns).
Proof.
  destruct (places_node_serves Chain.Witness.chain2
    (snapshot (Chain.Witness.block_at 43 Chain.Witness.batch2))) as [Hs Hp].
  { vm_compute. repeat constructor; set_solver. }
  { vm_compute. repeat constructor; set_solver. }
  destruct (lookups_agree Chain.Witness.runtime0 Chain.Witness.chain2 node2) as [Hhash Hplace].
  - exact Chain.Witness.chain2_valid.
  - exact Hs.
  - exact Hp.
  - intros b Hb. repeat (apply elem_of_cons in Hb as [->|Hb]; [vm_compute; discriminate|]).
    by apply elem_of_nil in Hb.
  - destruct (Hhash [x02]) as (o & Ho & Hspec). destruct o as [t|].
    + destruct Hspec as (_ & (b & i & txn & x & u & Hin & _) & n & h & j & Hn & _ & Hj & Hl & _).
      split_and!.
      * exists t. split; [exact Ho|]. pose proof place_of_x02 as Hpl. rewrite Ho in Hpl.
        unfold place_of in Hpl. rewrite Hn, Hj in Hpl. cbn in Hpl. injection Hpl as -> ->. exact Hl.
      * destruct (Hhash [x09]) as (o9 & Ho9 & Hspec9). rewrite Ho9. destruct o9 as [t9|]; [|reflexivity].
        exfalso. destruct Hspec9 as (_ & _ & n9 & h9 & j9 & Hn9 & _ & Hj9 & _).
        pose proof place_of_x09 as Hpl. rewrite Ho9 in Hpl.
        unfold place_of in Hpl. rewrite Hn9, Hj9 in Hpl. discriminate Hpl.
      * destruct (Hplace b i txn x Hin) as (u' & t' & _ & _ & _ & _ & _ & Hknown & _).
        destruct Hknown as (rb & txns & Hrb & _ & Htx & _); [apply chain2_known, Hin|].
        exists b, rb, txns. split; [exact Hrb|exact Htx].
    + exfalso. pose proof place_of_x02 as Hpl. rewrite Ho in Hpl. discriminate Hpl.
Defined.

End Witness.
