(* ===== verification/Submission.v ===== *)
(** * From a submission to its receipt

    [eth_sendRawTransaction] and [oasis_invoke] hand a raw transaction to the
    node and answer when it has been executed.  [reports_executions] is what
    the node's client promises of its answers; the theorem is that what these
    methods return is found again by the lookups of the same chain. *)

From Stdlib Require Import ZArith Lia Strings.Byte.
From stdpp Require Import base numbers relations gmap strings option sorting list.
From S2P Require Import Prelude Crypto Api OasisCore Ethcore Methods.
From S2P Require Import Dispatcher Runtime JsonRpc GatewayLib Translator EthRpc Chain Lookups.

Section submission.
Context {M : Mrae} {E : Ethcore} {O : OasisCore} {OL : OasisCoreLaws O} {Q : EthQueries}
  {C : OutputCodec} {P : ParityRpc}.

(** The [i]-th call of [b] carries the raw transaction. *)
Definition carries (b : Block) (i : nat) (raw : bytes) : Prop :=
  exists call c, calls b !! i = Some call /\ call_from_slice call = Ok c /\
    bytes_from_value (args c) = Ok raw.

(** The client's answers to the submissions of [raw] that succeed are results
    of executions of it on the chain. *)
Definition reports_executions (chain : list Block) (raw : bytes)
    (client_tx : nat -> outcome AnyError ExecutionResult) : Prop :=
  forall k x, client_tx k = Ok x ->
    exists b i txn, executed_in chain b i txn x /\ carries b i raw.

(** No other execution on the chain has the hash. *)
Definition executed_once (chain : list Block) (b : Block) (i : nat) (hash : H256) : Prop :=
  forall b' i' txn x, executed_in chain b' i' txn x -> signed_hash txn = hash -> b' = b /\ i' = i.

(** ** Lemmas *)

Section lemmas.
Context {L : EthcoreLaws E} {QL : EthQueriesLaws Q} {DT : DecodersTotal} {CL : OutputCodecLaws C}.
Context {R : Type} {BR : BatchRuntime R} (r : R).

(** The transaction of a call that carries [raw] is the one [raw] decodes to. *)
Lemma carried_transaction chain b i txn x raw :
  executed_in chain b i txn x -> carries b i raw -> obind (rlp_decode raw) signed_new = Ok txn.
Proof.
  intros (_ & call & Hc & Hd & _) (call' & c & Hc' & Hcall & Hraw).
  destruct (decode_transaction_Ok _ _ Hd) as (c' & Hcall' & _ & raw' & u & Hraw' & Hu & Hs).
  assert (call' = call) as -> by congruence. assert (c' = c) as -> by congruence.
  assert (raw' = raw) as -> by congruence. by rewrite Hu.
Qed.

Lemma placed_executed chain b i txn x t :
  executed_in chain b i txn x -> placed chain b i t ->
  executed_entry t txn x /\ block_snapshot t = snapshot b /\ index t = Z.of_nat i.
Proof.
  intros (_ & call & Hc & Hd & Ho) (_ & call' & res & tags & Hc' & Ho' & He).
  destruct (entry_success b i call txn x Hd) as (t' & He' & H). simplify_eq. done.
Qed.

(** A place holds one execution. *)
Lemma executed_functional chain b i txn x txn' x' :
  executed_in chain b i txn x -> executed_in chain b i txn' x' -> txn = txn' /\ x = x'.
Proof.
  intros (_ & call & Hc & Hd & Ho) (_ & call' & Hc' & Hd' & Ho').
  assert (call' = call) as -> by congruence. split; [congruence|].
  rewrite Ho in Ho'. injection Ho' as Hout _.
  assert (@Ok string _ (Success (result_to_value x)) = Ok (Success (result_to_value x'))) as Heq.
  { rewrite <- !output_roundtrip. by rewrite Hout. }
  assert (@Ok string _ x = Ok x') as Hx; [|by injection Hx].
  rewrite <- !result_value_roundtrip. congruence.
Qed.

(** The receipt of a hash that was executed is that of one of its executions. *)
Lemma receipt_of_execution chain node b i txn x :
  valid_chain r chain -> serves node chain -> executed_in chain b i txn x ->
  exists rc b' i' txn' x', EthRpc.transaction_receipt node (signed_hash txn) = Ok (Some rc) /\
    executed_in chain b' i' txn' x' /\ signed_hash txn' = signed_hash txn /\
    transaction_hash rc = signed_hash txn /\
    (receipt_block_number rc, receipt_block_hash rc, transaction_index rc) =
      (number_u64 (snapshot b'), block_hash (snapshot b'), Z.of_nat i') /\
    receipt_tx_gas_used rc = Api.gas_used x' /\ receipt_status rc = StatusCode (status_code x') /\
    receipt_entries rc = imap (shown_log b' i' txn') (Api.logs x').
Proof.
  intros Hv Hs Hin. destruct (hash_lookup r node chain (signed_hash txn) Hv Hs)
    as [[_ Hno]|(b' & i' & txn' & x' & t & Hin' & Hh & Hpl & Hq)]; [by destruct (Hno _ _ _ _ Hin)|].
  destruct (placed_executed _ _ _ _ _ _ Hin' Hpl) as (Hx & Hb & Hi).
  destruct (executed_receipt t txn' x' Hx)
    as (rc & Hrc & Hth & Hti & Hbh & Hbn & _ & Hg & _ & Hst & _ & Hent).
  exists rc, b', i', txn', x'. unfold EthRpc.transaction_receipt. rewrite Hq. cbn [obind].
  unfold traverse, option_traverse. rewrite Hrc. unfold entry_round in *. rewrite Hb, Hi in *.
  fold (number_u64 (snapshot b')) in *. split_and!; done || congruence.
Qed.

(** ** Properties *)

(** C7. What is submitted is reported: [eth_sendRawTransaction] submits at
    most six times; if it returns a hash, it is that of the decoded
    transaction, which was executed on the chain with the result of the last
    submission; [oasis_invoke] returns the same hash with the status and the
    output of that result, and [eth_getTransactionReceipt] of the hash answers
    with the receipt of an execution of it: of this one, with its block,
    position, gas, status and logs, if the hash was executed once.  If it
    returns an error, no submission was answered with a result. *)
Theorem submitted_is_reported chain node raw client_tx :
  valid_chain r chain -> serves node chain -> reports_executions chain raw client_tx ->
  let n := (eth_send_raw_transaction client_tx raw).2 in
  n <= 6 /\
  match (eth_send_raw_transaction client_tx raw).1 with
  | Ok hash => exists b i txn x rc,
      obind (rlp_decode raw) signed_new = Ok txn /\ signed_hash txn = hash /\
      executed_in chain b i txn x /\ client_tx (n - 1) = Ok x /\
      invoke client_tx raw = (Ok {| payload_transaction_hash := hash;
        payload_status_code := status_code x; payload_output := output x |}, n) /\
      EthRpc.transaction_receipt node hash = Ok (Some rc) /\ transaction_hash rc = hash /\
      (executed_once chain b i hash ->
       (receipt_block_number rc, receipt_block_hash rc, transaction_index rc) =
         (number_u64 (snapshot b), block_hash (snapshot b), Z.of_nat i) /\
       receipt_tx_gas_used rc = Api.gas_used x /\ receipt_status rc = StatusCode (status_code x) /\
       receipt_entries rc = imap (shown_log b i txn) (Api.logs x))
  | _ => forall k, k < n -> is_ok (client_tx k) = false
  end.
Proof.
  intros Hv Hs Hrep. unfold eth_send_raw_transaction, invoke, send_raw_transaction.
  pose proof (rlp_decode_total raw) as Hd. destruct (rlp_decode raw) as [u|e|] eqn:Hu; [| |done].
  2: { cbn. split; [lia|]. intros k Hk. lia. }
  destruct (signed_new u) as [txn|e|] eqn:Hn; [|cbn; split; [lia|]; intros k Hk; lia..].
  destruct (submit_spec client_tx txn MAX_RETRIES 0) as (i & Hi & Hlow & _ & ->).
  cbn [Nat.add] in *. destruct (client_tx i) as [x|e|] eqn:Hx; cbn [omap_ok map_err fst snd].
  - split; [unfold MAX_RETRIES in Hi; lia|].
    destruct (Hrep i x Hx) as (b & j & txn' & Hin & Hc).
    pose proof (carried_transaction _ _ _ _ _ _ Hin Hc) as Htxn. rewrite Hu in Htxn. cbn in Htxn.
    rewrite Hn in Htxn. injection Htxn as <-.
    destruct (receipt_of_execution chain node b j txn x Hv Hs Hin)
      as (rc & b' & i' & txn' & x' & Hrc & Hin' & Hh' & Hth & Hpl & Hg & Hst & Hent).
    exists b, j, txn, x, rc. rewrite Nat.sub_succ, Nat.sub_0_r. split_and!; try done.
    intros Honce. destruct (Honce _ _ _ _ Hin' Hh') as [-> ->].
    by destruct (executed_functional _ _ _ _ _ _ _ Hin Hin') as [-> ->].
  - split; [unfold MAX_RETRIES in Hi; lia|]. intros k Hk.
    destruct (decide (k = i)) as [->|]; [by rewrite Hx|by rewrite Hlow by lia].
  - split; [unfold MAX_RETRIES in Hi; lia|]. intros k Hk.
    destruct (decide (k = i)) as [->|]; [by rewrite Hx|by rewrite Hlow by lia].
Qed.

End lemmas.
End submission.

(** ** Witnesses *)

Module Witness.
#[local] Existing Instance Model.ops.
#[local] Existing Instance EthModel.ops.
#[local] Existing Instance EthModel.laws.
#[local] Existing Instance OasisModel.ops.
#[local] Existing Instance OasisModel.laws.
#[local] Existing Instance QueryModel.ops.
#[local] Existing Instance QueryModel.laws.
#[local] Existing Instance RpcModel.ops.
#[local] Existing Instance Dispatcher.Witness.model_decoders.
#[local] Existing Instance Chain.Witness.codec.
#[local] Existing Instance Chain.Witness.codec_laws.

Definition block42 : Block := Chain.Witness.block_at 42 Dispatcher.Witness.batch.
Definition raw1 : bytes := Methods.Witness.raw x01 1 30000.

(** The first block is full, the second submission is executed. *)
Definition client_tx (k : nat) : outcome AnyError ExecutionResult :=
  match k with
  | 0 => Err (ErrTransaction BlockGasLimitReached)
  | _ => Ok (Translator.Witness.result x01)
  end.

Lemma executed_once_42 :
  executed_in Chain.Witness.chain2 block42 0 (Methods.Witness.signed x01 30000)
    (Translator.Witness.result x01).
Proof.
  split; [by left|]. eexists. split_and!; [reflexivity|vm_compute; reflexivity|vm_compute; reflexivity].
Qed.

Lemma submitted_is_reported_witness :
  (eth_send_raw_transaction client_tx raw1).2 = 2 /\
  exists rc, EthRpc.transaction_receipt Chain.Witness.node2 [x01] = Ok (Some rc) /\
    transaction_hash rc = [x01].
Proof.
  destruct (submitted_is_reported Chain.Witness.runtime0 Chain.Witness.chain2 Chain.Witness.node2
    raw1 client_tx) as [_ H].
  - exact Chain.Witness.chain2_valid.
  - apply Chain.Witness.node_of_serves.
  - intros k x Hk. destruct k as [|k]; [discriminate Hk|]. injection Hk as <-.
    exists block42, 0, (Methods.Witness.signed x01 30000). split; [exact executed_once_42|].
    eexists _, _. split_and!; [reflexivity|reflexivity|vm_compute; reflexivity].
  - assert ((eth_send_raw_transaction client_tx raw1).1 = Ok [x01]) as Hsent by (vm_compute; reflexivity).
    rewrite Hsent in H. destruct H as (b & i & txn & x & rc & _ & _ & _ & _ & _ & Hrc & Hh & _).
    split; [vm_compute; reflexivity|]. exists rc. split; [exact Hrc|exact Hh].
Defined.

End Witness.
