(* ===== verification/Subscriptions.v ===== *)
(** * Log subscriptions, from the runtime to the subscriber

    What a subscription to logs delivers over a run of the broker and of the
    tasks its notifications spawn ([PubSub]), while the node behind the
    gateway serves more and more of a chain of executed batches ([Chain]): the
    counterpart for subscriptions of the log query. *)

From Stdlib Require Import ZArith Lia Strings.Byte Sorted.
From stdpp Require Import base numbers relations gmap strings option sorting list.
From S2P Require Import Prelude Crypto Api OasisCore Ethcore Methods.
From S2P Require Import Dispatcher Runtime JsonRpc GatewayLib Translator PubSub EthRpc Chain.

Section subscriptions.
Context {M : Mrae} {E : Ethcore} {O : OasisCore} {OL : OasisCoreLaws O} {Q : EthQueries}
  {C : OutputCodec} {P : ParityRpc}.
Context {Client TxEntry TxFilter : Type} `{!EqDecision Client} {Listener : Type}
  `{!EqDecision Listener}.

Abbreviation Handler := (@ChainNotificationHandler Client TxFilter).
Abbreviation World := (@PubSub.World Client Listener).
Abbreviation Event := (@PubSub.Event O Client TxFilter Listener).

(** The logs among what a client is sent. *)
Definition log_for (c s : Client) (r : PubSubResult) : list LocalizedLogEntry :=
  if decide (s = c) then match r with LogResult l => [l] | _ => [] end else [].

Definition logs_to (c : Client) (sent : list (Client * PubSubResult)) : list LocalizedLogEntry :=
  n ← sent; log_for c n.1 n.2.

(** The subscriptions of a client to logs. *)
Definition filters_of (c : Client) (self : Handler) : list Filter :=
  (filter (fun s => s.1 = c) (logs_subscribers self).*2).*2.

(** A node that knows the blocks of [chain] up to the number [hi] at least:
    it serves a part of the chain the rest of which is later. *)
Record knows_up_to (chain : list Block) (hi : Z) (node : Node) : Prop := {
  up_to_served : exists seen rest, chain = seen ++ rest /\ serves node seen /\
    (forall b, b ∈ rest -> hi < number_u64 (snapshot b))%Z;
  up_to_blocks n : (1 <= n <= hi)%Z ->
    exists b, GatewayLib.get_block node n = Ok (Some b) /\ number_u64 b = n;
  up_to_waited n : (1 <= n <= hi)%Z -> wait_block_indexed node n = Ok tt
}.

(** The conditions of a run: at every poll the handler [l] is alive and the
    client [c] has the one subscription [f]; whenever a task runs, the sink of
    [c] takes notifications and the node knows the blocks that have been
    announced by then. *)
Definition subscribed (chain : list Block) (l : Listener) (c : Client) (f : Filter)
    (w : World) (e : Event) : Prop :=
  match e with
  | Poll _ alive subs => alive l = true /\ filters_of c subs = [f]
  | Run _ env =>
      accepts env c = true /\ knows_up_to chain (last_notified_block (broker w)) (query_node env)
  end.

(** ** Lemmas *)

Section chain.
Context {L : EthcoreLaws E} {QL : EthQueriesLaws Q} {DT : DecodersTotal} {CL : OutputCodecLaws C}.
Context {R : Type} {BR : BatchRuntime R} (r : R).

(** Blocks above the range do not matter. *)
Lemma chain_logs_seen f lo hi seen rest :
  (forall b, b ∈ rest -> hi < number_u64 (snapshot b))%Z ->
  chain_logs f lo hi (chain_entries (seen ++ rest)) = chain_logs f lo hi (chain_entries seen).
Proof.
  intros Hrest. unfold chain_entries. rewrite fmap_app, concat_app. unfold chain_logs.
  rewrite filter_app, fmap_app, fmap_app, concat_app, matching_app.
  rewrite (filter_none _ (concat (block_entries <$> rest))); [by rewrite app_nil_r|].
  intros [t tags] He. apply (elem_of_chain_entries rest) in He as (b & i & call & res & Hb & _ & _ & He).
  destruct (entry_place _ _ _ _ _ He) as [Hs _]. unfold in_range, entry_round. cbn [fst].
  rewrite Hs. specialize (Hrest b Hb). unfold number_u64 in Hrest. lia.
Qed.

(** What the query of a subscription finds when its task runs. *)
Lemma logs_of_range chain f node lo hi hi' :
  valid_chain r chain -> filter_wf f -> default 0%Z (filter_limit f) = 0%Z ->
  knows_up_to chain hi' node -> (1 <= lo <= hi)%Z -> (hi <= hi')%Z ->
  exists ls, logs node (limit_range lo hi f) = Ok ls /\
    ls ≡ₚ chain_logs f lo hi (chain_entries chain).
Proof.
  intros Hv Hwf Hlim [Hserved Hblocks Hwait] Hlo Hhi.
  destruct Hserved as (seen & rest & -> & Hs & Hrest).
  destruct (Hblocks lo) as (bf & Hbf & Hnf); [lia|].
  destruct (Hblocks hi) as (bt & Hbt & Hnt); [lia|].
  destruct (logs_answer node (chain_entries seen) (limit_range lo hi f) bf bt) as (found & Hrun & Hp).
  - apply (chain_indexed r); [by apply valid_prefix in Hv|done].
  - done.
  - done.
  - unfold get_block_unwrap. cbn. unfold get_block_by_round. by rewrite Hbf.
  - unfold get_block_unwrap. cbn. unfold get_block_by_round. by rewrite Hbt.
  - fold (number_u64 bt). rewrite Hnt. apply Hwait. lia.
  - eexists. split; [exact Hrun|]. rewrite sort_by_Permutation, Hp, Hnf, Hnt.
    rewrite chain_logs_seen; [by rewrite (chain_logs_content _ f)|].
    intros b Hb. specialize (Hrest b Hb). lia.
Qed.

(** What the log query of a subscriber owes the client. *)
Definition query_owes chain c f (s : Client) (f' : Filter) : list LocalizedLogEntry :=
  if decide (s = c) then
    match from_block f', to_block f' with
    | Number lo, Number hi => chain_logs f lo hi (chain_entries chain)
    | _, _ => []
    end
  else [].

Definition fits c f (last : Z) (t : @Task Client) : Prop :=
  match t with
  | FetchLogs s f' =>
      s = c -> exists lo hi, f' = limit_range lo hi f /\ (1 <= lo <= hi)%Z /\ (hi <= last)%Z
  | _ => True
  end.

Abbreviation owes chain c f := (all_owed (log_for c) (fun _ _ => []) (query_owes chain c f)).

Lemma owes_results chain c f s rs :
  owes chain c f (x ← rs; notify s x) = x ← rs; log_for c s x.
Proof.
  unfold all_owed. induction rs as [|x rs IH]; [done|]. cbn [mbind list_bind notify app owed].
  by rewrite <- IH.
Qed.

Lemma owes_heads chain c f node_at lo hi (later : Handler) :
  owes chain c f (fetched_heads node_at lo hi later) = [].
Proof.
  unfold fetched_heads. destruct (fetch_headers _ _ _) as [hs| |]; [|done..].
  unfold all_owed. induction hs as [|h hs IH]; [done|]. cbn [mbind list_bind]. rewrite bind_app, IH.
  rewrite app_nil_r. clear IH. induction (heads_subscribers later).*2 as [|s subs IH]; [done|].
  cbn [mbind list_bind notify app owed]. unfold log_for at 1. rewrite IH. by destruct (decide _).
Qed.

Lemma owes_logs chain c f node s f' :
  owes chain c f (fetched_logs node s f') =
  if decide (s = c) then from_ok [] (logs node f') else [].
Proof.
  unfold fetched_logs. destruct (logs node f') as [ls| |]; [|by destruct (decide _)..].
  transitivity (ls ≫= fun log => log_for c s (LogResult log)).
  - unfold all_owed. induction ls as [|log ls IH]; [done|]. cbn [mbind list_bind notify app owed].
    by rewrite <- IH.
  - unfold log_for. destruct (decide (s = c)); induction ls as [|log ls IH]; try done;
      cbn [mbind list_bind app from_ok] in *; by rewrite IH.
Qed.

Lemma poll_owes chain c f lo hi (subs : Handler) :
  filters_of c subs = [f] ->
  owes chain c f (notify_blocks lo hi subs) = chain_logs f lo hi (chain_entries chain).
Proof.
  intros Hf. unfold notify_blocks, all_owed. rewrite bind_app.
  assert (forall x, (notify_heads lo hi subs ≫= owed (log_for c) (fun _ _ => []) x) = []) as ->.
  { unfold notify_heads. by destruct (heads_subscribers subs). }
  cbn [app]. transitivity (filters_of c subs ≫= fun _ => chain_logs f lo hi (chain_entries chain)).
  - unfold notify_logs, filters_of. induction (logs_subscribers subs).*2 as [|[s f'] l IH]; [done|].
    cbn [fmap list_fmap mbind list_bind owed fst snd]. rewrite filter_cons. cbn [fst].
    unfold query_owes at 1. cbn [from_block to_block limit_range].
    destruct (decide (s = c)); cbn [fmap list_fmap mbind list_bind snd app]; by rewrite <- IH.
  - rewrite Hf. cbn. by rewrite app_nil_r.
Qed.

Lemma poll_fits c f lo hi last (subs : Handler) :
  filters_of c subs = [f] -> (1 <= lo <= hi)%Z -> (hi <= last)%Z ->
  Forall (fits c f last) (notify_blocks lo hi subs).
Proof.
  intros Hf Hlo Hhi. apply Forall_app. split.
  { unfold notify_heads. by destruct (heads_subscribers subs); [|apply Forall_singleton]. }
  apply Forall_forall. intros t Ht. apply list_elem_of_fmap in Ht as ([s f'] & -> & Hs).
  intros Hsc. cbn in Hsc. subst s. exists lo, hi. cbn [snd]. split; [|by split].
  assert (f' ∈ filters_of c subs) as Hin.
  { apply list_elem_of_fmap. exists (c, f'). split; [done|]. by apply list_elem_of_filter. }
  rewrite Hf in Hin. by apply list_elem_of_singleton in Hin as ->.
Qed.

Lemma run_owes chain c f (env : Env) t last :
  valid_chain r chain -> filter_wf f -> default 0%Z (filter_limit f) = 0%Z ->
  accepts env c = true -> knows_up_to chain last (query_node env) -> fits c f last t ->
  let '(out, spawned) := run_task (TxFilter:=TxFilter) env t in
  gained (log_for c) out ++ owes chain c f spawned ≡ₚ
    owed (log_for c) (fun _ _ => []) (query_owes chain c f) t /\
  Forall (fits c f last) spawned.
Proof.
  intros Hv Hwf Hlim Hacc Hk Hfits.
  pose proof (spawned_notify env t) as Hs. destruct (run_task env t) as [out spawned] eqn:Ht.
  split.
  2:{ eapply Forall_impl; [exact Hs|]. by intros []. }
  destruct t as [lo hi|s f'|s x]; injection Ht as <- <-; cbn [owed].
  - by rewrite owes_heads.
  - rewrite owes_logs. cbn [app gained mbind list_bind]. unfold query_owes.
    destruct (decide (s = c)) as [->|]; [|done].
    destruct (Hfits eq_refl) as (lo & hi & -> & Hlo & Hhi).
    destruct (logs_of_range chain f (query_node env) lo hi last) as (ls & -> & Hp); [done..|].
    by cbn [from_ok from_block to_block limit_range].
  - destruct (decide (s = c)) as [->|Hne].
    + rewrite Hacc. unfold gained. cbn. by rewrite !app_nil_r.
    + unfold gained, log_for. rewrite (decide_False (P:=s = c)) by done.
      destruct (accepts env s); cbn; [by rewrite decide_False|done].
Qed.

(** ** Properties *)

(** C4. A logs subscription delivers what the runtime logged: over any run of
    the broker that does not abort, with whatever latest blocks the node
    reports and in whatever order the spawned tasks run, a client of a living
    handler with one subscription is never sent a log twice and only logs the
    executions in the blocks after the last notified one up to the highest
    one seen have emitted and the filter matches, each with the block, the
    position and the transaction that emitted it; and once no task is pending
    it has been sent all of them.  In which order they arrive is up to the
    executor. *)
Theorem logs_follow_chain chain l c f es self w :
  valid_chain r chain -> filter_wf f -> default 0%Z (filter_limit f) = 0%Z ->
  NoDup (listeners self) -> l ∈ listeners self -> (0 <= last_notified_block self)%Z ->
  throughout (subscribed chain l c f) l es (world_new self) ->
  reacts l es (world_new self) = (Ok tt, w) ->
  let ls := logs_to c (sent w) in
  let emitted log := exists b i txn x j e,
    executed_in chain b i txn x /\
    (last_notified_block self < number_u64 (snapshot b) <= last_notified_block (broker w))%Z /\
    Api.logs x !! j = Some e /\ filter_matches f (eth_log e) = true /\
    log = shown_log b i txn j e in
  NoDup ls /\ (forall log, log ∈ ls -> emitted log) /\
  (pending w = [] -> forall log, emitted log -> log ∈ ls) /\
  last_notified_block (broker w) = highest (last_notified_block self) (polls_of es).
Proof.
  intros Hv Hwf Hlim Hnd Hin H0 Hgood Hrun ls emitted.
  set (start := last_notified_block self) in *.
  destruct (run_accounts (log_for c) (fun _ _ => []) (query_owes chain c f)
    (fun lo hi => chain_logs f lo hi (chain_entries chain)) l start (fits c f)
    (subscribed chain l c f)) with (es := es) (self := self) (w := w)
    as (Hsub & Hall & Hlast); try done.
  - intros m n [] Hmn Hf; try done. intros Hs. destruct (Hf Hs) as (lo & hi & ? & ? & ?).
    exists lo, hi. split; [done|lia].
  - apply chain_logs_empty. lia.
  - intros m n Hmn. rewrite (chain_logs_split f (start + 1) (m + 1) n) by lia.
    by rewrite Z.add_simpl_r.
  - intros w1 blk alive subs [Hal Hf] last Hl ts. split_and!; [done| |].
    + unfold ts. by rewrite poll_owes.
    + apply poll_fits; [done|lia|lia].
  - intros w1 i env t [Hacc Hk] last Hf. by apply run_owes.
  - fold ls in Hsub, Hall.
    assert (forall log, log ∈ chain_logs f (start + 1) (last_notified_block (broker w))
      (chain_entries chain) <-> emitted log) as Hem.
    { intros log. rewrite (executed_logs r) by done. unfold emitted.
      split; intros (b & i & txn & x & j & e & ? & ? & ?); exists b, i, txn, x, j, e;
        (split; [done|]); (split; [lia|done]). }
    split_and!; [| | |done].
    + apply submseteq_Permutation in Hsub as [rest Hrest].
      apply (NoDup_app (gained (log_for c) (sent w)) rest). rewrite <- Hrest.
      by apply (chain_logs_NoDup r).
    + intros log Hlog. apply Hem. by eapply elem_of_submseteq.
    + intros Hp log Hlog. apply Hem in Hlog. change ls with (gained (log_for c) (sent w)).
      by rewrite (Hall Hp).
Qed.

End chain.
End subscriptions.

(** ** Witnesses *)

Module Witness.
#[local] Existing Instance Model.ops.
#[local] Existing Instance EthModel.ops.
#[local] Existing Instance EthModel.laws.
#[local] Existing Instance OasisModel.ops.
#[local] Existing Instance OasisModel.laws.
#[local] Existing Instance QueryModel.ops.
#[local] Existing Instance QueryModel.laws.
#[local] Existing Instance RpcModel.ops.
#[local] Existing Instance Dispatcher.Witness.model_decoders.
#[local] Existing Instance Chain.Witness.codec.
#[local] Existing Instance Chain.Witness.codec_laws.

Definition block42 := Chain.Witness.block_at 42 Dispatcher.Witness.batch.
Definition block43 := Chain.Witness.block_at 43 Chain.Witness.batch2.

(** The subscriber 5 wants all logs. *)
Definition handler5 : @ChainNotificationHandler nat nat :=
  (subscribe (JsonRpc.Num 1) 5 Logs (Some (LogsParams Chain.Witness.any_log)) handler_new).2.

(** A node that also knows the blocks before the chain, without transactions. *)
Definition node_up_to (chain : list Block) (latest : BlockSnapshot) : Node :=
  let node := Chain.Witness.node_of chain latest in {|
    GatewayLib.get_latest_block := Ok latest;
    GatewayLib.get_block := fun n =>
      Ok (Some {| block_header := Chain.Witness.header_at n; block_hash := [byte_of_Z n] |});
    GatewayLib.get_block_by_hash := fun _ => Ok None;
    get_tx := fun _ _ => Ok None;
    get_tx_by_block_hash := fun _ _ => Ok None;
    get_txs := fun _ _ => Ok [];
    query_tx := query_tx node;
    query_txs := query_txs node;
    wait_block_indexed := fun _ => Ok tt;
    ROUND_LATEST := 0
  |}.

(** A task that runs when the node knows [seen], and a poll that finds [b]
    the latest block. *)
Definition run_at (i : nat) (seen : list Block) (b : Block) : @Event _ nat nat nat := Run i {|
  node_at := fun _ => node_up_to seen (snapshot b);
  query_node := node_up_to seen (snapshot b);
  subscribers := handler5;
  accepts := fun _ => true
|}.

Definition poll_at (b : Block) : @Event _ nat nat nat := Poll (Ok (snapshot b)) (fun _ => true) handler5.

(** Block 42 is seen twice, and block 43 before the query for 42 has run: the
    query for 43 is run first, and its log is sent first. *)
Definition run43 : list (@Event _ nat nat nat) :=
  [poll_at block42; poll_at block42; poll_at block43;
   run_at 1 [block42; block43] block43; run_at 1 [block42; block43] block43;
   run_at 0 [block42; block43] block43; run_at 1 [block42; block43] block43;
   run_at 0 [block42; block43] block43].

Definition world43 : @World nat nat :=
  (reacts 7 run43 (world_new PubSub.Witness.broker1)).2.

Lemma node_up_to_knows hi b : (hi <= 43)%Z ->
  knows_up_to Chain.Witness.chain2 hi (node_up_to [block42; block43] (snapshot b)).
Proof.
  intros Hhi. constructor.
  - exists [block42; block43], []. split; [done|]. split.
    + destruct (Chain.Witness.node_of_serves [block42; block43] (snapshot b)) as [Hq Ht].
      by constructor.
    + intros b' Hb'. by apply elem_of_nil in Hb'.
  - intros n Hn. eexists. split; [reflexivity|done].
  - done.
Qed.

Lemma logs_follow_chain_witness :
  NoDup (logs_to 5 (sent world43)) /\
  ((fun l => (log_block_number l, log_transaction_index l)) <$> logs_to 5 (sent world43)) =
    [(43, 0); (42, 3); (42, 0)]%Z.
Proof.
  destruct (logs_follow_chain Chain.Witness.runtime0 Chain.Witness.chain2 7 5 Chain.Witness.any_log
    run43 PubSub.Witness.broker1 world43) as (Hnd & _).
  - exact Chain.Witness.chain2_valid.
  - split; [done|]. intros [|i] ts Hi; done.
  - reflexivity.
  - apply NoDup_singleton.
  - by left.
  - done.
  - cbn [throughout run43]. split_and!; try exact I; (split; [reflexivity|]);
      try reflexivity; apply node_up_to_knows; vm_compute; discriminate.
  - apply reacts_ok. vm_compute. reflexivity.
  - split; [exact Hnd|]. vm_compute. reflexivity.
Defined.

End Witness.
