(* ===== verification/Heads.v ===== *)
(** * Head subscriptions, from the runtime to the subscriber

    What a newHeads subscription delivers over a run of the broker and of the
    tasks its notifications spawn ([PubSub]), while the node behind the
    gateway serves a chain of executed batches ([Chain]). *)

From Stdlib Require Import ZArith Lia Strings.Byte Sorted.
From stdpp Require Import base numbers relations gmap strings option sorting list.
From S2P Require Import Prelude Crypto Api OasisCore Ethcore Methods.
From S2P Require Import Dispatcher Runtime JsonRpc GatewayLib Translator PubSub EthRpc Chain.

Section heads.
Context {M : Mrae} {E : Ethcore} {O : OasisCore} {OL : OasisCoreLaws O} {Q : EthQueries}
  {P : ParityRpc}.
Context {Client TxFilter : Type} `{!EqDecision Client} {Listener : Type} `{!EqDecision Listener}.

Abbreviation World := (@PubSub.World Client Listener).
Abbreviation Event := (@PubSub.Event O Client TxFilter Listener).
Abbreviation number b := (number_u64 (snapshot b)).

(** The blocks of the chain with numbers from [lo] to [hi]. *)
Definition numbered (lo hi : Z) (chain : list Block) : list Block :=
  filter (fun b => lo <= number b <= hi)%Z chain.

(** The headers among what a client is sent. *)
Definition header_for (c s : Client) (r : PubSubResult) : list RichHeader :=
  if decide (s = c) then match r with HeaderResult h => [h] | _ => [] end else [].

Definition headers_to (c : Client) (sent : list (Client * PubSubResult)) : list RichHeader :=
  n ← sent; header_for c n.1 n.2.

(** The conditions of a run: at every poll the handler [l] is alive, the
    client [c] subscribed and the latest block one of the chain; whenever a
    task runs, [c] is still subscribed, once, its sink takes notifications and
    the node serves the blocks that have been announced by then. *)
Definition subscribed (chain : list Block) (l : Listener) (c : Client) (w : World) (e : Event)
  : Prop :=
  match e with
  | Poll latest alive subs =>
      alive l = true /\ c ∈ (heads_subscribers subs).*2 /\
      forall blk, latest = Ok blk -> exists b, b ∈ chain /\ snapshot b = blk
  | Run _ env =>
      c ∈ (heads_subscribers (subscribers env)).*2 /\
      NoDup (heads_subscribers (subscribers env)).*2 /\ accepts env c = true /\
      forall b, b ∈ chain -> (number b <= last_notified_block (broker w))%Z ->
        GatewayLib.get_block (node_at env (number b)) (number b) = Ok (Some (snapshot b))
  end.

(** ** Lemmas *)

Section chain.
Context {R : Type} {BR : BatchRuntime R} (r : R).

(** The blocks of a chain are numbered one after the other. *)
Lemma valid_consecutive chain :
  valid_chain r chain -> exists n, (fun b => number b) <$> chain = seqZ n (len chain).
Proof.
  revert chain. refine (valid_chain_ind r _ _ _); [by exists 0%Z|].
  intros chain chain' _ [n IH] Hs. destruct Hs as [chain ctx res b _ Hf _ _ Hn].
  destruct chain as [|b' chain _] using rev_ind; [by exists (number b)|].
  exists n. specialize (Hf b' ltac:(by rewrite last_snoc)).
  assert (last ((fun b => number b) <$> chain ++ [b']) = Some (number b')) as Hlast.
  { by rewrite fmap_last, last_snoc. }
  rewrite IH in Hlast. rewrite fmap_app, IH. unfold len in *.
  rewrite (length_app (chain ++ [b']) [b]). cbn [length].
  rewrite Nat.add_1_r, seqZ_S. f_equal. cbn [fmap list_fmap]. f_equal.
  rewrite Hn, Hf. fold (number_u64 (snapshot b')).
  rewrite length_app, Nat.add_1_r, seqZ_S, last_snoc in Hlast. injection Hlast as <-.
  rewrite length_app. cbn [length]. lia.
Qed.

(** The numbers of a range that is within the chain. *)
Lemma numbered_numbers n chain lo hi :
  (fun b => number b) <$> chain = seqZ n (len chain) -> (n <= lo)%Z ->
  (hi < lo \/ hi < n + len chain)%Z ->
  (fun b => number b) <$> numbered lo hi chain = seqZ lo (hi - lo + 1).
Proof.
  intros Hn Hlo Hhi. unfold numbered.
  destruct (decide (lo <= hi)%Z) as [Hle|Hle].
  2:{ rewrite filter_none by (intros b _; lia). by rewrite seqZ_nil by lia. }
  transitivity (filter (fun k => lo <= k <= hi)%Z ((fun b => number b) <$> chain)).
  { clear. induction chain as [|b chain IH]; [done|]. cbn [fmap list_fmap].
    rewrite !filter_cons. destruct (decide _); cbn [fmap list_fmap]; by rewrite IH. }
  rewrite Hn. remember (hi - lo + 1)%Z as w eqn:Hw. remember (n + len chain - hi - 1)%Z as after eqn:Ha.
  replace (len chain) with ((lo - n) + (w + after))%Z by lia.
  rewrite !seqZ_app, !filter_app by lia.
  rewrite (filter_none _ (seqZ n _)) by (intros k Hk%elem_of_seqZ; lia).
  rewrite (filter_all _ (seqZ _ w)) by (intros k Hk%elem_of_seqZ; lia).
  rewrite (filter_none _ (seqZ _ after)) by (intros k Hk%elem_of_seqZ; lia).
  cbn [app]. rewrite app_nil_r. f_equal. lia.
Qed.

(** Two ranges that meet. *)
Lemma numbered_split chain a b d :
  (a <= b <= d)%Z ->
  numbered (a + 1) b chain ++ numbered (b + 1) d chain ≡ₚ numbered (a + 1) d chain.
Proof.
  intros Hab. unfold numbered. induction chain as [|blk chain IH]; [done|].
  rewrite !filter_cons. repeat case_decide; try lia; cbn [app]; rewrite <- ?IH; try done.
  by rewrite Permutation_middle.
Qed.

(** What the tasks owe the client; a fetch is of blocks of the chain. *)
Definition heads_of (lo hi : Z) (chain : list Block) : list RichHeader :=
  rich_header ∘ snapshot <$> numbered lo hi chain.

Definition fits (first bound last : Z) (t : @Task Client) : Prop :=
  match t with
  | FetchHeads lo hi => (first <= lo)%Z /\ (hi <= last)%Z /\ (hi < bound)%Z
  | _ => True
  end.

Abbreviation owes chain c :=
  (all_owed (header_for c) (fun lo hi => heads_of lo hi chain) (fun _ _ => [])).

Lemma owes_notified chain c ts :
  Forall (fun t => is_notify t = true) ts ->
  owes chain c ts = x ← notified_to c ts; header_for c c x.
Proof.
  induction 1 as [|t ts Ht _ IH]; [done|]. destruct t as [| |s x]; [done|done|].
  unfold all_owed, notified_to in *. cbn [mbind list_bind omap list_omap owed]. rewrite IH.
  destruct (decide (s = c)) as [->|Hne]; [done|]. unfold header_for at 1.
  by rewrite decide_False.
Qed.

Lemma owes_no_header chain c node s f : owes chain c (fetched_logs node s f) = [].
Proof.
  unfold fetched_logs, all_owed. destruct (logs node f) as [ls| |]; [|done..].
  induction ls as [|log ls IH]; [done|]. cbn [mbind list_bind notify app owed]. rewrite IH.
  unfold header_for. by destruct (decide _).
Qed.

(** The fetch of a range of the chain. *)
Lemma owes_fetched chain c n (env : Env) lo hi last :
  (fun b => number b) <$> chain = seqZ n (len chain) ->
  (n <= lo)%Z -> (hi <= last)%Z -> (hi < n + len chain)%Z ->
  c ∈ (heads_subscribers (TxFilter:=TxFilter) (subscribers env)).*2 ->
  NoDup (heads_subscribers (subscribers env)).*2 ->
  (forall b, b ∈ chain -> (number b <= last)%Z ->
     GatewayLib.get_block (node_at env (number b)) (number b) = Ok (Some (snapshot b))) ->
  owes chain c (fetched_heads (node_at env) lo hi (subscribers env)) = heads_of lo hi chain.
Proof.
  intros Hn Hlo Hhi Hbound Hc Hnd Hserved.
  rewrite owes_notified by apply (spawned_notify env (FetchHeads lo hi)).
  unfold fetched_heads. rewrite (fetch_headers_of (fun b => number b) snapshot _ _ _ (numbered lo hi chain)).
  - rewrite notified_fanout by done. fold (heads_of lo hi chain).
    induction (heads_of lo hi chain) as [|h hs IH]; [done|].
    cbn [fmap list_fmap mbind list_bind]. rewrite IH. unfold header_for. by rewrite decide_True.
  - by apply (numbered_numbers n); [| |right].
  - intros b [Hb Hin]%list_elem_of_filter. apply Hserved; [done|lia].
Qed.

Lemma head_poll_owes chain c lo hi (subs : ChainNotificationHandler (Client:=Client) (TxFilter:=TxFilter)) :
  c ∈ (heads_subscribers subs).*2 ->
  owes chain c (notify_blocks lo hi subs) = heads_of lo hi chain.
Proof.
  intros Hc. unfold notify_blocks, notify_heads, all_owed.
  destruct (heads_subscribers subs); [by apply elem_of_nil in Hc|].
  cbn [app mbind list_bind owed]. unfold notify_logs.
  induction (logs_subscribers subs).*2 as [|s ls IH]; [by cbn; rewrite app_nil_r|done].
Qed.

Lemma head_poll_fits first bound lo hi last c
    (subs : ChainNotificationHandler (Client:=Client) (TxFilter:=TxFilter)) :
  c ∈ (heads_subscribers subs).*2 -> (first <= lo)%Z -> (hi <= last)%Z -> (hi < bound)%Z ->
  Forall (fits first bound last) (notify_blocks lo hi subs).
Proof.
  intros Hc Hlo Hhi Hb. apply Forall_app. split.
  - unfold notify_heads. destruct (heads_subscribers subs); [constructor|by apply Forall_singleton].
  - apply Forall_forall. by intros t (s & -> & _)%list_elem_of_fmap.
Qed.

Lemma head_run_owes chain c n first (env : Env) t last :
  (fun b => number b) <$> chain = seqZ n (len chain) -> (n <= first)%Z ->
  c ∈ (heads_subscribers (TxFilter:=TxFilter) (subscribers env)).*2 ->
  NoDup (heads_subscribers (subscribers env)).*2 -> accepts env c = true ->
  (forall b, b ∈ chain -> (number b <= last)%Z ->
     GatewayLib.get_block (node_at env (number b)) (number b) = Ok (Some (snapshot b))) ->
  fits first (n + len chain) last t ->
  let '(out, spawned) := run_task env t in
  gained (header_for c) out ++ owes chain c spawned ≡ₚ
    owed (header_for c) (fun lo hi => heads_of lo hi chain) (fun _ _ => []) t /\
  Forall (fits first (n + len chain) last) spawned.
Proof.
  intros Hn Hfirst Hc Hnd Hacc Hserved Hfits.
  pose proof (spawned_notify env t) as Hs. destruct (run_task env t) as [out spawned] eqn:Ht.
  split; [|eapply Forall_impl; [exact Hs|]; by intros []].
  destruct t as [lo hi|s f|s x]; injection Ht as <- <-; cbn [owed].
  - destruct Hfits as (Hlo & Hhi & Hb). by rewrite (owes_fetched chain c n env lo hi last) by (done || lia).
  - by rewrite owes_no_header.
  - destruct (decide (s = c)) as [->|Hne].
    + rewrite Hacc. unfold gained. cbn. by rewrite !app_nil_r.
    + unfold gained, header_for. rewrite (decide_False (P:=s = c)) by done.
      destruct (accepts env s); cbn; [by rewrite decide_False|done].
Qed.

(** ** Properties *)

(** C5. A newHeads subscription delivers the executed chain: over any run of
    the broker that does not abort, with whatever blocks of the chain the node
    reports as the latest and in whatever order the spawned tasks run, a
    client of a living handler that stays subscribed is only sent the headers
    of the blocks the runtime executed after the last notified one, up to the
    highest one seen, none more often than once; and once no task is pending
    it has been sent each of them exactly once.  In which order they arrive is
    up to the executor. *)
Theorem heads_follow_executions chain b0 l c es self w :
  valid_chain r chain -> head chain = Some b0 -> (number b0 <= last_notified_block self + 1)%Z ->
  NoDup (listeners self) -> l ∈ listeners self ->
  throughout (subscribed chain l c) l es (world_new self) ->
  reacts l es (world_new self) = (Ok tt, w) ->
  let executed := rich_header ∘ snapshot <$>
    numbered (last_notified_block self + 1) (last_notified_block (broker w)) chain in
  NoDup executed /\ headers_to c (sent w) ⊆+ executed /\
  (pending w = [] -> headers_to c (sent w) ≡ₚ executed) /\
  last_notified_block (broker w) = highest (last_notified_block self) (polls_of es).
Proof.
  intros Hv Hb0 Hfirst Hnd Hin Hgood Hrun executed.
  destruct (valid_consecutive chain Hv) as [n Hn].
  assert (number b0 = n) as Hn0.
  { destruct chain; [done|]. injection Hb0 as ->. cbn [fmap list_fmap] in Hn. unfold len in Hn.
    cbn [length] in Hn. rewrite Nat2Z.inj_succ, seqZ_cons in Hn by lia. by injection Hn. }
  set (start := last_notified_block self) in *.
  destruct (run_accounts (header_for c) (fun lo hi => heads_of lo hi chain) (fun _ _ => [])
    (fun lo hi => heads_of lo hi chain) l start (fits (start + 1) (n + len chain))
    (subscribed chain l c)) with (es := es) (self := self) (w := w)
    as (Hsub & Hall & Hlast); try done.
  - intros a b [] Hab Hf; try done. cbn in *. lia.
  - unfold heads_of, numbered. rewrite filter_none; [done|]. intros b _. lia.
  - intros a b Hab. unfold heads_of. rewrite <- fmap_app. by rewrite (numbered_split chain start a b).
  - intros w1 blk alive subs (Hal & Hc & Hlat) last Hl ts. split_and!; [done| |].
    + unfold ts. by rewrite (head_poll_owes chain c).
    + destruct (Hlat blk eq_refl) as (b & Hb & <-). apply (head_poll_fits _ _ _ _ _ c); [done|lia|lia|].
      assert (number b ∈ seqZ n (len chain)) as Hr%elem_of_seqZ; [|lia].
      rewrite <- Hn. apply list_elem_of_fmap. by exists b.
  - intros w1 i env t (Hc & Hndc & Hacc & Hserved) last Hf.
    by apply (head_run_owes chain c n (start + 1)); [|lia|..].
  - split_and!; [|exact Hsub|exact Hall|exact Hlast].
    unfold executed. apply (NoDup_fmap_1 (fun h => default 0%Z (rh_number h))).
    rewrite <- list_fmap_compose.
    change (NoDup ((fun b => number b) <$> numbered (start + 1) (last_notified_block (broker w)) chain)).
    apply NoDup_fmap_filter. rewrite Hn. apply NoDup_seqZ.
Qed.

End chain.
End heads.

(** ** Witnesses *)

Module Witness.
#[local] Existing Instance Model.ops.
#[local] Existing Instance EthModel.ops.
#[local] Existing Instance EthModel.laws.
#[local] Existing Instance OasisModel.ops.
#[local] Existing Instance OasisModel.laws.
#[local] Existing Instance QueryModel.ops.
#[local] Existing Instance RpcModel.ops.
#[local] Existing Instance Dispatcher.Witness.model_decoders.
#[local] Existing Instance Chain.Witness.codec.

Definition block42 := Chain.Witness.block_at 42 Dispatcher.Witness.batch.
Definition block43 := Chain.Witness.block_at 43 Chain.Witness.batch2.

(** The broker has announced block 41; the subscriber 5 is one of two. *)
Definition broker41 : Broker nat := {| last_notified_block := 41; listeners := [7] |}.

Definition poll_at (b : Block) : @Event _ nat nat nat :=
  Poll (Ok (snapshot b)) (fun _ => true) PubSub.Witness.handler1.

Definition run_at (i : nat) (b : Block) : @Event _ nat nat nat :=
  let node := Chain.Witness.node_of Chain.Witness.chain2 (snapshot b) in
  Run i {| node_at := fun _ => node; query_node := node;
           subscribers := PubSub.Witness.handler1; accepts := fun _ => true |}.

(** Block 42 is seen twice, then block 43; the task that notifies 5 of block
    43 runs before the one for block 42. *)
Definition run43 : list (@Event _ nat nat nat) :=
  [poll_at block42; poll_at block42; run_at 0 block42; poll_at block43; run_at 2 block43;
   run_at 3 block43; run_at 2 block43; run_at 0 block43; run_at 0 block43].

Definition world43 : @World nat nat := (reacts 7 run43 (world_new broker41)).2.

Lemma chain_served i b w :
  subscribed (Client:=nat) (TxFilter:=nat) Chain.Witness.chain2 7 5 w (run_at i b).
Proof.
  cbn [subscribed run_at subscribers node_at accepts]. split_and!.
  - vm_compute. set_solver.
  - vm_compute. repeat constructor; set_solver.
  - done.
  - intros b' Hb' _. unfold Chain.Witness.chain2 in Hb'.
    apply elem_of_cons in Hb' as [->|Hb']; [reflexivity|].
    apply list_elem_of_singleton in Hb' as ->. reflexivity.
Qed.

Lemma poll_subscribed b w :
  b ∈ Chain.Witness.chain2 ->
  subscribed (Client:=nat) (TxFilter:=nat) Chain.Witness.chain2 7 5 w (poll_at b).
Proof.
  intros Hb. cbn [subscribed poll_at]. split_and!; [done|vm_compute; set_solver|].
  intros blk [= <-]. by exists b.
Qed.

Lemma heads_follow_executions_witness :
  headers_to 5 (sent world43) = [rich_header (snapshot block43); rich_header (snapshot block42)] /\
  headers_to 5 (sent world43) ≡ₚ [rich_header (snapshot block42); rich_header (snapshot block43)].
Proof.
  split; [vm_compute; reflexivity|].
  refine (proj1 (proj2 (proj2 (heads_follow_executions Chain.Witness.runtime0 Chain.Witness.chain2
    block42 7 5 run43 broker41 world43 _ _ _ _ _ _ _))) _).
  - exact Chain.Witness.chain2_valid.
  - reflexivity.
  - vm_compute. discriminate.
  - apply NoDup_singleton.
  - by left.
  - cbn [throughout run43]. split_and!; try exact I;
      first [apply chain_served|apply poll_subscribed; (by left) || (by right; left)].
  - apply reacts_ok. vm_compute. reflexivity.
  - vm_compute. reflexivity.
Defined.

End Witness.
