(* ===== verification/Polls.v ===== *)
(** * Polling a log filter, from the runtime to the client

    What the polls of a log filter ([EthFilter]) report while the node behind
    the gateway serves more and more of a chain of executed batches
    ([Chain]). *)

From Stdlib Require Import ZArith Lia Strings.Byte.
From stdpp Require Import base numbers relations gmap strings option sorting list.
From S2P Require Import Prelude Crypto Api OasisCore Ethcore Methods.
From S2P Require Import Dispatcher Runtime JsonRpc GatewayLib Translator EthFilter EthRpc Chain.

Section polls.
Context {M : Mrae} {E : Ethcore} {O : OasisCore} {OL : OasisCoreLaws O} {Q : EthQueries}
  {C : OutputCodec} {P : ParityRpc} {PM : PollManagerOps}.

(** A node at block [n]: it knows the blocks up to it, and serves the part of
    the chain up to it. *)
Record knows (chain : list Block) (blocks : Z -> BlockSnapshot) (node : Node) (n : Z) : Prop := {
  knows_latest : get_latest_block node = Ok (blocks n);
  knows_block i : (0 <= i)%Z ->
    GatewayLib.get_block node i = Ok (if (i <=? n)%Z then Some (blocks i) else None);
  knows_wait : wait_block_indexed node n = Ok tt;
  knows_chain : exists known rest, chain = known ++ rest /\ serves node known /\
    (forall b, b ∈ known -> number_u64 (snapshot b) <= n)%Z /\
    (forall b, b ∈ rest -> n < number_u64 (snapshot b))%Z
}.

(** The node goes on from poll to poll, and possibly during one. *)
Fixpoint goes_on (chain : list Block) (blocks : Z -> BlockSnapshot) (lo : Z) (ms : list moment)
  : Prop :=
  match ms with
  | [] => True
  | m :: ms' =>
      (lo <= seen m <= upto m)%Z /\ (seen m + 1 < u64_modulus)%Z /\
      get_latest_block (before m) = Ok (blocks (seen m)) /\
      knows chain blocks (after m) (upto m) /\
      goes_on chain blocks (upto m) ms'
  end.

(** ** Lemmas *)

Section lemmas.
Context {L : EthcoreLaws E} {QL : EthQueriesLaws Q} {DT : DecodersTotal} {CL : OutputCodecLaws C}
  {PML : PollManagerLaws PM}.
Context {R : Type} {BR : BatchRuntime R} (r : R).

(** The entries up to block [n] are those of the blocks up to it. *)
Lemma entries_up_to n known rest :
  (forall b, b ∈ known -> number_u64 (snapshot b) <= n)%Z ->
  (forall b, b ∈ rest -> n < number_u64 (snapshot b))%Z ->
  filter (fun e => entry_round e.1 <= n)%Z (chain_entries (known ++ rest)) = chain_entries known.
Proof.
  intros Hk Hr. unfold chain_entries. rewrite fmap_app, concat_app, filter_app.
  rewrite (filter_none _ (concat (block_entries <$> rest))), app_nil_r.
  - rewrite filter_all; [done|]. intros [t tags] He.
    apply (elem_of_chain_entries known) in He as (b & i & call & res & Hb & _ & _ & He).
    destruct (entry_place _ _ _ _ _ He) as [Hs _]. unfold entry_round. cbn [fst]. rewrite Hs.
    by apply Hk.
  - intros [t tags] He.
    apply (elem_of_chain_entries rest) in He as (b & i & call & res & Hb & _ & _ & He).
    destruct (entry_place _ _ _ _ _ He) as [Hs _]. unfold entry_round. cbn [fst]. rewrite Hs.
    specialize (Hr b Hb). unfold number_u64 in Hr. lia.
Qed.

Lemma knows_synced chain blocks node n :
  valid_chain r chain -> knows chain blocks node n -> synced blocks (chain_entries chain) node n.
Proof.
  intros Hv [Hl Hb Hw (known & rest & -> & Hs & Hk & Hr)]. constructor; [done|done|done|].
  rewrite entries_up_to by done. apply (chain_indexed r); [by apply valid_prefix in Hv|done].
Qed.

Lemma goes_on_growing chain blocks lo ms :
  valid_chain r chain -> goes_on chain blocks lo ms -> growing blocks (chain_entries chain) lo ms.
Proof.
  intros Hv. revert lo. induction ms as [|m ms IH]; intros lo Hg; [done|].
  destruct Hg as (Hr & Hmax & Hseen & Hk & Hg). split_and!; [lia|lia|done|done| |by apply IH].
  by apply knows_synced.
Qed.

(** ** Properties *)

(** C32. Polling a log filter reports what the runtime logged: from its
    installation at block [n], the polls together report exactly the logs the
    executions in the blocks from [n] to the latest block of the last poll
    have emitted and the filter matches, each under the block, the position
    and the transaction that emitted it; also when a poll without a new block
    fails, and when blocks appear while a poll is under way.  Each is reported
    once if no block does. *)
Theorem polls_follow_chain chain blocks f p node n polls id polls0 ms m :
  valid_chain r chain -> (forall i, number_u64 (blocks i) = i) ->
  filter_wf f -> filter_limit f = None ->
  (0 <= n)%Z -> get_latest_block node = Ok (blocks n) ->
  new_filter node f polls = (Ok id, polls0) ->
  goes_on chain blocks n ms -> last ms = Some m ->
  let all := concat (reported <$> run_polls p id ms polls0) in
  (forall l, l ∈ all <-> exists b i txn x j e,
     executed_in chain b i txn x /\ (n <= number_u64 (snapshot b) <= upto m)%Z /\
     Api.logs x !! j = Some e /\ filter_matches f (eth_log e) = true /\
     l = shown_log b i txn j e) /\
  (Forall (fun m => seen m = upto m) ms -> NoDup all).
Proof.
  intros Hv Hblocks Hwf Hlim Hn Hl Hnew Hg Hlast all.
  destruct (log_polls_complete blocks (chain_entries chain) f p node n polls id polls0 ms m)
    as [Hin Hq]; [done..|by apply goes_on_growing|done|].
  split.
  - intros l. unfold all. rewrite Hin. by apply (executed_logs r).
  - intros Hquiet. unfold all. rewrite (Hq Hquiet). by apply (chain_logs_NoDup r).
Qed.

End lemmas.
End polls.

(** ** Witnesses *)

Module Witness.
#[local] Existing Instance Model.ops.
#[local] Existing Instance EthModel.ops.
#[local] Existing Instance EthModel.laws.
#[local] Existing Instance OasisModel.ops.
#[local] Existing Instance OasisModel.laws.
#[local] Existing Instance QueryModel.ops.
#[local] Existing Instance QueryModel.laws.
#[local] Existing Instance RpcModel.ops.
#[local] Existing Instance PollModel.ops.
#[local] Existing Instance PollModel.laws.
#[local] Existing Instance Dispatcher.Witness.model_decoders.
#[local] Existing Instance Chain.Witness.codec.
#[local] Existing Instance Chain.Witness.codec_laws.

Definition block42 := Chain.Witness.block_at 42 Dispatcher.Witness.batch.
Definition block43 := Chain.Witness.block_at 43 Chain.Witness.batch2.

Definition blocks (n : Z) : BlockSnapshot :=
  {| block_header := Chain.Witness.header_at n; block_hash := [byte_of_Z n] |}.

(** A node at block [n], which serves the given part of the chain. *)
Definition node_at (known : list Block) (n : Z) : Node :=
  let node := Chain.Witness.node_of known (blocks n) in {|
    GatewayLib.get_latest_block := Ok (blocks n);
    GatewayLib.get_block := fun i => Ok (if (i <=? n)%Z then Some (blocks i) else None);
    GatewayLib.get_block_by_hash := fun _ => Ok None;
    get_tx := fun _ _ => Ok None;
    get_tx_by_block_hash := fun _ _ => Ok None;
    get_txs := fun _ _ => Ok [];
    query_tx := query_tx node;
    query_txs := query_txs node;
    wait_block_indexed := fun _ => Ok tt;
    ROUND_LATEST := 0
  |}.

Lemma node_at_knows known rest n :
  Chain.Witness.chain2 = known ++ rest ->
  Forall (fun b => number_u64 (snapshot b) <= n)%Z known ->
  Forall (fun b => n < number_u64 (snapshot b))%Z rest ->
  knows Chain.Witness.chain2 blocks (node_at known n) n.
Proof.
  rewrite !Forall_forall. intros Hc Hk Hr. constructor; [done|done|done|].
  exists known, rest. split_and!; [done| |done|done].
  destruct (Chain.Witness.node_of_serves known (blocks n)) as [Hq Ht]. by constructor.
Qed.

Definition poll_at (known : list Block) (n : Z) : moment :=
  {| before := node_at known n; seen := n; after := node_at known n; upto := n |}.

Definition polls43 : list moment :=
  [poll_at [block42] 42; poll_at [block42] 42; poll_at [block42; block43] 43].

(** Installed at block 41 and polled at blocks 42, 42 and 43: the idle poll
    fails, and the logs of the three executions are reported once each. *)
Lemma polls_follow_chain_witness :
  exists all, all = concat (reported <$> run_polls Release 0 polls43
      (EthFilter.Witness.installed [LogsFilter 41 Chain.Witness.any_log])) /\
    NoDup all /\
    ((fun l => (log_block_number l, log_transaction_index l)) <$> all) = [(42, 0); (42, 3); (43, 0)]%Z.
Proof.
  destruct (polls_follow_chain Chain.Witness.runtime0 Chain.Witness.chain2 blocks
    Chain.Witness.any_log Release (node_at [] 41) 41 (EthFilter.Witness.installed []) 0
    (EthFilter.Witness.installed [LogsFilter 41 Chain.Witness.any_log]) polls43
    (poll_at [block42; block43] 43)) as [_ Hnd].
  - exact Chain.Witness.chain2_valid.
  - done.
  - split; [done|]. intros [|i] ts Hi; done.
  - reflexivity.
  - lia.
  - reflexivity.
  - reflexivity.
  - cbn [goes_on polls43 poll_at before seen after upto]. split_and!; try lia; try done.
    + apply (node_at_knows [block42] [block43]); [done|by repeat constructor|by repeat constructor].
    + apply (node_at_knows [block42] [block43]); [done|by repeat constructor|by repeat constructor].
    + apply (node_at_knows [block42; block43] []); [done|by repeat constructor|constructor].
  - reflexivity.
  - eexists. split; [reflexivity|]. split; [apply Hnd; by repeat constructor|].
    vm_compute. reflexivity.
Defined.

End Witness.
