(* ===== verification/RpcApis.v ===== *)
(** * API sets and their registration ([gateway/src/rpc_apis.rs])

    The set of APIs a server exposes is written as a comma separated list of
    API names, "all", "safe" and names to remove again; [extend_api] registers
    the methods of each API of a set with a request handler. *)

From Stdlib Require Import ZArith Lia Ascii String.
From stdpp Require Import base gmap strings option list.
From S2P Require Import Prelude.

Open Scope string_scope.

Inductive Api := Web3 | Net | Eth | EthPubSub | Oasis.

#[global] Instance Api_eq_decision : EqDecision Api.
Proof. solve_decision. Defined.

#[global] Instance Api_finite : Countable Api.
Proof.
  refine (inj_countable'
    (fun a => match a with Web3 => 0 | Net => 1 | Eth => 2 | EthPubSub => 3 | Oasis => 4 end)%nat
    (fun n => match n with 0 => Web3 | 1 => Net | 2 => Eth | 3 => EthPubSub | _ => Oasis end)%nat _).
  by intros [].
Defined.

(** [Api::from_str] *)
Definition api_from_str (s : string) : outcome string Api :=
  if bool_decide (s = "web3") then Ok Web3
  else if bool_decide (s = "net") then Ok Net
  else if bool_decide (s = "eth") then Ok Eth
  else if bool_decide (s = "pubsub") then Ok EthPubSub
  else if bool_decide (s = "oasis") then Ok Oasis
  else Err ("Unknown api: " +:+ s).

Inductive ApiSet := UnsafeContext | All | List (apis : gset Api).

Definition ApiSet_default : ApiSet := UnsafeContext.

Definition public_list : gset Api := {[ Web3; Net; Eth; EthPubSub; Oasis ]}.

Definition list_apis (self : ApiSet) : gset Api :=
  match self with
  | List apis => apis
  | UnsafeContext => public_list
  | All => public_list
  end.

(** [ApiSet]'s [==]. *)
Definition ApiSet_eq (a b : ApiSet) : bool := bool_decide (list_apis a = list_apis b).

(** [s.split(c)]: always at least one piece. *)
Fixpoint split (c : ascii) (s : string) : list string :=
  match s with
  | EmptyString => [""]
  | String a s' =>
      if Ascii.eqb a c then "" :: split c s'
      else match split c s' with
           | piece :: pieces => String a piece :: pieces
           | [] => [String a ""]
           end
  end.

(** [s.starts_with(c)], with what follows. *)
Definition strip_first (c : ascii) (s : string) : option string :=
  match s with
  | String a s' => if Ascii.eqb a c then Some s' else None
  | EmptyString => None
  end.

(** The body of the loop of [ApiSet::from_str]. *)
Definition apply_item (api : string) (apis : gset Api) : outcome string (gset Api) :=
  if bool_decide (api = "all") then Ok (apis ∪ list_apis All)
  else if bool_decide (api = "safe") then Ok (apis ∪ list_apis UnsafeContext)
  else match strip_first "-" api with
       | Some api => let? api := api_from_str api in Ok (apis ∖ {[api]})
       | None => let? api := api_from_str api in Ok ({[api]} ∪ apis)
       end.

Fixpoint apply_items (items : list string) (apis : gset Api) : outcome string (gset Api) :=
  match items with
  | [] => Ok apis
  | api :: items' => let? apis := apply_item api apis in apply_items items' apis
  end.

Definition ApiSet_from_str (s : string) : outcome string ApiSet :=
  let? apis := apply_items (split "," s) ∅ in
  Ok (List apis).

(** ** Registration *)

(** The method sets handlers are extended with. *)
Inductive Delegate :=
| Web3Methods | NetMethods | EthMethods | EthSigningMethods | EthFilterMethods
| EthPubSubMethods | OasisMethods.

Definition api_delegates (for_generic_pubsub : bool) (api : Api) : list Delegate :=
  match api with
  | Web3 => [Web3Methods]
  | Net => [NetMethods]
  | Eth =>
      ([EthMethods; EthSigningMethods] ++ (if for_generic_pubsub then [] else [EthFilterMethods]))%list
  | EthPubSub => if for_generic_pubsub then [] else [EthPubSubMethods]
  | Oasis => [OasisMethods]
  end.

(** The handler after [extend_api], and the number of listeners it adds to
    the broker. *)
Definition extend_api (handler : list Delegate) (apis : gset Api) (for_generic_pubsub : bool)
  : list Delegate * nat :=
  ((handler ++ (elements apis ≫= api_delegates for_generic_pubsub))%list,
   if bool_decide (EthPubSub ∈ apis) && negb for_generic_pubsub then 1 else 0)%nat.

Definition extend_with_set (handler : list Delegate) (apis : gset Api) : list Delegate * nat :=
  extend_api handler apis false.

(** ** Specification *)

(** What an item of the list says about an API, if anything. *)
Definition mention (item : string) (a : Api) : option bool :=
  if bool_decide (item = "all") || bool_decide (item = "safe") then Some true
  else match strip_first "-" item with
       | Some name => if bool_decide (api_from_str name = Ok a) then Some false else None
       | None => if bool_decide (api_from_str item = Ok a) then Some true else None
       end.

(** The last item that mentions the API decides. *)
Definition last_mention (items : list string) (a : Api) (start : bool) : bool :=
  foldl (fun b item => default b (mention item a)) start items.

Definition known (item : string) : bool :=
  bool_decide (item = "all") || bool_decide (item = "safe") ||
  is_ok (api_from_str (default item (strip_first "-" item))).

(** ** Lemmas *)

Lemma in_public_list a : a ∈ public_list.
Proof. unfold public_list. destruct a; set_solver. Qed.

Lemma apply_item_Ok item apis apis' a :
  apply_item item apis = Ok apis' ->
  a ∈ apis' <-> default (bool_decide (a ∈ apis)) (mention item a) = true.
Proof.
  unfold apply_item, mention. intros Hi. pose proof (in_public_list a) as Hpub.
  case_bool_decide as Hall.
  { injection Hi as <-. split; [done|]. intros _. by apply elem_of_union_r. }
  case_bool_decide as Hsafe.
  { injection Hi as <-. split; [done|]. intros _. by apply elem_of_union_r. }
  cbn [orb]. clear Hpub.
  destruct (strip_first "-" item) as [name|].
  - apply obind_Ok in Hi as (b & Hb & [= <-]). rewrite Hb. destruct (decide (b = a)) as [->|Hne].
    + rewrite (bool_decide_true (@Ok string _ a = Ok a)) by done. simpl. split; [set_solver|done].
    + rewrite (bool_decide_false (@Ok string _ b = Ok a)) by congruence. simpl. rewrite bool_decide_eq_true.
      set_solver.
  - apply obind_Ok in Hi as (b & Hb & [= <-]). rewrite Hb. destruct (decide (b = a)) as [->|Hne].
    + rewrite (bool_decide_true (@Ok string _ a = Ok a)) by done. simpl. split; [done|set_solver].
    + rewrite (bool_decide_false (@Ok string _ b = Ok a)) by congruence. simpl. rewrite bool_decide_eq_true.
      set_solver.
Qed.

Lemma apply_item_known item apis : is_ok (apply_item item apis) = known item.
Proof.
  unfold apply_item, known. case_bool_decide; [done|]. case_bool_decide; [done|]. cbn [orb].
  destruct (strip_first "-" item) as [name|]; simpl.
  - by destruct (api_from_str name).
  - by destruct (api_from_str item).
Qed.

Lemma apply_items_spec items apis :
  if forallb known items
  then exists apis', apply_items items apis = Ok apis' /\
    forall a, a ∈ apis' <-> last_mention items a (bool_decide (a ∈ apis)) = true
  else is_ok (apply_items items apis) = false.
Proof.
  revert apis. induction items as [|item items IH]; intros apis; cbn [forallb apply_items].
  - exists apis. split; [done|]. intros a. unfold last_mention. simpl. by rewrite bool_decide_eq_true.
  - pose proof (apply_item_known item apis) as Hk.
    destruct (apply_item item apis) as [apis1| |] eqn:Hi; cbn [is_ok] in Hk; rewrite <- Hk;
      cbn [andb obind]; [|done|done].
    specialize (IH apis1). destruct (forallb known items); [|done].
    destruct IH as (apis' & Hr & Ha). exists apis'. split; [done|]. intros a. rewrite Ha.
    unfold last_mention. cbn [foldl].
    assert (bool_decide (a ∈ apis1) = default (bool_decide (a ∈ apis)) (mention item a)) as ->; [|done].
    apply eq_true_iff_eq. rewrite bool_decide_eq_true. by apply apply_item_Ok.
Qed.

(** ** Properties *)

(** C40. Parsing an API set: the text is accepted exactly when every item is
    "all", "safe" or a known API with or without a leading "-", and then an
    API is in the set exactly when the last item that mentions it, by name or
    through "all" or "safe", does not remove it. *)
Theorem api_set_last_mention s :
  if forallb known (split "," s)
  then exists apis, ApiSet_from_str s = Ok (List apis) /\
    forall a, a ∈ apis <-> last_mention (split "," s) a false = true
  else is_ok (ApiSet_from_str s) = false.
Proof.
  unfold ApiSet_from_str. pose proof (apply_items_spec (split "," s) ∅) as H.
  destruct (forallb known (split "," s)).
  - destruct H as (apis & -> & Ha). exists apis. split; [done|]. intros a. by rewrite Ha.
  - by destruct (apply_items (split "," s) ∅).
Qed.
