(* ===== verification/Genesis.v ===== *)
(** * Importing an exported chain state ([genesis/bin/genesis_playback.rs])

    The tool streams the accounts out of a Parity state export, injects them
    into the Ethereum state and commits the state every so many operations.
    The two JSON deserializers it runs on the input, and the parsers of
    addresses and numbers, are parameters. *)

From Stdlib Require Import ZArith Lia Ascii String Strings.Byte.
From stdpp Require Import base numbers gmap strings option list.
From S2P Require Import Prelude.

(** ** Parsing *)

Record ExportedAccount := {
  balance : string;
  nonce : string;
  code : option string;
  storage : option (list (string * string))
}.

Definition strip_0x (hex : string) : string :=
  match hex with
  | String "0" (String "x" rest) => rest
  | _ => hex
  end.

(** [hex::decode(..).expect(..)] *)
Definition from_hex (hex_decode : string -> option bytes) (hex : string) : outcome Empty_set bytes :=
  expect (hex_decode (strip_0x hex)).

Definition newline : bytes := [x0a].
Definition quote : bytes := [x22].

Definition EXPORTED_STATE_START : bytes :=
  str "{ " ++ quote ++ str "state" ++ quote ++ str ": {".
Definition EXPORTED_STATE_ACCOUNT_SEP : bytes := str ",".
Definition EXPORTED_STATE_ADDR_SEP : bytes := str ": ".
Definition EXPORTED_STATE_END : bytes := newline ++ str "}}".

Inductive StateParsingState := First | Middle | End.

Record StateParser := { src : bytes; state : StateParsingState }.

(** [slice::split_at], which panics past the end. *)
Definition split_at {E A} (n : nat) (l : list A) : outcome E (list A * list A) :=
  if bool_decide (n <= length l) then Ok (take n l, drop n l) else Panic.

(** [split_at] a separator that [assert_eq!] requires to be there. *)
Definition expect_sep {E} (sep : bytes) (l : bytes) : outcome E bytes :=
  let? (start, rest) := split_at (length sep) l in
  if bool_decide (start = sep) then Ok rest else Panic.

Definition parser_new (src : bytes) : outcome Empty_set StateParser :=
  let? rest := expect_sep EXPORTED_STATE_START src in
  Ok {| src := rest; state := First |}.

Section parser.
(** [StreamDeserializer::new(src).next()] at the two types: the value and the
    number of bytes it takes; [None] is an error or the end of the input. *)
Context (de_addr : bytes -> option (string * nat))
  (de_account : bytes -> option (ExportedAccount * nat)).

(** [StateParser::next] *)
Definition next (self : StateParser)
  : outcome Empty_set (option (string * ExportedAccount) * StateParser) :=
  match state self with
  | End => Ok (None, self)
  | _ =>
      let? (end_, rest) := split_at (length EXPORTED_STATE_END) (src self) in
      if bool_decide (end_ = EXPORTED_STATE_END)
      then Ok (None, {| src := rest; state := End |})
      else
        let? src :=
          (match state self with
           | Middle => expect_sep EXPORTED_STATE_ACCOUNT_SEP (src self)
           | _ => Ok (src self)
           end) in
        let? (addr, offset) := expect (de_addr src) in
        let? (_, src) := split_at offset src in
        let? src := expect_sep EXPORTED_STATE_ADDR_SEP src in
        let? (account, offset) := expect (de_account src) in
        let? (_, src) := split_at offset src in
        Ok (Some (addr, account), {| src := src; state := Middle |})
  end.

(** The [for] loop over the parser, for at most [fuel] accounts. *)
Fixpoint collect (fuel : nat) (self : StateParser)
  : outcome Empty_set (list (string * ExportedAccount)) :=
  match fuel with
  | 0 => Ok []
  | S fuel =>
      let? (item, self) := next self in
      match item with
      | None => Ok []
      | Some item => let? items := collect fuel self in Ok (item :: items)
      end
  end.

(** Every account takes at least the bytes of the separator. *)
Definition parse_export (src : bytes) : outcome Empty_set (list (string * ExportedAccount)) :=
  let? parser := parser_new src in
  collect (S (length src)) parser.

(** ** Specification: the export format *)

Context (render_addr : string -> bytes) (render_account : ExportedAccount -> bytes).

Fixpoint render_accounts (accounts : list (string * ExportedAccount)) : bytes :=
  match accounts with
  | [] => []
  | (addr, account) :: accounts' =>
      render_addr addr ++ EXPORTED_STATE_ADDR_SEP ++ render_account account ++
      (match accounts' with [] => [] | _ => EXPORTED_STATE_ACCOUNT_SEP end) ++
      render_accounts accounts'
  end.

Definition export (accounts : list (string * ExportedAccount)) : bytes :=
  EXPORTED_STATE_START ++ render_accounts accounts ++ EXPORTED_STATE_END.

(** An address is rendered as a line break and a JSON string, and both
    deserializers stop after the value they find first. *)
Record renders (account : string * ExportedAccount) : Prop := {
  render_addr_quote : exists rest, render_addr account.1 = newline ++ quote ++ rest;
  de_addr_render rest :
    de_addr (render_addr account.1 ++ rest) = Some (account.1, length (render_addr account.1));
  de_account_render rest :
    de_account (render_account account.2 ++ rest) =
      Some (account.2, length (render_account account.2))
}.

(** ** Lemmas *)

Lemma split_at_app {Er A} (l r : list A) : split_at (length l) (l ++ r) = @Ok Er _ (l, r).
Proof.
  unfold split_at. rewrite bool_decide_true by (rewrite length_app; lia).
  by rewrite take_app_length, drop_app_length.
Qed.

Lemma expect_sep_app {Er} sep rest : expect_sep sep (sep ++ rest) = @Ok Er _ rest.
Proof. unfold expect_sep. rewrite split_at_app. cbn [obind]. by rewrite bool_decide_true. Qed.

Lemma split_at_Ok {Er A} n (l x y : list A) :
  split_at n l = @Ok Er _ (x, y) -> length l = (n + length y)%nat.
Proof.
  unfold split_at. case_bool_decide; [|done]. intros [= <- <-]. rewrite length_drop. lia.
Qed.

Lemma expect_sep_Ok {Er} sep l r : expect_sep sep l = @Ok Er _ r ->
  length l = (length sep + length r)%nat.
Proof.
  unfold expect_sep. intros H. apply obind_Ok in H as ([x y] & Hs & H).
  apply split_at_Ok in Hs. case_bool_decide; by simplify_eq.
Qed.

(** Every account consumes input, so the loop ends. *)
Lemma next_consumes self item self' :
  next self = Ok (Some item, self') -> length (src self') < length (src self).
Proof.
  unfold next. destruct (state self); [| |done]; intros Hn;
    apply obind_Ok in Hn as ([e r] & _ & Hn); (case_bool_decide; [done|]);
    apply obind_Ok in Hn as (s0 & H0 & Hn); apply obind_Ok in Hn as ([addr o] & _ & Hn);
    apply obind_Ok in Hn as ([x1 s1] & H1 & Hn); apply obind_Ok in Hn as (s2 & H2 & Hn);
    apply obind_Ok in Hn as ([acc o2] & _ & Hn); apply obind_Ok in Hn as ([x3 s3] & H3 & Hn);
    apply split_at_Ok in H1, H3; apply expect_sep_Ok in H2; injection Hn as <- <-;
    cbn [src]; change (length EXPORTED_STATE_ADDR_SEP) with 2%nat in H2.
  - injection H0 as <-. lia.
  - apply expect_sep_Ok in H0. lia.
Qed.

Lemma collect_fuel fuel fuel' self :
  length (src self) < fuel -> length (src self) < fuel' -> collect fuel self = collect fuel' self.
Proof.
  revert fuel' self. induction fuel as [|fuel IH]; intros [|fuel'] self H1 H2; try lia.
  cbn [collect]. destruct (next self) as [[[item|] self']| |] eqn:Hn; [|done|done|done].
  cbn [obind]. apply next_consumes in Hn. rewrite (IH fuel' self'); [done|lia|lia].
Qed.

(** The input left in front of [accounts]. *)
Definition input_of (st : StateParsingState) (accounts : list (string * ExportedAccount)) : bytes :=
  (match st, accounts with Middle, _ :: _ => EXPORTED_STATE_ACCOUNT_SEP | _, _ => [] end) ++
  render_accounts accounts ++ EXPORTED_STATE_END.

Lemma not_end_first addr account l : renders (addr, account) -> exists x,
  split_at (E:=Empty_set) (length EXPORTED_STATE_END) (render_addr addr ++ EXPORTED_STATE_ADDR_SEP ++ l)
    = Ok x /\ x.1 <> EXPORTED_STATE_END.
Proof.
  intros R. destruct (render_addr_quote _ R) as [rest Hr]. cbn [fst] in Hr. rewrite Hr.
  unfold split_at. rewrite bool_decide_true.
  - eexists. split; [reflexivity|]. simpl. discriminate.
  - rewrite !length_app. simpl. lia.
Qed.

Lemma next_first addr account accounts :
  renders (addr, account) ->
  next {| src := input_of First ((addr, account) :: accounts); state := First |} =
    Ok (Some (addr, account), {| src := input_of Middle accounts; state := Middle |}) /\
  next {| src := input_of Middle ((addr, account) :: accounts); state := Middle |} =
    Ok (Some (addr, account), {| src := input_of Middle accounts; state := Middle |}).
Proof.
  intros R. unfold input_of. cbn [render_accounts app]. rewrite <- !app_assoc.
  set (tail := (match accounts with [] => [] | _ => _ end) ++ render_accounts accounts ++ _).
  assert (forall s, s = render_addr addr ++ EXPORTED_STATE_ADDR_SEP ++ render_account account ++ tail ->
    (let? (a, offset) := expect (de_addr s) in
     let? (_, s) := split_at offset s in
     let? s := expect_sep EXPORTED_STATE_ADDR_SEP s in
     let? (acc, offset) := expect (de_account s) in
     let? (_, s) := split_at offset s in
     Ok (Some (a, acc), {| src := s; state := Middle |})) =
    @Ok Empty_set _ (Some (addr, account), {| src := tail; state := Middle |})) as Hrest.
  { intros s ->. rewrite (de_addr_render _ R). cbn [expect obind]. rewrite split_at_app.
    cbn [obind]. rewrite expect_sep_app. cbn [obind]. rewrite (de_account_render _ R).
    cbn [expect obind]. rewrite split_at_app. done. }
  split.
  - unfold next. cbn [state src].
    destruct (not_end_first addr account (render_account account ++ tail) R) as ([e r] & -> & He).
    cbn [obind]. rewrite bool_decide_false by done. cbn [obind]. by apply Hrest.
  - unfold next. cbn [state src]. unfold split_at at 1. rewrite bool_decide_true.
    + cbn [obind]. rewrite bool_decide_false by (simpl; discriminate).
      rewrite expect_sep_app. cbn [obind]. by apply Hrest.
    + subst tail. rewrite !length_app. simpl. lia.
Qed.

Lemma collect_end st fuel :
  st <> End -> collect (S fuel) {| src := input_of st []; state := st |} = Ok [].
Proof.
  intros Hst. cbn [collect]. unfold next, input_of. cbn [state src render_accounts].
  destruct st; [| |done]; cbn [app]; rewrite <- (app_nil_r EXPORTED_STATE_END) at 2;
    rewrite split_at_app; cbn [obind]; by rewrite bool_decide_true.
Qed.

Lemma collect_render accounts fuel :
  Forall renders accounts -> length accounts < fuel ->
  collect fuel {| src := input_of Middle accounts; state := Middle |} = Ok accounts.
Proof.
  intros R. revert fuel. induction R as [|[addr account] accounts R _ IH]; intros [|fuel] Hf;
    try (simpl in Hf; lia); [by apply collect_end|].
  cbn [collect]. rewrite (proj2 (next_first addr account accounts R)). cbn [obind].
  rewrite IH by (simpl in Hf; lia). done.
Qed.

Lemma render_accounts_length accounts : length accounts <= length (render_accounts accounts).
Proof.
  induction accounts as [|[addr account] accounts IH]; [done|]. cbn [render_accounts length].
  rewrite !length_app. change (length EXPORTED_STATE_ADDR_SEP) with 2%nat. lia.
Qed.

(** ** Properties *)

(** C35. The streaming parser inverts the export: on the export of any list of
    accounts it yields exactly these accounts in order and stops at the end
    marker, whatever their number. *)
Theorem parse_export_roundtrip accounts :
  Forall renders accounts -> parse_export (export accounts) = Ok accounts.
Proof.
  intros R.
  unfold parse_export, parser_new, export. rewrite expect_sep_app. cbn [obind].
  pose proof (render_accounts_length accounts) as Hlen.
  destruct R as [|[addr account] accounts R Rs].
  - by apply (collect_end First).
  - rewrite !length_app. cbn [collect].
    change (render_accounts ((addr, account) :: accounts) ++ EXPORTED_STATE_END)
      with (input_of First ((addr, account) :: accounts)).
    rewrite (proj1 (next_first addr account accounts R)). cbn [obind].
    rewrite collect_render; [done|done|]. simpl in Hlen |- *. lia.
Qed.

End parser.

(** ** Importing *)

Section import.
(** [from_str] of an address, a number and a hash. *)
Context {Address_ U256_ H256_ : Type} (address_from_str : string -> option Address_)
  (u256_from_str : string -> option U256_) (h256_from_str : string -> option H256_)
  (hex_decode : string -> option bytes).

(** The operations on the state, and the commits pushed to storage. *)
Inductive event :=
| NewContract (address : Address_) (balance nonce : U256_)
| InitCode (address : Address_) (code : bytes)
| SetStorage (address : Address_) (key value : H256_)
| Commit.

(** [check_commit], after an operation: the events so far and the number of
    operations since the last commit. *)
Definition check_commit (commit_every : Z) (events : list event) (ops : Z) : list event * Z :=
  let ops := (ops + 1)%Z in
  if bool_decide (ops = commit_every) then (events ++ [Commit], 0%Z) else (events, ops).

Definition operation (commit_every : Z) (op : event) (st : list event * Z) : list event * Z :=
  check_commit commit_every (st.1 ++ [op]) st.2.

(** The operations of an account, in order. *)
Definition account_ops (addr : string) (account : ExportedAccount)
  : outcome Empty_set (list event) :=
  let? address := expect (address_from_str (strip_0x addr)) in
  let? balance := expect (u256_from_str (strip_0x (balance account))) in
  let? nonce := expect (u256_from_str (strip_0x (nonce account))) in
  let? init_code :=
    (match code account with
     | Some code => let? code := from_hex hex_decode code in Ok [InitCode address code]
     | None => Ok []
     end) in
  let? set_storage :=
    omapM (fun '(key, value) =>
      let? key := expect (h256_from_str (strip_0x key)) in
      let? value := expect (h256_from_str (strip_0x value)) in
      Ok (SetStorage address key value)) (default [] (storage account)) in
  Ok (NewContract address balance nonce :: init_code ++ set_storage).

(** The loop over the accounts and the last commit: the events of the run. *)
Fixpoint import_accounts (commit_every : Z) (accounts : list (string * ExportedAccount))
    (st : list event * Z) : outcome Empty_set (list event * Z) :=
  match accounts with
  | [] => Ok st
  | (addr, account) :: accounts' =>
      let? ops := account_ops addr account in
      import_accounts commit_every accounts'
        (foldl (fun st op => operation commit_every op st) st ops)
  end.

Definition import (commit_every : Z) (accounts : list (string * ExportedAccount))
  : outcome Empty_set (list event) :=
  let? st := import_accounts commit_every accounts ([], 0%Z) in
  Ok (st.1 ++ [Commit]).

(** ** Specification *)

Definition is_op (e : event) : bool := match e with Commit => false | _ => true end.

(** The lengths of the runs of operations between commits, the last one
    uncommitted. *)
Fixpoint runs (events : list event) (ops : Z) : list Z :=
  match events with
  | [] => [ops]
  | Commit :: events' => ops :: runs events' 0
  | _ :: events' => runs events' (ops + 1)
  end.

(** ** Lemmas *)

Lemma runs_nonempty events o : runs events o <> [].
Proof. revert o. induction events as [|[] events IH]; intros o; simpl; done. Qed.

Lemma runs_app events e o l x :
  runs events o = l ++ [x] ->
  runs (events ++ [e]) o = if is_op e then l ++ [(x + 1)%Z] else l ++ [x; 0%Z].
Proof.
  revert o l x. induction events as [|d events IH]; intros o l x Hr.
  - simpl in Hr. destruct l as [|y [|]]; try done. injection Hr as ->. by destruct e.
  - cbn [app runs] in *. destruct d; try by apply IH.
    destruct l as [|y l]; [injection Hr as _ Hr; by apply runs_nonempty in Hr|].
    injection Hr as -> Hr.
    rewrite (IH _ _ _ Hr). by destruct e.
Qed.

(** Between operations: full runs, then [ops] uncommitted operations. *)
Definition committed (commit_every : Z) (st : list event * Z) : Prop :=
  (0 <= st.2 < commit_every)%Z /\
  exists k, runs st.1 0 = replicate k commit_every ++ [st.2].

Lemma operation_committed commit_every op st :
  is_op op = true -> committed commit_every st ->
  committed commit_every (operation commit_every op st) /\
  filter (fun e => is_op e = true) (operation commit_every op st).1 =
    filter (fun e => is_op e = true) st.1 ++ [op].
Proof.
  intros Hop [Hb [k Hk]]. unfold operation, check_commit.
  pose proof (runs_app _ op _ _ _ Hk) as Hr. rewrite Hop in Hr.
  assert (filter (fun e => is_op e = true) [op] = [op]) as Hf.
  { rewrite filter_cons, decide_True by done. done. }
  case_bool_decide as Hc; cbn [fst snd].
  - split; [split; [cbn [snd]; lia|]|].
    + exists (S k). cbn [fst snd]. rewrite (runs_app _ Commit _ _ _ Hr). cbn [is_op].
      rewrite replicate_S_end, Hc, <- app_assoc. done.
    + rewrite !filter_app, Hf. rewrite (filter_cons _ Commit), decide_False by done.
      by rewrite filter_nil, app_nil_r.
  - split; [split; [cbn [snd]; lia|]|].
    + by exists k.
    + by rewrite filter_app, Hf.
Qed.

Lemma operations_committed commit_every ops st :
  Forall (fun e => is_op e = true) ops -> committed commit_every st ->
  committed commit_every (foldl (fun st op => operation commit_every op st) st ops) /\
  filter (fun e => is_op e = true) (foldl (fun st op => operation commit_every op st) st ops).1 =
    filter (fun e => is_op e = true) st.1 ++ ops.
Proof.
  intros Hops. revert st. induction Hops as [|op ops Hop Hops IH]; intros st Hst; cbn [foldl].
  - by rewrite app_nil_r.
  - destruct (operation_committed commit_every op st Hop Hst) as [Hc Hf].
    destruct (IH _ Hc) as [Hc' Hf']. split; [done|]. by rewrite Hf', Hf, <- app_assoc.
Qed.

Lemma account_ops_are_ops addr account ops :
  account_ops addr account = Ok ops -> Forall (fun e => is_op e = true) ops.
Proof.
  unfold account_ops. intros H. apply obind_Ok in H as (a & _ & H).
  apply obind_Ok in H as (b & _ & H). apply obind_Ok in H as (n & _ & H).
  apply obind_Ok in H as (ic & Hic & H). apply obind_Ok in H as (ss & Hss & [= <-]).
  constructor; [done|]. apply Forall_app. split.
  - destruct (code account); [|by injection Hic as <-].
    apply obind_Ok in Hic as (c & _ & [= <-]). by repeat constructor.
  - revert ss Hss. induction (default [] (storage account)) as [|[key value] kvs IH];
      intros ss Hss; cbn [omapM] in Hss; [by injection Hss as <-|].
    apply obind_Ok in Hss as (e & He & Hss). apply obind_Ok in Hss as (es & Hes & [= <-]).
    apply obind_Ok in He as (k' & _ & He). apply obind_Ok in He as (v' & _ & [= <-]).
    constructor; [done|]. by apply IH.
Qed.

Lemma import_accounts_spec commit_every accounts st st' :
  committed commit_every st -> import_accounts commit_every accounts st = Ok st' ->
  committed commit_every st' /\
  exists ops, omapM (fun a => account_ops a.1 a.2) accounts = Ok ops /\
    filter (fun e => is_op e = true) st'.1 = filter (fun e => is_op e = true) st.1 ++ concat ops.
Proof.
  revert st. induction accounts as [|[addr account] accounts IH]; intros st Hst Hrun;
    cbn [import_accounts] in Hrun.
  - injection Hrun as <-. split; [done|]. exists []. by rewrite app_nil_r.
  - apply obind_Ok in Hrun as (ops & Hops & Hrun).
    destruct (operations_committed commit_every ops st (account_ops_are_ops _ _ _ Hops) Hst)
      as [Hc Hf].
    destruct (IH _ Hc Hrun) as (Hc' & opss & Hopss & Hf'). split; [done|].
    exists (ops :: opss). cbn [omapM fst snd]. rewrite Hops. cbn [obind]. rewrite Hopss.
    split; [done|]. by rewrite Hf', Hf, <- app_assoc.
Qed.

(** ** Properties *)

(** C36. The import commits everything, in bounded batches: the operations of
    the accounts are applied in order, every commit but the last one comes
    after exactly [commit_every] operations, the last one after fewer, and no
    operation is left uncommitted. *)
Theorem import_commits_in_batches commit_every accounts events :
  (0 < commit_every)%Z -> import commit_every accounts = Ok events ->
  exists ops k r,
    omapM (fun a => account_ops a.1 a.2) accounts = Ok ops /\
    filter (fun e => is_op e = true) events = concat ops /\
    runs events 0 = replicate k commit_every ++ [r; 0%Z] /\ (0 <= r < commit_every)%Z.
Proof.
  intros Hce Hrun. apply obind_Ok in Hrun as (st & Hrun & [= <-]).
  destruct (import_accounts_spec commit_every accounts ([], 0%Z) st) as ([Hb [k Hk]] & ops & Hops & Hf);
    [|done|].
  { split; [simpl; lia|]. by exists 0%nat. }
  exists ops, k, st.2. split_and!; [done| | |lia|lia].
  - rewrite filter_app, Hf, (filter_cons _ Commit), decide_False by done.
    by rewrite filter_nil, app_nil_r.
  - by rewrite (runs_app _ Commit _ _ _ Hk).
Qed.

End import.

(** ** Witnesses *)

Module Witness.

(** Strings without escapes, and accounts that are only a balance. *)
Fixpoint until (b : byte) (l : bytes) : bytes :=
  match l with
  | [] => []
  | x :: l' => if decide (x = b) then [] else x :: until b l'
  end.

Definition render_addr (a : string) : bytes := newline ++ quote ++ str a ++ quote.
Definition render_account (acc : ExportedAccount) : bytes := str "{" ++ str (balance acc) ++ str "}".

Definition de_addr (l : bytes) : option (string * nat) :=
  let a := until x22 (drop 2 l) in Some (String.string_of_list_byte a, length a + 3).

Definition account (b : string) : ExportedAccount :=
  {| balance := b; nonce := "0"; code := None; storage := None |}.

Definition de_account (l : bytes) : option (ExportedAccount * nat) :=
  let b := until x7d (drop 1 l) in
  Some (account (String.string_of_list_byte b), length b + 2).

Definition two_accounts : list (string * ExportedAccount) :=
  [("0x01", account "10"); ("0x02", account "20")]%string.

Lemma parse_export_roundtrip_witness :
  parse_export de_addr de_account (export render_addr render_account two_accounts) =
    Ok two_accounts.
Proof.
  apply parse_export_roundtrip. repeat constructor; try (by eexists).
Defined.

Definition hex (s : string) : option string := Some s.

Lemma import_commits_in_batches_witness :
  exists events,
    import hex hex hex (fun s => Some (str s)) 2 (two_accounts ++ two_accounts ++ two_accounts) =
      Ok events /\ runs events 0 = [2; 2; 2; 0; 0]%Z.
Proof.
  eexists. split; [reflexivity|].
  destruct (import_commits_in_batches hex hex hex (fun s => Some (str s)) 2
    (two_accounts ++ two_accounts ++ two_accounts) _ eq_refl eq_refl)
    as (ops & k & r & _ & _ & Hr & _).
  reflexivity.
Defined.

End Witness.
