(* ===== verification/Playback.v ===== *)
(** * The genesis tools ([genesis/bin/genesis_playback.rs], [genesis/bin/genesis_init.rs])

    [playback] is [main] of the import tool from the opened export on: it
    takes the accounts one by one from the parser of [Genesis], fills the
    Ethereum state with them, and at every commit pushes the write log of the state tree to a storage node, from the
    root of the last commit to the new one.  [genesis_init] is [main] of the
    other tool.  The tree, the Ethereum state over it and the storage node
    belong to libraries: [StateStore] has their operations, [StateStoreLaws]
    what the tools rely on. *)

From Stdlib Require Import ZArith Lia Strings.Byte.
From stdpp Require Import base numbers gmap strings option list.
From S2P Require Import Prelude Genesis.

(** What [storage.apply] is called with; the rounds are 0. *)
Record ApplyRequest {WriteLog : Type} := {
  src_round : Z;
  src_root : H256;
  dst_round : Z;
  dst_root : H256;
  writelog : WriteLog
}.
Arguments ApplyRequest : clear implicits.

Class StateStore := {
  Tree : Type;
  State : Type;
  Address : Type;
  U256 : Type;
  H256_key : Type;
  WriteLog : Type;
  Storage : Type;
  (** An empty tree under a fresh overlay, and its root hash. *)
  new_tree : Tree;
  empty_hash : H256;
  (** [Spec::ensure_db_good] and [State::from_existing]. *)
  ensure_db_good : Tree -> option Tree;
  from_existing : Tree -> option State;
  new_contract : Address -> U256 -> U256 -> Z -> State -> State;
  init_code : Address -> bytes -> Tree -> State -> option State;
  set_storage : Address -> H256_key -> H256_key -> Tree -> State -> option State;
  state_commit : State -> Tree -> option (State * Tree);
  (** [commit] of the overlay, which is its [commit_both], and of the tree
      below it. *)
  tree_commit : Tree -> option (WriteLog * H256 * Tree);
  mkvs_commit : Tree -> option H256;
  (** [StorageClient::apply]. *)
  storage_apply : ApplyRequest WriteLog -> Storage -> option Storage;
  address_from_str : string -> option Address;
  u256_from_str : string -> option U256;
  h256_from_str : string -> option H256_key;
  hex_decode : string -> option bytes
}.

(** What has been committed has contents and a root; a commit turns them into
    those the write log describes, and a storage node follows a write log
    from the root it is at. *)
Class StateStoreLaws (S : StateStore) := {
  Contents : Type;
  committed : Tree -> Contents;
  stored : Storage -> Contents;
  root_of : Contents -> H256;
  replay : WriteLog -> Contents -> Contents;
  new_tree_root : root_of (committed new_tree) = empty_hash;
  ensure_db_good_pending t t' : ensure_db_good t = Some t' -> committed t' = committed t;
  state_commit_pending st t st' t' :
    state_commit st t = Some (st', t') -> committed t' = committed t;
  tree_commit_spec t log root t' :
    tree_commit t = Some (log, root, t') ->
    committed t' = replay log (committed t) /\ root = root_of (committed t');
  mkvs_commit_spec t log root t' root' :
    tree_commit t = Some (log, root, t') -> mkvs_commit t' = Some root' -> root' = root;
  storage_apply_spec req s s' :
    src_root req = root_of (stored s) -> dst_root req = root_of (replay (writelog req) (stored s)) ->
    storage_apply req s = Some s' -> stored s' = replay (writelog req) (stored s)
}.

Section playback.
Context {S : StateStore}.

(** ** [genesis_playback.rs] *)

(** The variables of [main] the import changes, and the requests made. *)
Record Import := {
  tree : Tree;
  state : State;
  root : H256;
  ops : Z;
  n_accounts : Z;
  storage : Storage;
  requests : list (ApplyRequest WriteLog)
}.

Definition set_state (st : State) (self : Import) : Import :=
  Build_Import (tree self) st (root self) (ops self) (n_accounts self) (storage self) (requests self).
Definition set_tree (t : Tree) (self : Import) : Import :=
  Build_Import t (state self) (root self) (ops self) (n_accounts self) (storage self) (requests self).
Definition set_ops (n : Z) (self : Import) : Import :=
  Build_Import (tree self) (state self) (root self) n (n_accounts self) (storage self)
    (requests self).
Definition set_n_accounts (n : Z) (self : Import) : Import :=
  Build_Import (tree self) (state self) (root self) (ops self) n (storage self) (requests self).

(** [unwrap] and [expect] of a result of the library. *)
Definition or_panic {A} (o : option A) : stateful Import Empty_set A := slift (expect o).

Definition commit : stateful Import Empty_set unit :=
  let! self := sget in
  let! (st, t) := or_panic (state_commit (state self) (tree self)) in
  let! _ := smodify (fun self => set_tree t (set_state st self)) in
  let! (write_log, state_root, t) := or_panic (tree_commit t) in
  let! _ := smodify (set_tree t) in
  let req := {|
    src_round := 0; src_root := root self;
    dst_round := 0; dst_root := state_root;
    writelog := write_log
  |} in
  let! s := or_panic (storage_apply req (storage self)) in
  smodify (fun self =>
    Build_Import (tree self) (state self) state_root (ops self) (n_accounts self) s
      (requests self ++ [req])).

Definition check_commit (commit_every : Z) : stateful Import Empty_set unit :=
  let! _ := smodify (fun self => set_ops (ops self + 1) self) in
  let! self := sget in
  if bool_decide (ops self = commit_every)
  then
    let! _ := commit in
    smodify (set_ops 0)
  else sret tt.

(** A fallible operation on the state. *)
Definition on_state (f : Tree -> State -> option State) : stateful Import Empty_set unit :=
  let! self := sget in
  let! st := or_panic (f (tree self) (state self)) in
  smodify (set_state st).

Fixpoint set_storage_items (commit_every : Z) (address : Address) (items : list (string * string))
  : stateful Import Empty_set unit :=
  match items with
  | [] => sret tt
  | (key, value) :: items' =>
      let! key := or_panic (h256_from_str (strip_0x key)) in
      let! value := or_panic (h256_from_str (strip_0x value)) in
      let! _ := on_state (set_storage address key value) in
      let! _ := check_commit commit_every in
      set_storage_items commit_every address items'
  end.

(** The body of the loop over the accounts. *)
Definition inject (commit_every : Z) (addr : string) (account : ExportedAccount)
  : stateful Import Empty_set unit :=
  let! address := or_panic (address_from_str (strip_0x addr)) in
  let! balance := or_panic (u256_from_str (strip_0x (balance account))) in
  let! nonce := or_panic (u256_from_str (strip_0x (nonce account))) in
  let! _ := smodify (fun self =>
    set_state (new_contract address balance nonce 0 (state self)) self) in
  let! _ := check_commit commit_every in
  let! _ :=
    match code account with
    | Some code =>
        let! code := slift (from_hex hex_decode code) in
        let! _ := on_state (init_code address code) in
        check_commit commit_every
    | None => sret tt
    end in
  let! _ :=
    match Genesis.storage account with
    | Some items => set_storage_items commit_every address items
    | None => sret tt
    end in
  smodify (fun self => set_n_accounts (n_accounts self + 1) self).

Section stream.
Context (de_addr : bytes -> option (string * nat))
  (de_account : bytes -> option (ExportedAccount * nat)).

(** The [for] loop over the parser, for at most [fuel] accounts. *)
Fixpoint inject_stream (commit_every : Z) (fuel : nat) (accounts : StateParser)
  : stateful Import Empty_set unit :=
  match fuel with
  | O => sret tt
  | Datatypes.S fuel =>
      let! (item, accounts) := slift (next de_addr de_account accounts) in
      match item with
      | None => sret tt
      | Some (addr, account) =>
          let! _ := inject commit_every addr account in
          inject_stream commit_every fuel accounts
      end
  end.

(** Every account takes at least the bytes of the separator. *)
Definition inject_export (commit_every : Z) (state_fb : bytes) : stateful Import Empty_set unit :=
  let! accounts := slift (parser_new state_fb) in
  inject_stream commit_every (Datatypes.S (length state_fb)) accounts.

(** The genesis block written to the output file. *)
Record RuntimeGenesis := { genesis_state_root : H256; genesis_round : Z }.

Definition import_init (t : Tree) (st : State) (s : Storage) : Import := {|
  tree := t; state := st; root := empty_hash; ops := 0; n_accounts := 0; storage := s;
  requests := []
|}.

Definition playback (commit_every : Z) (state_fb : bytes) (s : Storage)
  : outcome Empty_set (RuntimeGenesis * Import) :=
  let? t := expect (ensure_db_good new_tree) in
  let? st := expect (from_existing t) in
  let '(r, self) :=
    sbind (inject_export commit_every state_fb) (fun _ => commit) (import_init t st s) in
  let? _ := r in
  let? state_root := expect (mkvs_commit (tree self)) in
  Ok ({| genesis_state_root := state_root; genesis_round := 0 |}, self).

End stream.

(** ** [genesis_init.rs] *)

(** The write log serialized to the output file; the spec is the one of the
    genesis file the tool is given. *)
Definition genesis_init (spec_ensure_db_good : Tree -> option Tree) : outcome Empty_set WriteLog :=
  let? t := expect (spec_ensure_db_good new_tree) in
  let? (write_log, _, _) := expect (tree_commit t) in
  Ok write_log.

(** ** Lemmas *)

(** The write logs follow on each other from one root to another. *)
Fixpoint linked (from : H256) (reqs : list (ApplyRequest WriteLog)) (to : H256) : Prop :=
  match reqs with
  | [] => from = to
  | req :: reqs' => src_root req = from /\ linked (dst_root req) reqs' to
  end.

Lemma linked_snoc from reqs req :
  linked from reqs (src_root req) -> linked from (reqs ++ [req]) (dst_root req).
Proof.
  revert from. induction reqs as [|req' reqs IH]; intros from; cbn [linked app]; [by intros ->|].
  intros [-> Hl]. split; [done|by apply IH].
Qed.

(** The import of [Genesis] on the parsers of the library is the schedule of
    the operations and commits of this one. *)
Abbreviation account_ops :=
  (account_ops address_from_str u256_from_str h256_from_str hex_decode) (only parsing).
Abbreviation import_accounts :=
  (import_accounts address_from_str u256_from_str h256_from_str hex_decode) (only parsing).
Abbreviation import :=
  (import address_from_str u256_from_str h256_from_str hex_decode) (only parsing).

Definition commits {A B C} (events : list (event (Address_:=A) (U256_:=B) (H256_:=C))) : nat :=
  length (filter (fun e => is_op e = false) events).

Lemma commits_app {A B C} (l r : list (event (Address_:=A) (U256_:=B) (H256_:=C))) :
  commits (l ++ r) = (commits l + commits r)%nat.
Proof. unfold commits. by rewrite filter_app, length_app. Qed.

(** As many operations since the last commit, and as many commits. *)
Record tracks (st : list (event (Address_:=Address) (U256_:=U256) (H256_:=H256_key)) * Z)
    (self : Import) : Prop := {
  tracks_ops : ops self = st.2;
  tracks_requests : length (requests self) = commits st.1
}.

Lemma commit_counts self u self' :
  commit self = (Ok u, self') ->
  ops self' = ops self /\ length (requests self') = Datatypes.S (length (requests self)).
Proof.
  unfold commit, sbind, sget, or_panic, slift, smodify.
  destruct (state_commit _ _) as [[st t]|]; [|done]. cbn [expect].
  destruct (tree_commit t) as [[[log r] t']|]; [|done]. cbn [expect].
  destruct (storage_apply _ _) as [s'|]; [|done]. intros [= _ <-]. split; [done|].
  cbn [requests set_tree set_state]. rewrite length_app. simpl. lia.
Qed.

Lemma check_commit_tracks commit_every op st self u self' :
  is_op op = true -> tracks st self -> check_commit commit_every self = (Ok u, self') ->
  tracks (operation commit_every op st) self'.
Proof.
  intros Hop [Ho Hr] Hrun. unfold check_commit, sbind at 1, smodify at 1, sbind at 1, sget in Hrun.
  assert (commits (st.1 ++ [op]) = commits st.1) as Hc.
  { rewrite commits_app. unfold commits at 2. rewrite filter_cons, Hop. simpl. lia. }
  unfold operation, Genesis.check_commit. rewrite <- Ho. cbn [ops set_ops fst snd] in Hrun |- *.
  destruct (bool_decide _).
  - apply sbind_Ok in Hrun as (u' & self1 & Hcommit & [= _ <-]).
    apply commit_counts in Hcommit as [_ Hl]. constructor; [done|]. cbn [requests set_ops fst].
    rewrite Hl, commits_app, Hc, <- Hr. unfold commits. simpl. lia.
  - injection Hrun as _ <-. constructor; [done|]. cbn [requests set_ops fst]. by rewrite Hc.
Qed.

Lemma on_state_tracks f st self u self' :
  tracks st self -> on_state f self = (Ok u, self') -> tracks st self'.
Proof.
  intros [Ho Hr] Hrun. unfold on_state in Hrun. apply sbind_Ok in Hrun as (? & ? & [= <- <-] & Hrun).
  apply sbind_Ok in Hrun as (st' & ? & [= _ <-] & [= _ <-]). by constructor.
Qed.

Abbreviation account_steps commit_every :=
  (foldl (fun st op => operation commit_every op st)) (only parsing).

(** The operations of an account's storage. *)
Definition storage_ops (address : Address) (items : list (string * string))
  : outcome Empty_set (list (event (Address_:=Address) (U256_:=U256) (H256_:=H256_key))) :=
  omapM (fun '(key, value) =>
    let? key := expect (h256_from_str (strip_0x key)) in
    let? value := expect (h256_from_str (strip_0x value)) in
    Ok (SetStorage address key value)) items.

Lemma set_storage_items_tracks commit_every address items st self u self' :
  tracks st self -> set_storage_items commit_every address items self = (Ok u, self') ->
  exists ops,
    storage_ops address items = Ok ops /\
    tracks (account_steps commit_every st ops) self'.
Proof.
  revert st self. induction items as [|[key value] items IH]; intros st self Ht Hrun;
    cbn [set_storage_items] in Hrun.
  { injection Hrun as _ <-. by exists []. }
  apply sbind_Ok in Hrun as (k & ? & [= Hk <-] & Hrun).
  apply sbind_Ok in Hrun as (v & ? & [= Hv <-] & Hrun).
  apply sbind_Ok in Hrun as (? & self1 & Hset & Hrun).
  apply sbind_Ok in Hrun as (? & self2 & Hcheck & Hrun).
  eapply on_state_tracks in Hset; [|done].
  eapply (check_commit_tracks _ (SetStorage address k v)) in Hcheck; [|done..].
  destruct (IH _ _ Hcheck Hrun) as (ops & Hops & Ht'). exists (SetStorage address k v :: ops).
  unfold storage_ops in *. cbn [omapM]. by rewrite Hk, Hv; cbn [obind]; rewrite Hops.
Qed.

Lemma inject_tracks commit_every addr account st self u self' :
  tracks st self -> inject commit_every addr account self = (Ok u, self') ->
  exists ops, account_ops addr account = Ok ops /\
    tracks (account_steps commit_every st ops) self'.
Proof.
  intros Ht Hrun. unfold inject in Hrun.
  apply sbind_Ok in Hrun as (a & ? & [= Ha <-] & Hrun).
  apply sbind_Ok in Hrun as (b & ? & [= Hb <-] & Hrun).
  apply sbind_Ok in Hrun as (n & ? & [= Hn <-] & Hrun).
  apply sbind_Ok in Hrun as (? & ? & [= _ <-] & Hrun).
  apply sbind_Ok in Hrun as (? & self1 & Hcheck & Hrun).
  eapply (check_commit_tracks _ (NewContract a b n)) in Hcheck;
    [|done|by destruct Ht; constructor].
  apply sbind_Ok in Hrun as (? & self2 & Hcode & Hrun).
  apply sbind_Ok in Hrun as (? & self3 & Hitems & [= _ <-]).
  unfold Genesis.account_ops. rewrite Ha, Hb, Hn. cbn [obind].
  assert (exists ops,
    (match code account with
     | Some code => let? code := from_hex hex_decode code in Ok [InitCode a code]
     | None => Ok []
     end) = Ok ops /\
    tracks (account_steps commit_every (operation commit_every (NewContract a b n) st) ops) self2)
    as (ops1 & -> & Ht2).
  { destruct (code account) as [code|]; [|injection Hcode as _ <-; by exists []].
    apply sbind_Ok in Hcode as (c & ? & [= Hc <-] & Hcode). rewrite Hc.
    apply sbind_Ok in Hcode as (? & ? & Hinit & Hcode).
    eapply on_state_tracks in Hinit; [|done].
    eapply (check_commit_tracks _ (InitCode a c)) in Hcode; [|done..]. by eexists. }
  cbn [obind].
  assert (exists ops,
    storage_ops a (default [] (Genesis.storage account)) = Ok ops /\
    tracks (account_steps commit_every (account_steps commit_every
      (operation commit_every (NewContract a b n) st) ops1) ops) self3) as (ops2 & Hops2 & Ht3).
  { destruct (Genesis.storage account) as [items|]; [|injection Hitems as _ <-; by exists []].
    by eapply set_storage_items_tracks. }
  unfold storage_ops in Hops2. rewrite Hops2. cbn [obind].
  eexists. split; [reflexivity|]. cbn [foldl]. rewrite foldl_app. by destruct Ht3; constructor.
Qed.

Section lemmas.
Context {SL : StateStoreLaws S}.

(** The storage node holds what the import last sent it, under the root the
    import remembers. *)
Record in_step (self : Import) : Prop := {
  step_root : root self = root_of (stored (storage self));
  step_linked : linked empty_hash (requests self) (root self)
}.

(** And that is all the tree has committed. *)
Definition in_sync (self : Import) : Prop :=
  in_step self /\ stored (storage self) = committed (tree self).

(** A computation that ends keeps the node in sync, one that panics leaves it
    at the last commit it acknowledged. *)
Definition keeps {A} (m : stateful Import Empty_set A) : Prop :=
  forall self, in_sync self ->
  in_step (m self).2 /\ forall a, (m self).1 = Ok a -> in_sync (m self).2.

Lemma keeps_same {A} (m : stateful Import Empty_set A) : (forall self, (m self).2 = self) -> keeps m.
Proof. intros H self Hs. rewrite H. split; [apply Hs|done]. Qed.

Lemma keeps_sret {A} (a : A) : keeps (sret a).
Proof. by apply keeps_same. Qed.

Lemma keeps_slift {A} (o : outcome Empty_set A) : keeps (slift o).
Proof. by apply keeps_same. Qed.

Lemma keeps_or_panic {A} (o : option A) : keeps (or_panic o).
Proof. apply keeps_slift. Qed.

Lemma keeps_sget : keeps sget.
Proof. by apply keeps_same. Qed.

Lemma keeps_sbind {A B} (m : stateful Import Empty_set A) (f : A -> stateful Import Empty_set B) :
  keeps m -> (forall a, keeps (f a)) -> keeps (sbind m f).
Proof.
  intros Hm Hf self Hs. unfold sbind. destruct (Hm self Hs) as [H1 H2].
  destruct (m self) as [[a| |] self']; [apply Hf; by eapply H2|done|done].
Qed.

Lemma keeps_smodify (f : Import -> Import) :
  (forall self, in_sync self -> in_sync (f self)) -> keeps (smodify f).
Proof. intros Hf self Hs. specialize (Hf self Hs). split; [apply Hf|done]. Qed.

Lemma set_state_sync st self : in_sync self -> in_sync (set_state st self).
Proof. by intros [[] ?]. Qed.
Lemma set_ops_sync n self : in_sync self -> in_sync (set_ops n self).
Proof. by intros [[] ?]. Qed.
Lemma set_n_accounts_sync n self : in_sync self -> in_sync (set_n_accounts n self).
Proof. by intros [[] ?]. Qed.

#[local] Hint Resolve keeps_sret keeps_slift keeps_or_panic keeps_sget set_state_sync set_ops_sync
  set_n_accounts_sync : rt.

(** A commit takes the node along; the tree's root is then the node's. *)
Lemma commit_spec self :
  in_sync self ->
  in_step (commit self).2 /\
  forall u, (commit self).1 = Ok u ->
    in_sync (commit self).2 /\
    exists t log, tree_commit t = Some (log, root (commit self).2, tree (commit self).2).
Proof.
  intros [[Hr Hl] Hst]. unfold commit, sbind, sget, or_panic, slift, smodify.
  destruct (state_commit (state self) (tree self)) as [[st t]|] eqn:Hsc; [|done].
  cbn [expect]. destruct (tree_commit t) as [[[log r] t']|] eqn:Htc; [|done].
  cbn [expect]. apply state_commit_pending in Hsc.
  destruct (tree_commit_spec _ _ _ _ Htc) as [Hc ->].
  destruct (storage_apply _ _) as [s'|] eqn:Happly; [|done]. cbn [expect fst snd].
  apply storage_apply_spec in Happly; cbn [src_root dst_root writelog] in *;
    [|done|by rewrite Hst, Hc, Hsc].
  assert (stored s' = committed t') as Hs' by by rewrite Happly, Hst, Hc, Hsc.
  assert (linked empty_hash (requests self ++ [{| src_round := 0; src_root := root self;
    dst_round := 0; dst_root := root_of (committed t'); writelog := log |}])
    (root_of (committed t'))) as Hlinked
    by by apply (linked_snoc _ _ {| src_round := 0; src_root := root self; dst_round := 0;
                                    dst_root := root_of (committed t'); writelog := log |}).
  assert (root_of (committed t') = root_of (stored s')) by by rewrite Hs'.
  split; [by constructor|]. intros _ _. split; [by split; [constructor|]|by exists t, log].
Qed.

Lemma commit_keeps : keeps commit.
Proof.
  intros self Hs. destruct (commit_spec self Hs) as [H1 H2]. split; [done|]. intros u Hu.
  by destruct (H2 u Hu).
Qed.

(** Replaying the log of [genesis_init] on an empty tree gives the genesis
    state of the spec. *)
Lemma genesis_init_log spec_ensure_db_good log :
  (forall t t', spec_ensure_db_good t = Some t' -> committed t' = committed t) ->
  genesis_init spec_ensure_db_good = Ok log ->
  exists t t' root, spec_ensure_db_good new_tree = Some t /\ tree_commit t = Some (log, root, t') /\
    committed t' = replay log (committed new_tree) /\ root = root_of (committed t').
Proof.
  intros Hspec Hrun. unfold genesis_init in Hrun.
  destruct (spec_ensure_db_good new_tree) as [t|] eqn:Ht; [|done]. cbn [expect obind] in Hrun.
  destruct (tree_commit t) as [[[log' root] t']|] eqn:Hc; [|done]. injection Hrun as ->.
  destruct (tree_commit_spec _ _ _ _ Hc) as [H1 H2]. exists t, t', root.
  by rewrite H1, (Hspec _ _ Ht) in *.
Qed.

(** Closes [keeps] of a computation put together from the others. *)
Ltac keeps_tac :=
  repeat first
    [ solve [auto with rt]
    | apply keeps_sbind; [|intros ?]
    | apply keeps_smodify; intros ? ?; cbv beta
    | case_match ].

Lemma check_commit_keeps commit_every : keeps (check_commit commit_every).
Proof. unfold check_commit. pose proof commit_keeps. keeps_tac. Qed.

Lemma on_state_keeps f : keeps (on_state f).
Proof. unfold on_state. keeps_tac. Qed.

#[local] Hint Resolve commit_keeps check_commit_keeps on_state_keeps : rt.

Lemma set_storage_items_keeps commit_every address items :
  keeps (set_storage_items commit_every address items).
Proof.
  induction items as [|[key value] items IH]; cbn [set_storage_items]; keeps_tac.
Qed.

#[local] Hint Resolve set_storage_items_keeps : rt.

Lemma inject_keeps commit_every addr account : keeps (inject commit_every addr account).
Proof. unfold inject. keeps_tac. Qed.

#[local] Hint Resolve inject_keeps : rt.

Section stream_lemmas.
Context (de_addr : bytes -> option (string * nat))
  (de_account : bytes -> option (ExportedAccount * nat)).

Lemma inject_stream_keeps commit_every fuel accounts :
  keeps (inject_stream de_addr de_account commit_every fuel accounts).
Proof. revert accounts. induction fuel as [|fuel IH]; intros accounts; cbn [inject_stream]; keeps_tac. Qed.

(** The fuel of [inject_export] is enough. *)
Lemma inject_stream_fuel commit_every fuel fuel' accounts self :
  (length (src accounts) < fuel)%nat -> (length (src accounts) < fuel')%nat ->
  inject_stream de_addr de_account commit_every fuel accounts self =
  inject_stream de_addr de_account commit_every fuel' accounts self.
Proof.
  revert fuel' accounts self. induction fuel as [|fuel IH]; intros [|fuel'] accounts self H1 H2;
    try lia.
  cbn [inject_stream]. unfold sbind at 1 3, slift.
  destruct (next _ _ accounts) as [[[[addr account]|] accounts']| |] eqn:Hn; try done.
  apply next_consumes in Hn. unfold sbind.
  destruct (inject _ _ _ self) as [[u| |] self']; [|done|done]. apply IH; lia.
Qed.

Lemma inject_stream_tracks commit_every fuel accounts st self u self' :
  tracks st self ->
  inject_stream de_addr de_account commit_every fuel accounts self = (Ok u, self') ->
  exists items st', collect de_addr de_account fuel accounts = Ok items /\
    import_accounts commit_every items st = Ok st' /\ tracks st' self'.
Proof.
  revert accounts st self. induction fuel as [|fuel IH]; intros accounts st self Ht Hrun;
    cbn [inject_stream collect] in *.
  { injection Hrun as _ <-. by exists [], st. }
  apply sbind_Ok in Hrun as ([item accounts'] & ? & [= Hnext <-] & Hrun). rewrite Hnext.
  cbn [obind]. destruct item as [[addr account]|]; [|injection Hrun as _ <-; by exists [], st].
  apply sbind_Ok in Hrun as (? & self1 & Hinject & Hrun).
  destruct (inject_tracks _ _ _ _ _ _ _ Ht Hinject) as (ops & Hops & Ht1).
  destruct (IH _ _ _ Ht1 Hrun) as (items & st' & -> & Hst' & Ht').
  exists ((addr, account) :: items), st'. split; [done|]. split; [|done].
  cbn [Genesis.import_accounts]. by rewrite Hops.
Qed.

#[local] Hint Resolve inject_stream_keeps : rt.

Lemma inject_export_keeps commit_every state_fb :
  keeps (inject_export de_addr de_account commit_every state_fb).
Proof. unfold inject_export. keeps_tac. Qed.

Lemma import_init_sync t st s :
  ensure_db_good new_tree = Some t -> stored s = committed new_tree -> in_sync (import_init t st s).
Proof.
  intros Ht Hs. apply ensure_db_good_pending in Ht. split; [constructor|]; cbn.
  - by rewrite Hs, new_tree_root.
  - done.
  - by rewrite Hs, Ht.
Qed.

(** It ends in sync, at the root in the genesis file. *)
Lemma playback_sync commit_every state_fb s genesis self :
  stored s = committed new_tree ->
  playback de_addr de_account commit_every state_fb s = Ok (genesis, self) ->
  in_sync self /\ genesis_state_root genesis = root self.
Proof.
  intros Hs Hrun. unfold playback in Hrun.
  destruct (ensure_db_good new_tree) as [t|] eqn:Ht; [|done]. cbn [expect obind] in Hrun.
  destruct (from_existing t) as [st|]; [|done]. cbn [expect obind] in Hrun.
  destruct (inject_export_keeps commit_every state_fb _ (import_init_sync t st s Ht Hs)) as [_ Hsync].
  unfold sbind in Hrun. destruct (inject_export _ _ _ _ _) as [[[]| |] self1]; [|done|done].
  destruct (commit_spec self1 (Hsync tt eq_refl)) as [_ Hc].
  destruct (commit self1) as [[[]| |] self2]; [|done|done]. cbn [obind] in Hrun.
  destruct (Hc tt eq_refl) as [Hsync2 (t1 & log & Htc)].
  destruct (mkvs_commit (tree self2)) as [r|] eqn:Hm; [|done].
  injection Hrun as <- <-. split; [done|]. cbn [genesis_state_root].
  by rewrite (mkvs_commit_spec _ _ _ _ _ Htc Hm).
Qed.

(** A run that succeeds has committed on the schedule of [Genesis.import]. *)
Lemma playback_schedule commit_every state_fb s genesis self :
  playback de_addr de_account commit_every state_fb s = Ok (genesis, self) ->
  exists accounts events,
    parse_export de_addr de_account state_fb = Ok accounts /\
    import commit_every accounts = Ok events /\
    length (requests self) = commits events.
Proof.
  intros Hrun. unfold playback in Hrun. apply obind_Ok in Hrun as (t & _ & Hrun).
  apply obind_Ok in Hrun as (st & _ & Hrun).
  destruct (sbind _ _ _) as [r self2] eqn:Hbind. apply obind_Ok in Hrun as (? & -> & Hrun).
  apply obind_Ok in Hrun as (root' & _ & [= _ <-]).
  apply sbind_Ok in Hbind as (? & self1 & Hexport & Hcommit).
  apply sbind_Ok in Hexport as (accounts & ? & [= Hnew <-] & Hstream).
  eapply (inject_stream_tracks _ _ _ ([], 0%Z)) in Hstream as (items & st' & Hitems & Himport & Ht);
    [|by constructor].
  apply commit_counts in Hcommit as [_ Hl]. exists items, (st'.1 ++ [Commit]).
  unfold parse_export, Genesis.import. rewrite Hnew, Himport. cbn [obind].
  split; [done|]. split; [done|]. rewrite Hl, (tracks_requests _ _ Ht), commits_app.
  unfold commits. simpl. lia.
Qed.

(** ** Properties *)

(** C38. The storage node follows the import: wherever the import stops, at its
    end or by a panic on a malformed account or a failing node, the root the
    import remembers is the one of what the node holds, and the write logs
    the node took lead from the empty root to it without a gap; when the
    import reaches its end the node holds exactly what the tree has committed. *)
Theorem storage_follows_import commit_every state_fb s t st :
  stored s = committed new_tree -> ensure_db_good new_tree = Some t ->
  let '(r, self) := inject_export de_addr de_account commit_every state_fb (import_init t st s) in
  root self = root_of (stored (storage self)) /\
  linked empty_hash (requests self) (root self) /\
  (r = Ok tt -> stored (storage self) = committed (tree self)).
Proof.
  intros Hs Ht.
  destruct (inject_export_keeps commit_every state_fb _ (import_init_sync t st s Ht Hs)) as [[H1 H2] H3].
  destruct (inject_export _ _ _ _ _) as [r self]. split; [done|]. split; [done|]. apply H3.
Qed.

(** C37. What a successful run of the import tool leaves behind: the storage
    node holds everything the tree has committed, under the root the genesis
    file names, reached from the empty root by the write logs it was sent, one
    after the other; the whole export has been parsed, and there is one write
    log for each commit of the schedule [Genesis.import] gives for its
    accounts, which is one every [commit_every] operations and one at the end. *)
Theorem playback_implements_import commit_every state_fb s genesis self :
  stored s = committed new_tree ->
  playback de_addr de_account commit_every state_fb s = Ok (genesis, self) ->
  stored (storage self) = committed (tree self) /\
  genesis_state_root genesis = root_of (stored (storage self)) /\
  linked empty_hash (requests self) (genesis_state_root genesis) /\
  exists accounts events,
    parse_export de_addr de_account state_fb = Ok accounts /\
    import commit_every accounts = Ok events /\
    length (requests self) = commits events.
Proof.
  intros Hs Hrun. destruct (playback_sync _ _ _ _ _ Hs Hrun) as [[[H1 H2] H3] Hg].
  rewrite Hg, H1 in *. split; [done|]. split; [done|]. split; [done|].
  by eapply playback_schedule.
Qed.

End stream_lemmas.
End lemmas.
End playback.

(** ** Witnesses *)

(** A tree of numbered entries whose root hash is the entries themselves, and
    a node that checks the root it is asked to follow from. *)
Module Witness.

#[local] Instance entries : StateStore := {|
  Tree := list bytes * list bytes;
  State := list bytes;
  Address := bytes;
  U256 := bytes;
  H256_key := bytes;
  WriteLog := list bytes;
  Storage := list bytes;
  new_tree := ([], []);
  empty_hash := [];
  ensure_db_good '(c, p) := Some (c, p ++ [str "genesis "]);
  from_existing _ := Some [];
  new_contract a b n _ st := st ++ [a ++ str "=" ++ b ++ str " "];
  init_code a code _ st := Some (st ++ [a ++ str ":" ++ code ++ str " "]);
  set_storage a k v _ st :=
    if bool_decide (k = []) then None
    else Some (st ++ [a ++ str "[" ++ k ++ str "]=" ++ v ++ str " "]);
  state_commit st '(c, p) := Some ([], (c, p ++ st));
  tree_commit '(c, p) := Some (p, concat (c ++ p), (c ++ p, []));
  mkvs_commit '(c, p) := Some (concat (c ++ p));
  storage_apply req s :=
    if bool_decide (src_root req = concat s /\ dst_root req = concat (s ++ writelog req))
    then Some (s ++ writelog req) else None;
  address_from_str a := Some (str a);
  u256_from_str b := Some (str b);
  h256_from_str k := Some (str k);
  hex_decode code := Some (str code)
|}.

#[local] Instance entries_laws : StateStoreLaws entries.
Proof.
  refine {|
    Contents := list bytes;
    committed := fun t : Tree => t.1;
    stored := fun s : Storage => s;
    root_of := @concat byte;
    replay := fun (log : WriteLog) c => c ++ log
  |}.
  - done.
  - by intros [c p] t' [= <-].
  - by intros st [c p] st' t' [= <- <-].
  - by intros [c p] log root t' [= <- <- <-].
  - intros [c p] log root t' root' [= <- <- <-] [= <-]. by rewrite app_nil_r.
  - intros req s s' _ _. cbn. case_bool_decide; [|done]. by intros [= <-].
Defined.

Definition account (b : string) (storage : list (string * string)) : ExportedAccount :=
  {| balance := b; nonce := "0"; code := Some "0x60"%string; Genesis.storage := Some storage |}.

Definition accounts : list (string * ExportedAccount) :=
  [("0x01", account "10" []); ("0x02", account "20" [("0x7", "0x8")])]%string.

(** The third account has a key no parser takes. *)
Definition malformed : list (string * ExportedAccount) :=
  accounts ++ [("0x03", account "30" [("0x", "0x")])]%string.

(** The JSON of the accounts: their position, between braces. *)
Definition rendered : list (bytes * ExportedAccount) :=
  zip [str "{1}"; str "{2}"; str "{3}"] (snd <$> malformed).

Definition render_account (acc : ExportedAccount) : bytes :=
  from_option fst [] (list_find (fun p => balance (snd p) = balance acc) rendered ≫= fun p => Some p.2).

Definition de_account (l : bytes) : option (ExportedAccount * nat) :=
  p ← list_find (fun p => fst p = take 3 l) rendered; Some (p.2.2, 3)%nat.

Definition export_of (accounts : list (string * ExportedAccount)) : bytes :=
  export Genesis.Witness.render_addr render_account accounts.

Definition tree0 : Tree := ([], [str "genesis "]).
Definition state0 : State := [].
Definition storage0 : Storage := [].

(** The node has been sent one commit, of three operations. *)
Lemma storage_follows_import_witness :
  (inject_export Genesis.Witness.de_addr de_account 3 (export_of malformed)
     (import_init tree0 state0 storage0)).1 = Panic /\
  length (requests (inject_export Genesis.Witness.de_addr de_account 3 (export_of malformed)
     (import_init tree0 state0 storage0)).2) = 2%nat /\
  (let '(r, self) := inject_export Genesis.Witness.de_addr de_account 3 (export_of malformed)
     (import_init tree0 state0 storage0) in
   root self = root_of (stored (storage self)) /\
   linked empty_hash (requests self) (root self) /\
   (r = Ok tt -> stored (storage self) = committed (tree self))).
Proof.
  split; [vm_compute; reflexivity|]. split; [vm_compute; reflexivity|].
  exact (storage_follows_import Genesis.Witness.de_addr de_account 3 (export_of malformed)
    storage0 tree0 state0 eq_refl eq_refl).
Defined.

Definition genesis : RuntimeGenesis := {|
  genesis_state_root := str "genesis 01=10 01:60 02=20 02:60 02[7]=8 "; genesis_round := 0
|}.

Lemma playback_implements_import_witness :
  exists self,
  playback Genesis.Witness.de_addr de_account 3 (export_of accounts) storage0 = Ok (genesis, self) /\
  length (requests self) = 2%nat /\
  stored (storage self) = committed (tree self) /\
  genesis_state_root genesis = root_of (stored (storage self)) /\
  linked empty_hash (requests self) (genesis_state_root genesis) /\
  exists accounts' events,
    parse_export Genesis.Witness.de_addr de_account (export_of accounts) = Ok accounts' /\
    Genesis.import address_from_str u256_from_str h256_from_str hex_decode 3 accounts' = Ok events /\
    length (requests self) = commits events.
Proof.
  eexists. split; [vm_compute; reflexivity|]. split; [reflexivity|].
  eapply (playback_implements_import Genesis.Witness.de_addr de_account 3 (export_of accounts)
    storage0); vm_compute; reflexivity.
Defined.

End Witness.
