(* ===== verification/Gateway.v ===== *)
(** * Starting and stopping the gateway ([gateway/src/rpc.rs], [gateway/src/run.rs])

    The server configurations, the construction of the two servers, the order
    in which [execute] brings the gateway up, with the steps it has taken when
    it fails, and its shutdown with the wait at the end.
    Binding a server is a parameter, as are the parsers of addresses and
    hosts and the timer of the broker. *)

From Stdlib Require Import ZArith Lia Ascii String.
From stdpp Require Import base numbers gmap strings option pretty list.
From S2P Require Import Prelude RpcApis.

Open Scope string_scope.

Section gateway.
(** [rpc::Host]: parsed from a string, and written back. *)
Context {Host SocketAddr Server : Type} (host_from : string -> Host)
  (host_to_string : Host -> string) (parse_addr : string -> option SocketAddr).

(** ** [rpc.rs] *)

Record HttpConfiguration := {
  http_enabled : bool;
  http_interface : string;
  http_port : Z;
  http_apis : ApiSet;
  http_cors : option (list string);
  http_hosts : option (list string);
  server_threads : Z;
  http_max_batch_size : Z
}.

Definition HttpConfiguration_default : HttpConfiguration := {|
  http_enabled := true;
  http_interface := "127.0.0.1";
  http_port := 8545;
  http_apis := UnsafeContext;
  http_cors := Some [];
  http_hosts := Some [];
  server_threads := 1;
  http_max_batch_size := 10
|}.

Record WsConfiguration := {
  ws_enabled : bool;
  ws_interface : string;
  ws_port : Z;
  ws_apis : ApiSet;
  max_connections : Z;
  ws_origins : option (list string);
  ws_hosts : option (list string);
  support_token_api : bool;
  dapps_address : option Host;
  ws_max_batch_size : Z;
  ws_max_req_per_sec : Z
}.

Definition WsConfiguration_default : WsConfiguration := {|
  ws_enabled := true;
  ws_interface := "127.0.0.1";
  ws_port := 8546;
  ws_apis := UnsafeContext;
  max_connections := 100;
  ws_origins := Some ["parity://*"; "chrome-extension://*"; "moz-extension://*"];
  ws_hosts := Some [];
  support_token_api := true;
  dapps_address := Some (host_from "127.0.0.1:8545");
  ws_max_batch_size := 10;
  ws_max_req_per_sec := 50
|}.

Definition url (interface : string) (port : Z) : string := interface +:+ ":" +:+ pretty port.

Definition address (enabled : bool) (bind_iface : string) (bind_port : Z)
    (hosts : option (list string)) : option Host :=
  if negb enabled then None
  else match hosts with
       | Some (host :: _) => Some (host_from host)
       | _ => Some (host_from (url bind_iface bind_port))
       end.

Definition ws_address (self : WsConfiguration) : option Host :=
  address (ws_enabled self) (ws_interface self) (ws_port self) (ws_hosts self).

(** [s.replace(pat, rep)], for a nonempty pattern. *)
Fixpoint replace_fuel (fuel : nat) (pat rep s : string) : string :=
  match fuel, s with
  | S fuel, String a s' =>
      if String.prefix pat s
      then rep +:+ replace_fuel fuel pat rep
             (String.substring (String.length pat) (String.length s - String.length pat) s)
      else String a (replace_fuel fuel pat rep s')
  | _, _ => s
  end.
Definition replace (pat rep s : string) : string := replace_fuel (S (String.length s)) pat rep s.

(** [None] lets every domain pass. *)
Definition into_domains {T} (from : string -> T) (items : option (list string)) : option (list T) :=
  (fun l : list string => from <$> l) <$> items.

Definition collect_hosts (items : option (list string)) (dapps_address : option Host)
  : option (gset string) :=
  (fun items : list string =>
     match dapps_address with
     | Some host =>
         list_to_set items ∪ {[ host_to_string host;
                                replace "127.0.0.1" "localhost" (host_to_string host) ]}
     | None => list_to_set items
     end) <$> items.

(** What a server is started with; a handler is its middleware's limits and
    its methods. *)
Record WsStart := {
  ws_addr : SocketAddr;
  ws_rate : Z;
  ws_batch : Z;
  ws_methods : list Delegate;
  allowed_origins : option (gset string);
  ws_allowed_hosts : option (gset string);
  ws_connections : Z
}.

Record HttpStart := {
  http_addr : SocketAddr;
  http_batch : Z;
  http_methods : list Delegate;
  cors_domains : option (list string);
  http_allowed_hosts : option (gset string);
  http_threads : Z
}.

Inductive StartError := AddrInUse | OtherError (debug : string).

Definition new_ws (start_ws : WsStart -> outcome StartError Server) (conf : WsConfiguration)
  : outcome string (option Server) :=
  if negb (ws_enabled conf) then Ok None
  else
    let url := url (ws_interface conf) (ws_port conf) in
    let? addr := ok_or (parse_addr url) ("Invalid WebSockets listen host/port given: " +:+ url) in
    map_err (fun e => match e with
      | AddrInUse => "WebSockets address " +:+ url +:+ " is already in use, make sure that another instance of an Ethereum client is not running or change the address using the --ws-port and --ws-interface options."
      | OtherError e => "WebSockets error: " +:+ e
      end)
      (omap_ok Some (start_ws {|
        ws_addr := addr;
        ws_rate := ws_max_req_per_sec conf;
        ws_batch := ws_max_batch_size conf;
        ws_methods := (extend_with_set [] (list_apis (ws_apis conf))).1;
        allowed_origins := collect_hosts (ws_origins conf) (dapps_address conf);
        ws_allowed_hosts := collect_hosts (ws_hosts conf) (Some (host_from url));
        ws_connections := max_connections conf
      |})).

(** The methods of an HTTP handler. *)
Definition setup_apis (apis : ApiSet) : list Delegate := (extend_with_set [] (list_apis apis)).1.

Definition new_http (start_http : HttpStart -> outcome StartError Server) (id options : string)
    (conf : HttpConfiguration) : outcome string (option Server) :=
  if negb (http_enabled conf) then Ok None
  else
    let url := url (http_interface conf) (http_port conf) in
    let? addr := ok_or (parse_addr url) ("Invalid " +:+ id +:+ " listen host/port given: " +:+ url) in
    map_err (fun e => match e with
      | AddrInUse => id +:+ " address " +:+ url +:+ " is already in use, make sure that another instance of an Ethereum client is not running or change the address using the --" +:+ options +:+ "-port and --" +:+ options +:+ "-interface options."
      | OtherError e => id +:+ " error: " +:+ e
      end)
      (omap_ok Some (start_http {|
        http_addr := addr;
        http_batch := http_max_batch_size conf;
        http_methods := setup_apis (http_apis conf);
        cors_domains := into_domains (fun s => s) (http_cors conf);
        http_allowed_hosts := collect_hosts (http_hosts conf) (Some (host_from url));
        http_threads := server_threads conf
      |})).

(** ** [run.rs]: [execute] *)

Definition gateway_ws_conf (interface : string) (port connections rate_limit batch : Z)
  : WsConfiguration := {|
  ws_enabled := ws_enabled WsConfiguration_default;
  ws_interface := interface;
  ws_port := port;
  ws_apis := ws_apis WsConfiguration_default;
  max_connections := connections;
  ws_origins := None;
  ws_hosts := None;
  support_token_api := support_token_api WsConfiguration_default;
  dapps_address := dapps_address WsConfiguration_default;
  ws_max_batch_size := batch;
  ws_max_req_per_sec := rate_limit
|}.

Definition gateway_http_conf (interface : string) (port threads batch : Z) : HttpConfiguration := {|
  http_enabled := http_enabled HttpConfiguration_default;
  http_interface := interface;
  http_port := port;
  http_apis := http_apis HttpConfiguration_default;
  http_cors := None;
  http_hosts := None;
  server_threads := threads;
  http_max_batch_size := batch
|}.

(** The parts shutdown takes apart; the runtime and the key manager client are
    the libraries'. *)
Record RunningGateway := {
  translator_gas_price : Z;
  http_server : option Server;
  ws_server : option Server
}.

(** [Broker::start] makes its timer at once, before the task it returns is
    spawned: [new_interval] is [tokio::timer::Interval::new_interval] of a
    number of seconds, which panics for a period it cannot serve, zero for
    one. *)
Definition start_timer {Er} (new_interval : Z -> outcome Empty_set unit) (interval_secs : Z)
  : outcome Er unit := map_err (fun e : Empty_set => match e with end) (new_interval interval_secs).

(** What [execute] has brought up. *)
Inductive Step :=
| Synced
| BrokerStarted (interval_secs : Z)
| WsStarted (conf : WsConfiguration)
| HttpStarted (conf : HttpConfiguration).

Definition step (s : Step) : stateful (list Step) string unit := smodify (fun steps => steps ++ [s])%list.

(** The node must be in sync first; then the broker is spawned, the WebSocket
    server is started, and the HTTP server after it. *)
Definition execute (wait_sync : outcome string unit)
    (new_interval : Z -> outcome Empty_set unit)
    (start_ws : WsStart -> outcome StartError Server)
    (start_http : HttpStart -> outcome StartError Server)
    (pubsub_interval_secs : Z) (interface : string) (http_port num_threads ws_port
      ws_max_connections ws_rate_limit gas_price jsonrpc_max_batch_size : Z)
  : stateful (list Step) string RunningGateway :=
  let! _ := slift wait_sync in
  let! _ := step Synced in
  let! _ := slift (start_timer new_interval pubsub_interval_secs) in
  let! _ := step (BrokerStarted pubsub_interval_secs) in
  let ws_conf :=
    gateway_ws_conf interface ws_port ws_max_connections ws_rate_limit jsonrpc_max_batch_size in
  let http_conf := gateway_http_conf interface http_port num_threads jsonrpc_max_batch_size in
  let! ws_server := slift (new_ws start_ws ws_conf) in
  let! _ := step (WsStarted ws_conf) in
  let! http_server := slift (new_http start_http "HTTP JSON-RPC" "jsonrpc" http_conf) in
  let! _ := step (HttpStarted http_conf) in
  sret {| translator_gas_price := gas_price; http_server := http_server; ws_server := ws_server |}.

(** ** Startup *)

Lemma new_ws_panics start_ws conf :
  (forall ws, panics (start_ws ws) = false) -> panics (new_ws start_ws conf) = false.
Proof.
  intros Hs. unfold new_ws. destruct (negb _); [done|]. destruct (parse_addr _); [|done].
  cbn [ok_or obind]. rewrite map_err_panics.
  match goal with |- context [start_ws ?ws] => specialize (Hs ws); by destruct (start_ws ws) end.
Qed.

Lemma new_http_panics start_http id options conf :
  (forall http, panics (start_http http) = false) ->
  panics (new_http start_http id options conf) = false.
Proof.
  intros Hs. unfold new_http. destruct (negb _); [done|]. destruct (parse_addr _); [|done].
  cbn [ok_or obind]. rewrite map_err_panics.
  match goal with |- context [start_http ?http] => specialize (Hs http); by destruct (start_http http) end.
Qed.

Lemma new_ws_Ok start_ws conf :
  ws_enabled conf = true -> is_Some (parse_addr (url (ws_interface conf) (ws_port conf))) ->
  (forall ws, is_ok (start_ws ws) = true) ->
  exists server, new_ws start_ws conf = Ok (Some server).
Proof.
  intros He [addr Ha] Hs. unfold new_ws. rewrite He, Ha. cbn [negb ok_or obind].
  match goal with |- context [start_ws ?ws] => specialize (Hs ws); destruct (start_ws ws) end;
    [by eexists|done|done].
Qed.

Lemma new_http_Ok start_http id options conf :
  http_enabled conf = true -> is_Some (parse_addr (url (http_interface conf) (http_port conf))) ->
  (forall http, is_ok (start_http http) = true) ->
  exists server, new_http start_http id options conf = Ok (Some server).
Proof.
  intros He [addr Ha] Hs. unfold new_http. rewrite He, Ha. cbn [negb ok_or obind].
  match goal with |- context [start_http ?http] => specialize (Hs http); destruct (start_http http) end;
    [by eexists|done|done].
Qed.

Section startup.
Context (wait_sync : outcome string unit) (new_interval : Z -> outcome Empty_set unit)
  (start_ws : WsStart -> outcome StartError Server)
  (start_http : HttpStart -> outcome StartError Server)
  (pubsub_interval_secs : Z) (interface : string) (http_port num_threads ws_port
    ws_max_connections ws_rate_limit gas_price jsonrpc_max_batch_size : Z).

Let ws_conf :=
  gateway_ws_conf interface ws_port ws_max_connections ws_rate_limit jsonrpc_max_batch_size.
Let http_conf := gateway_http_conf interface http_port num_threads jsonrpc_max_batch_size.
Let exec := execute wait_sync new_interval start_ws start_http pubsub_interval_secs interface http_port
  num_threads ws_port ws_max_connections ws_rate_limit gas_price jsonrpc_max_batch_size.

(** The steps of a startup, in order. *)
Definition startup : list Step :=
  [Synced; BrokerStarted pubsub_interval_secs; WsStarted ws_conf; HttpStarted http_conf].

Lemma execute_spec :
  exec [] =
  match wait_sync with
  | Ok _ =>
      if panics (new_interval pubsub_interval_secs) then (Panic, take 1 startup)
      else match new_ws start_ws ws_conf with
      | Ok ws =>
          match new_http start_http "HTTP JSON-RPC" "jsonrpc" http_conf with
          | Ok http =>
              (Ok {| translator_gas_price := gas_price; http_server := http; ws_server := ws |},
               startup)
          | Err e => (Err e, take 3 startup)
          | Panic => (Panic, take 3 startup)
          end
      | Err e => (Err e, take 2 startup)
      | Panic => (Panic, take 2 startup)
      end
  | Err e => (Err e, [])
  | Panic => (Panic, [])
  end.
Proof.
  unfold exec, execute, sbind, slift, step, smodify. fold ws_conf http_conf.
  destruct wait_sync; [|done|done]. cbn [app]. unfold start_timer.
  destruct (new_interval _) as [[]|[]|]; cbn [map_err panics]; [|done]. destruct (new_ws _ _); [|done|done].
  by destruct (new_http _ _ _ _).
Qed.

End startup.
End gateway.

(** ** [run.rs]: [wait_for_drop] *)

Open Scope Z_scope.

Definition second : Z := 10 ^ 9.
Definition sleep_duration : Z := 1 * second.
Definition warn_timeout : Z := 60 * second.
Definition max_timeout : Z := 300 * second.

Inductive exit := Dropped | TimedOut.

(** The loop from iteration [i] on: [at_loop i] and [at_warn i] are the two
    reads of the elapsed time of an iteration, [alive i] whether the weak
    reference can still be upgraded in it; the result comes with the number of
    warnings logged. *)
Fixpoint wait_loop (at_loop at_warn : nat -> Z) (alive : nat -> bool) (fuel i : nat)
    (warned : bool) (warnings : nat) : option (exit * nat * nat) :=
  match fuel with
  | O => None
  | S fuel =>
      if at_loop i <? max_timeout then
        if negb (alive i) then Some (Dropped, i, warnings)
        else if negb warned && (warn_timeout <? at_warn i)
        then wait_loop at_loop at_warn alive fuel (S i) true (S warnings)
        else wait_loop at_loop at_warn alive fuel (S i) warned warnings
      else Some (TimedOut, i, S warnings)
  end.

(** At one second a turn, the loop body runs at most 300 times. *)
Definition wait_for_drop (at_loop at_warn : nat -> Z) (alive : nat -> bool)
  : option (exit * nat * nat) := wait_loop at_loop at_warn alive 301 0 false 0.

(** [RunningGateway::shutdown]: the parts in the order they are dropped, then
    the wait for the translator the other threads still hold. *)
Inductive Part := RuntimePart | HttpServerPart | WsServerPart | TranslatorPart | KmClientPart.

Definition shutdown {Server} (self : RunningGateway (Server:=Server)) (at_loop at_warn : nat -> Z)
    (alive : nat -> bool) : list Part * option (exit * nat * nat) :=
  ([RuntimePart] ++ (if http_server self then [HttpServerPart] else []) ++
   (if ws_server self then [WsServerPart] else []) ++ [TranslatorPart; KmClientPart],
   wait_for_drop at_loop at_warn alive)%list.

(** ** Lemmas *)

(** Between two turns the thread sleeps for a second. *)
Definition sleeps (at_loop : nat -> Z) : Prop :=
  0 <= at_loop 0%nat /\ forall i, at_loop i + sleep_duration <= at_loop (S i).

Lemma sleeps_at at_loop i : sleeps at_loop -> Z.of_nat i * second <= at_loop i.
Proof.
  intros [H0 Hs]. induction i as [|i IH]; [done|]. specialize (Hs i).
  unfold sleep_duration, second in *. lia.
Qed.

Lemma wait_loop_spec at_loop at_warn alive fuel i warned warnings :
  sleeps at_loop -> (301 <= i + fuel)%nat -> (0 < fuel)%nat ->
  exists e j n, wait_loop at_loop at_warn alive fuel i warned warnings = Some (e, j, n) /\
    (i <= j <= Nat.max i 300)%nat /\ (forall k, i <= k < j -> alive k = true)%nat /\
    (n <= warnings + (if warned then 0 else 1) + (match e with TimedOut => 1 | _ => 0 end))%nat /\
    match e with
    | Dropped => alive j = false /\ at_loop j < max_timeout
    | TimedOut => max_timeout <= at_loop j
    end.
Proof.
  intros Hs. revert i warned warnings. induction fuel as [|fuel IH]; intros i warned warnings Hf Hpos;
    [lia|]. cbn [wait_loop]. pose proof (sleeps_at at_loop i Hs) as Hi.
  destruct (at_loop i <? max_timeout) eqn:Ht.
  - apply Z.ltb_lt in Ht. destruct (alive i) eqn:Ha; cbn [negb].
    + assert (i < 300)%nat by (unfold max_timeout, second in *; lia).
      destruct (negb warned && (warn_timeout <? at_warn i)) eqn:Hw.
      * apply andb_prop in Hw as [Hw _]. destruct warned; [done|].
        destruct (IH (S i) true (S warnings)) as (e & j & n & Hr & Hj & Hk & Hn & He); [lia|lia|].
        exists e, j, n. split_and!; [done|lia|lia| |lia|done].
        intros k Hk'. destruct (decide (k = i)) as [->|]; [done|]. apply Hk. lia.
      * destruct (IH (S i) warned warnings) as (e & j & n & Hr & Hj & Hk & Hn & He); [lia|lia|].
        exists e, j, n. split_and!; [done|lia|lia| |lia|done].
        intros k Hk'. destruct (decide (k = i)) as [->|]; [done|]. apply Hk. lia.
    + exists Dropped, i, warnings. split_and!; [done|lia|lia| |lia|done|done]. intros k Hk. lia.
  - apply Z.ltb_ge in Ht. exists TimedOut, i, (S warnings).
    split_and!; [done|lia|lia| |destruct warned; lia|done]. intros k Hk. lia.
Qed.

(** ** Properties *)

(** Shutdown terminates: sleeping a second per turn, the wait ends within
    301 turns, as soon as a turn finds the translator dropped, and only gives
    up once 300 seconds have passed with the translator alive at every turn;
    it warns at most twice. *)
Theorem wait_for_drop_terminates at_loop at_warn alive :
  sleeps at_loop ->
  exists e j n, wait_for_drop at_loop at_warn alive = Some (e, j, n) /\
    (j <= 300)%nat /\ (n <= 2)%nat /\ (forall k, k < j -> alive k = true)%nat /\
    match e with
    | Dropped => alive j = false
    | TimedOut => max_timeout <= at_loop j
    end.
Proof.
  intros Hs. destruct (wait_loop_spec at_loop at_warn alive 301 0 false 0 Hs)
    as (e & j & n & Hr & Hj & Hk & Hn & He); [lia|lia|].
  exists e, j, n. split_and!; [done|lia|destruct e; lia| |by destruct e as [|]; [destruct He|]].
  intros k Hk'. apply Hk. lia.
Qed.

(** ** Witnesses *)

Module Witness.

(** A timer that refuses a period of zero. *)
Definition timer (secs : Z) : outcome Empty_set unit := if (secs =? 0)%Z then Panic else Ok tt.

(** Dropped during the third turn. *)
Lemma wait_for_drop_terminates_witness :
  exists e j n, wait_for_drop (fun i => Z.of_nat i * second) (fun i => Z.of_nat i * second)
    (fun i => Nat.ltb i 3) = Some (e, j, n) /\ j = 3%nat.
Proof.
  destruct (wait_for_drop_terminates (fun i => Z.of_nat i * second) (fun i => Z.of_nat i * second)
    (fun i => Nat.ltb i 3)) as (e & j & n & Hr & _).
  - split; [simpl; lia|]. intros i. unfold sleep_duration. lia.
  - exists e, j, n. split; [exact Hr|]. vm_compute in Hr. by injection Hr as <- <- <-.
Defined.

End Witness.
