(* ===== verification/Ownership.v ===== *)
(** * Who keeps the translator alive ([gateway/src/run.rs] and the code it calls)

    The objects [execute] shares between the gateway's threads, with the
    references each of them holds, and what the shutdown drops of them.  The
    wait at the end of [shutdown] watches a weak reference to the translator;
    which of the tasks still running keep it alive is decided by these
    references.  The HTTP and WebSocket servers own the request handlers they
    are started with. *)

From Stdlib Require Import ZArith Lia.
From stdpp Require Import base numbers relations gmap strings option list.
From S2P Require Import Prelude Arc RpcApis Gateway.

Open Scope list_scope.
Open Scope nat_scope.

(** The objects behind an [Arc]. *)
Inductive Shared :=
| RuntimeClient | SimulatorPool | TranslatorObject | BrokerInner | BrokerObject | KmClient
| RpcStatsObject | FullDependencies | PollFilters | Subscribers | NotificationHandler.

Section construction.
Context {Er : Type}.

Notation alloc := (stateful (Memory Shared) Er).

(** ** The parts *)

(** [Arc::new(Translator::new(client, gas_price))]. *)
Definition translator_new : alloc nat :=
  let! client := arc_new RuntimeClient [] in
  let! simulator_pool := arc_new SimulatorPool [] in
  arc_new TranslatorObject [client; simulator_pool].

(** [Broker::new] is its [inner]; the listeners it gets are weak references. *)
Definition Broker_new (translator : nat) : alloc nat := arc_new BrokerInner [translator].

(** The future of [Broker::start] holds [inner], and a timer that is made when
    the method is called. *)
Definition Broker_start (new_interval : Z -> outcome Empty_set unit) (interval_secs : Z)
    (inner : nat) : alloc nat :=
  let! inner := arc_clone inner in
  let! _ := slift (start_timer new_interval interval_secs) in
  sret inner.

(** [EthPubSubClient::new]: the notification handler shares the subscribers. *)
Definition EthPubSubClient_new (translator : nat) : alloc (list nat) :=
  let! heads_subscribers := arc_new Subscribers [] in
  let! logs_subscribers := arc_new Subscribers [] in
  let! tx_subscribers := arc_new Subscribers [] in
  let! heads := arc_clone heads_subscribers in
  let! logs := arc_clone logs_subscribers in
  let! txs := arc_clone tx_subscribers in
  let! handler := arc_new NotificationHandler [translator; heads; logs; txs] in
  sret [handler; heads_subscribers; logs_subscribers; tx_subscribers].

(** [EthFilterClient::new]. *)
Definition EthFilterClient_new (translator : nat) : alloc (list nat) :=
  let! polls := arc_new PollFilters [] in
  sret [translator; polls].

(** The references of the client behind a set of methods; [EthClient] and
    [OasisClient] hold what they are given. *)
Definition delegate_references (translator km_client : nat) (d : Delegate) : alloc (list nat) :=
  match d with
  | Web3Methods | NetMethods | EthSigningMethods => sret []
  | EthMethods =>
      let! translator := arc_clone translator in
      sret [translator]
  | EthFilterMethods =>
      let! translator := arc_clone translator in
      EthFilterClient_new translator
  | EthPubSubMethods =>
      let! translator := arc_clone translator in
      EthPubSubClient_new translator
  | OasisMethods =>
      let! translator := arc_clone translator in
      let! km_client := arc_clone km_client in
      sret [translator; km_client]
  end.

Fixpoint delegates_references (translator km_client : nat) (ds : list Delegate) : alloc (list nat) :=
  match ds with
  | [] => sret []
  | d :: ds' =>
      let! held := delegate_references translator km_client d in
      let! held' := delegates_references translator km_client ds' in
      sret (held ++ held')
  end.

(** [activity_notifier]: the [ClientNotifier] of a middleware. *)
Definition activity_notifier (translator : nat) : alloc (list nat) :=
  let! translator := arc_clone translator in
  sret [translator].

(** The handler of [setup_apis]. *)
Definition http_handler (translator km_client : nat) (apis : ApiSet) : alloc (list nat) :=
  let! notifier := activity_notifier translator in
  let! methods := delegates_references translator km_client (setup_apis apis) in
  sret (notifier ++ methods).

(** The handler of [new_ws]: its dispatcher and its session statistics share
    the request statistics. *)
Definition ws_handler (translator km_client stats : nat) (apis : ApiSet) : alloc (list nat) :=
  let! stats1 := arc_clone stats in
  let! handler := http_handler translator km_client apis in
  let! stats2 := arc_clone stats in
  sret (stats1 :: handler ++ [stats2]).

(** A server owns the handler it is started with; one that does not start
    drops it.  No handler is made for a disabled server or a bad address. *)
Definition server_references {A} (started : bool) (handler : alloc (list nat))
    (result : outcome string (option A)) : alloc (list nat) :=
  if started then
    let! references := handler in
    if is_ok result then sret references
    else
      let! _ := drop_all references in
      sret []
  else sret [].

(** ** [execute] *)

Section gateway.
Context {Host SocketAddr Server : Type} (host_from : string -> Host)
  (host_to_string : Host -> string) (parse_addr : string -> option SocketAddr).
Context (wait_sync : outcome string unit) (new_interval : Z -> outcome Empty_set unit)
  (start_ws : WsStart (SocketAddr:=SocketAddr) -> outcome StartError Server)
  (start_http : HttpStart (SocketAddr:=SocketAddr) -> outcome StartError Server)
  (pubsub_interval_secs : Z) (interface : string) (http_port num_threads ws_port
    ws_max_connections ws_rate_limit gas_price jsonrpc_max_batch_size : Z).

Definition ws_conf : WsConfiguration :=
  gateway_ws_conf host_from interface ws_port ws_max_connections ws_rate_limit jsonrpc_max_batch_size.
Definition http_conf : HttpConfiguration :=
  gateway_http_conf interface http_port num_threads jsonrpc_max_batch_size.

Definition ws_result : outcome string (option Server) :=
  new_ws host_from host_to_string parse_addr start_ws ws_conf.
Definition http_result : outcome string (option Server) :=
  new_http host_from host_to_string parse_addr start_http "HTTP JSON-RPC" "jsonrpc" http_conf.

Definition starts (enabled : bool) (interface : string) (port : Z) : bool :=
  enabled && bool_decide (is_Some (parse_addr (url interface port))).

(** The references of a [RunningGateway]. *)
Record References := {
  translator_reference : nat;
  km_client_reference : nat;
  ws_references : list nat;
  http_references : list nat
}.

(** [execute], given the reference [km_client].  Beside the gateway it leaves
    the broker's future to the executor.  A failure drops the locals in the
    reverse order of their declaration, among them the executor with the
    broker's future. *)
Definition execute_shared (km_client : nat)
  : alloc (outcome string (RunningGateway (Server:=Server) * References * list nat)) :=
  match wait_sync with
  | Panic => sret Panic
  | Err e =>
      let! _ := drop_all [km_client] in
      sret (Err e)
  | Ok _ =>
      let! translator := translator_new in
      let! translator1 := arc_clone translator in
      let! inner := Broker_new translator1 in
      let! broker := arc_new BrokerObject [inner] in
      let! task := Broker_start new_interval pubsub_interval_secs inner in
      let! rpc_stats := arc_new RpcStatsObject [] in
      let! translator2 := arc_clone translator in
      let! broker1 := arc_clone broker in
      let! km_client1 := arc_clone km_client in
      let! deps_for_rpc_apis := arc_new FullDependencies [translator2; broker1; km_client1] in
      let! apis := arc_clone deps_for_rpc_apis in
      let! stats := arc_clone rpc_stats in
      let locals := [apis; stats; deps_for_rpc_apis; rpc_stats; broker] in
      let! ws := server_references (starts (ws_enabled ws_conf) (ws_interface ws_conf) (Gateway.ws_port ws_conf))
        (ws_handler translator km_client stats (ws_apis ws_conf)) ws_result in
      match ws_result with
      | Panic => sret Panic
      | Err e =>
          let! _ := drop_all (locals ++ [translator; task; km_client]) in
          sret (Err e)
      | Ok ws_server =>
          let! http := server_references
            (starts (http_enabled http_conf) (http_interface http_conf) (Gateway.http_port http_conf))
            (http_handler translator km_client (http_apis http_conf)) http_result in
          match http_result with
          | Panic => sret Panic
          | Err e =>
              let! _ := drop_all (ws ++ locals ++ [translator; task; km_client]) in
              sret (Err e)
          | Ok http_server =>
              let! _ := drop_all locals in
              sret (Ok ({| translator_gas_price := gas_price; http_server := http_server;
                           ws_server := ws_server |},
                        {| translator_reference := translator; km_client_reference := km_client;
                           ws_references := ws; http_references := http |}, [task]))
          end
      end
  end.

(** The references left when [execute] returns. *)
Definition owned_by (r : References) : list nat :=
  translator_reference r :: km_client_reference r :: ws_references r ++ http_references r.

Definition left_by (r : outcome string (RunningGateway (Server:=Server) * References * list nat))
  : list nat :=
  match r with
  | Ok (_, references, task) => task ++ owned_by references
  | _ => []
  end.

End gateway.
End construction.

(** ** The running gateway *)

(** Requests and notifications are tasks; each holds some references, taken
    from objects that are alive. *)
Record System := { memory : Memory Shared; tasks : list (list nat) }.

Inductive event : System -> System -> Prop :=
| spawned s references mem' :
    forallb (fun l => upgrades l (memory s)) references = true ->
    clone_all (Er:=Empty_set) references (memory s) = (Ok references, mem') ->
    event s {| memory := mem'; tasks := tasks s ++ [references] |}
| finished s i references mem' :
    tasks s !! i = Some references ->
    drop_all (Er:=Empty_set) references (memory s) = (Ok tt, mem') ->
    event s {| memory := mem'; tasks := delete i (tasks s) |}.

(** ** [RunningGateway::shutdown] *)

(** What [shutdown] drops itself, in order. *)
Definition shutdown_drops (self : References) : list nat :=
  http_references self ++ ws_references self ++
  [translator_reference self; km_client_reference self].

(** The executor ends its tasks over the turns of the wait, each at a turn. *)
Definition ending (ts : list (list nat * nat)) (i : nat) : list nat :=
  concat (filter (fun t => t.2 = i) ts).*1.

Fixpoint memory_at (mem : Memory Shared) (ts : list (list nat * nat)) (i : nat) : Memory Shared :=
  let before := match i with O => mem | S i => memory_at mem ts i end in
  (drop_all (Er:=Empty_set) (ending ts i) before).2.

Definition memory_at_turn (self : References) (mem : Memory Shared) (ts : list (list nat * nat))
  : nat -> Memory Shared :=
  memory_at (drop_all (Er:=Empty_set) (shutdown_drops self) mem).2 ts.

(** The wait asks the weak reference of the translator at every turn. *)
Definition shutdown_shared {Server} (gateway : RunningGateway (Server:=Server)) (self : References)
    (mem : Memory Shared) (ts : list (list nat * nat)) (at_loop at_warn : nat -> Z)
  : list Part * option (exit * nat * nat) :=
  shutdown gateway at_loop at_warn
    (fun i => upgrades (translator_reference self) (memory_at_turn self mem ts i)).

(** ** Specification *)

(** A task that still runs after turn [i] and keeps [l] alive. *)
Definition kept_by (mem : Memory Shared) (ts : list (list nat * nat)) (i l : nat) : Prop :=
  exists references turn r, (references, turn) ∈ ts /\ i < turn /\ r ∈ references /\
    reaches (objects mem) r l.

(** A memory with the key manager client [start] makes. *)
Definition km_memory : Memory Shared := (arc_new (Er:=Empty_set) KmClient [] memory_new).2.

(** ** Lemmas *)

Section lemmas.
Context {Er : Type}.

Notation alloc := (stateful (Memory Shared) Er).

Lemma ledger_object (kd : Shared) own : ledger own (arc_new (Er:=Er) kd own) (fun l => [l]).
Proof. apply ledger_new. by rewrite app_nil_r. Qed.

(** A new object made of some of the handles, within a program. *)
Lemma ledger_object_bind {B} (kd : Shared) own keep give (f : nat -> alloc B) take :
  give ≡ₚ own ++ keep -> (forall l, ledger (l :: keep) (f l) take) ->
  ledger give (sbind (arc_new kd own) f) take.
Proof. intros Hp Hf. eapply ledger_bind; [exact Hp|apply ledger_object|exact Hf]. Qed.

Lemma ledger_drop_bind {B} work keep give (f : unit -> alloc B) take :
  give ≡ₚ work ++ keep -> ledger keep (f tt) take ->
  ledger give (sbind (drop_all (Kind:=Shared) work) f) take.
Proof.
  intros Hp Hf. eapply (ledger_bind_all _ _ _ (fun _ => keep)); [by apply ledger_drop|].
  by intros [].
Qed.

Lemma translator_new_ledger : ledger [] (translator_new (Er:=Er)) (fun l => [l]).
Proof.
  apply (ledger_object_bind _ [] []); [done|]. intros client.
  apply (ledger_object_bind _ [] [client]); [done|]. intros pool.
  apply ledger_new. apply Permutation_swap.
Qed.

(** A broker's start that succeeds shares its inner. *)
Lemma Broker_start_run new_interval secs inner mem :
  panics (new_interval secs) = false ->
  Broker_start (Er:=Er) new_interval secs inner mem = arc_clone inner mem.
Proof.
  intros Hi. unfold Broker_start, sbind, slift, start_timer, sret.
  destruct (new_interval secs) as [[]|[]|]; [|done]. cbn [map_err].
  by destruct (arc_clone inner mem) as [[]].
Qed.

Lemma Broker_start_Ok new_interval secs inner mem task mem' :
  Broker_start (Er:=Er) new_interval secs inner mem = (Ok task, mem') ->
  task = inner /\ panics (new_interval secs) = false.
Proof.
  unfold Broker_start. intros Hrun. apply sbind_Ok in Hrun as (k & mem1 & Hk%arc_clone_Ok & Hrun).
  apply sbind_Ok in Hrun as ([] & mem2 & Ht & [= <- <-]). split; [done|].
  unfold slift, start_timer in Ht. by destruct (new_interval secs) as [[]|[]|].
Qed.

Lemma ledger_broker_bind {B} new_interval secs inner keep give
    (f : nat -> nat -> alloc B) take :
  panics (new_interval secs) = false -> give ≡ₚ [inner] ++ keep ->
  (forall l, ledger (inner :: l :: keep) (f l inner) take) ->
  ledger give (let! broker := arc_new BrokerObject [inner] in
               let! task := Broker_start new_interval secs inner in f broker task) take.
Proof.
  intros Hi Hp Hf roots mem Hh.
  destruct (ledger_new_clone_bind BrokerObject [inner] inner keep give f take Hp
    ltac:(by left) Hf roots mem Hh) as (a & mem' & Hrun & Hh'). exists a, mem'.
  split; [|done]. rewrite <- Hrun. unfold sbind at 1 3.
  destruct (arc_new _ _ mem) as [[l| |] mem1]; [|done..]. unfold sbind.
  by rewrite Broker_start_run.
Qed.

Lemma EthPubSubClient_new_ledger t : ledger [t] (EthPubSubClient_new (Er:=Er) t) (fun hs => hs).
Proof.
  apply (ledger_object_bind _ [] [t]); [done|]. intros heads.
  apply (ledger_object_bind _ [] [heads; t]); [done|]. intros logs.
  apply (ledger_object_bind _ [] [logs; heads; t]); [done|]. intros txs.
  apply ledger_clone_bind; [set_solver|].
  apply ledger_clone_bind; [set_solver|].
  apply ledger_clone_bind; [set_solver|].
  apply (ledger_object_bind _ [t; heads; logs; txs] [heads; logs; txs]); [solve_Permutation|].
  intros handler. by apply ledger_ret.
Qed.

Lemma delegate_references_ledger tr km d G :
  tr ∈ G -> km ∈ G -> ledger G (delegate_references (Er:=Er) tr km d) (fun hs => hs ++ G).
Proof.
  intros Ht Hk. destruct d; cbn [delegate_references]; try (by apply ledger_ret);
    (apply ledger_clone_bind; [done|]).
  - by apply ledger_ret.
  - apply (ledger_object_bind _ [] (tr :: G)); [done|]. intros polls.
    apply ledger_ret. cbn. apply Permutation_swap.
  - by apply (ledger_frame _ _ [tr] G (fun hs => hs) _ (reflexivity _)
      (fun _ => reflexivity _) (EthPubSubClient_new_ledger tr)).
  - apply ledger_clone_bind; [by right|]. apply ledger_ret. cbn. apply Permutation_swap.
Qed.

Lemma delegates_references_ledger tr km ds G :
  tr ∈ G -> km ∈ G -> ledger G (delegates_references (Er:=Er) tr km ds) (fun hs => hs ++ G).
Proof.
  intros Ht Hk. induction ds as [|d ds IH]; cbn [delegates_references]; [by apply ledger_ret|].
  eapply ledger_bind_all; [by apply delegate_references_ledger|]. intros hs. cbn beta.
  apply (ledger_bind _ _ _ G hs (fun hs' => hs' ++ G)); [apply Permutation_app_comm|done|].
  intros hs'. apply ledger_ret. solve_Permutation.
Qed.

Lemma http_handler_ledger tr km apis G :
  tr ∈ G -> km ∈ G -> ledger G (http_handler (Er:=Er) tr km apis) (fun hs => hs ++ G).
Proof.
  intros Ht Hk. unfold http_handler, activity_notifier.
  apply (ledger_bind_all _ _ _ (fun ns => ns ++ G)).
  - apply ledger_clone_bind; [done|]. by apply ledger_ret.
  - intros ns. apply (ledger_bind _ _ _ G ns (fun hs => hs ++ G)); [apply Permutation_app_comm| |].
    + by apply delegates_references_ledger.
    + intros hs. apply ledger_ret. solve_Permutation.
Qed.

Lemma ws_handler_ledger tr km stats apis G :
  tr ∈ G -> km ∈ G -> stats ∈ G ->
  ledger G (ws_handler (Er:=Er) tr km stats apis) (fun hs => hs ++ G).
Proof.
  intros Ht Hk Hs. unfold ws_handler. apply ledger_clone_bind; [done|].
  apply (ledger_bind _ _ _ G [stats] (fun hs => hs ++ G)); [solve_Permutation| |].
  - by apply http_handler_ledger.
  - intros hs. apply ledger_clone_bind; [set_solver|]. apply ledger_ret. solve_Permutation.
Qed.

Lemma server_references_ledger {A} started handler (result : outcome string (option A)) G :
  ledger G handler (fun hs => hs ++ G) ->
  ledger G (server_references (Er:=Er) started handler result)
    (fun hs => (if is_ok result then hs else []) ++ G).
Proof.
  intros Hh. unfold server_references.
  destruct started; [|by apply ledger_ret; destruct (is_ok result)].
  eapply ledger_bind_all; [exact Hh|]. intros hs. destruct (is_ok result); [by apply ledger_ret|].
  apply (ledger_drop_bind hs G); [done|]. by apply ledger_ret.
Qed.

(** *** Addresses are kept *)

Ltac evolve :=
  repeat first [solve [eauto with arc] | apply evolving_bind | progress intros | case_match].

Lemma delegates_references_evolving tr km ds :
  evolving (delegates_references (Er:=Er) tr km ds).
Proof.
  induction ds as [|d ds IH]; cbn [delegates_references]; evolve.
  unfold delegate_references, EthFilterClient_new, EthPubSubClient_new. evolve.
Qed.
#[local] Hint Resolve delegates_references_evolving : arc.

Lemma http_handler_evolving tr km apis : evolving (http_handler (Er:=Er) tr km apis).
Proof. unfold http_handler, activity_notifier. evolve. Qed.
#[local] Hint Resolve http_handler_evolving : arc.

Lemma server_references_evolving {A} started handler (result : outcome string (option A)) :
  evolving handler -> evolving (server_references (Er:=Er) started handler result).
Proof. intros Hh. unfold server_references. evolve. Qed.

(** *** [execute] *)

Section execute.
Context {Host SocketAddr Server : Type} (host_from : string -> Host)
  (host_to_string : Host -> string) (parse_addr : string -> option SocketAddr).
Context (wait_sync : outcome string unit) (new_interval : Z -> outcome Empty_set unit)
  (start_ws : WsStart (SocketAddr:=SocketAddr) -> outcome StartError Server)
  (start_http : HttpStart (SocketAddr:=SocketAddr) -> outcome StartError Server)
  (pubsub_interval_secs : Z) (interface : string) (http_port num_threads ws_port
    ws_max_connections ws_rate_limit gas_price jsonrpc_max_batch_size : Z).
(** Nothing [execute] calls panics. *)
Context (Hsync : panics wait_sync = false) (Hws : forall ws, panics (start_ws ws) = false)
  (Hhttp : forall http, panics (start_http http) = false)
  (Hinterval : panics (new_interval pubsub_interval_secs) = false).

Let exec (km_client : nat) := execute_shared (Er:=Er) host_from host_to_string parse_addr wait_sync
  new_interval start_ws start_http pubsub_interval_secs interface http_port num_threads ws_port ws_max_connections ws_rate_limit
  gas_price jsonrpc_max_batch_size km_client.

Lemma execute_shared_ledger km_client : ledger [km_client] (exec km_client) left_by.
Proof.
  unfold exec, execute_shared. set (ws := ws_result _ _ _ _ _ _ _ _ _). set (http := http_result _ _ _ _ _ _ _ _).
  assert (panics ws = false) as Hpw by by apply new_ws_panics.
  assert (panics http = false) as Hph by by apply new_http_panics.
  destruct wait_sync as [[]|e|]; [| |done].
  2: { apply (ledger_drop_bind [km_client] []); [done|]. by apply ledger_ret. }
  apply (ledger_bind _ _ _ [] [km_client] (fun l => [l])); [done|apply translator_new_ledger|].
  intros tr. apply ledger_clone_bind; [set_solver|].
  apply (ledger_object_bind _ [tr] [tr; km_client]); [done|]. intros inner.
  apply (ledger_broker_bind _ _ inner [tr; km_client]); [done|done|]. intros broker.
  apply (ledger_object_bind _ [] [inner; broker; tr; km_client]); [done|]. intros stats.
  do 3 (apply ledger_clone_bind; [set_solver|]).
  apply (ledger_object_bind _ [tr; broker; km_client] [stats; inner; broker; tr; km_client]);
    [solve_Permutation|]. intros deps.
  do 2 (apply ledger_clone_bind; [set_solver|]).
  set (G := [stats; deps; deps; stats; inner; broker; tr; km_client]).
  eapply ledger_bind_all.
  { apply (server_references_ledger _ _ _ G). apply ws_handler_ledger; set_solver. }
  intros ws_refs. cbn beta. destruct ws as [ws_server|e|]; [| |done]; cbn [is_ok].
  2: { apply (ledger_drop_bind _ []); [unfold G; solve_Permutation|]. by apply ledger_ret. }
  eapply ledger_bind_all.
  { apply (server_references_ledger _ _ _ (ws_refs ++ G)). apply http_handler_ledger; set_solver. }
  intros http_refs. cbn beta. destruct http as [http_server|e|]; [| |done]; cbn [is_ok].
  - apply (ledger_drop_bind _ (http_refs ++ ws_refs ++ [inner; tr; km_client]));
      [unfold G; solve_Permutation|]. apply ledger_ret. cbn. unfold owned_by. cbn. solve_Permutation.
  - apply (ledger_drop_bind _ []); [unfold G; solve_Permutation|]. by apply ledger_ret.
Qed.


(** The references change nothing of what [execute] returns. *)
Lemma execute_shared_result km_client mem r mem' :
  exec km_client mem = (Ok r, mem') ->
  omap_ok (fst ∘ fst) r =
    (execute host_from host_to_string parse_addr wait_sync new_interval start_ws start_http pubsub_interval_secs
       interface http_port num_threads ws_port ws_max_connections ws_rate_limit gas_price
       jsonrpc_max_batch_size []).1.
Proof.
  rewrite execute_spec. unfold exec, execute_shared. intros Hrun.
  fold (ws_conf host_from interface ws_port ws_max_connections ws_rate_limit jsonrpc_max_batch_size).
  fold (http_conf interface http_port num_threads jsonrpc_max_batch_size).
  change (new_ws _ _ _ _ _) with (ws_result host_from host_to_string parse_addr start_ws interface ws_port
    ws_max_connections ws_rate_limit jsonrpc_max_batch_size).
  change (new_http _ _ _ _ _ _ _) with (http_result host_from host_to_string parse_addr start_http
    interface http_port num_threads jsonrpc_max_batch_size).
  destruct wait_sync as [[]|e|]; [|by apply sbind_Ok in Hrun as (?&?&?&[= <- <-])|by injection Hrun as <- <-].
  do 4 apply sbind_Ok in Hrun as (?&?&_&Hrun).
  apply sbind_Ok in Hrun as (?&?&[_ Htimer]%Broker_start_Ok&Hrun). rewrite Htimer.
  do 8 apply sbind_Ok in Hrun as (?&?&_&Hrun).
  destruct (ws_result _ _ _ _ _ _ _ _ _);
    [|by apply sbind_Ok in Hrun as (?&?&_&[= <- <-])|by injection Hrun as <- <-].
  apply sbind_Ok in Hrun as (?&?&_&Hrun).
  destruct (http_result _ _ _ _ _ _ _ _);
    [|by apply sbind_Ok in Hrun as (?&?&_&[= <- <-])|by injection Hrun as <- <-].
  by apply sbind_Ok in Hrun as (?&?&_&[= <- <-]).
Qed.

(** An [execute] that succeeds has made the timer. *)
Lemma execute_shared_timer km_client mem x mem' :
  exec km_client mem = (Ok (Ok x), mem') -> panics (new_interval pubsub_interval_secs) = false.
Proof.
  clear Hinterval. unfold exec, execute_shared. intros Hrun.
  destruct wait_sync as [[]|e|]; [|by apply sbind_Ok in Hrun as (?&?&_&[=])|done].
  do 4 apply sbind_Ok in Hrun as (?&?&_&Hrun).
  by apply sbind_Ok in Hrun as (?&?&[_ Htimer]%Broker_start_Ok&_).
Qed.

(** The broker's future holds the translator through the broker's inner. *)
Lemma execute_shared_task km_client mem gateway references task mem' :
  held [km_client] mem -> exec km_client mem = (Ok (Ok (gateway, references, task)), mem') ->
  exists inner, task = [inner] /\ reaches (objects mem') inner (translator_reference references).
Proof.
  intros Hh Hrun. destruct (execute_shared_ledger km_client [] mem) as (r & mem1 & Hr & Hh');
    [done|]. rewrite Hrun in Hr. injection Hr as <- <-. unfold exec, execute_shared in Hrun.
  destruct wait_sync as [[]|e|]; [|by apply sbind_Ok in Hrun as (?&?&_&[= <- <-])|done].
  apply sbind_Ok in Hrun as (tr & mem1 & _ & Hrun).
  apply sbind_Ok in Hrun as (tr1 & mem2 & Htr1 & Hrun).
  apply arc_clone_Ok in Htr1 as ->.
  apply sbind_Ok in Hrun as (inner & mem3 & [= <- <-] & Hrun).
  set (mem3 := {| objects := _; next := _ |}) in Hrun.
  match type of Hrun with ?m mem3 = _ => assert (evolving m) as [_ He]%(fun H => H mem3) end.
  { unfold Broker_start. evolve. all: apply server_references_evolving; unfold ws_handler; evolve. }
  rewrite Hrun in He. cbn [snd] in He.
  apply sbind_Ok in Hrun as (broker & mem4 & _ & Hrun).
  apply sbind_Ok in Hrun as (inner & mem5 & [Hinner _]%Broker_start_Ok & Hrun).
  do 8 apply sbind_Ok in Hrun as (?&?&_&Hrun).
  destruct (ws_result _ _ _ _ _ _ _ _ _); [|by apply sbind_Ok in Hrun as (?&?&_&[=])|done].
  apply sbind_Ok in Hrun as (?&?&_&Hrun).
  destruct (http_result _ _ _ _ _ _ _ _); [|by apply sbind_Ok in Hrun as (?&?&_&[=])|done].
  apply sbind_Ok in Hrun as (?&?&_&[= <- <- <- <-]). exists inner. split; [done|].
  cbn [translator_reference]. destruct (counted_root _ _ inner (held_counted _ _ Hh')) as [o Ho].
  { by left. }
  destruct (He inner o) as (o3 & Ho3 & _ & Hw); [subst inner; cbn; lia|done|].
  subst inner. cbn [mem3 objects] in Ho3. rewrite lookup_insert_eq in Ho3. injection Ho3 as <-.
  apply rtc_once. exists o. split; [done|]. rewrite Hw. by left.
Qed.

End execute.
End lemmas.

(** *** The running gateway *)

Lemma event_held own s s' :
  held (concat (tasks s) ++ own) (memory s) -> event s s' ->
  held (concat (tasks s') ++ own) (memory s') /\ evolves (memory s) (memory s').
Proof.
  intros Hh Hs. destruct Hs as [s0 rs mem' Ha Hc|s0 i rs mem' Hi Hd]; cbn [memory tasks].
  - destruct (held_clone_all (Er:=Empty_set) _ _ _ Hh Ha) as (mem1 & H1 & Hh1).
    rewrite Hc in H1. injection H1 as <-. split.
    + eapply held_perm; [|done]. rewrite concat_app. cbn. solve_Permutation.
    + pose proof (evolving_clone_all (Er:=Empty_set) rs (memory s0)) as He. by rewrite Hc in He.
  - destruct (drop_all_frees (Er:=Empty_set) rs (concat (delete i (tasks s0)) ++ own) (memory s0))
      as (mem1 & H1 & Hh1 & _).
    { eapply held_perm; [|done]. rewrite (delete_Permutation (tasks s0) i rs Hi) at 1. cbn.
      solve_Permutation. }
    rewrite Hd in H1. injection H1 as <-. split; [done|].
    pose proof (evolving_drop (Er:=Empty_set) rs (memory s0)) as He. by rewrite Hd in He.
Qed.

Lemma events_held own s s' :
  held (concat (tasks s) ++ own) (memory s) -> rtc event s s' ->
  held (concat (tasks s') ++ own) (memory s') /\ evolves (memory s) (memory s').
Proof.
  intros Hh Hs. revert Hh. induction Hs as [s|s1 s2 s3 H12 _ IH]; intros Hh; [done|].
  destruct (event_held _ _ _ Hh H12) as [Hh2 He2]. destruct (IH Hh2) as [Hh3 He3].
  split; [done|]. by etransitivity.
Qed.

(** *** The turns of the wait *)

Definition remaining (ts : list (list nat * nat)) (i : nat) : list nat :=
  concat (filter (fun t => i < t.2) ts).*1.

Lemma ending_remaining ts : concat ts.*1 ≡ₚ ending ts 0 ++ remaining ts 0.
Proof.
  induction ts as [|[rs turn] ts IH]; [done|]. unfold ending, remaining in *.
  rewrite !filter_cons. cbn [fst snd fmap list_fmap concat]. rewrite IH.
  destruct (decide (turn = 0)), (decide (0 < turn)); try lia; cbn; solve_Permutation.
Qed.

Lemma remaining_next ts i : remaining ts i ≡ₚ ending ts (S i) ++ remaining ts (S i).
Proof.
  induction ts as [|[rs turn] ts IH]; [done|]. unfold ending, remaining in *.
  rewrite !filter_cons. cbn [fst snd].
  destruct (decide (i < turn)), (decide (turn = S i)), (decide (S i < turn));
    try lia; cbn; rewrite ?IH; solve_Permutation.
Qed.

Lemma memory_at_held mem ts i :
  held (concat ts.*1) mem ->
  held (remaining ts i) (memory_at mem ts i) /\ shrinks (objects mem) (objects (memory_at mem ts i)).
Proof.
  intros Hh. induction i as [|i [IHh IHs]]; cbn [memory_at].
  - destruct (drop_all_frees (Er:=Empty_set) (ending ts 0) (remaining ts 0) mem)
      as (mem' & -> & Hh' & Hs & _); [|done].
    eapply held_perm; [apply ending_remaining|done].
  - destruct (drop_all_frees (Er:=Empty_set) (ending ts (S i)) (remaining ts (S i)) (memory_at mem ts i))
      as (mem' & -> & Hh' & Hs & _); [eapply held_perm; [apply remaining_next|done]|].
    split; [done|]. by eapply shrinks_trans.
Qed.

(** At a turn of the wait exactly what the remaining tasks keep is alive. *)
Lemma alive_at_turn self mem ts i l :
  held (concat ts.*1 ++ owned_by self) mem ->
  upgrades l (memory_at_turn self mem ts i) = true <-> kept_by mem ts i l.
Proof.
  intros Hh. unfold memory_at_turn.
  destruct (drop_all_frees (Er:=Empty_set) (shutdown_drops self) (concat ts.*1) mem)
    as (mem1 & -> & Hh1 & Hs1 & _).
  { eapply held_perm; [|done]. unfold shutdown_drops, owned_by. solve_Permutation. }
  cbn [snd]. destruct (memory_at_held mem1 ts i Hh1) as [Hh2 Hs2].
  pose proof (shrinks_trans _ _ _ Hs1 Hs2) as Hs. unfold upgrades.
  rewrite bool_decide_eq_true, (alive_iff_reached _ _ _ (held_counted _ _ Hh2)). split.
  - intros (r & Hr & Hrl). pose proof Hr as Hr'. apply list_elem_of_In, in_concat in Hr' as (rs & Hrs & Hin).
    apply list_elem_of_In, list_elem_of_fmap in Hrs as ([rs' turn] & -> & Ht).
    apply list_elem_of_filter in Ht as [Hlt Ht]. exists rs', turn, r.
    split_and!; [done|done|by apply list_elem_of_In|].
    by eapply (shrinks_reaches _ _ _ _ _ (held_counted _ _ Hh2) Hs Hr).
  - intros (rs & turn & r & Ht & Hlt & Hr & Hrl). exists r.
    assert (r ∈ remaining ts i) as Hin.
    { apply list_elem_of_In, in_concat. exists rs. split; [|by apply list_elem_of_In].
      apply list_elem_of_In, list_elem_of_fmap. exists (rs, turn). split; [done|].
      by apply list_elem_of_filter. }
    split; [done|]. by eapply (shrinks_reaches _ _ _ _ _ (held_counted _ _ Hh2) Hs Hin).
Qed.

(** ** Properties *)

Section properties.
Context {Host SocketAddr Server : Type} (host_from : string -> Host)
  (host_to_string : Host -> string) (parse_addr : string -> option SocketAddr).
Context (wait_sync : outcome string unit) (new_interval : Z -> outcome Empty_set unit)
  (start_ws : WsStart (SocketAddr:=SocketAddr) -> outcome StartError Server)
  (start_http : HttpStart (SocketAddr:=SocketAddr) -> outcome StartError Server)
  (pubsub_interval_secs : Z) (interface : string) (http_port num_threads ws_port
    ws_max_connections ws_rate_limit gas_price jsonrpc_max_batch_size : Z).

Let exec := execute_shared (Er:=Empty_set) host_from host_to_string parse_addr wait_sync
  new_interval start_ws start_http pubsub_interval_secs interface http_port num_threads ws_port ws_max_connections ws_rate_limit
  gas_price jsonrpc_max_batch_size 0.

Lemma km_memory_held : held [0] km_memory.
Proof.
  destruct (ledger_object (Er:=Empty_set) KmClient [] [] memory_new) as (l & mem & Hn & Hh).
  { split; [split|]; cbn; [done| |done|]; [by intros l o|by intros l [o Hl]]. }
  injection Hn as <- <-. done.
Qed.

(** C23. The gateway's start leaves no reference behind: with calls that do
    not panic, the timer of the broker's interval among them, [execute]
    returns, with the result it has without the references.  If it fails,
    whether while it waits for the node or when one of the servers does not
    start, every object it made is gone.  If it succeeds, what is alive is what
    the gateway and the broker's task reach. *)
Theorem execute_leaves_no_reference :
  panics wait_sync = false -> panics (new_interval pubsub_interval_secs) = false ->
  (forall ws, panics (start_ws ws) = false) -> (forall http, panics (start_http http) = false) ->
  exists r mem, exec km_memory = (Ok r, mem) /\
    omap_ok (fst ∘ fst) r =
      (execute host_from host_to_string parse_addr wait_sync new_interval start_ws start_http
         pubsub_interval_secs interface http_port num_threads ws_port ws_max_connections
         ws_rate_limit gas_price jsonrpc_max_batch_size []).1 /\
    match r with
    | Err _ => objects mem = ∅
    | Ok (_, references, task) =>
        forall l, upgrades l mem = true <->
          exists r, r ∈ task ++ owned_by references /\ reaches (objects mem) r l
    | Panic => False
    end.
Proof.
  intros Hsync Hinterval Hws Hhttp.
  destruct (execute_shared_ledger (Er:=Empty_set) host_from host_to_string parse_addr wait_sync
    new_interval start_ws start_http pubsub_interval_secs interface http_port num_threads ws_port ws_max_connections ws_rate_limit
    gas_price jsonrpc_max_batch_size Hsync Hws Hhttp Hinterval 0 [] km_memory km_memory_held)
    as (r & mem & Hr & Hh). rewrite app_nil_r in Hh. exists r, mem.
  pose proof (execute_shared_result (Er:=Empty_set) host_from host_to_string parse_addr wait_sync
    new_interval start_ws start_http pubsub_interval_secs interface http_port num_threads ws_port
    ws_max_connections ws_rate_limit gas_price jsonrpc_max_batch_size Hsync 0 km_memory r mem Hr) as Hres.
  split_and!; [exact Hr|exact Hres|]. destruct r as [[[gateway references] task]|e|].
  - intros l. unfold upgrades. rewrite bool_decide_eq_true.
    apply (alive_iff_reached _ _ _ (held_counted _ _ Hh)).
  - by apply held_nil.
  - rewrite execute_spec in Hres. cbn [omap_ok] in Hres. destruct wait_sync; [|done|done].
    rewrite Hinterval in Hres.
    revert Hres. case_match eqn:Hw; [|done|].
    + case_match eqn:Hh'; [done|done|].
      by pose proof (new_http_panics host_from host_to_string parse_addr start_http "HTTP JSON-RPC"
        "jsonrpc" (http_conf interface http_port num_threads jsonrpc_max_batch_size) Hhttp) as Hp;
      unfold http_conf in Hp; rewrite Hh' in Hp.
    + by pose proof (new_ws_panics host_from host_to_string parse_addr start_ws (ws_conf host_from
        interface ws_port ws_max_connections ws_rate_limit jsonrpc_max_batch_size) Hws) as Hp;
      unfold ws_conf in Hp; rewrite Hw in Hp.
Qed.

(** C22. What the shutdown waits for: after any run of the gateway, whose
    requests and notifications take references from what is alive, the wait
    at the end of [shutdown] goes on exactly while one of the tasks the
    executor has not ended yet keeps the translator alive, and gives up only
    after 300 seconds, within 301 turns and two warnings; the servers, the
    handlers they own and the gateway itself keep nothing.  The broker's task
    keeps the translator alive as long as it is not ended, and when all tasks
    are ended no object is left.  Every other object, a listener of the broker
    too, is alive at a turn exactly while such a task keeps it. *)
Theorem shutdown_waits_for_tasks gateway references task mem s ts at_loop at_warn :
  panics wait_sync = false -> (forall ws, panics (start_ws ws) = false) ->
  (forall http, panics (start_http http) = false) ->
  exec km_memory = (Ok (Ok (gateway, references, task)), mem) ->
  rtc event {| memory := mem; tasks := [task] |} s ->
  ts.*1 = tasks s -> sleeps at_loop ->
  let translator := translator_reference references in
  exists e j n,
    (shutdown_shared gateway references (memory s) ts at_loop at_warn).2 = Some (e, j, n) /\
    j <= 300 /\ n <= 2 /\
    (forall i, i < j -> kept_by (memory s) ts i translator) /\
    match e with
    | Dropped => ~ kept_by (memory s) ts j translator
    | TimedOut => (max_timeout <= at_loop j)%Z
    end /\
    (forall turn i, (task, turn) ∈ ts -> i < turn -> kept_by (memory s) ts i translator) /\
    (forall i l, upgrades l (memory_at_turn references (memory s) ts i) = true <->
       kept_by (memory s) ts i l) /\
    (forall i, Forall (fun t => t.2 <= i) ts ->
       objects (memory_at_turn references (memory s) ts i) = ∅).
Proof.
  intros Hsync Hws Hhttp Hrun Hev Hts Hsl translator.
  pose proof (execute_shared_timer (Er:=Empty_set) host_from host_to_string parse_addr wait_sync
    new_interval start_ws start_http pubsub_interval_secs interface http_port num_threads ws_port
    ws_max_connections ws_rate_limit gas_price jsonrpc_max_batch_size Hsync 0 km_memory _ _ Hrun)
    as Hinterval.
  destruct (execute_shared_ledger (Er:=Empty_set) host_from host_to_string parse_addr wait_sync
    new_interval start_ws start_http pubsub_interval_secs interface http_port num_threads ws_port ws_max_connections ws_rate_limit
    gas_price jsonrpc_max_batch_size Hsync Hws Hhttp Hinterval 0 [] km_memory km_memory_held)
    as (r & mem1 & Hr & Hh). unfold exec in Hrun. rewrite Hrun in Hr. injection Hr as <- <-.
  rewrite app_nil_r in Hh. cbn [left_by] in Hh.
  destruct (execute_shared_task (Er:=Empty_set) host_from host_to_string parse_addr wait_sync
    new_interval start_ws start_http pubsub_interval_secs interface http_port num_threads ws_port ws_max_connections ws_rate_limit
    gas_price jsonrpc_max_batch_size Hsync Hws Hhttp Hinterval 0 km_memory _ _ _ _ km_memory_held Hrun)
    as (inner & -> & Hinner).
  assert (held (concat (tasks {| memory := mem; tasks := [[inner]] |}) ++ owned_by references) mem)
    as Hh0 by done.
  destruct (events_held _ _ _ Hh0 Hev) as [Hhs Hes]. rewrite <- Hts in Hhs.
  destruct (wait_loop_spec at_loop at_warn
    (fun i => upgrades translator (memory_at_turn references (memory s) ts i)) 301 0 false 0 Hsl)
    as (e & j & n & Hw & Hj & Hk & Hn & He); [lia|lia|].
  exists e, j, n. split_and!; [exact Hw|lia|destruct e; lia| | | | |].
  - intros i Hi. apply (alive_at_turn references); [done|]. apply Hk. lia.
  - destruct e; [|done]. destruct He as [He _].
    intros Hkept%(alive_at_turn references); [|done]. congruence.
  - intros turn i Ht Hi. exists [inner], turn, inner. split_and!; [done|done|by left|].
    apply (evolves_reaches _ _ _ _ _ _ Hh0 Hhs Hes); [|done].
    apply elem_of_app. left. apply list_elem_of_In, in_concat. exists [inner].
    split; [|by left]. apply list_elem_of_In. apply list_elem_of_fmap. by exists ([inner], turn).
  - intros i l. by apply alive_at_turn.
  - intros i Hall. apply map_empty. intros l.
    destruct (objects _ !! l) as [o|] eqn:Hl; [|done]. exfalso.
    assert (upgrades l (memory_at_turn references (memory s) ts i) = true) as Hu
      by (apply bool_decide_eq_true; by eexists).
    apply (alive_at_turn references) in Hu as (rs & turn & r & Ht & Hlt & _); [|done].
    rewrite Forall_forall in Hall. specialize (Hall _ Ht). cbn in Hall. lia.
Qed.

End properties.

(** ** Witnesses *)

Module Witness.

Definition start_on {S} (ok : bool) (_ : S) : outcome StartError nat :=
  if ok then Ok 1 else Err AddrInUse.

(** The gateway, on a machine where the HTTP port is free or taken. *)
Definition execute_on (http_free : bool) :=
  execute_shared (Er:=Empty_set) (fun s => s) (fun s => s) Some (Ok tt) Gateway.Witness.timer
    (start_on true) (start_on http_free) 5 "127.0.0.1" 8545 1 8546 100 50 1 10 0 km_memory.

Lemma execute_leaves_no_reference_witness :
  exists e, (execute_on false).1 = Ok (Err e) /\ objects (execute_on false).2 = ∅.
Proof.
  destruct (execute_leaves_no_reference (fun s => s) (fun s => s) Some (Ok tt) Gateway.Witness.timer
    (start_on true) (start_on false) 5 "127.0.0.1" 8545 1 8546 100 50 1 10)
    as (r & mem & Hr & _ & Hcase); [done..|].
  change (execute_on false = (Ok r, mem)) in Hr. rewrite Hr. destruct r as [x|e|].
  - exfalso. vm_compute in Hr. discriminate Hr.
  - exists e. split; [reflexivity|exact Hcase].
  - destruct Hcase.
Defined.

(** A request that holds the translator runs when the shutdown comes: the
    translator is dropped when that ends, in the third turn, after the
    broker's task, which ends in the first. *)
Definition gateway0 : RunningGateway (Server:=nat) :=
  {| translator_gas_price := 1; http_server := Some 1; ws_server := Some 1 |}.

Definition references0 : References := {|
  translator_reference := 3;
  km_client_reference := 0;
  ws_references := [6; 3; 3; 0; 3; 3; 8; 12; 9; 10; 11; 6];
  http_references := [3; 3; 0; 3; 3; 13; 17; 14; 15; 16]
|}.

Definition after_request : Memory Shared :=
  (clone_all (Er:=Empty_set) [3] (execute_on true).2).2.

Definition clock (i : nat) : Z := (Z.of_nat i * second)%Z.

Lemma shutdown_waits_for_tasks_witness :
  exists n, (shutdown_shared gateway0 references0 after_request [([4], 1); ([3], 3)] clock clock).2 =
      Some (Dropped, 3, n) /\
    objects (memory_at_turn references0 after_request [([4], 1); ([3], 3)] 3) = ∅.
Proof.
  destruct (shutdown_waits_for_tasks (fun s => s) (fun s => s) Some (Ok tt) Gateway.Witness.timer
    (start_on true) (start_on true) 5 "127.0.0.1" 8545 1 8546 100 50 1 10
    gateway0 references0 [4] (execute_on true).2
    {| memory := after_request; tasks := [[4]; [3]] |} [([4], 1); ([3], 3)] clock clock)
    as (e & j & n & Hr & _ & _ & _ & _ & _ & _ & Hempty).
  - done.
  - done.
  - done.
  - vm_compute. reflexivity.
  - apply rtc_once.
    apply (spawned {| memory := (execute_on true).2; tasks := [[4]] |} [3] after_request);
      vm_compute; reflexivity.
  - reflexivity.
  - split; [done|]. intros i. unfold clock, sleep_duration. lia.
  - exists n. cbn [memory] in Hr, Hempty. split.
    + rewrite Hr. vm_compute in Hr. injection Hr as <- <- <-. reflexivity.
    + apply Hempty. repeat constructor.
Defined.

End Witness.
