(* ===== verification/Cli.v ===== *)
(** * The command lines ([gateway/bin/main.rs], [gateway/src/lib.rs],
      [gateway/bin/metrics.rs], [genesis/bin/*.rs])

    The arguments each program declares, the parsing of their values in the
    order the program asks for them, and what it then does: the gateway's
    [main] up to its shutdown, and the import tool's [main] around
    [Playback.playback].  The command line parser is a library: what it has
    made of the command line is an [ArgMatches], and [accepted] is what its
    documentation promises of it. *)

From Stdlib Require Import ZArith Lia Ascii String Strings.Byte.
From stdpp Require Import base numbers gmap strings option pretty list.
From S2P Require Import Prelude Crypto Ethcore Api JsonRpc RpcApis Gateway Genesis Playback.

Open Scope string_scope.

(** ** Unsigned integers ([FromStr] of [u16], [u64] and [usize]) *)

Definition digit (c : ascii) : option N :=
  let n := N_of_ascii c in
  if (48 <=? n)%N && (n <=? 57)%N then Some (n - 48)%N else None.

(** [checked_mul] and [checked_add] of a [w]-bit integer. *)
Definition checked (w : N) (n : N) : option N := if (n <? 2 ^ w)%N then Some n else None.

Fixpoint parse_digits (w : N) (result : N) (s : string) : option N :=
  match s with
  | EmptyString => Some result
  | String c s' =>
      d ← digit c;
      result ← checked w (result * 10);
      result ← checked w (result + d);
      parse_digits w result s'
  end.

Definition parse_uint (w : N) (s : string) : option Z :=
  match s with
  | EmptyString => None
  | _ =>
      match (match strip_first "+" s with Some digits => digits | None => s end) with
      | EmptyString => None
      | digits => Z.of_N <$> parse_digits w 0 digits
      end
  end.

Definition u16_from_str : string -> option Z := parse_uint 16.
Definition u64_from_str : string -> option Z := parse_uint 64.
Definition usize_from_str : string -> option Z := parse_uint 64.

Fixpoint zeros (k : nat) : string := match k with O => "" | S k => String "0" (zeros k) end.

Lemma digit_char d : (d < 10)%N -> digit (pretty_N_char d) = Some d.
Proof.
  intros Hd. assert (d = 0 \/ d = 1 \/ d = 2 \/ d = 3 \/ d = 4 \/ d = 5 \/ d = 6 \/ d = 7 \/ d = 8 \/
    d = 9)%N as H by lia. by repeat destruct H as [->|H]; [..|subst d].
Qed.

Lemma digit_Some c d : digit c = Some d -> (d < 10)%N /\ c = pretty_N_char d.
Proof.
  unfold digit. destruct (_ && _) eqn:Hb; [|done]. intros [= <-].
  apply andb_prop in Hb as [H1%N.leb_le H2%N.leb_le]. split; [lia|].
  rewrite <- (ascii_N_embedding c) at 1.
  assert (exists k, N_of_ascii c = k + 48 /\ k < 10)%N as (k & -> & Hk)
    by (exists (N_of_ascii c - 48)%N; lia).
  rewrite N.add_sub.
  assert (k = 0 \/ k = 1 \/ k = 2 \/ k = 3 \/ k = 4 \/ k = 5 \/ k = 6 \/ k = 7 \/ k = 8 \/ k = 9)%N
    as H by lia. by repeat destruct H as [->|H]; [..|subst k].
Qed.

(** Reading a numeral continues from its value, and fails past the width. *)
Lemma parse_digits_pretty w x s :
  parse_digits w 0 (pretty_N_go x s) = if (x <? 2 ^ w)%N then parse_digits w x s else None.
Proof.
  revert s. induction (N.lt_wf_0 x) as [x _ IH]. intros s.
  destruct (decide (x = 0)%N) as [->|Hx].
  { rewrite pretty_N_go_0. by destruct (N.ltb_spec 0 (2 ^ w)); [|pose proof (N.pow_nonzero 2 w); lia]. }
  rewrite pretty_N_go_step by lia. rewrite IH by (apply N.div_lt; lia).
  pose proof (N.div_mod x 10 ltac:(done)) as Hdm. pose proof (N.mod_lt x 10 ltac:(done)) as Hm.
  cbn [parse_digits]. rewrite digit_char by done. cbn [mbind option_bind]. unfold checked.
  generalize dependent (x `mod` 10)%N. generalize dependent (x `div` 10)%N. intros q r -> Hr.
  destruct (N.ltb_spec (10 * q + r) (2 ^ w)), (N.ltb_spec q (2 ^ w)), (N.ltb_spec (q * 10) (2 ^ w));
    cbn [mbind option_bind]; try done; try lia;
    destruct (N.ltb_spec (q * 10 + r) (2 ^ w)); cbn [mbind option_bind]; try done; try lia.
  by replace (10 * q + r)%N with (q * 10 + r)%N by lia.
Qed.

Lemma pretty_N_go_digit acc d s :
  (d < 10)%N -> (0 < acc * 10 + d)%N ->
  pretty_N_go (acc * 10 + d) s = pretty_N_go acc (String (pretty_N_char d) s).
Proof.
  intros Hd Hpos. rewrite pretty_N_go_step by done. f_equal; [|do 2 f_equal].
  - symmetry. apply (N.div_unique _ 10 acc d); lia.
  - symmetry. apply (N.mod_unique _ 10 acc d); lia.
Qed.

Lemma parse_digits_Some w acc s n :
  parse_digits w acc s = Some n -> (acc < 2 ^ w)%N ->
  (n < 2 ^ w)%N /\ (acc <= n)%N /\ ((0 < acc)%N -> pretty_N_go acc s = pretty_N_go n "").
Proof.
  revert acc. induction s as [|c s IH]; intros acc Hp Hacc; cbn [parse_digits] in Hp.
  { injection Hp as <-. done. }
  destruct (digit c) as [d|] eqn:Hd; [|done]. apply digit_Some in Hd as [Hd ->].
  cbn [mbind option_bind] in Hp. unfold checked in Hp.
  destruct (N.ltb_spec (acc * 10) (2 ^ w)); [|done]. cbn [mbind option_bind] in Hp.
  destruct (N.ltb_spec (acc * 10 + d) (2 ^ w)); [|done]. cbn [mbind option_bind] in Hp.
  destruct (IH _ Hp) as (H1 & H2 & H3); [done|]. split; [done|]. split; [lia|]. intros Hpos.
  rewrite <- H3 by lia. by rewrite pretty_N_go_digit by lia.
Qed.

Lemma pretty_N_pos n : (0 < n)%N -> pretty n = pretty_N_go n "".
Proof. intros Hn. unfold pretty, pretty_N. by rewrite decide_False by lia. Qed.

Lemma pow2_pos w : (0 < 2 ^ w)%N.
Proof. by apply N.neq_0_lt_0, N.pow_nonzero. Qed.

Lemma parse_zeros w k s : parse_digits w 0 (zeros k +:+ s) = parse_digits w 0 s.
Proof.
  induction k as [|k IH]; [done|]. change (zeros (S k) +:+ s) with (String "0" (zeros k +:+ s)).
  cbn [parse_digits]. change (digit "0") with (Some 0%N). cbn [mbind option_bind]. unfold checked.
  change (0 * 10)%N with 0%N. rewrite (proj2 (N.ltb_lt _ _)) by apply pow2_pos.
  cbn [mbind option_bind]. change (0 + 0)%N with 0%N. rewrite (proj2 (N.ltb_lt _ _)) by apply pow2_pos.
  done.
Qed.

(** Leading zeros, then the numeral. *)
Lemma parse_digits_numeral w k n :
  (n < 2 ^ w)%N -> parse_digits w 0 (zeros k +:+ pretty n) = Some n.
Proof.
  intros Hn. rewrite parse_zeros. destruct (decide (n = 0)%N) as [->|Hn0].
  - apply (parse_zeros w 1 "").
  - rewrite pretty_N_pos, parse_digits_pretty by lia. by rewrite (proj2 (N.ltb_lt _ _)).
Qed.

Lemma parse_digits_sound w s n :
  s <> "" -> parse_digits w 0 s = Some n -> exists k, s = zeros k +:+ pretty n.
Proof.
  induction s as [|c s IH]; [done|]. intros _ Hp. cbn [parse_digits] in Hp.
  destruct (digit c) as [d|] eqn:Hd; [|done]. apply digit_Some in Hd as [Hd ->].
  cbn [mbind option_bind] in Hp. unfold checked in Hp. change (0 * 10)%N with 0%N in Hp.
  rewrite (proj2 (N.ltb_lt _ _)) in Hp by apply pow2_pos. cbn [mbind option_bind] in Hp.
  destruct (N.ltb_spec (0 + d) (2 ^ w)); [|done]. cbn [mbind option_bind] in Hp.
  destruct (decide (d = 0)%N) as [->|Hd0].
  - destruct s as [|c' s]; [injection Hp as <-; by exists 0%nat|].
    destruct (IH ltac:(done) Hp) as [k Hk]. exists (S k). by rewrite Hk.
  - exists 0%nat. destruct (parse_digits_Some _ _ _ _ Hp) as (_ & Hle & Hgo); [done|].
    cbn [zeros String.app]. rewrite pretty_N_pos, <- Hgo by lia.
    change (0 + d)%N with (0 * 10 + d)%N. rewrite pretty_N_go_digit by lia. by rewrite pretty_N_go_0.
Qed.

Lemma parse_digits_bound w s n :
  parse_digits w 0 s = Some n -> (n < 2 ^ w)%N /\ (0 <= Z.of_N n < 2 ^ Z.of_N w)%Z.
Proof.
  intros Hp. destruct (parse_digits_Some _ _ _ _ Hp (pow2_pos w)) as (Hn & _). split; [done|].
  apply N2Z.inj_lt in Hn. rewrite N2Z.inj_pow in Hn. lia.
Qed.

(** A numeral starts with a digit. *)
Lemma numeral_head k (n : N) :
  exists c s, zeros k +:+ pretty n = String c s /\ c <> "+"%char.
Proof.
  pose proof (parse_digits_numeral (N.size n) k n (N.size_gt n)) as Hp.
  destruct (zeros k +:+ pretty n) as [|c s] eqn:Hs.
  - cbn in Hp. injection Hp as <-. by destruct k.
  - exists c, s. split; [done|]. intros ->. done.
Qed.

(** The integers of the command line: a text is read as a [w]-bit integer
    exactly when it is a decimal numeral below 2^w, after any zeros and an
    optional plus sign; the empty text, a sign alone, a minus sign and a value
    that does not fit are errors, never another number. *)
Theorem parse_uint_iff w s n :
  parse_uint w s = Some n <->
  (0 <= n < 2 ^ Z.of_N w)%Z /\
  exists sign k, (sign = "" \/ sign = "+") /\ s = sign +:+ zeros k +:+ pretty (Z.to_N n).
Proof.
  unfold parse_uint. split.
  - destruct s as [|c s]; [done|]. cbn [strip_first]. destruct (Ascii.eqb_spec c "+") as [->|_]; intros Hp.
    + destruct s as [|c s]; [done|]. apply fmap_Some in Hp as (x & Hp & ->).
      destruct (parse_digits_bound _ _ _ Hp) as [Hx Hb]. split; [done|].
      apply parse_digits_sound in Hp as [k Hk]; [|done]. exists "+", k.
      rewrite N2Z.id, <- Hk. split; [by right|done].
    + apply fmap_Some in Hp as (x & Hp & ->).
      destruct (parse_digits_bound _ _ _ Hp) as [Hx Hb]. split; [done|].
      apply parse_digits_sound in Hp as [k Hk]; [|done]. exists "", k.
      rewrite N2Z.id, <- Hk. split; [by left|done].
  - intros (Hn & sign & k & Hsign & ->).
    assert (Z.to_N n < 2 ^ w)%N as Hlt by (apply N2Z.inj_lt; rewrite N2Z.inj_pow; lia).
    pose proof (parse_digits_numeral w k _ Hlt) as Hp.
    destruct (numeral_head k (Z.to_N n)) as (c & s & Heq & Hc).
    rewrite Heq in Hp |- *. destruct Hsign as [-> | ->].
    + change ("" +:+ String c s) with (String c s). unfold strip_first.
      rewrite (proj2 (Ascii.eqb_neq c "+") Hc), Hp. cbn. f_equal. lia.
    + change ("+" +:+ String c s) with (String "+" (String c s)). unfold strip_first.
      change (Ascii.eqb "+" "+") with true. cbv iota. rewrite Hp. cbn. f_equal. lia.
Qed.

(** ** Declared arguments *)

(** [clap::Arg], without its help text. *)
Record Arg := {
  arg_name : string;
  arg_short : option string;
  arg_long : option string;
  arg_takes_value : bool;
  arg_required : bool;
  arg_required_if : option (string * string);
  arg_requires : option string;
  arg_possible_values : option (list string);
  arg_default_value : option string;
  arg_multiple : bool
}.

Definition with_name (n : string) : Arg := {|
  arg_name := n; arg_short := None; arg_long := None; arg_takes_value := false;
  arg_required := false; arg_required_if := None; arg_requires := None;
  arg_possible_values := None; arg_default_value := None; arg_multiple := false
|}.

Definition short (s : string) (a : Arg) : Arg :=
  Build_Arg (arg_name a) (Some s) (arg_long a) (arg_takes_value a) (arg_required a)
    (arg_required_if a) (arg_requires a) (arg_possible_values a) (arg_default_value a) (arg_multiple a).
Definition long (l : string) (a : Arg) : Arg :=
  Build_Arg (arg_name a) (arg_short a) (Some l) (arg_takes_value a) (arg_required a)
    (arg_required_if a) (arg_requires a) (arg_possible_values a) (arg_default_value a) (arg_multiple a).
Definition takes_value (a : Arg) : Arg :=
  Build_Arg (arg_name a) (arg_short a) (arg_long a) true (arg_required a)
    (arg_required_if a) (arg_requires a) (arg_possible_values a) (arg_default_value a) (arg_multiple a).
Definition required (a : Arg) : Arg :=
  Build_Arg (arg_name a) (arg_short a) (arg_long a) (arg_takes_value a) true
    (arg_required_if a) (arg_requires a) (arg_possible_values a) (arg_default_value a) (arg_multiple a).
Definition required_if (other value : string) (a : Arg) : Arg :=
  Build_Arg (arg_name a) (arg_short a) (arg_long a) (arg_takes_value a) (arg_required a)
    (Some (other, value)) (arg_requires a) (arg_possible_values a) (arg_default_value a) (arg_multiple a).
Definition requires (other : string) (a : Arg) : Arg :=
  Build_Arg (arg_name a) (arg_short a) (arg_long a) (arg_takes_value a) (arg_required a)
    (arg_required_if a) (Some other) (arg_possible_values a) (arg_default_value a) (arg_multiple a).
Definition possible_values (vs : list string) (a : Arg) : Arg :=
  Build_Arg (arg_name a) (arg_short a) (arg_long a) (arg_takes_value a) (arg_required a)
    (arg_required_if a) (arg_requires a) (Some vs) (arg_default_value a) (arg_multiple a).
Definition default_value (v : string) (a : Arg) : Arg :=
  Build_Arg (arg_name a) (arg_short a) (arg_long a) (arg_takes_value a) (arg_required a)
    (arg_required_if a) (arg_requires a) (arg_possible_values a) (Some v) (arg_multiple a).
Definition multiple (a : Arg) : Arg :=
  Build_Arg (arg_name a) (arg_short a) (arg_long a) (arg_takes_value a) (arg_required a)
    (arg_required_if a) (arg_requires a) (arg_possible_values a) (arg_default_value a) true.

(** A method chain, left to right. *)
#[local] Notation "a '|>' f" := (f a) (at level 50, left associativity, only parsing).

Definition METRICS_MODE_PULL : string := "pull".
Definition METRICS_MODE_PUSH : string := "push".

(** The gateway's arguments. *)
Definition gateway_args : list Arg := [
  with_name "runtime-id" |> long "runtime-id" |> takes_value |> required;
  with_name "node-address" |> long "node-address" |> takes_value |> required;
  with_name "http-port" |> long "http-port" |> default_value "8545" |> takes_value;
  with_name "threads" |> long "threads" |> default_value "1" |> takes_value;
  with_name "ws-port" |> long "ws-port" |> default_value "8546" |> takes_value;
  with_name "ws-max-connections" |> long "ws-max-connections" |> default_value "10000"
    |> takes_value;
  with_name "ws-rate-limit" |> long "ws-rate-limit" |> default_value "50" |> takes_value;
  with_name "pubsub-interval" |> long "pubsub-interval" |> default_value "3" |> takes_value;
  with_name "gas-price" |> long "gas-price" |> default_value (pretty MIN_GAS_PRICE_GWEI)
    |> takes_value;
  with_name "jsonrpc-max-batch" |> long "jsonrpc-max-batch" |> default_value "10" |> takes_value;
  with_name "interface" |> long "interface" |> default_value "127.0.0.1" |> takes_value;
  with_name "prometheus-mode" |> long "prometheus-mode"
    |> possible_values [METRICS_MODE_PULL; METRICS_MODE_PUSH] |> takes_value;
  with_name "prometheus-push-interval" |> long "prometheus-push-interval" |> takes_value;
  with_name "prometheus-push-job-name" |> long "prometheus-push-job-name"
    |> required_if "prometheus-mode" METRICS_MODE_PUSH |> takes_value;
  with_name "prometheus-push-instance-label" |> long "prometheus-push-instance-label"
    |> required_if "prometheus-mode" METRICS_MODE_PUSH |> takes_value;
  with_name "prometheus-metrics-addr" |> long "prometheus-metrics-addr"
    |> requires "prometheus-mode" |> takes_value;
  with_name "v" |> short "v" |> multiple
].

(** The import tool's arguments. *)
Definition playback_args : list Arg := [
  with_name "exported_state" |> takes_value |> required;
  with_name "output_file" |> takes_value |> required;
  with_name "runtime-id" |> long "runtime-id" |> takes_value |> required;
  with_name "node-address" |> long "node-address" |> short "a" |> takes_value |> required;
  with_name "commit-every" |> long "commit-every" |> takes_value |> default_value "50000"
].

(** The genesis state generator's arguments. *)
Definition genesis_init_args : list Arg := [
  with_name "eth_genesis" |> takes_value |> required;
  with_name "output_file" |> takes_value |> required
].

(** ** Parsed arguments *)

(** [clap::ArgMatches]: the value and the number of occurrences of an
    argument, by its name. *)
Record ArgMatches := { value_of : string -> option string; occurrences_of : string -> Z }.

(** What the library's documentation says of the matches of a command line it
    has accepted, for one of the arguments. *)
Record accepts (m : ArgMatches) (a : Arg) : Prop := {
  accepts_required : arg_required a = true -> is_Some (value_of m (arg_name a));
  accepts_default : is_Some (arg_default_value a) -> is_Some (value_of m (arg_name a));
  accepts_required_if other v :
    arg_required_if a = Some (other, v) -> value_of m other = Some v ->
    is_Some (value_of m (arg_name a));
  accepts_requires other :
    arg_requires a = Some other -> is_Some (value_of m (arg_name a)) -> is_Some (value_of m other);
  accepts_possible_values vs v :
    arg_possible_values a = Some vs -> value_of m (arg_name a) = Some v -> v ∈ vs
}.

Definition accepted (args : list Arg) (m : ArgMatches) : Prop := Forall (accepts m) args.

Definition given (o : option string) : bool := match o with Some _ => true | None => false end.

Definition acceptsb (m : ArgMatches) (a : Arg) : bool :=
  let v := value_of m (arg_name a) in
  implb (arg_required a) (given v) && implb (given (arg_default_value a)) (given v) &&
  match arg_required_if a with
  | Some (other, w) => implb (bool_decide (value_of m other = Some w)) (given v)
  | None => true
  end &&
  match arg_requires a with
  | Some other => implb (given v) (given (value_of m other))
  | None => true
  end &&
  match arg_possible_values a, v with
  | Some vs, Some v => bool_decide (v ∈ vs)
  | _, _ => true
  end.

Lemma given_is_Some o : given o = true <-> is_Some o.
Proof. destruct o; split; [by eexists|done|done|by intros []]. Qed.

Lemma acceptsb_spec m a : acceptsb m a = true -> accepts m a.
Proof.
  unfold acceptsb. rewrite !andb_true_iff, !implb_true_iff, !given_is_Some.
  intros ((((H1 & H2) & H3) & H4) & H5). split; [done|done| | |].
  - intros other v He Hv. rewrite He, implb_true_iff, given_is_Some in H3. apply H3.
    by apply bool_decide_eq_true.
  - intros other He. rewrite He, implb_true_iff, !given_is_Some in H4. exact H4.
  - intros vs v He Hv. rewrite He, Hv in H5. by apply bool_decide_eq_true in H5.
Qed.

Lemma acceptedb args m : forallb (acceptsb m) args = true -> accepted args m.
Proof.
  rewrite forallb_forall. intros Hb. apply Forall_forall. intros a Ha. apply acceptsb_spec, Hb.
  by apply list_elem_of_In.
Qed.

(** The matches of a command line that gives [given], [v] times [-v]. *)
Definition matches (args : list Arg) (given : string -> option string) (v : Z) : ArgMatches := {|
  value_of name :=
    match given name with
    | Some value => Some value
    | None => a ← list_find (fun a => arg_name a = name) args; arg_default_value a.2
    end;
  occurrences_of name := if bool_decide (name = "v") then v else 0%Z
|}.

Inductive Level := Error | Warn | Info | Debug | Trace.

(** The level for a number of [-v]. *)
Definition log_level (occurrences : Z) : Level :=
  match occurrences with
  | 0%Z => Error
  | 1%Z => Warn
  | 2%Z => Debug
  | 3%Z => Info
  | _ => Trace
  end.

Section values.
(** [clap::Error], and the two errors [value_t!] makes: for an argument that
    is missing, and for a value [from_str] rejects. *)
Context {ClapError : Type} (argument_not_found value_validation : string -> ClapError).

Definition value_t {A} (from_str : string -> option A) (args : ArgMatches) (name : string)
  : outcome ClapError A :=
  match value_of args name with
  | Some v => ok_or (from_str v) (value_validation v)
  | None => Err (argument_not_found name)
  end.

(** The locals of the gateway's [main]. *)
Record Options := {
  num_threads : Z;
  interface : string;
  port_http : Z;
  port_ws : Z;
  ws_max_connections : Z;
  ws_rate_limit : Z;
  pubsub_interval_secs : Z;
  gas_price_gwei : Z;
  jsonrpc_max_batch_size : Z
}.

Definition parse_options (args : ArgMatches) : outcome ClapError Options :=
  let? num_threads := value_t usize_from_str args "threads" in
  let? interface := value_t Some args "interface" in
  let? http_port := value_t u16_from_str args "http-port" in
  let? ws_port := value_t u16_from_str args "ws-port" in
  let? ws_max_connections := value_t usize_from_str args "ws-max-connections" in
  let? ws_rate_limit := value_t usize_from_str args "ws-rate-limit" in
  let? pubsub_interval_secs := value_t u64_from_str args "pubsub-interval" in
  let? gas_price := value_t u64_from_str args "gas-price" in
  let? jsonrpc_max_batch_size := value_t usize_from_str args "jsonrpc-max-batch" in
  Ok {|
    num_threads := num_threads; interface := interface; port_http := http_port;
    port_ws := ws_port; ws_max_connections := ws_max_connections; ws_rate_limit := ws_rate_limit;
    pubsub_interval_secs := pubsub_interval_secs; gas_price_gwei := gas_price;
    jsonrpc_max_batch_size := jsonrpc_max_batch_size
  |}.

(** ** Metrics *)

Section metrics.
(** [net::SocketAddr] and its parser. *)
Context {SocketAddr : Type} (socket_addr_from_str : string -> option SocketAddr).

Inductive Config :=
| Push (address : string) (period : Z) (job_name instance_name : string)
| Pull (address : SocketAddr).

(** What [main] starts the metrics thread with, if it does. *)
Definition metrics_config (args : ArgMatches) : outcome ClapError (option Config) :=
  match value_of args "prometheus-mode" with
  | Some mode =>
      if bool_decide (mode = METRICS_MODE_PULL) then
        match value_t socket_addr_from_str args "prometheus-metrics-addr" with
        | Ok address => Ok (Some (Pull address))
        | _ => Ok None
        end
      else if bool_decide (mode = METRICS_MODE_PUSH) then
        match value_t Some args "prometheus-metrics-addr" with
        | Ok address =>
            let interval := from_ok 5%Z (value_t u64_from_str args "prometheus-push-interval") in
            let? job_name := unwrap_ok (value_t Some args "prometheus-push-job-name") in
            let? instance_name := unwrap_ok (value_t Some args "prometheus-push-instance-label") in
            Ok (Some (Push address interval job_name instance_name))
        | _ => Ok None
        end
      else Ok None
  | None => Ok None
  end.

(** [prometheus::push_metrics] of the metrics gathered at a turn. *)
Context {PrometheusError : Type}
  (push : nat -> string -> list (string * string) -> string -> outcome PrometheusError unit).

(** A failed push is only logged. *)
Definition push_metrics (turn : nat) (address job_name instance_name : string)
  : outcome Empty_set unit :=
  unwrap_ok
    (match push turn job_name [("instance", instance_name)] address with
     | Err _ => @Ok PrometheusError _ tt
     | r => r
     end).

(** The first [turns] turns of the metrics thread: the seconds slept. *)
Fixpoint metrics_loop (turns : nat) (turn : nat) (address : string) (period : Z)
    (job_name instance_name : string) : outcome Empty_set Z :=
  match turns with
  | O => Ok 0%Z
  | S turns =>
      let? _ := push_metrics turn address job_name instance_name in
      let? slept := metrics_loop turns (S turn) address period job_name instance_name in
      Ok (period + slept)%Z
  end.

Definition metrics_thread (cfg : Config) (turns : nat) : outcome Empty_set Z :=
  match cfg with
  | Push address period job_name instance_name =>
      metrics_loop turns 0 address period job_name instance_name
  | Pull _ => Ok 0%Z
  end.

(** ** The gateway *)

Context `{Ethcore} {Namespace Host Server : Type}
  (namespace_from_str : string -> option Namespace)
  (host_from : string -> Host) (host_to_string : Host -> string)
  (wait_sync : string -> Namespace -> outcome string unit)
  (new_interval : Z -> outcome Empty_set unit)
  (start_ws : WsStart (SocketAddr:=SocketAddr) -> outcome StartError Server)
  (start_http : HttpStart (SocketAddr:=SocketAddr) -> outcome StartError Server).

Inductive StartFailure := Exited (e : ClapError) | Failed (e : string).

(** [start] of lib.rs: a runtime id that does not parse exits the process. *)
Definition start (args : ArgMatches) (o : Options) (gas_price : Z)
  : stateful (list (Step (Host:=Host))) StartFailure (RunningGateway (Server:=Server)) :=
  let! node_address := slift (expect (value_of args "node-address")) in
  let! runtime_id := slift (map_err Exited (value_t namespace_from_str args "runtime-id")) in
  fun steps =>
    let '(r, steps) :=
      execute host_from host_to_string socket_addr_from_str (wait_sync node_address runtime_id)
        new_interval start_ws start_http (pubsub_interval_secs o) (interface o) (port_http o) (num_threads o)
        (port_ws o) (ws_max_connections o) (ws_rate_limit o) gas_price (jsonrpc_max_batch_size o)
        steps in
    (map_err Failed r, steps).

(** What [main] does that can be seen from outside. *)
Inductive Event :=
| LoggerInitialised (level : Level)
| MetricsStarted (cfg : Config)
| Starting (step : Step (Host:=Host))
| StartFailed (e : string)
| Running (client : RunningGateway (Server:=Server))
| ShutDown (dropped : list Part) (wait : option (exit * nat * nat)).

(** How [main] ends before its end: with an error, or by exiting the process. *)
Inductive MainFailure := ReturnsClap (e : ClapError) | ReturnsIo (e : string) | Exits (e : ClapError).

Definition event (e : Event) : stateful (list Event) MainFailure unit :=
  smodify (fun events => events ++ [e])%list.

(** [main]: [wait_signal] is the pipe of the signal handlers; the clock and the
    translator's liveness are those of the shutdown. *)
Definition main (wait_signal : outcome string unit) (at_loop at_warn : nat -> Z)
    (alive : nat -> bool) (args : ArgMatches) : stateful (list Event) MainFailure unit :=
  let! _ := event (LoggerInitialised (log_level (occurrences_of args "v"))) in
  let! o := slift (map_err ReturnsClap (parse_options args)) in
  let gas_price := gwei_to_wei (gas_price_gwei o) in
  let! cfg := slift (map_err ReturnsClap (metrics_config args)) in
  let! _ := match cfg with Some cfg => event (MetricsStarted cfg) | None => sret tt end in
  let '(client, steps) := start args o gas_price [] in
  let! _ := smodify (fun events => events ++ (Starting <$> steps))%list in
  match client with
  | Ok client =>
      let! _ := event (Running client) in
      let! _ := slift (map_err ReturnsIo wait_signal) in
      let '(dropped, wait) := shutdown client at_loop at_warn alive in
      event (ShutDown dropped wait)
  | Err (Failed e) => event (StartFailed e)
  | Err (Exited e) => slift (Err (Exits e))
  | Panic => slift Panic
  end.

End metrics.

(** ** The import tool *)

Section playback.
Context {S : StateStore} {Namespace : Type} (namespace_from_str : string -> option Namespace)
  (de_addr : bytes -> option (string * nat)) (de_account : bytes -> option (ExportedAccount * nat))
  (open_file : string -> option bytes) (connect : string -> Storage).

(** [main] of genesis_playback.rs: the file it writes, with what it writes
    there; an error is the exit of [value_t_or_exit!].  The export is opened
    here before [playback] makes the empty state, and there after it. *)
Definition playback_main (args : ArgMatches)
  : outcome ClapError (string * Namespace * RuntimeGenesis * Import) :=
  let? node_address := expect (value_of args "node-address") in
  let? commit_every := value_t usize_from_str args "commit-every" in
  let? runtime_id := value_t namespace_from_str args "runtime-id" in
  let? state_path := expect (value_of args "exported_state") in
  let? state_fb := expect (open_file state_path) in
  let? (genesis, self) :=
    map_err (fun e : Empty_set => match e with end)
      (playback de_addr de_account commit_every state_fb (connect node_address)) in
  let? output_file := expect (value_of args "output_file") in
  Ok (output_file, runtime_id, genesis, self).

(** [main] of genesis_init.rs: the file it writes and the write log in it;
    [load_spec] opens and loads a genesis file. *)
Definition genesis_init_main (load_spec : string -> option (Tree -> option Tree)) (args : ArgMatches)
  : outcome Empty_set (string * WriteLog) :=
  let? eth_genesis := expect (value_of args "eth_genesis") in
  let? spec_ensure_db_good := expect (load_spec eth_genesis) in
  let? write_log := genesis_init spec_ensure_db_good in
  let? output_file := expect (value_of args "output_file") in
  Ok (output_file, write_log).

End playback.

(** ** Lemmas *)

(** An argument that is required or has a default has a value. *)
Definition always_given (args : list Arg) (name : string) : bool :=
  existsb (fun a => String.eqb (arg_name a) name &&
    (arg_required a || match arg_default_value a with Some _ => true | None => false end)) args.

Lemma accepted_always_given args m name :
  accepted args m -> always_given args name = true -> exists v, value_of m name = Some v.
Proof.
  intros Hacc Hg. apply existsb_exists in Hg as (a & Ha & Hb).
  apply andb_prop in Hb as [Hname%String.eqb_eq Hb]. subst name.
  apply list_elem_of_In in Ha. pose proof (proj1 (Forall_forall _ _) Hacc a Ha) as Hok.
  destruct (arg_required a) eqn:Hr; [by apply (accepts_required _ _ Hok)|].
  destruct (arg_default_value a) eqn:Hd; [|done]. by apply (accepts_default _ _ Hok).
Qed.

Lemma accepted_required_if args m a other v :
  accepted args m -> a ∈ args -> arg_required_if a = Some (other, v) -> value_of m other = Some v ->
  exists w, value_of m (arg_name a) = Some w.
Proof.
  intros Hacc Ha Hr Ho. pose proof (proj1 (Forall_forall _ _) Hacc a Ha) as Hok.
  by eapply (accepts_required_if _ _ Hok).
Qed.

(** The integers of the gateway, in the order [main] reads them. *)
Definition uint_options : list (string * (string -> option Z)) := [
  ("threads", usize_from_str); ("http-port", u16_from_str); ("ws-port", u16_from_str);
  ("ws-max-connections", usize_from_str); ("ws-rate-limit", usize_from_str);
  ("pubsub-interval", u64_from_str); ("gas-price", u64_from_str);
  ("jsonrpc-max-batch", usize_from_str)
].

(** The value of an integer argument that is not an integer. *)
Definition bad_value (args : ArgMatches) (o : string * (string -> option Z)) : option string :=
  v ← value_of args o.1; match o.2 v with Some _ => None | None => Some v end.

Definition first_bad (args : ArgMatches) : option string := head (omap (bad_value args) uint_options).

Definition value_or_0 (args : ArgMatches) (from_str : string -> option Z) (name : string) : Z :=
  default 0%Z (value_of args name ≫= from_str).

Lemma parse_options_spec args :
  accepted gateway_args args ->
  parse_options args =
  match first_bad args with
  | Some v => Err (value_validation v)
  | None => Ok {|
      num_threads := value_or_0 args usize_from_str "threads";
      interface := default "" (value_of args "interface");
      port_http := value_or_0 args u16_from_str "http-port";
      port_ws := value_or_0 args u16_from_str "ws-port";
      ws_max_connections := value_or_0 args usize_from_str "ws-max-connections";
      ws_rate_limit := value_or_0 args usize_from_str "ws-rate-limit";
      pubsub_interval_secs := value_or_0 args u64_from_str "pubsub-interval";
      gas_price_gwei := value_or_0 args u64_from_str "gas-price";
      jsonrpc_max_batch_size := value_or_0 args usize_from_str "jsonrpc-max-batch"
    |}
  end.
Proof.
  intros Hacc. unfold parse_options, first_bad, value_or_0, value_t.
  destruct (accepted_always_given _ _ "interface" Hacc eq_refl) as [i Hi]. rewrite Hi.
  unfold uint_options. cbn [omap list_omap]. unfold bad_value. cbn [fst snd].
  repeat match goal with
  | |- context [value_of args ?name] =>
      let v := fresh "v" in let Hv := fresh "Hv" in
      destruct (accepted_always_given _ _ name Hacc eq_refl) as [v Hv]; rewrite !Hv; clear Hv
  end.
  cbn [mbind option_bind ok_or].
  repeat match goal with
  | |- context [obind (ok_or (?f ?v) _) _] => destruct (f v); cbn [obind ok_or head]; [|done]
  | |- _ => progress cbn [obind ok_or head default from_option mbind option_bind id]
  end.
  done.
Qed.


Section gateway_lemmas.
Context {SocketAddr : Type} (socket_addr_from_str : string -> option SocketAddr).

(** The two [unwrap]s of the metrics arguments are of arguments the declared
    [required_if] makes the library insist on. *)
Lemma metrics_config_Ok args :
  accepted gateway_args args -> exists cfg, metrics_config socket_addr_from_str args = Ok cfg.
Proof.
  intros Hacc. unfold metrics_config. destruct (value_of args "prometheus-mode") as [mode|] eqn:Hmode;
    [|by eexists].
  case_bool_decide; [destruct (value_t _ _ _); by eexists|].
  case_bool_decide as Hpush; [|by eexists]. subst mode.
  destruct (value_t Some args "prometheus-metrics-addr"); [|by eexists..].
  assert (forall a, a ∈ gateway_args -> arg_required_if a = Some ("prometheus-mode", METRICS_MODE_PUSH) ->
    exists w, value_t Some args (arg_name a) = Ok w) as Hgiven.
  { intros arg Ha Hr. destruct (accepted_required_if _ _ _ _ _ Hacc Ha Hr Hmode) as [w Hw].
    exists w. unfold value_t. by rewrite Hw. }
  edestruct Hgiven as [job Hjob]; [by apply (list_elem_of_lookup_2 _ 13)|done|].
  edestruct Hgiven as [inst Hinst]; [by apply (list_elem_of_lookup_2 _ 14)|done|].
  cbn in Hjob, Hinst. rewrite Hjob, Hinst. cbn. by eexists.
Qed.

Context `{Ethcore} {Namespace Host Server : Type}
  (namespace_from_str : string -> option Namespace)
  (host_from : string -> Host) (host_to_string : Host -> string)
  (wait_sync : string -> Namespace -> outcome string unit)
  (new_interval : Z -> outcome Empty_set unit)
  (start_ws : WsStart (SocketAddr:=SocketAddr) -> outcome StartError Server)
  (start_http : HttpStart (SocketAddr:=SocketAddr) -> outcome StartError Server)
  (wait_signal : outcome string unit) (at_loop at_warn : nat -> Z) (alive : nat -> bool).

Abbreviation gateway_start :=
  (start socket_addr_from_str namespace_from_str host_from host_to_string wait_sync new_interval
     start_ws start_http) (only parsing).
Abbreviation gateway_main :=
  (main socket_addr_from_str namespace_from_str host_from host_to_string wait_sync new_interval
     start_ws start_http wait_signal at_loop at_warn alive) (only parsing).

Lemma start_spec args o gas_price node_address runtime_id id :
  value_of args "node-address" = Some node_address ->
  value_of args "runtime-id" = Some runtime_id -> namespace_from_str runtime_id = Some id ->
  gateway_start args o gas_price [] =
    let '(r, steps) :=
      execute host_from host_to_string socket_addr_from_str (wait_sync node_address id)
        new_interval start_ws start_http (pubsub_interval_secs o) (interface o) (port_http o) (num_threads o)
        (port_ws o) (ws_max_connections o) (ws_rate_limit o) gas_price (jsonrpc_max_batch_size o)
        [] in
    (map_err Failed r, steps).
Proof. intros Hnode Hrid Hid. unfold start, sbind, slift, value_t. by rewrite Hnode, Hrid; cbn; rewrite Hid. Qed.

(** The start reaches the broker: the two arguments are there, the runtime id
    parses and the node gets in sync. *)
Definition reaches_broker (args : ArgMatches) : Prop :=
  exists node_address runtime_id id,
    value_of args "node-address" = Some node_address /\
    value_of args "runtime-id" = Some runtime_id /\ namespace_from_str runtime_id = Some id /\
    wait_sync node_address id = Ok tt.

Lemma start_panics args o gas_price :
  accepted gateway_args args ->
  (forall node_address runtime_id, panics (wait_sync node_address runtime_id) = false) ->
  (forall ws, panics (start_ws ws) = false) -> (forall http, panics (start_http http) = false) ->
  panics (gateway_start args o gas_price []).1 = true <->
  reaches_broker args /\ panics (new_interval (pubsub_interval_secs o)) = true.
Proof.
  intros Hacc Hsync Hws Hhttp.
  destruct (accepted_always_given _ _ "node-address" Hacc eq_refl) as [node Hnode].
  destruct (accepted_always_given _ _ "runtime-id" Hacc eq_refl) as [rid Hrid].
  destruct (namespace_from_str rid) as [id|] eqn:Hid.
  2:{ unfold start, sbind, slift, value_t. rewrite Hnode, Hrid. cbn. rewrite Hid. cbn.
      split; [done|]. intros [(? & rid' & ? & _ & Hrid' & Hid' & _) _]. congruence. }
  rewrite (start_spec _ _ _ _ _ _ Hnode Hrid Hid). rewrite execute_spec. specialize (Hsync node id).
  assert (reaches_broker args <-> wait_sync node id = Ok tt) as ->.
  { split; [|by intros; exists node, rid, id].
    intros (node' & rid' & id' & Hnode' & Hrid' & Hid' & Hs). congruence. }
  destruct (wait_sync node id) as [[]|e|]; [|by split; [|intros [? _]]|done].
  destruct (panics (new_interval _)); [done|]. split; [|by intros [_ ?]].
  set (ws_conf := gateway_ws_conf _ _ _ _ _ _). set (http_conf := gateway_http_conf _ _ _ _).
  pose proof (new_ws_panics host_from host_to_string socket_addr_from_str start_ws ws_conf Hws) as Hw.
  destruct (new_ws _ _ _ _ _); [|done|done].
  pose proof (new_http_panics host_from host_to_string socket_addr_from_str start_http
    "HTTP JSON-RPC" "jsonrpc" http_conf Hhttp) as Hh.
  by destruct (new_http _ _ _ _ _ _ _).
Qed.

(** A gateway that starts: what [main] has done up to then. *)
Lemma main_started args events o cfg client steps :
  parse_options args = Ok o -> metrics_config socket_addr_from_str args = Ok cfg ->
  gateway_start args o (gwei_to_wei (gas_price_gwei o)) [] = (Ok client, steps) ->
  exists after, (gateway_main args events).2 =
    (events ++ [LoggerInitialised (log_level (occurrences_of args "v"))] ++
     option_list (MetricsStarted <$> cfg) ++ (Starting <$> steps) ++ [Running client] ++ after)%list.
Proof.
  intros Ho Hcfg Hstart. unfold main, sbind, event, slift, smodify, sret. rewrite Ho. cbn [map_err].
  rewrite Hcfg. cbn [map_err].
  destruct cfg as [cfg|]; rewrite Hstart; destruct wait_signal; cbn [map_err shutdown fmap option_fmap
    option_map option_list snd]; rewrite <- ?app_assoc; cbn [app]; by eexists.
Qed.

(** Once the options are parsed, only the start can panic. *)
Lemma main_panics args events o :
  accepted gateway_args args -> panics wait_signal = false -> parse_options args = Ok o ->
  panics (gateway_main args events).1 =
  panics (gateway_start args o (gwei_to_wei (gas_price_gwei o)) []).1.
Proof.
  intros Hacc Hsignal Ho. unfold main.
  unfold sbind at 1, event at 1, smodify at 1. unfold sbind at 1, slift at 1. rewrite Ho. cbn [map_err].
  unfold sbind at 1, slift at 1. destruct (metrics_config_Ok args Hacc) as [cfg ->]. cbn [map_err].
  destruct (gateway_start args o _ []) as [client steps]. unfold sbind, event, smodify, slift, sret.
  destruct cfg; destruct client as [client|[e|e]|]; try done; by destruct wait_signal.
Qed.

(** ** Properties *)


(** An interval of zero is accepted and parsed; a timer refuses it. *)
Theorem zero_interval_panics args events :
  accepted gateway_args args ->
  (forall node_address runtime_id, panics (wait_sync node_address runtime_id) = false) ->
  (forall ws, panics (start_ws ws) = false) -> (forall http, panics (start_http http) = false) ->
  panics wait_signal = false -> new_interval 0 = Panic ->
  first_bad args = None -> reaches_broker args -> value_of args "pubsub-interval" = Some "0" ->
  panics (gateway_main args events).1 = true.
Proof.
  intros Hacc Hsync Hws Hhttp Hsignal Hzero Hgood Hreach Hv.
  pose proof (parse_options_spec args Hacc) as Ho. rewrite Hgood in Ho.
  rewrite (main_panics _ _ _ Hacc Hsignal Ho), start_panics by done. split; [done|].
  cbn [pubsub_interval_secs]. unfold value_or_0. rewrite Hv.
  change (Some "0" ≫= u64_from_str) with (Some 0%Z). cbn. by rewrite Hzero.
Qed.

(** A value that is not an integer stops the gateway before it starts
    anything: the first integer argument, in the order [main] reads them,
    whose value does not parse at its width is the error [main] returns, with
    the logger initialised and nothing else done. *)
Theorem bad_value_stops_gateway args events v :
  accepted gateway_args args -> first_bad args = Some v ->
  gateway_main args events =
    (Err (ReturnsClap (value_validation v)),
     (events ++ [LoggerInitialised (log_level (occurrences_of args "v"))])%list).
Proof.
  intros Hacc Hbad. unfold main. unfold sbind at 1, event at 1, smodify at 1.
  unfold sbind at 1, slift at 1. rewrite parse_options_spec by done. by rewrite Hbad.
Qed.

(** The gateway started with its two required arguments. *)
Definition minimal (runtime_id node_address : string) : ArgMatches :=
  matches gateway_args
    (fun name =>
       if String.eqb name "runtime-id" then Some runtime_id
       else if String.eqb name "node-address" then Some node_address
       else None) 0.

Definition default_options : Options := {|
  num_threads := 1; interface := "127.0.0.1"; port_http := 8545; port_ws := 8546;
  ws_max_connections := 10000; ws_rate_limit := 50; pubsub_interval_secs := 3;
  gas_price_gwei := 1; jsonrpc_max_batch_size := 10
|}.

(** What the gateway does by default: given only a runtime and a node, it
    logs errors only, exports no metrics, waits for the node, polls for blocks
    every 3 seconds, and listens on 127.0.0.1, for WebSocket on port 8546 with
    at most 10000 connections of 50 requests a second and for HTTP on port
    8545 with one thread, both with batches of at most 10 calls; the price it
    quotes is the runtime's minimum gas price in wei. *)
Theorem default_gateway {L : EthcoreLaws _} runtime_id node_address id :
  namespace_from_str runtime_id = Some id -> wait_sync node_address id = Ok tt ->
  panics (new_interval 3) = false ->
  is_Some (socket_addr_from_str "127.0.0.1:8546") ->
  is_Some (socket_addr_from_str "127.0.0.1:8545") ->
  (forall ws, is_ok (start_ws ws) = true) -> (forall http, is_ok (start_http http) = true) ->
  exists client after,
    (gateway_main (minimal runtime_id node_address) []).2 =
      ([LoggerInitialised Error; Starting Synced; Starting (BrokerStarted 3);
        Starting (WsStarted (gateway_ws_conf host_from "127.0.0.1" 8546 10000 50 10));
        Starting (HttpStarted (gateway_http_conf "127.0.0.1" 8545 1 10));
        Running client] ++ after)%list /\
    translator_gas_price client = (MIN_GAS_PRICE_GWEI * 10 ^ 9)%Z /\
    is_Some (ws_server client) /\ is_Some (http_server client).
Proof.
  intros Hid Hsync Hinterval Hws_addr Hhttp_addr Hws Hhttp.
  edestruct (new_ws_Ok host_from host_to_string socket_addr_from_str start_ws
    (gateway_ws_conf host_from "127.0.0.1" 8546 10000 50 10)) as [ws Hnew_ws]; [done..|].
  edestruct (new_http_Ok host_from host_to_string socket_addr_from_str start_http
    "HTTP JSON-RPC" "jsonrpc" (gateway_http_conf "127.0.0.1" 8545 1 10)) as [http Hnew_http]; [done..|].
  edestruct (main_started (minimal runtime_id node_address) [] default_options None)
    as [after Hafter]; [reflexivity|reflexivity| |].
  { erewrite start_spec by done. rewrite execute_spec, Hsync.
    unfold default_options. cbn [interface port_ws ws_max_connections ws_rate_limit
      jsonrpc_max_batch_size port_http num_threads pubsub_interval_secs]. rewrite Hinterval. by rewrite Hnew_ws, Hnew_http. }
  eexists _, after. rewrite Hafter. split; [reflexivity|]. split; [|done].
  cbn [translator_gas_price gas_price_gwei]. unfold gwei_to_wei.
  by rewrite u256_saturating_mul_exact.
Qed.

End gateway_lemmas.
End values.

(** ** Witnesses *)

Module Witness.

#[local] Existing Instance Model.ops.
#[local] Existing Instance EthModel.ops.
#[local] Existing Instance EthModel.laws.

(** A metrics thread that pushes, and a port that is too large. *)
Definition push_mode (http_port interval : string) : ArgMatches := matches gateway_args
  (fun name => list_to_map (M:=gmap string string)
    [("runtime-id", "80"); ("node-address", "unix:/node.sock"); ("prometheus-mode", "push");
     ("prometheus-metrics-addr", "gateway:9091"); ("prometheus-push-interval", "never");
     ("prometheus-push-job-name", "web3"); ("prometheus-push-instance-label", "a");
     ("http-port", http_port); ("pubsub-interval", interval)] !! name) 2.

Definition gateway_main (args : ArgMatches) : outcome (MainFailure (ClapError:=string)) unit * list Event :=
  main (fun s => s) (fun s => s) (fun s => Some s) (fun s => Some s) (fun s => s) (fun s => s)
    (fun _ _ => Ok tt) Gateway.Witness.timer (fun ws => Ok (ws_addr ws)) (fun http => Ok (http_addr http)) (Ok tt)
    (fun i => (Z.of_nat i * second)%Z) (fun i => (Z.of_nat i * second)%Z) (fun _ => false) args [].



Lemma bad_value_stops_gateway_witness :
  gateway_main (push_mode "65536" "1") =
    (Err (ReturnsClap "65536"), [LoggerInitialised (log_level 2)]).
Proof.
  refine (bad_value_stops_gateway (fun s => s) (fun s => s) _ _ _ _ _ _ _ _ _ _ _ _
    (push_mode "65536" "1") [] "65536" _ _).
  - apply acceptedb. vm_compute. reflexivity.
  - vm_compute. reflexivity.
Defined.

Lemma default_gateway_witness :
  exists client after, (gateway_main (minimal "80" "unix:/node.sock")).2 =
    ([LoggerInitialised Error; Starting Synced; Starting (BrokerStarted 3);
      Starting (WsStarted (gateway_ws_conf (fun s => s) "127.0.0.1" 8546 10000 50 10));
      Starting (HttpStarted (gateway_http_conf "127.0.0.1" 8545 1 10));
      Running client] ++ after)%list /\
    translator_gas_price client = (MIN_GAS_PRICE_GWEI * 10 ^ 9)%Z /\
    is_Some (ws_server client) /\ is_Some (http_server client).
Proof.
  apply (default_gateway (fun s => s) (fun s => s) (fun s => Some s) (fun s => Some s) (fun s => s)
    (fun s => s) (fun _ _ => Ok tt) Gateway.Witness.timer (fun ws => Ok (ws_addr ws))
    (fun http => Ok (http_addr http))
    (Ok tt) _ _ _ "80" "unix:/node.sock" "80"); try reflexivity; by eexists.
Defined.

End Witness.
