(* ===== verification/Storage.v ===== *)
(** * Storage wrappers and fixed services ([common/src/storage.rs],
    [common/src/parity.rs], [keymanager-runtime/src/api.rs])

    The Ethereum state reads and writes through [ThreadLocalMKVS], which
    forwards every call to the store the storage context holds, and never
    through its database backend; [MemoryKeyValue] is the in-memory store of
    the tools.  The key manager's trusted policy signers complete the file. *)

From Stdlib Require Import ZArith Lia Strings.Byte.
From stdpp Require Import base numbers gmap strings option list.
From S2P Require Import Prelude.

(** ** [MemoryKeyValue] *)

Abbreviation MemoryKeyValue := (gmap bytes bytes).

Definition memory_new : MemoryKeyValue := ∅.

Definition memory_get (self : MemoryKeyValue) (key : bytes) : outcome string bytes :=
  ok_or (self !! key) "not found"%string.

Definition memory_insert (key value : bytes) : stateful MemoryKeyValue string unit :=
  smodify (<[key := value]>).

(** ** [ThreadLocalMKVS] *)

(** The store [StorageContext::with_current] gives access to. *)
Class Mkvs := {
  Store : Type;
  mkvs_get : Store -> bytes -> option bytes;
  mkvs_insert : bytes -> bytes -> Store -> option bytes * Store;
  mkvs_remove : bytes -> Store -> option bytes * Store
}.

Section thread_local.
Context {K : Mkvs}.

Definition get (current : Store) (key : bytes) : option bytes := mkvs_get current key.

Definition insert (key value : bytes) (current : Store) : option bytes * Store :=
  mkvs_insert key value current.

Definition remove (key : bytes) (current : Store) : option bytes * Store :=
  mkvs_remove key current.

(** The gateway's [BlockSnapshotMKVS] forwards to the store of a block's
    snapshot in the same way. *)
Definition snapshot_get (snapshot : Store) (key : bytes) : option bytes := mkvs_get snapshot key.

Definition snapshot_insert (key value : bytes) (snapshot : Store) : option bytes * Store :=
  mkvs_insert key value snapshot.

Definition snapshot_remove (key : bytes) (snapshot : Store) : option bytes * Store :=
  mkvs_remove key snapshot.

End thread_local.

(** ** [NullBackend] *)

(** The two accessors of the hash database must never be called; the caches
    hold nothing. *)
Definition as_hashdb {E A} : outcome E A := Panic.
Definition get_cached_account {A} (address : Address) : option A := None.
Definition get_cached {A} (address : Address) : option A := None.
Definition get_cached_code (hash : H256) : option bytes := None.
Definition is_known_null (address : Address) : bool := false.

(** ** The key manager's policy *)

Record TrustedPolicySigners := { signers : gset bytes; threshold : Z }.

Definition test_seeds : list string :=
  ["ekiden key manager test multisig key 0"; "ekiden key manager test multisig key 1";
   "ekiden key manager test multisig key 2"]%string.

(** [unsafe_keys]: whether the build sets [OASIS_UNSAFE_KM_POLICY_KEYS]. *)
Definition trusted_policy_signers (unsafe_keys : bool) (public_key_of_seed : string -> bytes)
  : TrustedPolicySigners := {|
  signers := if unsafe_keys then list_to_set (public_key_of_seed <$> test_seeds) else ∅;
  threshold := 9001
|}.

(** ** Lemmas *)

Lemma memory_get_insert self key key' value :
  memory_get (memory_insert key value self).2 key' =
  if decide (key = key') then Ok value else memory_get self key'.
Proof.
  unfold memory_get, memory_insert, smodify. cbn [snd]. case_decide as Hk.
  - by rewrite Hk, lookup_insert_eq.
  - by rewrite lookup_insert_ne.
Qed.

Lemma size_list_to_set_le (l : list bytes) : size (list_to_set l : gset bytes) <= length l.
Proof.
  induction l as [|x l IH]; [done|]. cbn [list_to_set length].
  rewrite size_union_alt, size_singleton.
  assert (list_to_set l ∖ {[x]} ⊆ (list_to_set l : gset bytes)) as Hsub by set_solver.
  apply subseteq_size in Hsub. lia.
Qed.

(** No policy can reach the threshold: there are at most three signers. *)
Lemma threshold_unreachable unsafe_keys key :
  (Z.of_nat (size (signers (trusted_policy_signers unsafe_keys key)))
   < threshold (trusted_policy_signers unsafe_keys key))%Z.
Proof.
  unfold trusted_policy_signers. cbn [signers threshold]. destruct unsafe_keys.
  - pose proof (size_list_to_set_le (key <$> test_seeds)) as Hle.
    rewrite length_fmap in Hle. simpl length in Hle. lia.
  - rewrite size_empty. lia.
Qed.
