(* ===== verification/RuntimeStart.v ===== *)
(** * The start of the runtime processes ([bin/main.rs],
    [keymanager-runtime/src/main.rs])

    The initializer of the runtime makes the key manager client with the
    trusted policy signers, on SGX registers the handler of policy updates,
    and returns the dispatcher.  The client is the library's: [KmClients] are
    the calls made to it, [KmClientsLaws] the check of a policy's signatures
    the signers are for. *)

From Stdlib Require Import ZArith Lia Strings.Byte.
From stdpp Require Import base numbers gmap strings option list.
From S2P Require Import Prelude Dispatcher Storage.

Class KmClients := {
  KmClient : Type;
  (** [RemoteClient::new_runtime], for a runtime, with a cache size. *)
  new_runtime : bytes -> Z -> TrustedPolicySigners -> KmClient;
  set_policy : bytes -> KmClient -> outcome string unit * KmClient
}.

(** A policy is only set when enough of the trusted signers have signed it. *)
Class KmClientsLaws (K : KmClients) := {
  policy_signers : bytes -> gset bytes;
  client_signers : KmClient -> TrustedPolicySigners;
  client_signers_new id cache s : client_signers (new_runtime id cache s) = s;
  set_policy_signed raw c c' : set_policy raw c = (Ok tt, c') ->
    (threshold (client_signers c) <=
     Z.of_nat (size (policy_signers raw ∩ signers (client_signers c))))%Z
}.

Section start.
Context {K : KmClients}.

Definition KM_CACHE_SIZE : Z := 1024.

(** The handler of a policy update: a policy that cannot be set stops the
    process. *)
Definition update_policy {Er} (raw_signed_policy : bytes) : stateful KmClient Er unit := fun km_client =>
  let '(r, km_client) := set_policy raw_signed_policy km_client in
  (unwrap_ok r, km_client).

(** What the initializer leaves: the dispatcher, the client and, in an SGX
    build, the handler. *)
Record Initialized := {
  dispatcher : Dispatcher;
  km_client : KmClient;
  policy_update_handler : option (bytes -> stateful KmClient Empty_set unit)
}.

Definition init (sgx unsafe_keys : bool) (public_key_of_seed : string -> bytes) (runtime_id : bytes)
  : Initialized := {|
  dispatcher := dispatcher_new;
  km_client := new_runtime runtime_id KM_CACHE_SIZE
    (trusted_policy_signers unsafe_keys public_key_of_seed);
  policy_update_handler := if sgx then Some update_policy else None
|}.

(** The key manager is started with the same signers. *)
Definition keymanager_init {KeyManager} (new_keymanager : TrustedPolicySigners -> KeyManager)
    (unsafe_keys : bool) (public_key_of_seed : string -> bytes) : KeyManager :=
  new_keymanager (trusted_policy_signers unsafe_keys public_key_of_seed).

(** As long as the threshold is its placeholder, no policy can be set: on SGX
    the first update stops the runtime, elsewhere updates are not handled. *)
Theorem no_policy_is_set {KL : KmClientsLaws K} sgx unsafe_keys public_key_of_seed runtime_id raw :
  let started := init sgx unsafe_keys public_key_of_seed runtime_id in
  match policy_update_handler started with
  | Some handler => (handler raw (km_client started)).1 = Panic
  | None => sgx = false
  end.
Proof.
  destruct sgx; [|done]. cbn [init policy_update_handler km_client]. unfold update_policy.
  destruct (set_policy raw _) as [[[]|e|] c'] eqn:Hset; [|done|done]. exfalso.
  apply set_policy_signed in Hset. rewrite client_signers_new in Hset.
  pose proof (threshold_unreachable unsafe_keys public_key_of_seed) as Hlt.
  assert (size (policy_signers raw ∩ signers (trusted_policy_signers unsafe_keys public_key_of_seed)) <=
    size (signers (trusted_policy_signers unsafe_keys public_key_of_seed))) as Hle.
  { apply subseteq_size. set_solver. }
  lia.
Qed.

End start.

(** ** A concrete client *)

Module KmModel.

(** A policy is signed by the keys it lists, of one byte each. *)
Definition keys_of (raw : bytes) : gset bytes := list_to_set ((fun b => [b]) <$> raw).

#[local] Instance clients : KmClients := {|
  KmClient := TrustedPolicySigners;
  new_runtime := fun _ _ s => s;
  set_policy := fun raw s =>
    if (threshold s <=? Z.of_nat (size (keys_of raw ∩ signers s)))%Z
    then (Ok tt, s) else (Err "insufficient signatures"%string, s)
|}.

#[local] Instance client_laws : KmClientsLaws clients.
Proof.
  refine {| policy_signers := keys_of; client_signers := fun s => s |}; [done|].
  intros raw c c' Hset. cbn in *. destruct (Z.leb_spec (threshold c)
    (Z.of_nat (size (keys_of raw ∩ signers c)))); [done|discriminate].
Qed.

Example update_stops_runtime :
  policy_update_handler (init true true (fun _ => [x01]) []) ≫=
    (fun handler => Some (handler [x01] (km_client (init true true (fun _ => [x01]) []))).1) =
  Some Panic.
Proof. vm_compute. reflexivity. Qed.

End KmModel.
