(* ===== verification/TestClient.v ===== *)
(** * The test client of the runtime ([src/test/client.rs])

    [Client] drives the runtime's own batch handler and transaction methods
    over an in-memory tree: every batch is opened on the tree the last one
    left, and its header follows the last header.  It also holds the client's
    half of the confidential contexts: what the tests send to a contract is
    sealed for the contract's keys, and its output is opened with the
    client's. *)

From Stdlib Require Import ZArith Lia Strings.Byte.
From stdpp Require Import base numbers gmap strings option list.
From S2P Require Import Prelude Crypto Api OasisCore Ethcore Methods.
From S2P Require WireFormat ConfidentialCtx.

(** The libraries the client calls besides those of the runtime: the storage
    tree with its overlay, the genesis specification, signing and encoding of
    transactions, and reads of the Ethereum state. *)
Class TestLib {M : Mrae} {E : Ethcore} := {
  Tree : Type;
  Overlay : Type;
  new_tree : Tree;
  overlay_new : Tree -> Overlay;
  (** [genesis::SPEC.ensure_db_good]. *)
  ensure_db_good : Overlay -> outcome string Overlay;
  (** [State::from_existing] over an overlay, and what a state has written. *)
  state_over : Overlay -> option ConfidentialCtx.ConfidentialCtx -> outcome string State;
  overlay_of : State -> Overlay;
  (** [commit_both] for a version: the new root and the tree. *)
  commit_both : Overlay -> Z -> outcome string (H256 * Tree);
  empty_hash : H256;
  hash_default : H256;
  Secret : Type;
  EtyKeyPair : Type;
  ety_secret : EtyKeyPair -> Secret;
  ety_address : EtyKeyPair -> Address;
  (** [Transaction::sign], without a chain id, and [rlp::encode]. *)
  tx_sign : Transaction -> Secret -> SignedTransaction;
  tx_encode : SignedTransaction -> bytes;
  (** [contract_address] under the engine's scheme of a block. *)
  contract_address : Z -> Address -> U256 -> bytes -> Address;
  st_nonce : State -> Address -> outcome string U256;
  st_balance : State -> Address -> outcome string U256;
  st_storage_at : State -> Address -> H256 -> outcome string (option bytes);
  st_storage_expiry : State -> Address -> outcome string Z;
  (** The header of a contract's code, and compact JSON of an object whose
      keys come in order. *)
  OASIS_HEADER_PREFIX : bytes;
  json_to_string : list (string * (bool + Z)) -> bytes
}.

Section client.
Context {M : Mrae} {E : Ethcore} {O : OasisCore} {T : TestLib}.

Record Client := {
  keypair : EtyKeyPair;
  ephemeral_key : ConfidentialCtx.KeyPair;
  gas_limit : U256;
  gas_price : U256;
  header : Header;
  mkvs : option Tree;
  results : gmap H256 ExecutionResult
}.

Definition set_header (h : Header) (self : Client) : Client :=
  Build_Client (keypair self) (ephemeral_key self) (gas_limit self) (gas_price self) h
    (mkvs self) (results self).
Definition set_mkvs (t : option Tree) (self : Client) : Client :=
  Build_Client (keypair self) (ephemeral_key self) (gas_limit self) (gas_price self)
    (header self) t (results self).
Definition set_results (rs : gmap H256 ExecutionResult) (self : Client) : Client :=
  Build_Client (keypair self) (ephemeral_key self) (gas_limit self) (gas_price self)
    (header self) (mkvs self) rs.

(** The key pair of the test account and the mock ephemeral key are given. *)
Definition new (keypair : EtyKeyPair) (ephemeral_key : ConfidentialCtx.KeyPair)
  : outcome Empty_set Client :=
  let? overlay := unwrap_ok (ensure_db_good (overlay_new new_tree)) in
  let? (state_root, mkvs) := unwrap_ok (commit_both overlay 0) in
  Ok {|
    keypair := keypair;
    ephemeral_key := ephemeral_key;
    gas_price := 1000000000;
    gas_limit := 1000000;
    mkvs := Some mkvs;
    header := {|
      round := 0;
      previous_hash := empty_hash;
      header_timestamp := 0xcafedeadbeefc0de;
      state_root := state_root;
      io_root := hash_default
    |};
    results := ∅
  |}.

(** ** Batches *)

(** The runtime's library over the overlay of a tree. *)
Definition on_tree (t : Tree) : Ethcore := {|
  UnverifiedTransaction := @UnverifiedTransaction M E;
  SignedTransaction := @SignedTransaction M E;
  rlp_decode := rlp_decode;
  as_unsigned := as_unsigned;
  unverified_hash := unverified_hash;
  signed_new := signed_new;
  signed_tx := signed_tx;
  signed_hash := signed_hash;
  signed_sender := signed_sender;
  u256_sub := u256_sub;
  u256_add := u256_add;
  u256_saturating_mul := u256_saturating_mul;
  State := @State M E;
  state_from_existing := state_over (overlay_new t);
  state_apply := state_apply;
  state_commit := state_commit
|}.

Abbreviation Ctx t := (@TxnContext M (on_tree t) O).

(** The Ethereum state of a batch: over a tree it is the same type. *)
Definition ethereum_state {t : Tree} (ectx : @BlockContext M (on_tree t)) : @State M E :=
  Methods.state ectx.

(** What runs in a batch may use the client and the transaction context. *)
Abbreviation batch A := (forall t : Tree, stateful (Client * Ctx t) Empty_set A).

Definition on_ctx {Er A} {t : Tree} (m : stateful (Ctx t) Er A) : stateful (Client * Ctx t) Er A :=
  fun s => let '(r, ctx) := m s.2 in (r, (s.1, ctx)).

(** [StorageContext::enter] around the handler's calls and [f]. *)
Definition in_batch {A} (p : profile) (f : batch A) (t : Tree)
  : stateful (Client * Ctx t) Empty_set A :=
  let! _ := on_ctx (@start_batch M (on_tree t) O Empty_set p) in
  let! result := f t in
  let! _ := on_ctx (@end_batch M (on_tree t) O Empty_set) in
  sret result.

Definition txn_context (inner : Inner) (header : Header) (check_only : bool) (t : Tree) : Ctx t :=
  @Build_TxnContext M (on_tree t) O header check_only inner None.

(** [inner] is the empty part of a fresh context. *)
Definition check_batch {A} (p : profile) (inner : Inner) (f : batch A)
  : stateful Client Empty_set A := fun self =>
  match mkvs self with
  | None => (Panic, self)
  | Some t =>
      let '(r, (self, _)) :=
        in_batch p f t (set_mkvs None self, txn_context inner (header self) true t) in
      match r with
      | Ok result => (Ok result, set_mkvs (Some t) self)
      | _ => (Panic, self)
      end
  end.

Definition next_header (round : Z) (new_state_root : H256) (h : Header) : Header := {|
  OasisCore.round := round;
  header_timestamp := header_timestamp h;
  previous_hash := digest_bytes (previous_hash h);
  state_root := new_state_root;
  io_root := io_root h
|}.

Definition execute_batch {A} (p : profile) (inner : Inner) (f : batch A)
  : stateful Client Empty_set A := fun self =>
  match mkvs self with
  | None => (Panic, self)
  | Some t =>
      let '(r, (self, ctx)) :=
        in_batch p f t (set_mkvs None self, txn_context inner (header self) false t) in
      match r with
      | Ok result =>
          (let! round := slift (u64_add p (round (header self)) 1) in
           let! ectx := slift (expect (Methods.runtime ctx)) in
           let! (new_state_root, t) :=
             slift (unwrap_ok (commit_both (overlay_of (ethereum_state ectx)) round)) in
           let! _ := smodify (set_mkvs (Some t) ∘
             set_header (next_header round new_state_root (header self))) in
           sret result) self
      | _ => (Panic, self)
      end
  end.

Definition set_timestamp (timestamp : Z) (self : Client) : Client :=
  let h := header self in
  set_header {|
    round := round h;
    header_timestamp := timestamp;
    previous_hash := previous_hash h;
    state_root := state_root h;
    io_root := io_root h
  |} self.

(** ** Contract headers and confidential data *)

(** [BigEndian::write_u16] of a length [as u16]. *)
Definition write_u16 (n : Z) : bytes := rev (to_le_bytes 2 n).

Definition make_header (expiry : option Z) (confidential : option bool) : bytes :=
  let map :=
    option_list ((fun c => ("confidential"%string, inl c)) <$> confidential) ++
    option_list ((fun e => ("expiry"%string, inr e)) <$> expiry) in
  let contents := json_to_string map in
  OASIS_HEADER_PREFIX ++ write_u16 1 ++ write_u16 (len contents) ++ contents.

(** The key manager of the client: the mock answers every request for the
    keys of a contract. *)
Section contexts.
Context (get_or_create_keys : bytes -> outcome string ConfidentialCtx.KeyPair).

Definition client_confidential_ctx (self : Client) (contract : Address)
  : outcome Empty_set ConfidentialCtx.ConfidentialCtx :=
  let contract_id := keccak contract in
  let? contract_key := unwrap_ok (get_or_create_keys contract_id) in
  (* No need to save the Nonce on the Client (for now). *)
  let nonce := nonce_new (replicate nonce_size x00) in
  Ok (ConfidentialCtx.new_test
        (Some (ConfidentialCtx.input_pk contract_key))
        (Some (contract, ephemeral_key self))
        (Some nonce)
        true
        hash_default
        None
        None).

Definition key_manager_confidential_ctx (self : Client) (contract : Address)
  : outcome Empty_set ConfidentialCtx.ConfidentialCtx :=
  let '(r, ctx) := ConfidentialCtx.activate get_or_create_keys (Some contract)
    (ConfidentialCtx.new (previous_hash (header self))) in
  let? _ := unwrap_ok r in
  Ok ctx.

Definition confidential_data (self : Client) (contract : option Address) (data : bytes)
  : outcome Empty_set bytes :=
  match contract with
  | None => Ok (make_header None (Some true) ++ data)
  | Some contract_addr =>
      let? ctx := client_confidential_ctx self contract_addr in
      unwrap_ok (ConfidentialCtx.encrypt_session data ctx).1
  end.

Definition confidential_storage_key (self : Client) (contract : Address) (storage_key : H256)
  : outcome Empty_set H256 :=
  let? km_confidential_ctx := key_manager_confidential_ctx self contract in
  let? key := unwrap_ok (ConfidentialCtx.encrypt_storage_key km_confidential_ctx storage_key) in
  Ok (keccak key).

(** ** Transactions *)

Definition on_client {Er A} {t : Tree} (m : stateful Client Er A) : stateful (Client * Ctx t) Er A :=
  fun s => let '(r, client) := m s.1 in (r, (client, s.2)).

Definition err_to_string {A} (m : outcome AnyError A) : outcome string A :=
  map_err display_any_error m.

(** The transaction [send] makes and signs. *)
Definition transaction_of (client : Client) (contract : option Address) (data : bytes)
    (value nonce : U256) : SignedTransaction :=
  tx_sign
    {| Ethcore.nonce := nonce;
       Ethcore.gas_price := gas_price client;
       gas := gas_limit client;
       action := match contract with None => Create | Some contract => Call contract end;
       Ethcore.value := value;
       Ethcore.data := data |}
    (ety_secret (keypair client)).

(** The closure of [send]; its [?] and [Ok] make the [Result] of the batch. *)
Definition send_in_batch (contract : option Address) (data : bytes) (value : U256)
    (nonce : option U256) (t : Tree) : stateful (Client * Ctx t) string (H256 * option Address) :=
  let! (client, ctx) := sget in
  let! ectx := slift (expect (Methods.runtime ctx)) in
  let! current := slift (unwrap_ok (st_nonce (ethereum_state ectx) (ety_address (keypair client)))) in
  let tx := transaction_of client contract data value (default current nonce) in
  let raw := tx_encode tx in
  let! decoded := slift (err_to_string (@check_tx M (on_tree t) raw)) in
  let! result := on_ctx (fun ctx =>
    let '(r, ctx) := @execute_tx M (on_tree t) O decoded ctx in (err_to_string r, ctx)) in
  let! _ := on_client (smodify (fun client =>
    set_results (<[signed_hash tx := result]> (results client)) client)) in
  let address :=
    match contract with
    | None =>
        Some (contract_address (round (Methods.header ctx)) (signed_sender tx)
                (Ethcore.nonce (signed_tx tx)) (Ethcore.data (signed_tx tx)))
    | Some _ => None
    end in
  sret (signed_hash tx, address).

(** A closure that returns a [Result]: only its panics are panics. *)
Definition catch {S Er A} (m : stateful S Er A) : stateful S Empty_set (Er + A) :=
  fun s => let '(r, s) := m s in (as_result r, s).

Context (p : profile) (inner : Inner).

Definition send (contract : option Address) (data : bytes) (value : U256) (nonce : option U256)
  : stateful Client Empty_set (string + H256 * option Address) :=
  execute_batch p inner (fun t => catch (send_in_batch contract data value nonce t)).

(** [.expect(..)] on the result of [send]. *)
Definition send_expect (contract : option Address) (data : bytes) (value : U256)
  : stateful Client Empty_set (H256 * option Address) :=
  let! r := send contract data value None in
  slift (match r with inr ha => Ok ha | inl _ => Panic end).

(** Returns the receipt for the given transaction hash. *)
Definition result (tx_hash : H256) (self : Client) : outcome Empty_set ExecutionResult :=
  expect (results self !! tx_hash).

Definition created (ha : H256 * option Address) : stateful Client Empty_set (H256 * Address) :=
  let! address := slift (expect ha.2) in
  sret (ha.1, address).

Definition create_contract (code : bytes) (balance : U256)
  : stateful Client Empty_set (H256 * Address) :=
  let! ha := send_expect None code balance in
  created ha.

Definition create_contract_with_header (code : bytes) (balance : U256) (expiry : option Z)
    (confidentiality : option bool) : stateful Client Empty_set (H256 * Address) :=
  let data := make_header expiry confidentiality ++ code in
  let! ha := send_expect None data balance in
  created ha.

Definition call (contract : Address) (data : bytes) (value : U256) : stateful Client Empty_set bytes :=
  let! (hash, _) := send_expect (Some contract) data value in
  let! self := sget in
  let! result := slift (result hash self) in
  sret (output result).

Definition confidential_send (contract : option Address) (data : bytes) (value : U256)
  : stateful Client Empty_set (H256 * option Address) :=
  let! self := sget in
  let! enc_data := slift (confidential_data self contract data) in
  send_expect contract enc_data value.

Definition create_confidential_contract (code : bytes) (balance : U256)
  : stateful Client Empty_set (H256 * Address) :=
  let! ha := confidential_send None code balance in
  created ha.

Definition confidential_call (contract : Address) (data : bytes) (value : U256)
  : stateful Client Empty_set bytes :=
  let! self := sget in
  let! enc_data := slift (confidential_data self (Some contract) data) in
  let! (hash, _) := send_expect (Some contract) enc_data value in
  let! self := sget in
  let! result := slift (result hash self) in
  let! ctx := slift (client_confidential_ctx self contract) in
  slift (unwrap_ok (ConfidentialCtx.decrypt p ctx (output result))).

(** A batch that only reads the state; the caller unwraps the result. *)
Definition read_state {A} (read : State -> outcome string A) : stateful Client Empty_set A :=
  let! r := execute_batch p inner (fun t => catch (
    let! (_, ctx) := sget in
    let! ectx := slift (expect (Methods.runtime ctx)) in
    slift (read (ethereum_state ectx)))) in
  slift (match r with inr a => Ok a | inl _ => Panic end).

Definition nonce (address : Address) : stateful Client Empty_set U256 :=
  read_state (fun state => st_nonce state address).
Definition balance (address : Address) : stateful Client Empty_set U256 :=
  read_state (fun state => st_balance state address).
Definition raw_storage (contract : Address) (storage_key : H256)
  : stateful Client Empty_set (option bytes) :=
  read_state (fun state => st_storage_at state contract storage_key).
Definition storage_expiry (contract : Address) : stateful Client Empty_set Z :=
  read_state (fun state => st_storage_expiry state contract).

End contexts.

(** ** Specification *)

(** A closure that leaves the header and the tree of the client alone. *)
Definition keeps_header {A} (f : batch A) : Prop := forall t s r s',
  f t s = (Ok r, s') -> header s'.1 = header s.1.

(** The client's runs, with the number of batches executed: the sends, the
    calls and the reads are batches, and the tests run closures of their own. *)
Inductive runs (p : profile) : nat -> Client -> Client -> Prop :=
| runs_none self : runs p 0 self self
| runs_timestamp n self self' timestamp :
    runs p n self self' -> runs p n self (set_timestamp timestamp self')
| runs_check {A} n self self' inner (f : batch A) r self'' :
    runs p n self self' -> keeps_header f ->
    check_batch p inner f self' = (Ok r, self'') -> runs p n self self''
| runs_execute {A} n self self' inner (f : batch A) r self'' :
    runs p n self self' -> keeps_header f ->
    execute_batch p inner f self' = (Ok r, self'') -> runs p (S n) self self''.

(** ** Lemmas *)

Section lemmas.
Context {ML : MraeLaws M} {L : EthcoreLaws E}.

#[local] Instance on_tree_laws t : EthcoreLaws (on_tree t).
Proof. destruct L. by constructor. Qed.

Lemma in_batch_Ok {A} p (f : batch A) t s r s' :
  in_batch p f t s = (Ok r, s') -> exists ctx s2,
    @start_batch M (on_tree t) O Empty_set p s.2 = (Ok tt, ctx) /\
    f t (s.1, ctx) = (Ok r, s2) /\
    @end_batch M (on_tree t) O Empty_set s2.2 = (Ok tt, s'.2) /\ s'.1 = s2.1.
Proof.
  intros H. unfold in_batch, on_ctx in H. apply sbind_Ok in H as ([] & s1 & Hs & H).
  destruct (start_batch p s.2) as [r1 ctx] eqn:Hstart. simplify_eq.
  apply sbind_Ok in H as (r2 & s2 & Hf & H). apply sbind_Ok in H as ([] & s3 & He & H).
  destruct (end_batch s2.2) as [r3 ctx3] eqn:Hend. unfold sret in H. simplify_eq/=.
  by exists ctx, s2.
Qed.

Lemma in_batch_header {A} p (f : batch A) t s r s' :
  keeps_header f -> in_batch p f t s = (Ok r, s') -> header s'.1 = header s.1.
Proof.
  intros Hk H. apply in_batch_Ok in H as (ctx & s2 & _ & Hf & _ & ->). by apply Hk in Hf.
Qed.

(** What an executed batch leaves. *)
Lemma execute_batch_Ok {A} p inner (f : batch A) self r self' :
  execute_batch p inner f self = (Ok r, self') -> exists t s,
    mkvs self = Some t /\
    in_batch p f t (set_mkvs None self, txn_context inner (header self) false t) = (Ok r, s) /\
    exists round' root t', u64_add (E:=Empty_set) p (round (header s.1)) 1 = Ok round' /\
      self' = set_mkvs (Some t') (set_header (next_header round' root (header s.1)) s.1).
Proof.
  unfold execute_batch. destruct (mkvs self) as [t|]; [|done]. intros H.
  destruct (in_batch p f t _) as [[r1| |] [client ctx]] eqn:Hin; [|done|done].
  exists t, (client, ctx). split; [done|].
  apply sbind_Ok in H as (round' & s1 & Hr & H). unfold slift in Hr. injection Hr as Hr <-.
  apply sbind_Ok in H as (ectx & s2 & He & H). unfold slift in He. injection He as He <-.
  apply sbind_Ok in H as ([root t'] & s3 & Hc & H). unfold slift in Hc. injection Hc as Hc <-.
  apply sbind_Ok in H as ([] & s4 & Hm & H). unfold smodify, sret in *. simplify_eq.
  split; [done|]. by exists round', root, t'.
Qed.

Lemma check_batch_Ok {A} p inner (f : batch A) self r self' :
  check_batch p inner f self = (Ok r, self') -> exists t s,
    mkvs self = Some t /\
    in_batch p f t (set_mkvs None self, txn_context inner (header self) true t) = (Ok r, s) /\
    self' = set_mkvs (Some t) s.1.
Proof.
  unfold check_batch. destruct (mkvs self) as [t|]; [|done]. intros H.
  destruct (in_batch p f t _) as [[r1| |] [client ctx]] eqn:Hin; simplify_eq.
  by exists t, (client, ctx).
Qed.

(** Nothing runs inside a batch. *)
Lemma nested_batch_panics {A B} p inner (f : batch A) (g : batch B) self :
  mkvs self = None ->
  execute_batch p inner f self = (Panic, self) /\ check_batch p inner g self = (Panic, self).
Proof. intros Hm. unfold execute_batch, check_batch. by rewrite Hm. Qed.

Lemma check_tx_gas (txn : bytes) signed :
  check_tx txn = Ok signed -> (gas (signed_tx signed) <= BLOCK_GAS_LIMIT)%Z.
Proof.
  unfold check_tx. intros H. apply obind_Ok in H as (u & _ & H).
  case_match eqn:Hg; [done|]. apply Z.ltb_ge in Hg.
  apply obind_Ok in H as (s & Hs & H). apply map_err_Ok, signed_new_tx in Hs.
  case_match; simplify_eq. by rewrite Hs.
Qed.

(** In a fresh batch, [send] stores the result of the transaction it made. *)
Lemma send_in_batch_Ok contract data value n t client ctx b h address s' :
  Methods.runtime ctx = Some b -> gas_in_range b -> Ethcore.gas_used (env_info b) = 0%Z ->
  send_in_batch contract data value n t (client, ctx) = (Ok (h, address), s') ->
  exists tx current decoded x ctx',
    tx = transaction_of client contract data value (default current n) /\ h = signed_hash tx /\
    st_nonce (ethereum_state b) (ety_address (keypair client)) = Ok current /\
    check_tx (tx_encode tx) = Ok decoded /\ @execute_tx M (on_tree t) O decoded ctx = (Ok x, ctx') /\
    s'.1 = set_results (<[h := x]> (results client)) client /\
    (is_Some address <-> contract = None) /\
    cumulative_gas_used x = Api.gas_used x /\ (0 <= Api.gas_used x <= gas (signed_tx decoded))%Z.
Proof.
  intros Hb Hg H0 H. unfold send_in_batch in H.
  apply sbind_Ok in H as ([client1 ctx1] & s1 & Hget & H). injection Hget as <- <- <-.
  apply sbind_Ok in H as (b1 & s1 & He & H). unfold slift in He. rewrite Hb in He.
  injection He as <- <-.
  apply sbind_Ok in H as (current & s1 & Hn & H). unfold slift in Hn. injection Hn as Hn <-.
  assert (st_nonce (ethereum_state b) (ety_address (keypair client)) = Ok current) as Hnonce
    by (destruct (st_nonce _ _); simpl in Hn; by simplify_eq).
  set (tx := transaction_of _ _ _ _ _) in H.
  apply sbind_Ok in H as (decoded & s1 & Hd & H). unfold slift, err_to_string in Hd.
  injection Hd as Hd <-. apply map_err_Ok in Hd.
  apply sbind_Ok in H as (x & s2 & Hx & H). unfold on_ctx in Hx. cbn [fst snd] in Hx.
  destruct (execute_tx decoded ctx) as [r ctx2] eqn:Hrun. unfold err_to_string in Hx.
  injection Hx as Hx <-. apply map_err_Ok in Hx. subst r.
  apply sbind_Ok in H as ([] & s3 & Hm & H). unfold on_client, smodify in Hm. cbn [fst snd] in Hm.
  injection Hm as <-. unfold sret in H. injection H as <- <- <-.
  exists tx, current, decoded, x, ctx2.
  destruct (execute_tx_step (L:=on_tree_laws t) _ _ _ _ _ Hb Hg Hrun) as (b' & _ & _ & (_ & _ & Hu & Hc & Hle) & _).
  rewrite H0, Z.add_0_l in Hu. rewrite Hu in Hc.
  assert (is_Some (match contract with Some _ => None | None => Some (contract_address
    (round (Methods.header ctx)) (signed_sender tx) (Ethcore.nonce (signed_tx tx))
    (Ethcore.data (signed_tx tx))) end) <-> contract = None) as Ha.
  { destruct contract; split; [by intros []|done|done|by eexists]. }
  by destruct Hle.
Qed.

Lemma catch_inr {S Er A} (m : stateful S Er A) s a s' :
  catch m s = (Ok (inr a), s') -> m s = (Ok a, s').
Proof. unfold catch. destruct (m s) as [[] ?]; intros; by simplify_eq/=. Qed.

Lemma catch_inl {S Er A} (m : stateful S Er A) s e s' :
  catch m s = (Ok (inl e), s') -> m s = (Err e, s').
Proof. unfold catch. destruct (m s) as [[] ?]; intros; by simplify_eq/=. Qed.

(** A send that fails leaves the client as it was. *)
Lemma send_in_batch_Err contract data value n t s e s' :
  send_in_batch contract data value n t s = (Err e, s') -> s'.1 = s.1.
Proof.
  destruct s as [client ctx]. unfold send_in_batch, sbind, sget, slift, sret.
  destruct (expect (Methods.runtime ctx)) as [b|e1|]; [|intros H; by simplify_eq/=|done].
  destruct (unwrap_ok _) as [current|e1|]; [|intros H; by simplify_eq/=|done].
  destruct (err_to_string (check_tx _)) as [decoded|e1|]; [|intros H; by simplify_eq/=|done].
  unfold on_ctx, on_client, smodify. cbn [fst snd].
  destruct (execute_tx decoded ctx) as [[x|e1|] ctx2]; cbn [err_to_string map_err];
    [done|intros H; by simplify_eq/=|done].
Qed.

Lemma send_keeps_header contract data value n :
  keeps_header (fun t => catch (send_in_batch contract data value n t)).
Proof.
  intros t s [e|[h a]] s' H.
  - apply catch_inl, send_in_batch_Err in H. by rewrite H.
  - apply catch_inr in H. destruct s as [client ctx]. unfold send_in_batch, sbind in H.
    repeat case_match; simplify_eq/=; try done; unfold sget, slift, on_ctx, on_client, smodify,
      sret in *; repeat case_match; by simplify_eq/=.
Qed.

Lemma read_keeps_header {A} (read : State -> outcome string A) :
  keeps_header (fun t => catch (
    let! (_, ctx) := sget in
    let! ectx := slift (expect (Methods.runtime ctx)) in
    slift (read (ethereum_state (t:=t) ectx)))).
Proof.
  intros t [client ctx] r s' H. unfold catch, sbind, sget, slift in H.
  repeat case_match; by simplify_eq/=.
Qed.

(** A batch puts a block on the header. *)
Lemma execute_batch_header {A} p inner (f : batch A) self r self' :
  keeps_header f -> execute_batch p inner f self = (Ok r, self') -> exists round' root t',
    u64_add (E:=Empty_set) p (round (header self)) 1 = Ok round' /\
    header self' = next_header round' root (header self) /\ mkvs self' = Some t'.
Proof.
  intros Hk H. apply execute_batch_Ok in H as (t & s & _ & Hin & round' & root & t' & Hr & ->).
  apply in_batch_header in Hin; [|done]. cbn [fst set_mkvs header] in Hin. rewrite Hin in Hr |- *.
  by exists round', root, t'.
Qed.

(** Also one that only reads, and a call: neither is simulated. *)
Theorem reads_make_blocks {A} p inner (read : State -> outcome string A) self a self' :
  read_state p inner read self = (Ok a, self') -> exists round' root,
    header self' = next_header round' root (header self).
Proof.
  intros H. apply sbind_Ok in H as (r & s1 & H & Hr). injection Hr as _ <-.
  apply execute_batch_header in H as (round' & root & _ & _ & H & _); [|apply read_keeps_header].
  by exists round', root.
Qed.

Theorem confidential_call_makes_block km p inner contract data value self out self' :
  confidential_call km p inner contract data value self = (Ok out, self') -> exists round' root,
    header self' = next_header round' root (header self).
Proof.
  intros H. apply sbind_Ok in H as (c & s1 & Hc & H). injection Hc as <- <-.
  apply sbind_Ok in H as (enc & s1 & He & H). injection He as _ <-.
  apply sbind_Ok in H as ([hash address] & s1 & Hs & H).
  apply sbind_Ok in Hs as (r & s2 & Hs & Hr). injection Hr as _ ->.
  apply sbind_Ok in H as (c & s2 & Hc & H). injection Hc as <- <-.
  apply sbind_Ok in H as (x & s2 & Hx & H). injection Hx as _ <-.
  apply sbind_Ok in H as (ctx & s2 & Hx & H). injection Hx as _ <-. injection H as _ <-.
  apply execute_batch_header in Hs as (round' & root & _ & _ & Hs & _);
    [by exists round', root|apply send_keeps_header].
Qed.

(** ** Properties *)

(** C29. Every send is a batch of its own: it extends the header chain by one
    block, also when the transaction is refused, and then no result is kept.
    A send that succeeds keeps the result of the transaction it signed, the one
    [execute_tx] gives in the batch opened on the client's tree, under the hash
    it returns and where [result] finds it, with an address exactly for a
    creation; the transaction has the account's nonce unless one is given, and
    is alone in its block, so the gas it used is the block's, within the
    transaction's and the block's limit. *)
Theorem send_outcome p inner contract data value n self r self' :
  send p inner contract data value n self = (Ok r, self') ->
  (exists round' root t', u64_add (E:=Empty_set) p (round (header self)) 1 = Ok round' /\
    header self' = next_header round' root (header self) /\ mkvs self' = Some t') /\
  match r with
  | inl _ => results self' = results self
  | inr (h, address) => exists t ctx b ctx' x current decoded,
      let tx := transaction_of self contract data value (default current n) in
      mkvs self = Some t /\
      @start_batch M (on_tree t) O Empty_set p (txn_context inner (header self) false t) =
        (Ok tt, ctx) /\
      Methods.runtime ctx = Some b /\
      st_nonce (ethereum_state b) (ety_address (keypair self)) = Ok current /\
      h = signed_hash tx /\ check_tx (tx_encode tx) = Ok decoded /\
      @execute_tx M (on_tree t) O decoded ctx = (Ok x, ctx') /\
      results self' = <[h := x]> (results self) /\ result h self' = Ok x /\
      (is_Some address <-> contract = None) /\
      cumulative_gas_used x = Api.gas_used x /\
      (0 <= Api.gas_used x <= Z.min (gas (signed_tx decoded)) BLOCK_GAS_LIMIT)%Z
  end.
Proof.
  intros H. split; [by eapply execute_batch_header, H; apply send_keeps_header|].
  apply execute_batch_Ok in H as (t & s & Ht & Hin & round' & root & t' & Hr & ->).
  apply in_batch_Ok in Hin as (ctx & s2 & Hs & Hf & _ & Hs2). rewrite Hs2. clear Hs2.
  destruct (start_batch_Ok _ _ _ _ Hs) as (b & Hb & Hg & H0 & _).
  destruct r as [e|[h address]].
  - apply catch_inl, send_in_batch_Err in Hf. cbn [set_mkvs set_header results]. by rewrite Hf.
  - apply catch_inr in Hf.
    destruct (send_in_batch_Ok _ _ _ _ _ _ _ _ _ _ _ Hb Hg H0 Hf)
      as (tx & current & decoded & x & ctx' & Htx & -> & Hn & Hd & Hx & Hc & Ha & Hu & Hle).
    pose proof (check_tx_gas _ _ Hd). exists t, ctx, b, ctx', x, current, decoded. subst tx.
    unfold result. rewrite Hc. cbn [set_mkvs set_header set_results results].
    rewrite lookup_insert_eq. destruct Hle as [Hle0 Hle].
    split_and!; try done. exact (Z.min_glb _ _ _ Hle (Z.le_trans _ _ _ Hle H)).
Qed.

(** The client's blocks form one chain: over any run from a client with
    its tree, and whatever the batches do, the round has advanced by the
    number of batches executed, the reads of the state included, the previous
    hash is hashed once for each of them, a check leaves both alone, and the
    tree is back in its place. *)
Theorem runs_chain p n self self' t :
  runs p n self self' -> mkvs self = Some t ->
  (0 <= round (header self))%Z -> (round (header self) + Z.of_nat n < u64_modulus)%Z ->
  is_Some (mkvs self') /\
  round (header self') = (round (header self) + Z.of_nat n)%Z /\
  previous_hash (header self') = Nat.iter n digest_bytes (previous_hash (header self)).
Proof.
  intros Hrun Ht H0. induction Hrun as [|n self self' ts Hrun IH|A n self self' inner f r self'' Hrun IH Hk Hc|
    A n self self' inner f r self'' Hrun IH Hk He]; intros Hn.
  - rewrite Z.add_0_r. split; [by eexists|done].
  - by destruct (IH Ht H0 Hn).
  - destruct (IH Ht H0 Hn) as (_ & Hr & Hp).
    apply check_batch_Ok in Hc as (t1 & s & _ & Hin & ->). apply in_batch_header in Hin; [|done].
    cbn [fst set_mkvs header mkvs] in *. rewrite Hin. split; [by eexists|done].
  - destruct IH as (_ & Hr & Hp); [done|done|lia|].
    apply execute_batch_Ok in He as (t1 & s & _ & Hin & round' & root & t' & Hadd & ->).
    apply in_batch_header in Hin; [|done]. cbn [fst set_mkvs header] in Hin. rewrite Hin in Hadd |- *.
    cbn [set_mkvs set_header next_header header mkvs round previous_hash].
    unfold u64_add in Hadd. rewrite (proj2 (Z.ltb_lt _ _)) in Hadd by lia. simplify_eq.
    split; [by eexists|]. rewrite Hr, Hp. split; [lia|done].
Qed.

(** C14. A confidential call is transparent: what the client seals for a
    contract is opened unchanged by a context the enclave uses for it, and
    whatever that context then answers, the client opens unchanged, with a
    context of its own made anew. *)
Theorem confidential_call_transparent km p self a keys data payload enclave :
  km (keccak a) = Ok keys ->
  ConfidentialCtx.input_pk keys = public_of (ConfidentialCtx.input_sk keys) ->
  ConfidentialCtx.input_pk (ephemeral_key self) =
    public_of (ConfidentialCtx.input_sk (ephemeral_key self)) ->
  ConfidentialCtx.contract enclave = Some (a, keys) -> (len payload < u64_modulus)%Z ->
  confidential_data km self (Some a) data = Ok payload ->
  exists enclave',
    ConfidentialCtx.decrypt_session p payload enclave =
      (Ok {| ConfidentialCtx.decrypted_data := data; ConfidentialCtx.additional_data := [] |},
       enclave') /\
    forall output answer enclave'', (len answer < u64_modulus)%Z ->
      ConfidentialCtx.encrypt_session output enclave' = (Ok answer, enclave'') ->
      exists ctx, client_confidential_ctx km self a = Ok ctx /\
        ConfidentialCtx.decrypt p ctx answer = Ok output.
Proof.
  intros Hkm Hpk Hek Hc Hlen Hdata. unfold confidential_data in Hdata.
  apply obind_Ok in Hdata as (ctx & Hctx & Hdata). pose proof Hctx as Hctx'.
  unfold client_confidential_ctx in Hctx'. rewrite Hkm in Hctx'. cbn [unwrap_ok obind] in Hctx'.
  injection Hctx' as Hctx'.
  rewrite ConfidentialCtx.encrypt_session_run in Hdata. rewrite <- Hctx' in Hdata.
  cbn [ConfidentialCtx.new_test ConfidentialCtx.peer_public_key ConfidentialCtx.contract
    ConfidentialCtx.next_nonce] in Hdata.
  destruct (WireFormat.encrypt _ _ _ _ _ _) as [pl|e|] eqn:He; [|done|done]. cbn [fst] in Hdata.
  set (zero := nonce_new (replicate nonce_size x00)) in *.
  destruct (nonce_increment zero) as [[[]|e|] n'] eqn:Hi; [|done|done]. injection Hdata as ->.
  rewrite Hpk, Hek in He.
  assert (nonce_new (nonce_value zero) = zero) as Hz.
  { unfold zero. rewrite nonce_value_new; [done|apply length_replicate]. }
  rewrite ConfidentialCtx.decrypt_session_run, Hc.
  erewrite WireFormat.decrypt_encrypted by done. cbn [WireFormat.nonce]. rewrite Hz, Hi.
  eexists. split; [reflexivity|]. intros output answer enclave'' Hal Hans.
  exists ctx. split; [done|]. rewrite ConfidentialCtx.encrypt_session_run in Hans.
  cbn [ConfidentialCtx.peer_public_key ConfidentialCtx.contract ConfidentialCtx.next_nonce
    ConfidentialCtx.set_next_nonce ConfidentialCtx.set_peer_public_key
    WireFormat.peer_public_key] in Hans. rewrite Hc in Hans.
  destruct (WireFormat.encrypt output _ _ _ _ _) as [an|e|] eqn:Ha; [|done|done].
  destruct ((nonce_increment n').1); simplify_eq. rewrite Hpk in Ha.
  unfold ConfidentialCtx.decrypt. cbn [ConfidentialCtx.new_test ConfidentialCtx.contract].
  by erewrite WireFormat.decrypt_encrypted by done.
Qed.

(** The slot a test looks a value up in does not depend on the block. *)
Theorem confidential_storage_key_stable km self self' a keys k :
  (forall id ks, km id = Ok ks -> length (ConfidentialCtx.state_key ks) = key_size) ->
  km (keccak a) = Ok keys ->
  confidential_storage_key km self' a k = confidential_storage_key km self a k /\
  is_ok (confidential_storage_key km self a k) = true.
Proof.
  intros Hkeys Hkm. unfold confidential_storage_key, key_manager_confidential_ctx.
  rewrite !ConfidentialCtx.activate_eq, Hkm by done. done.
Qed.

End lemmas.
End client.

(** ** Witnesses *)

Module Witness.
#[local] Existing Instance Model.ops.
#[local] Existing Instance Model.laws.
#[local] Existing Instance EthModel.ops.
#[local] Existing Instance EthModel.laws.
#[local] Existing Instance OasisModel.ops.

(** The state of a batch is the list of what was applied, and so is a tree;
    the root is its length. *)
#[local] Instance lib : TestLib := {|
  Tree := list bytes;
  Overlay := list bytes;
  new_tree := [];
  overlay_new := fun t => t;
  ensure_db_good := fun o => Ok o;
  state_over := fun o _ => Ok o;
  overlay_of := fun s => s;
  commit_both := fun o _ => Ok ([byte_of_Z (len o)], o);
  empty_hash := replicate 32 x00;
  hash_default := replicate 32 x00;
  Secret := unit;
  EtyKeyPair := unit;
  ety_secret := fun k => k;
  ety_address := fun _ => replicate 20 x0b;
  tx_sign := fun t _ => t;
  tx_encode := fun t =>
    take 1 (Ethcore.data t ++ [x00]) ++ [byte_of_Z (Z.min 255 (Ethcore.gas_price t))] ++
    to_le_bytes 4 (gas t);
  contract_address := fun n _ _ _ => [byte_of_Z n];
  st_nonce := fun s _ => Ok (len s);
  st_balance := fun _ _ => Ok 0%Z;
  st_storage_at := fun _ _ _ => Ok None;
  st_storage_expiry := fun _ _ => Ok 0%Z;
  OASIS_HEADER_PREFIX := str "\0enc";
  json_to_string := fun m => concat ((fun kv => Prelude.str kv.1) <$> m)
|}.

Definition client0 : Client := {|
  keypair := tt;
  ephemeral_key := ConfidentialCtx.Witness.keys_b;
  gas_price := 1000000000;
  gas_limit := 1000000;
  mkvs := Some [];
  header := {|
    round := 0;
    previous_hash := replicate 32 x00;
    header_timestamp := 0xcafedeadbeefc0de;
    state_root := [x00];
    io_root := replicate 32 x00
  |};
  results := ∅
|}.

Example client0_new : new tt ConfidentialCtx.Witness.keys_b = Ok client0.
Proof. reflexivity. Qed.

Definition inner0 : Inner := [].

(** A transaction that is executed, and one whose execution fails. *)
Definition sent (data : bytes) (self : Client) :=
  send Release inner0 (Some (replicate 20 x05)) data 0 None self.
Definition client1 : Client := (sent [x01] client0).2.
Definition client2 : Client := (sent [xfe] client1).2.

Lemma sent_is (data : bytes) self r :
  (sent data self).1 = Ok r -> sent data self = (Ok r, (sent data self).2).
Proof. by destruct (sent data self) as [? ?]; cbn; intros ->. Qed.

Lemma send_outcome_witness :
  (exists x, result [x01] client1 = Ok x /\ cumulative_gas_used x = Api.gas_used x /\
     exists ctx decoded ctx', @execute_tx _ (on_tree []) _ decoded ctx = (Ok x, ctx')) /\
  results client2 = results client1 /\ is_Some (mkvs client2).
Proof.
  destruct (send_outcome Release inner0 (Some (replicate 20 x05)) [x01] 0 None client0
    (inr ([x01], None)) client1) as (_ & t & ctx & b & ctx' & x & current & decoded &
    Ht & _ & _ & _ & _ & _ & Hrun & _ & Hx & _ & Hu & _).
  { apply (sent_is [x01] client0). vm_compute. reflexivity. }
  destruct (send_outcome Release inner0 (Some (replicate 20 x05)) [xfe] 0 None client1
    (inl "execution failed: invalid nonce"%string) client2) as ((round' & root & t' & _ & _ & Hm) & Hr).
  { apply (sent_is [xfe] client1). vm_compute. reflexivity. }
  injection Ht as <-. split.
  { exists x. split; [exact Hx|]. split; [exact Hu|]. exists ctx, decoded, ctx'. exact Hrun. }
  split; [exact Hr|exists t'; exact Hm].
Defined.

Lemma client2_runs : runs Release 2 client0 client2.
Proof.
  eapply runs_execute; [|apply send_keeps_header|apply (sent_is [xfe] client1); vm_compute; reflexivity].
  eapply runs_execute; [|apply send_keeps_header|apply (sent_is [x01] client0); vm_compute; reflexivity].
  apply runs_none.
Qed.

Lemma runs_chain_witness :
  round (header client2) = 2%Z /\
  previous_hash (header client2) = digest_bytes (digest_bytes (replicate 32 x00)).
Proof.
  destruct (runs_chain Release 2 client0 client2 [] client2_runs) as (_ & Hr & Hp).
  - reflexivity.
  - vm_compute. discriminate.
  - reflexivity.
  - split; [exact Hr|exact Hp].
Defined.

Definition enclave : ConfidentialCtx.ConfidentialCtx := ConfidentialCtx.Witness.ctx1.
Definition address_a : Address := ConfidentialCtx.Witness.address_a.
Definition payload : bytes :=
  from_ok [] (confidential_data ConfidentialCtx.Witness.key_manager client0 (Some address_a) (str "hi")).
Definition enclave1 : ConfidentialCtx.ConfidentialCtx :=
  (ConfidentialCtx.decrypt_session Release payload enclave).2.
Definition answer : bytes := from_ok [] (ConfidentialCtx.encrypt_session (str "hello") enclave1).1.

Lemma payload_sealed :
  confidential_data ConfidentialCtx.Witness.key_manager client0 (Some address_a) (str "hi") = Ok payload.
Proof. vm_compute. reflexivity. Qed.

Lemma confidential_call_transparent_witness :
  exists ctx, client_confidential_ctx ConfidentialCtx.Witness.key_manager client0 address_a = Ok ctx /\
    ConfidentialCtx.decrypt Release ctx answer = Ok (str "hello").
Proof.
  destruct (confidential_call_transparent ConfidentialCtx.Witness.key_manager Release client0 address_a
    ConfidentialCtx.Witness.keys_a (str "hi") payload enclave) as (e1 & He1 & Hans).
  - reflexivity.
  - reflexivity.
  - reflexivity.
  - exact (ConfidentialCtx.Witness.ctx_contract ConfidentialCtx.Witness.prev_hash).
  - vm_compute. reflexivity.
  - exact payload_sealed.
  - apply (Hans (str "hello") answer (ConfidentialCtx.encrypt_session (str "hello") e1).2).
    + vm_compute. reflexivity.
    + assert (e1 = enclave1) as -> by (unfold enclave1; by rewrite He1).
      apply stateful_is_ok. vm_compute. reflexivity.
Defined.

(** The wrappers of the tests: a creation, a call and a read. *)
Example creates : (create_contract Release inner0 [x02] 0 client0).1 = Ok ([x02], [x00]).
Proof. vm_compute. reflexivity. Qed.

Example calls : (call Release inner0 address_a [x03] 0 client0).1 = Ok [x03].
Proof. vm_compute. reflexivity. Qed.

Example read_advances :
  let '(r, self) := nonce Release inner0 address_a client1 in (r, round (header self)) = (Ok 1, 2)%Z.
Proof. vm_compute. reflexivity. Qed.

End Witness.
